(** * BLUR: redaction rule engine, structural cleaner and helpers

    A shallow embedding of [blur_app/core/rules.py], [utils.py],
    [cleaner_docx.py], [processor_docx.py] and the loader of
    [playbooks.py], followed by the properties proved about them.

    Conventions.
    - A Python [str] is a [string]: every character is a code point below
      256.  Case folding, [\d], [\w], [\s] and [str.strip] are therefore
      the restrictions of Python's Unicode behaviour to that range.
    - A Python [int] is a [Z]; lengths and positions are [nat].
    - A Python [dict] is an association list in insertion order whose keys
      are pairwise distinct ([Dict]).
    - A raised exception is [None] in the option monad; the loader, which
      raises exceptions of several classes, returns [Py.Ok] or [Py.Raise]. *)

From Stdlib Require Import String Ascii List Arith ZArith Lia Bool DecimalString
  Sorted.
Import ListNotations.
Open Scope string_scope.
Open Scope nat_scope.

Notation "x <- e ;; k" :=
  (match e with Some x => k | None => None end)
  (at level 61, e at next level, right associativity).
Notation "' p <- e ;; k" :=
  (match e with Some p => k | None => None end)
  (at level 61, p pattern, e at next level, right associativity).

(** A loop over a list whose body may raise. *)
Fixpoint fold_option {A B} (f : A -> B -> option A) (l : list B) (a : A)
    : option A :=
  match l with
  | [] => Some a
  | x :: rest => a' <- f a x ;; fold_option f rest a'
  end.

(** ** Python [str] operations *)

Module PyStr.

Fixpoint drop (n : nat) (s : string) : string :=
  match n, s with
  | S k, String _ r => drop k r
  | _, _ => s
  end.

Fixpoint take (n : nat) (s : string) : string :=
  match n, s with
  | S k, String c r => String c (take k r)
  | _, _ => ""
  end.

(** [s[b:e]] for non-negative bounds. *)
Definition slice (b e : nat) (s : string) : string := take (e - b) (drop b s).

(** [s[:n]] for any integer [n]: a negative bound counts from the end. *)
Definition slice_to (n : Z) (s : string) : string :=
  if (n <? 0)%Z
  then take (String.length s - Z.to_nat (- n)) s
  else take (Z.to_nat n) s.

Fixpoint repeat_str (s : string) (n : nat) : string :=
  match n with
  | 0 => ""
  | S k => s ++ repeat_str s k
  end.

(** [bool(s)] of an optional string, and [a or b]. *)
Definition truthy (o : option string) : bool :=
  match o with
  | Some (String _ _) => true
  | _ => false
  end.

Definition or_else (o : option string) (d : string) : string :=
  match o with
  | Some (String c r) => String c r
  | _ => d
  end.

Definition is_upper_ascii (c : ascii) : bool :=
  let n := nat_of_ascii c in
  ((65 <=? n) && (n <=? 90)) || ((192 <=? n) && (n <=? 222) && negb (n =? 215)).

Definition is_lower_ascii (c : ascii) : bool :=
  let n := nat_of_ascii c in
  ((97 <=? n) && (n <=? 122)) || ((224 <=? n) && (n <=? 254) && negb (n =? 247)).

(** [str.lower] and [str.upper] on one character below 256 whose case
    partner is below 256 too. *)
Definition lower (c : ascii) : ascii :=
  if is_upper_ascii c then ascii_of_nat (nat_of_ascii c + 32) else c.

Definition upper (c : ascii) : ascii :=
  if is_lower_ascii c then ascii_of_nat (nat_of_ascii c - 32) else c.

(** Character comparison under [re.IGNORECASE] ([ci = true]) or exact. *)
Definition char_eq (ci : bool) (a b : ascii) : bool :=
  if ci then Ascii.eqb (lower a) (lower b) else Ascii.eqb a b.

(** [s.startswith(p)], with the comparison of [char_eq]. *)
Fixpoint starts_with_by (ci : bool) (p s : string) : bool :=
  match p, s with
  | "", _ => true
  | String a p', String b s' => char_eq ci a b && starts_with_by ci p' s'
  | String _ _, "" => false
  end.

Definition startswith (s p : string) : bool := starts_with_by false p s.

Definition endswith (s p : string) : bool :=
  (String.length p <=? String.length s)
  && String.eqb (drop (String.length s - String.length p) s) p.

(** [str.isspace] on one character. *)
Definition isspace (c : ascii) : bool :=
  let n := nat_of_ascii c in
  ((9 <=? n) && (n <=? 13)) || ((28 <=? n) && (n <=? 32))
  || (n =? 133) || (n =? 160).

Fixpoint lstrip (s : string) : string :=
  match s with
  | String c r => if isspace c then lstrip r else s
  | "" => ""
  end.

(** Drops trailing whitespace: a character is kept when something that is
    kept follows it or when it is not whitespace. *)
Fixpoint rstrip (s : string) : string :=
  match s with
  | "" => ""
  | String c r =>
      match rstrip r with
      | "" => if isspace c then "" else String c ""
      | r' => String c r'
      end
  end.

Definition strip (s : string) : string := rstrip (lstrip s).

(** [s.replace(old, new)] for a non-empty [old]: leftmost occurrences,
    not overlapping.  [skip] counts the characters of the occurrence just
    replaced that are still to be passed over. *)
Fixpoint replace_go (old new s : string) (skip : nat) : string :=
  match s with
  | "" => ""
  | String c r =>
      match skip with
      | S k => replace_go old new r k
      | 0 =>
          if starts_with_by false old s
          then new ++ replace_go old new r (String.length old - 1)
          else String c (replace_go old new r 0)
      end
  end.

(** [s.replace("", new)] puts [new] before every character and at the
    end. *)
Fixpoint interleave (new s : string) : string :=
  match s with
  | "" => new
  | String c r => new ++ String c (interleave new r)
  end.

Definition replace (s old new : string) : string :=
  match old with
  | "" => interleave new s
  | _ => replace_go old new s 0
  end.

(** [str(n)] for a non-negative integer. *)
Definition of_nat (n : nat) : string := NilEmpty.string_of_uint (Nat.to_uint n).

(** The limit of [sys.get_int_max_str_digits()], at its default. *)
Definition max_str_digits : nat := 4300.

Definition is_decimal (c : ascii) : bool :=
  let n := nat_of_ascii c in (48 <=? n) && (n <=? 57).

(** The digits of an integer literal given to [int]: single
    underscores may stand between digits.  [after_digit] tells that the
    character before was a digit. *)
Fixpoint read_int (s : string) (acc : Z) (count : nat) (after_digit : bool)
    : option (Z * nat) :=
  match s with
  | "" => if after_digit then Some (acc, count) else None
  | String c r =>
      if is_decimal c
      then read_int r (10 * acc + Z.of_nat (nat_of_ascii c - 48))%Z (S count) true
      else if Ascii.eqb c "_" && after_digit then read_int r acc count false
      else None
  end.

(** The whitespace [int] skips around the literal: the ASCII
    whitespace of C and the other Unicode spaces, which leaves out the
    four separators 0x1C to 0x1F that [str.strip] removes. *)
Definition int_space (c : ascii) : bool :=
  let n := nat_of_ascii c in
  ((9 <=? n) && (n <=? 13)) || (n =? 32) || (n =? 133) || (n =? 160).

Fixpoint lstrip_int (s : string) : string :=
  match s with
  | String c r => if int_space c then lstrip_int r else s
  | "" => ""
  end.

Fixpoint rstrip_int (s : string) : string :=
  match s with
  | "" => ""
  | String c r =>
      match rstrip_int r with
      | "" => if int_space c then "" else String c ""
      | r' => String c r'
      end
  end.

(** [int(s)] for a string; [None] is [ValueError]. *)
Definition parse_int (s : string) : option Z :=
  let body := rstrip_int (lstrip_int s) in
  let '(negative, digits) :=
    match body with
    | String "-"%char r => (true, r)
    | String "+"%char r => (false, r)
    | _ => (false, body)
    end in
  match read_int digits 0 0 false with
  | Some (z, count) =>
      if max_str_digits <? count then None
      else Some (if negative then (- z)%Z else z)
  | None => None
  end.

End PyStr.

(** ** Python [dict] with string keys, in insertion order *)

Module Dict.

Definition t (V : Type) : Type := list (string * V).

Fixpoint get {V} (d : t V) (k : string) : option V :=
  match d with
  | [] => None
  | (k', v) :: r => if String.eqb k' k then Some v else get r k
  end.

(** [d.get(k, dflt)] *)
Definition get_default {V} (d : t V) (k : string) (dflt : V) : V :=
  match get d k with
  | Some v => v
  | None => dflt
  end.

(** [d[k] = v]: an existing key keeps its place, a new key goes last. *)
Fixpoint set {V} (d : t V) (k : string) (v : V) : t V :=
  match d with
  | [] => [(k, v)]
  | (k', v') :: r =>
      if String.eqb k' k then (k', v) :: r else (k', v') :: set r k v
  end.

(** [k in d] *)
Definition contains {V} (d : t V) (k : string) : bool :=
  match get d k with
  | Some _ => true
  | None => false
  end.

(** [d.pop(k, None)], the popped value dropped. *)
Definition pop {V} (d : t V) (k : string) : t V :=
  filter (fun e => negb (String.eqb (fst e) k)) d.

Definition keys {V} (d : t V) : list string := map fst d.

Definition values {V} (d : t V) : list V := map snd d.

(** The keys of a dict are pairwise distinct. *)
Definition wf {V} (d : t V) : Prop := NoDup (keys d).

End Dict.

(** ** The [re] module

    A compiled pattern is identified with its [finditer]: the function from
    a text to the spans [(start, end)] of its matches, leftmost first and
    not overlapping.  [sub] rebuilds the text around the same spans, as
    [re.sub] does. *)

Module Re.

Definition span : Type := nat * nat.

Definition compiled : Type := string -> list span.

Definition finditer (c : compiled) (text : string) : list span := c text.

(** The text rebuilt from position [pos] on, every span replaced by what
    [repl] returns for the matched text ([m.group(0)]); [repl] is called
    once per match, in order, and an exception in it ends the call. *)
Fixpoint sub_from (repl : string -> option string) (text : string)
    (pos : nat) (spans : list span) : option string :=
  match spans with
  | [] => Some (PyStr.drop pos text)
  | (b, e) :: rest =>
      r <- repl (PyStr.slice b e text) ;;
      tl <- sub_from repl text e rest ;;
      Some (PyStr.slice pos b text ++ r ++ tl)%string
  end.

(** [c.sub(repl, text)] for a callable [repl]. *)
Definition sub (c : compiled) (repl : string -> option string)
    (text : string) : option string :=
  sub_from repl text 0 (c text).

(** A matcher tries the pattern at the head of a suffix of the text and
    returns the length of the match.  With [must_advance] an empty match
    is refused, which is how the scan goes on after an empty match. *)
Definition matcher : Type := string -> bool -> option nat.

(** The scan of [finditer] and [sub].  [skip] counts the characters of
    the last match still to be passed over.  After an empty match at a
    position the pattern is tried there once more for a non-empty match. *)
Fixpoint scan (m : matcher) (s : string) (pos skip : nat) : list span :=
  match skip, s with
  | S k, String _ r => scan m r (S pos) k
  | S _, "" => []
  | 0, _ =>
      let next (n : nat) : list span :=
        match s with
        | String _ r => scan m r (S pos) n
        | "" => []
        end in
      match m s false with
      | Some (S n) => (pos, pos + S n) :: next n
      | Some 0 =>
          (pos, pos) ::
          match m s true with
          | Some (S n) => (pos, pos + S n) :: next n
          | _ => next 0
          end
      | None => next 0
      end
  end.

Definition of_matcher (m : matcher) : compiled := fun text => scan m text 0 0.

(** [re.compile(re.escape(target), flags)]: the literal [target]. *)
Definition match_literal (ci : bool) (target : string) : matcher :=
  fun s must_advance =>
    if PyStr.starts_with_by ci target s
    then match String.length target with
         | 0 => if must_advance then None else Some 0
         | n => Some n
         end
    else None.

Definition literal (ci : bool) (target : string) : compiled :=
  of_matcher (match_literal ci target).

(** [re.compile("|".join(re.escape(k) for k in keywords), flags)]: the
    first keyword, in list order, that matches at the position. *)
Fixpoint match_alternation (ci : bool) (keywords : list string) : matcher :=
  fun s must_advance =>
    match keywords with
    | [] => None
    | k :: rest =>
        match match_literal ci k s must_advance with
        | Some n => Some n
        | None => match_alternation ci rest s must_advance
        end
    end.

Definition alternation (ci : bool) (keywords : list string) : compiled :=
  of_matcher (match_alternation ci keywords).

(** [template] of [c.sub(template, text)] expanded for one match of a
    pattern without groups, as [re] parses a replacement string: the
    escapes of [template_escape], octal escapes, and [\g<n>] with a
    number [n] that [int] reads as 0, which is the matched text (every
    spelling [int] accepts, as up to Python 3.11).  A backslash before
    another character that is not an ASCII letter stays with its
    character.  [None] is [re.error] or [IndexError]: a backslash at
    the end, an unknown letter, a reference to a group other than 0. *)
Definition template_escape (c : ascii) : option ascii :=
  match c with
  | "a"%char => Some "007"%char
  | "b"%char => Some "008"%char
  | "f"%char => Some "012"%char
  | "n"%char => Some "010"%char
  | "r"%char => Some "013"%char
  | "t"%char => Some "009"%char
  | "v"%char => Some "011"%char
  | "\"%char => Some "\"%char
  | _ => None
  end.

Definition is_ascii_letter (c : ascii) : bool :=
  let n := nat_of_ascii c in
  ((65 <=? n) && (n <=? 90)) || ((97 <=? n) && (n <=? 122)).

Definition is_octal (c : ascii) : bool :=
  let n := nat_of_ascii c in (48 <=? n) && (n <=? 55).

Definition digit_value (c : ascii) : nat := nat_of_ascii c - 48.

(** The characters before the first [>], if there is one. *)
Fixpoint until_gt (s : string) : option string :=
  match s with
  | "" => None
  | String c r =>
      if Ascii.eqb c ">" then Some ""
      else name <- until_gt r ;; Some (String c name)
  end.

(** The escape that starts after a backslash, [tl] being what follows
    the backslash: the text it stands for, [None] standing for the
    matched text, and the number of characters of [tl] it takes. *)
Definition escape_at (tl : string) : option (option string * nat) :=
  match tl with
  | "" => None
  | String e r =>
      if Ascii.eqb e "g" then
        match r with
        | String "<"%char r1 =>
            name <- until_gt r1 ;;
            match PyStr.parse_int name with
            | Some 0%Z => Some (None, 3 + String.length name)
            | _ => None
            end
        | _ => None
        end
      else if Ascii.eqb e "0" then
        match r with
        | String d1 r' =>
            if is_octal d1 then
              match r' with
              | String d2 _ =>
                  if is_octal d2
                  then Some (Some (String (ascii_of_nat
                                       (8 * digit_value d1 + digit_value d2)) ""),
                             3)
                  else Some (Some (String (ascii_of_nat (digit_value d1)) ""), 2)
              | "" => Some (Some (String (ascii_of_nat (digit_value d1)) ""), 2)
              end
            else Some (Some (String zero ""), 1)
        | "" => Some (Some (String zero ""), 1)
        end
      else if PyStr.is_decimal e then
        match r with
        | String d1 (String d2 _) =>
            if is_octal e && is_octal d1 && is_octal d2 then
              let v := 64 * digit_value e + 8 * digit_value d1 + digit_value d2 in
              if 255 <? v then None
              else Some (Some (String (ascii_of_nat v) ""), 3)
            else None
        | _ => None
        end
      else
        match template_escape e with
        | Some x => Some (Some (String x ""), 1)
        | None =>
            if is_ascii_letter e then None
            else Some (Some (String "\" (String e "")), 1)
        end
  end.

(** [skip] counts the characters of the escape just read that are
    still to be passed over. *)
Fixpoint expand_go (template matched : string) (skip : nat) : option string :=
  match template with
  | "" => Some ""
  | String c tl =>
      match skip with
      | S k => expand_go tl matched k
      | 0 =>
          if Ascii.eqb c "\" then
            '(x, n) <- escape_at tl ;;
            r' <- expand_go tl matched n ;;
            Some (match x with Some literal => literal | None => matched end
                  ++ r')%string
          else r' <- expand_go tl matched 0 ;; Some (String c r')
      end
  end.

Definition expand_template (template matched : string) : option string :=
  expand_go template matched 0.

(** [c.sub(template, text)] for a string [template]: the template is
    parsed before the text is scanned, so a template that cannot be
    parsed raises also when nothing matches. *)
Definition sub_template (c : compiled) (template text : string) : option string :=
  _ <- expand_template template "" ;;
  sub c (expand_template template) text.

End Re.

(** ** A regular-expression engine for a fragment of Python's syntax

    Literals, [.], the classes [\d \D \w \W \s \S], bracket sets with
    ranges and negation, groups, alternation and the greedy quantifiers
    [* + ? {n} {n,} {n,m}], matched by backtracking in Python's order of
    preference.  [compile] returns [None] for a pattern that raises
    [re.error] and for one outside the fragment (anchors, look-around,
    back-references, lazy quantifiers). *)

Module Regex.

Inductive item : Type :=
| IChar (c : ascii)
| IRange (lo hi : ascii)
| IDigit (negated : bool)
| IWord (negated : bool)
| ISpace (negated : bool).

Inductive regex : Type :=
| Eps
| Dot
| Set_ (negated : bool) (items : list item)
| Seq (a b : regex)
| Alt (a b : regex)
| Star (a : regex).

Definition in_range (lo hi c : ascii) : bool :=
  (nat_of_ascii lo <=? nat_of_ascii c) && (nat_of_ascii c <=? nat_of_ascii hi).

Definition is_digit (c : ascii) : bool := in_range "0" "9" c.

(** [str.isalnum] or an underscore, below 256. *)
Definition is_word (c : ascii) : bool :=
  let n := nat_of_ascii c in
  is_digit c || in_range "a" "z" c || in_range "A" "Z" c || (n =? 95)
  || (n =? 170) || (n =? 178) || (n =? 179) || (n =? 181) || (n =? 185)
  || (n =? 186) || ((188 <=? n) && (n <=? 190))
  || ((192 <=? n) && (n <=? 255) && negb (n =? 215) && negb (n =? 247)).

Definition item_matches (ci : bool) (i : item) (c : ascii) : bool :=
  match i with
  | IChar x => PyStr.char_eq ci x c
  | IRange lo hi =>
      in_range lo hi c
      || (ci && (in_range lo hi (PyStr.lower c) || in_range lo hi (PyStr.upper c)))
  | IDigit neg => xorb neg (is_digit c)
  | IWord neg => xorb neg (is_word c)
  | ISpace neg => xorb neg (PyStr.isspace c)
  end.

Definition set_matches (ci negated : bool) (items : list item) (c : ascii) : bool :=
  xorb negated (existsb (fun i => item_matches ci i c) items).

(** The iterations of a greedy star whose body is [step], at most [fuel]
    of them: another iteration is tried first, and [k] on the text
    reached so far when none succeeds.  After an iteration that consumes
    nothing the star is not repeated: what follows it is tried at
    once. *)
Fixpoint star_loop (step : string -> (string -> option nat) -> option nat)
    (k : string -> option nat) (fuel : nat) (s : string) : option nat :=
  match fuel with
  | 0 => k s
  | S f =>
      match step s (fun rest =>
                      if String.length rest <? String.length s
                      then star_loop step k f rest else k rest) with
      | Some n => Some n
      | None => k s
      end
  end.

(** [rmatch ci r s k]: match [r] at the head of [s] and hand the rest to
    the continuation [k]; alternatives are tried in order until [k]
    accepts. *)
Fixpoint rmatch (ci : bool) (r : regex) (s : string)
    (k : string -> option nat) {struct r} : option nat :=
  match r with
  | Eps => k s
  | Dot =>
      match s with
      | String c rest => if Ascii.eqb c "010" then None else k rest
      | "" => None
      end
  | Set_ neg items =>
      match s with
      | String c rest => if set_matches ci neg items c then k rest else None
      | "" => None
      end
  | Seq a b => rmatch ci a s (fun rest => rmatch ci b rest k)
  | Alt a b =>
      match rmatch ci a s k with
      | Some n => Some n
      | None => rmatch ci b s k
      end
  | Star a => star_loop (rmatch ci a) k (String.length s) s
  end.

Definition to_matcher (ci : bool) (r : regex) : Re.matcher :=
  fun s must_advance =>
    rmatch ci r s
      (fun rest =>
         let n := String.length s - String.length rest in
         if must_advance && (n =? 0) then None else Some n).

(** *** Parsing *)

Fixpoint rep_exact (n : nat) (r : regex) : regex :=
  match n with
  | 0 => Eps
  | S k => Seq r (rep_exact k r)
  end.

Fixpoint rep_upto (n : nat) (r : regex) : regex :=
  match n with
  | 0 => Eps
  | S k => Alt (Seq r (rep_upto k r)) Eps
  end.

Definition digit_value (c : ascii) : option nat :=
  if is_digit c then Some (nat_of_ascii c - 48) else None.

Fixpoint read_digits (s : string) (acc : nat) : nat * string :=
  match s with
  | String c r =>
      match digit_value c with
      | Some d => read_digits r (10 * acc + d)
      | None => (acc, s)
      end
  | "" => (acc, s)
  end.

Definition starts_with_digit (s : string) : bool :=
  match s with
  | String c _ => is_digit c
  | "" => false
  end.

(** The escape [\c] as a set item; [in_set] tells whether it stands
    inside brackets, where [\b] is a backspace. *)
Definition escape_item (in_set : bool) (c : ascii) : option item :=
  match c with
  | "d"%char => Some (IDigit false)
  | "D"%char => Some (IDigit true)
  | "w"%char => Some (IWord false)
  | "W"%char => Some (IWord true)
  | "s"%char => Some (ISpace false)
  | "S"%char => Some (ISpace true)
  | "n"%char => Some (IChar "010")
  | "t"%char => Some (IChar "009")
  | "r"%char => Some (IChar "013")
  | "f"%char => Some (IChar "012")
  | "v"%char => Some (IChar "011")
  | "a"%char => Some (IChar "007")
  | "b"%char => if in_set then Some (IChar "008") else None
  | _ => if is_word c && negb (Ascii.eqb c "_") then None else Some (IChar c)
  end.

(** The items of a bracket set up to its closing bracket. *)
Fixpoint parse_set (s : string) (acc : list item) (first : bool)
    : option (list item * string) :=
  match s with
  | "" => None
  | String c tl =>
      if Ascii.eqb c "]" && negb first then Some (acc, tl)
      else if Ascii.eqb c "\" then
        match tl with
        | String e r =>
            i <- escape_item true e ;;
            match r with
            | String "-"%char (String hi _) =>
                if Ascii.eqb hi "]" then parse_set r (acc ++ [i]) false else None
            | _ => parse_set r (acc ++ [i]) false
            end
        | "" => None
        end
      else
        match tl with
        | String "-"%char (String hi r) =>
            if Ascii.eqb hi "]" then parse_set tl (acc ++ [IChar c]) false
            else if Ascii.eqb hi "\" then None
            else if nat_of_ascii c <=? nat_of_ascii hi
                 then parse_set r (acc ++ [IRange c hi]) false
                 else None
        | _ => parse_set tl (acc ++ [IChar c]) false
        end
  end.

(** A quantifier after the atom [r], if there is one. *)
Definition parse_quantifier (r : regex) (s : string) : option (regex * string) :=
  let no_second (q : regex) (rest : string) : option (regex * string) :=
    match rest with
    | String c _ =>
        if Ascii.eqb c "*" || Ascii.eqb c "+" || Ascii.eqb c "?" || Ascii.eqb c "{"
        then None else Some (q, rest)
    | "" => Some (q, rest)
    end in
  match s with
  | String "*"%char rest => no_second (Star r) rest
  | String "+"%char rest => no_second (Seq r (Star r)) rest
  | String "?"%char rest => no_second (Alt r Eps) rest
  | String "{"%char rest =>
      let '(lo, rest1) := read_digits rest 0 in
      let has_lo := starts_with_digit rest in
      match rest1 with
      | String "}"%char rest2 =>
          if has_lo then no_second (rep_exact lo r) rest2 else None
      | String ","%char rest2 =>
          let '(hi, rest3) := read_digits rest2 0 in
          let has_hi := starts_with_digit rest2 in
          match rest3 with
          | String "}"%char rest4 =>
              if has_hi
              then if lo <=? hi
                   then no_second (Seq (rep_exact lo r) (rep_upto (hi - lo) r)) rest4
                   else None
              else no_second (Seq (rep_exact lo r) (Star r)) rest4
          | _ => None
          end
      | _ => None
      end
  | _ => Some (r, s)
  end.

Fixpoint parse_alt (fuel : nat) (s : string) : option (regex * string) :=
  match fuel with
  | 0 => None
  | S f =>
      '(a, rest) <- parse_seq f s ;;
      match rest with
      | String "|"%char rest' =>
          '(b, rest'') <- parse_alt f rest' ;; Some (Alt a b, rest'')
      | _ => Some (a, rest)
      end
  end
with parse_seq (fuel : nat) (s : string) : option (regex * string) :=
  match fuel with
  | 0 => None
  | S f =>
      match s with
      | "" => Some (Eps, s)
      | String c _ =>
          if Ascii.eqb c "|" || Ascii.eqb c ")" then Some (Eps, s)
          else
            '(a, rest) <- parse_atom f s ;;
            '(q, rest') <- parse_quantifier a rest ;;
            '(b, rest'') <- parse_seq f rest' ;;
            Some (match b with Eps => q | _ => Seq q b end, rest'')
      end
  end
with parse_atom (fuel : nat) (s : string) : option (regex * string) :=
  match fuel with
  | 0 => None
  | S f =>
      match s with
      | "" => None
      | String c tl =>
          match c with
          | "("%char =>
              let body :=
                match tl with
                | String "?"%char (String ":"%char r) => Some r
                | String "?"%char _ => None
                | _ => Some tl
                end in
              b <- body ;;
              '(r, rest) <- parse_alt f b ;;
              match rest with
              | String ")"%char rest' => Some (r, rest')
              | _ => None
              end
          | "["%char =>
              let '(neg, b) :=
                match tl with
                | String "^"%char r => (true, r)
                | _ => (false, tl)
                end in
              '(items, rest) <- parse_set b [] true ;;
              Some (Set_ neg items, rest)
          | "."%char => Some (Dot, tl)
          | "\"%char =>
              match tl with
              | String e r => i <- escape_item false e ;; Some (Set_ false [i], r)
              | "" => None
              end
          | "*"%char | "+"%char | "?"%char | "^"%char | "$"%char => None
          | _ => Some (Set_ false [IChar c], tl)
          end
      end
  end.

Definition parse (pattern : string) : option regex :=
  '(r, rest) <- parse_alt (4 * String.length pattern + 4) pattern ;;
  match rest with
  | "" => Some r
  | _ => None
  end.

(** [re.compile(pattern, re.IGNORECASE if ci else 0)] *)
Definition compile (pattern : string) (ci : bool) : option Re.compiled :=
  r <- parse pattern ;; Some (Re.of_matcher (to_matcher ci r)).

End Regex.

(** ** [playbooks.py]: the policy model *)

Module Playbooks.

(** One entry of [Rule.patterns]: [entry.get("pattern")] and the
    truth value of [entry.get("case_insensitive")]. *)
Record PatternEntry : Type := {
  pattern : option string;
  entry_case_insensitive : bool
}.

Record Rule : Type := {
  rule_id : string;
  name : string;
  rule_type : string;
  enabled : bool;
  priority : Z;
  action : string;
  replacement_template : option string;
  scope : list string;
  patterns : list PatternEntry;
  phrases : list string;
  dictionary : Dict.t string;
  keywords : list string;
  case_insensitive : bool
}.

Record Playbook : Type := {
  playbook_name : string;
  version : string;
  redaction_mode : string;
  mask_char : string;
  rules : list Rule;
  description : option string;
  updated_at : option string;
  updated_by : option string
}.

(** [Rule(rule_id, name, rule_type)] with the defaults of the dataclass. *)
Definition new_rule (rule_id name rule_type : string) : Rule :=
  {| rule_id := rule_id; name := name; rule_type := rule_type;
     enabled := true; priority := 100; action := "MASK";
     replacement_template := None; scope := []; patterns := [];
     phrases := []; dictionary := []; keywords := [];
     case_insensitive := false |}.

(** [Playbook(name, version)] with the defaults of the dataclass. *)
Definition new_playbook (name version : string) : Playbook :=
  {| playbook_name := name; version := version;
     redaction_mode := "FIXED_TOKEN"; mask_char := "*"; rules := [];
     description := None; updated_at := None; updated_by := None |}.

(** Copies of a rule or playbook with one field replaced. *)
Definition with_enabled (v : bool) (r : Rule) : Rule :=
  {| rule_id := rule_id r; name := name r; rule_type := rule_type r;
     enabled := v; priority := priority r; action := action r;
     replacement_template := replacement_template r; scope := scope r;
     patterns := patterns r; phrases := phrases r; dictionary := dictionary
     r; keywords := keywords r; case_insensitive := case_insensitive r |}.

Definition with_priority (v : Z) (r : Rule) : Rule :=
  {| rule_id := rule_id r; name := name r; rule_type := rule_type r;
     enabled := enabled r; priority := v; action := action r;
     replacement_template := replacement_template r; scope := scope r;
     patterns := patterns r; phrases := phrases r; dictionary := dictionary
     r; keywords := keywords r; case_insensitive := case_insensitive r |}.

Definition with_action (v : string) (r : Rule) : Rule :=
  {| rule_id := rule_id r; name := name r; rule_type := rule_type r;
     enabled := enabled r; priority := priority r; action := v;
     replacement_template := replacement_template r; scope := scope r;
     patterns := patterns r; phrases := phrases r; dictionary := dictionary
     r; keywords := keywords r; case_insensitive := case_insensitive r |}.

Definition with_replacement_template (v : option string) (r : Rule) : Rule :=
  {| rule_id := rule_id r; name := name r; rule_type := rule_type r;
     enabled := enabled r; priority := priority r; action := action r;
     replacement_template := v; scope := scope r; patterns := patterns r;
     phrases := phrases r; dictionary := dictionary r; keywords := keywords
     r; case_insensitive := case_insensitive r |}.

Definition with_patterns (v : list PatternEntry) (r : Rule) : Rule :=
  {| rule_id := rule_id r; name := name r; rule_type := rule_type r;
     enabled := enabled r; priority := priority r; action := action r;
     replacement_template := replacement_template r; scope := scope r;
     patterns := v; phrases := phrases r; dictionary := dictionary r;
     keywords := keywords r; case_insensitive := case_insensitive r |}.

Definition with_phrases (v : list string) (r : Rule) : Rule :=
  {| rule_id := rule_id r; name := name r; rule_type := rule_type r;
     enabled := enabled r; priority := priority r; action := action r;
     replacement_template := replacement_template r; scope := scope r;
     patterns := patterns r; phrases := v; dictionary := dictionary r;
     keywords := keywords r; case_insensitive := case_insensitive r |}.

Definition with_dictionary (v : Dict.t string) (r : Rule) : Rule :=
  {| rule_id := rule_id r; name := name r; rule_type := rule_type r;
     enabled := enabled r; priority := priority r; action := action r;
     replacement_template := replacement_template r; scope := scope r;
     patterns := patterns r; phrases := phrases r; dictionary := v;
     keywords := keywords r; case_insensitive := case_insensitive r |}.

Definition with_keywords (v : list string) (r : Rule) : Rule :=
  {| rule_id := rule_id r; name := name r; rule_type := rule_type r;
     enabled := enabled r; priority := priority r; action := action r;
     replacement_template := replacement_template r; scope := scope r;
     patterns := patterns r; phrases := phrases r; dictionary := dictionary
     r; keywords := v; case_insensitive := case_insensitive r |}.

Definition with_case_insensitive (v : bool) (r : Rule) : Rule :=
  {| rule_id := rule_id r; name := name r; rule_type := rule_type r;
     enabled := enabled r; priority := priority r; action := action r;
     replacement_template := replacement_template r; scope := scope r;
     patterns := patterns r; phrases := phrases r; dictionary := dictionary
     r; keywords := keywords r; case_insensitive := v |}.

Definition with_redaction_mode (v : string) (p : Playbook) : Playbook :=
  {| playbook_name := playbook_name p; version := version p; redaction_mode
     := v; mask_char := mask_char p; rules := rules p; description :=
     description p; updated_at := updated_at p; updated_by := updated_by p |}.

Definition with_mask_char (v : string) (p : Playbook) : Playbook :=
  {| playbook_name := playbook_name p; version := version p; redaction_mode
     := redaction_mode p; mask_char := v; rules := rules p; description :=
     description p; updated_at := updated_at p; updated_by := updated_by p |}.

Definition with_rules (v : list Rule) (p : Playbook) : Playbook :=
  {| playbook_name := playbook_name p; version := version p; redaction_mode
     := redaction_mode p; mask_char := mask_char p; rules := v; description
     := description p; updated_at := updated_at p; updated_by := updated_by
     p |}.

End Playbooks.

(** ** [rules.py]: the redaction engine *)

Module Rules.
Import Playbooks.

Definition PLACEHOLDER_PREFIX : string := "__BLUR_ALLOWLIST_".

Record RuleMatchReport : Type := {
  total_matches : Z;
  matches_by_rule_type : Dict.t Z;
  matches_by_rule_id : Dict.t Z
}.

(** [RuleMatchReport()] *)
Definition empty_report : RuleMatchReport :=
  {| total_matches := 0; matches_by_rule_type := []; matches_by_rule_id := [] |}.

(** [sorted(rules, key=lambda rule: rule.priority)]: a stable sort. *)
Fixpoint insert_by_priority (r : Rule) (l : list Rule) : list Rule :=
  match l with
  | [] => [r]
  | x :: rest =>
      if (priority r <=? priority x)%Z then r :: l
      else x :: insert_by_priority r rest
  end.

Definition sorted_by_priority (l : list Rule) : list Rule :=
  fold_right insert_by_priority [] l.

Definition _rules_by_type (playbook : Playbook) (type : string) : list Rule :=
  sorted_by_priority
    (filter (fun rule => String.eqb (rule_type rule) type && enabled rule)
            (rules playbook)).

Definition _register_match (report : RuleMatchReport) (rule : Rule) (count : Z)
    : RuleMatchReport :=
  if (count <=? 0)%Z then report
  else
    {| total_matches := total_matches report + count;
       matches_by_rule_type :=
         Dict.set (matches_by_rule_type report) (rule_type rule)
           (Dict.get_default (matches_by_rule_type report) (rule_type rule) 0
            + count)%Z;
       matches_by_rule_id :=
         Dict.set (matches_by_rule_id report) (rule_id rule)
           (Dict.get_default (matches_by_rule_id report) (rule_id rule) 0
            + count)%Z |}.

(** [template.format(rule_name=..., rule_id=...)]: the fields
    [{rule_name}] and [{rule_id}] and the doubled braces.  [None]: the
    call raises ([KeyError], [IndexError], [ValueError]) or the field
    has a conversion, a format spec or an attribute, which this model
    leaves out.  [field] holds the field name read so far inside
    braces. *)
Fixpoint format_go (rule_name rule_id : string) (s : string)
    (field : option string) : option string :=
  match s with
  | "" => match field with None => Some "" | Some _ => None end
  | String c tl =>
      match field with
      | Some f =>
          if Ascii.eqb c "}" then
            v <- (if String.eqb f "rule_name" then Some rule_name
                  else if String.eqb f "rule_id" then Some rule_id
                  else None) ;;
            r <- format_go rule_name rule_id tl None ;;
            Some (v ++ r)%string
          else if Ascii.eqb c "{" then None
          else format_go rule_name rule_id tl (Some (f ++ String c "")%string)
      | None =>
          if Ascii.eqb c "{" then
            match tl with
            | String "{"%char tl' =>
                r <- format_go rule_name rule_id tl' None ;; Some (String "{" r)
            | _ => format_go rule_name rule_id tl (Some "")
            end
          else if Ascii.eqb c "}" then
            match tl with
            | String "}"%char tl' =>
                r <- format_go rule_name rule_id tl' None ;; Some (String "}" r)
            | _ => None
            end
          else r <- format_go rule_name rule_id tl None ;; Some (String c r)
      end
  end.

Definition format (template rule_name rule_id : string) : option string :=
  format_go rule_name rule_id template None.

Definition _replacement_for_match (match_text : string) (rule : Rule)
    (playbook : Playbook) : option string :=
  if String.eqb (action rule) "REMOVE" then Some ""
  else if String.eqb (action rule) "REPLACE" then
    let template := PyStr.or_else (replacement_template rule) "[BLURRED:{rule_name}]" in
    format template (name rule) (rule_id rule)
  else if String.eqb (redaction_mode playbook) "SAME_LENGTH_MASK" then
    let mask_char := PyStr.or_else (Some (mask_char playbook)) "*" in
    Some (PyStr.repeat_str mask_char (String.length match_text))
  else Some (PyStr.or_else (replacement_template rule) "[BLURRED]").

Definition placeholder_of (counter : nat) : string :=
  (PLACEHOLDER_PREFIX ++ PyStr.of_nat counter ++ "__")%string.

(** [re.sub(pattern, _replacement, protected)] with the closure
    [_replacement] of [_apply_allowlist], which advances [counter] and
    records the matched text under a fresh placeholder. *)
Fixpoint sub_protect (text : string) (pos : nat) (spans : list Re.span)
    (counter : nat) (placeholders : Dict.t string)
    : string * nat * Dict.t string :=
  match spans with
  | [] => (PyStr.drop pos text, counter, placeholders)
  | (b, e) :: rest =>
      let counter := counter + 1 in
      let placeholder := placeholder_of counter in
      let placeholders := Dict.set placeholders placeholder (PyStr.slice b e text) in
      let '(tl, counter', placeholders') :=
        sub_protect text e rest counter placeholders in
      ((PyStr.slice pos b text ++ placeholder ++ tl)%string, counter', placeholders')
  end.

Section Engine.

(** [re.compile(pattern, flags)] for the patterns a playbook carries;
    the flag is [re.IGNORECASE]; [None] is [re.error]. *)
Variable re_compile : string -> bool -> option Re.compiled.

(** The state of [_apply_allowlist]: the working text, the counter and
    the placeholder map. *)
Definition allow_state : Type := string * nat * Dict.t string.

Definition allowlist_phrase (st : allow_state) (phrase : string) : allow_state :=
  let '(protected, counter, placeholders) := st in
  let counter := counter + 1 in
  let placeholder := placeholder_of counter in
  (PyStr.replace protected phrase placeholder, counter,
   Dict.set placeholders placeholder phrase).

Definition allowlist_pattern (rule : Rule) (st : allow_state)
    (pattern_entry : PatternEntry) : option allow_state :=
  let '(protected, counter, placeholders) := st in
  let flags := case_insensitive rule || entry_case_insensitive pattern_entry in
  if negb (PyStr.truthy (pattern pattern_entry)) then Some st
  else
    compiled <- re_compile (PyStr.or_else (pattern pattern_entry) "") flags ;;
    Some (sub_protect protected 0 (Re.finditer compiled protected)
            counter placeholders).

Fixpoint allowlist_patterns (rule : Rule) (st : allow_state)
    (entries : list PatternEntry) : option allow_state :=
  match entries with
  | [] => Some st
  | e :: rest =>
      st' <- allowlist_pattern rule st e ;; allowlist_patterns rule st' rest
  end.

Definition allowlist_rule (st : allow_state) (rule : Rule) : option allow_state :=
  allowlist_patterns rule (fold_left allowlist_phrase (phrases rule) st)
    (patterns rule).

Fixpoint allowlist_rules (st : allow_state) (rules : list Rule)
    : option allow_state :=
  match rules with
  | [] => Some st
  | rule :: rest => st' <- allowlist_rule st rule ;; allowlist_rules st' rest
  end.

(** Returns the protected text and the placeholder map after the
    call. *)
Definition _apply_allowlist (text : string) (rules : list Rule)
    (placeholders : Dict.t string) : option (string * Dict.t string) :=
  '(protected, _, placeholders') <- allowlist_rules (text, 0, placeholders) rules ;;
  Some (protected, placeholders').

(** The state of the matchers: the working text and the report. *)
Definition run_state : Type := string * RuleMatchReport.

Definition dictionary_entry (rule : Rule) (playbook : Playbook) (dry_run : bool)
    (st : run_state) (item : string * string) : option run_state :=
  let '(updated, report) := st in
  let '(target, replacement) := item in
  let pattern := Re.literal (case_insensitive rule) target in
  let matches := Re.finditer pattern updated in
  match matches with
  | [] => Some st
  | _ =>
      let report := _register_match report rule (Z.of_nat (List.length matches)) in
      if dry_run then Some (updated, report)
      else if String.eqb (action rule) "REMOVE" then
        updated' <- Re.sub_template pattern "" updated ;; Some (updated', report)
      else if String.eqb (action rule) "REPLACE" then
        updated' <- Re.sub_template pattern replacement updated ;;
        Some (updated', report)
      else
        updated' <- Re.sub pattern
                      (fun m => _replacement_for_match m rule playbook) updated ;;
        Some (updated', report)
  end.

Definition _apply_dictionary (text : string) (rule : Rule) (playbook : Playbook)
    (report : RuleMatchReport) (dry_run : bool) : option run_state :=
  fold_option (dictionary_entry rule playbook dry_run) (dictionary rule)
    (text, report).

Definition regex_entry (rule : Rule) (playbook : Playbook) (dry_run : bool)
    (st : run_state) (entry : PatternEntry) : option run_state :=
  let '(updated, report) := st in
  if negb (PyStr.truthy (pattern entry)) then Some st
  else
    let flags := case_insensitive rule || entry_case_insensitive entry in
    compiled <- re_compile (PyStr.or_else (pattern entry) "") flags ;;
    let matches := Re.finditer compiled updated in
    match matches with
    | [] => Some st
    | _ =>
        let report := _register_match report rule (Z.of_nat (List.length matches)) in
        if dry_run then Some (updated, report)
        else
          updated' <- Re.sub compiled
                        (fun m => _replacement_for_match m rule playbook) updated ;;
          Some (updated', report)
    end.

Definition _apply_regex_patterns (text : string) (rule : Rule)
    (playbook : Playbook) (report : RuleMatchReport) (dry_run : bool)
    : option run_state :=
  fold_option (regex_entry rule playbook dry_run) (patterns rule) (text, report).

Definition _apply_keywords (text : string) (rule : Rule) (playbook : Playbook)
    (report : RuleMatchReport) (dry_run : bool) : option run_state :=
  match keywords rule with
  | [] => Some (text, report)
  | _ =>
      let compiled := Re.alternation (case_insensitive rule) (keywords rule) in
      let matches := Re.finditer compiled text in
      match matches with
      | [] => Some (text, report)
      | _ =>
          let report := _register_match report rule (Z.of_nat (List.length matches)) in
          if negb dry_run then
            updated <- Re.sub compiled
                         (fun m => _replacement_for_match m rule playbook) text ;;
            Some (updated, report)
          else Some (text, report)
      end
  end.

Definition _apply_rule (text : string) (rule : Rule) (playbook : Playbook)
    (report : RuleMatchReport) (dry_run : bool) : option run_state :=
  if String.eqb (rule_type rule) "dictionary_entities" then
    _apply_dictionary text rule playbook report dry_run
  else if String.eqb (rule_type rule) "regex_patterns" then
    _apply_regex_patterns text rule playbook report dry_run
  else if String.eqb (rule_type rule) "keyword_list" then
    _apply_keywords text rule playbook report dry_run
  else Some (text, report).

(** The rules the double loop of [apply_rules] visits, in order. *)
Definition rule_sequence (playbook : Playbook) : list Rule :=
  flat_map (_rules_by_type playbook)
    ["dictionary_entities"; "regex_patterns"; "keyword_list"].

Definition apply_rules (text : string) (playbook : Playbook) (dry_run : bool)
    : option (string * RuleMatchReport) :=
  let report := empty_report in
  let placeholders : Dict.t string := [] in
  let allowlist_rules := _rules_by_type playbook "allowlist" in
  '(protected_text, placeholders) <-
     _apply_allowlist text allowlist_rules placeholders ;;
  '(protected_text, report) <-
     fold_option
       (fun st rule => _apply_rule (fst st) rule playbook (snd st) dry_run)
       (rule_sequence playbook) (protected_text, report) ;;
  let restored :=
    fold_left (fun restored '(placeholder, original) =>
                 PyStr.replace restored placeholder original)
              placeholders protected_text in
  Some (restored, report).

End Engine.

End Rules.

(** ** [utils.py] *)

Module Utils.

Definition bytes : Type := list Byte.byte.

(** A decoded [str] of any code points. *)
Definition text : Type := list N.

Definition byte_value (b : Byte.byte) : N := Byte.to_N b.

(** [re.compile(r"[^A-Za-z0-9._-]+")]; the pattern compiles
    ([SAFE_FILENAME_PATTERN_compiles]). *)
Definition SAFE_FILENAME_PATTERN : Re.compiled :=
  match Regex.compile "[^A-Za-z0-9._-]+" false with
  | Some c => c
  | None => fun _ => []
  end.

Definition sanitize_filename (name : string) (max_length : Z) : option string :=
  sanitized <- Re.sub_template SAFE_FILENAME_PATTERN "_" (PyStr.strip name) ;;
  let sanitized := match sanitized with "" => "file" | _ => sanitized end in
  Some (PyStr.slice_to max_length sanitized).

(** The default of the parameter [max_length]. *)
Definition default_max_length : Z := 255.

(** *** Codecs: [bytes.decode(encoding)], [None] for [UnicodeDecodeError] *)

Definition continuation (b : N) : bool := ((128 <=? b) && (b <=? 191))%N.

Definition between (lo hi b : N) : bool := ((lo <=? b) && (b <=? hi))%N.

(** Strict UTF-8: shortest forms only, no surrogates, nothing above
    U+10FFFF. *)
Fixpoint decode_utf8 (data : list N) : option text :=
  match data with
  | [] => Some []
  | b0 :: r0 =>
      if (b0 <? 128)%N then tl <- decode_utf8 r0 ;; Some (b0 :: tl)
      else if between 194 223 b0 then
        match r0 with
        | b1 :: r1 =>
            if continuation b1
            then tl <- decode_utf8 r1 ;;
                 Some (((b0 - 192) * 64 + (b1 - 128))%N :: tl)
            else None
        | _ => None
        end
      else if between 224 239 b0 then
        match r0 with
        | b1 :: b2 :: r2 =>
            if between (if (b0 =? 224)%N then 160 else 128)
                       (if (b0 =? 237)%N then 159 else 191) b1
               && continuation b2
            then tl <- decode_utf8 r2 ;;
                 Some (((b0 - 224) * 4096 + (b1 - 128) * 64 + (b2 - 128))%N :: tl)
            else None
        | _ => None
        end
      else if between 240 244 b0 then
        match r0 with
        | b1 :: b2 :: b3 :: r3 =>
            if between (if (b0 =? 240)%N then 144 else 128)
                       (if (b0 =? 244)%N then 143 else 191) b1
               && continuation b2 && continuation b3
            then tl <- decode_utf8 r3 ;;
                 Some (((b0 - 240) * 262144 + (b1 - 128) * 4096
                        + (b2 - 128) * 64 + (b3 - 128))%N :: tl)
            else None
        | _ => None
        end
      else None
  end.

(** Windows-1251, bytes 0x80 to 0xBF; byte 0x98 is not assigned. *)
Definition cp1251_high : list (option N) :=
  ([Some 1026; Some 1027; Some 8218; Some 1107; Some 8222; Some 8230;
     Some 8224; Some 8225; Some 8364; Some 8240; Some 1033; Some 8249;
     Some 1034; Some 1036; Some 1035; Some 1039; Some 1106; Some 8216;
     Some 8217; Some 8220; Some 8221; Some 8226; Some 8211; Some 8212;
     None; Some 8482; Some 1113; Some 8250; Some 1114; Some 1116; Some
     1115; Some 1119; Some 160; Some 1038; Some 1118; Some 1032; Some
     164; Some 1168; Some 166; Some 167; Some 1025; Some 169; Some 1028;
     Some 171; Some 172; Some 173; Some 174; Some 1031; Some 176; Some
     177; Some 1030; Some 1110; Some 1169; Some 181; Some 182; Some 183;
     Some 1105; Some 8470; Some 1108; Some 187; Some 1112; Some 1029;
     Some 1109; Some 1111])%N.

Definition decode_cp1251_byte (b : N) : option N :=
  if (b <? 128)%N then Some b
  else if (b <? 192)%N then nth (N.to_nat (b - 128)) cp1251_high None
  else Some (1040 + (b - 192))%N.

Fixpoint decode_cp1251 (data : list N) : option text :=
  match data with
  | [] => Some []
  | b :: r =>
      c <- decode_cp1251_byte b ;; tl <- decode_cp1251 r ;; Some (c :: tl)
  end.

(** Latin-1 assigns a character to every byte. *)
Definition decode_latin1 (data : list N) : option text := Some data.

Definition decode (encoding : string) (data : bytes) : option text :=
  let values := map byte_value data in
  if String.eqb encoding "utf-8" then decode_utf8 values
  else if String.eqb encoding "cp1251" then decode_cp1251 values
  else if String.eqb encoding "latin-1" then decode_latin1 values
  else None.

(** [data.decode("latin-1", errors="replace")] *)
Definition decode_latin1_replace (data : bytes) : text := map byte_value data.

(** The loop of [decode_text_bytes]: the first encoding that decodes
    [data] returns; [None] when the loop runs to its end. *)
Fixpoint try_encodings (encodings : list string) (data : bytes) : option text :=
  match encodings with
  | [] => None
  | encoding :: rest =>
      match decode encoding data with
      | Some s => Some s
      | None => try_encodings rest data
      end
  end.

Definition decode_text_bytes (data : bytes) : text :=
  match try_encodings ["utf-8"; "cp1251"; "latin-1"] data with
  | Some s => s
  | None => decode_latin1_replace data
  end.

(** *** [str.encode("utf-8")], [None] for [UnicodeEncodeError] *)

(** The UTF-8 form of one code point.  A surrogate has none, and a
    number from 0x110000 on is not a code point. *)
Definition encode_utf8_char (c : N) : option (list N) :=
  if (c <? 128)%N then Some [c]
  else if (c <? 2048)%N then Some [192 + c / 64; 128 + c mod 64]%N
  else if (c <? 65536)%N then
    if between 55296 57343 c then None
    else Some [224 + c / 4096; 128 + (c / 64) mod 64; 128 + c mod 64]%N
  else if (c <? 1114112)%N then
    Some [240 + c / 262144; 128 + (c / 4096) mod 64;
          128 + (c / 64) mod 64; 128 + c mod 64]%N
  else None.

Fixpoint encode_utf8 (s : text) : option (list N) :=
  match s with
  | [] => Some []
  | c :: r =>
      b <- encode_utf8_char c ;; tl <- encode_utf8 r ;; Some (b ++ tl)%list
  end.

(** The bytes with the given values. *)
Fixpoint to_bytes (values : list N) : option bytes :=
  match values with
  | [] => Some []
  | v :: r => b <- Byte.of_N v ;; tl <- to_bytes r ;; Some (b :: tl)
  end.

Definition encode_text (text : text) : option bytes :=
  values <- encode_utf8 text ;; to_bytes values.

(** *** [iter_chunks] *)

(** [list(range(start, stop, step))]; [None] for the [ValueError] of a
    zero step. *)
Definition range (start stop step : Z) : option (list Z) :=
  if (step =? 0)%Z then None
  else
    let count :=
      if (0 <? step)%Z
      then (if (start <? stop)%Z then (stop - start - 1) / step + 1 else 0)%Z
      else (if (stop <? start)%Z then (start - stop - 1) / (- step) + 1 else 0)%Z in
    Some (map (fun i => (start + Z.of_nat i * step)%Z) (seq 0 (Z.to_nat count))).

(** The position an integer slice bound stands for in a sequence of
    length [len]: a negative bound counts from the end, and every bound
    is clipped to the sequence. *)
Definition slice_bound (len : nat) (i : Z) : nat :=
  if (i <? 0)%Z then Z.to_nat (Z.of_nat len + i) else Nat.min (Z.to_nat i) len.

(** [data[b:e]] *)
Definition slice_bytes (b e : Z) (data : bytes) : bytes :=
  let lo := slice_bound (List.length data) b in
  let hi := slice_bound (List.length data) e in
  firstn (hi - lo) (skipn lo data).

(** The chunks the generator yields when it is run to its end;
    [None] when running it raises. *)
Definition iter_chunks (data : bytes) (chunk_size : Z) : option (list bytes) :=
  idxs <- range 0 (Z.of_nat (List.length data)) chunk_size ;;
  Some (map (fun idx => slice_bytes idx (idx + chunk_size) data) idxs).

(** The default of the parameter [chunk_size]. *)
Definition default_chunk_size : Z := 1024 * 1024.

End Utils.

(** ** lxml element trees

    An element carries its identity [id] (lxml matches elements by
    identity), its tag in Clark notation, its text, its tail and its
    children.  The tail belongs to the element and moves or leaves with
    it. *)

Module Xml.

#[warnings="-register-all"] Inductive element : Type :=
| Element (id : nat) (tag : string) (attrib : list (string * string))
          (text : option string) (tail : option string)
          (children : list element).

Definition id_of (e : element) : nat :=
  match e with Element i _ _ _ _ _ => i end.

Definition tag_of (e : element) : string :=
  match e with Element _ t _ _ _ _ => t end.

Definition text_of (e : element) : option string :=
  match e with Element _ _ _ x _ _ => x end.

Definition children_of (e : element) : list element :=
  match e with Element _ _ _ _ _ cs => cs end.

Definition with_children (e : element) (cs : list element) : element :=
  match e with Element i t a x tl _ => Element i t a x tl cs end.

(** The elements below [e], in document order. *)
Fixpoint descendants (e : element) : list element :=
  match e with
  | Element _ _ _ _ _ cs => flat_map (fun c => c :: descendants c) cs
  end.

(** The identities of [e] and of the elements below it. *)
Definition ids (e : element) : list nat := map id_of (e :: descendants e).

(** [tree.xpath(".//tag")]: the elements below the root with that tag,
    as the list of their identities. *)
Definition xpath_descendants (tag : string) (tree : element) : list nat :=
  map id_of (filter (fun d => String.eqb (tag_of d) tag) (descendants tree)).

(** [tree.xpath("//*")]: every element of the document. *)
Definition xpath_all (tree : element) : list nat := ids tree.

(** The element with identity [i] in the tree, if it is there. *)
Fixpoint find_node (i : nat) (e : element) : option element :=
  match e with
  | Element j _ _ _ _ cs =>
      if j =? i then Some e
      else (fix first (l : list element) : option element :=
              match l with
              | [] => None
              | c :: r =>
                  match find_node i c with
                  | Some x => Some x
                  | None => first r
                  end
              end) cs
  end.

(** [node.text = value] for the node with identity [i]. *)
Fixpoint set_text (i : nat) (value : option string) (e : element) : element :=
  match e with
  | Element j t a x tl cs =>
      Element j t a (if j =? i then value else x) tl (map (set_text i value) cs)
  end.

(** The tree after [f] has rewritten the child list of the parent of
    the node with identity [i].  A node without a parent in the tree
    (the root, or a node of a subtree removed earlier) leaves the tree as
    it is. *)
Fixpoint update_parent (i : nat) (f : list element -> list element)
    (e : element) : element :=
  match e with
  | Element j t a x tl cs =>
      if existsb (fun c => id_of c =? i) cs
      then Element j t a x tl (f cs)
      else Element j t a x tl (map (update_parent i f) cs)
  end.

(** [parent.remove(node)] on the child list. *)
Definition remove_child (i : nat) (cs : list element) : list element :=
  filter (fun c => negb (id_of c =? i)) cs.

(** [parent.index(node)] *)
Fixpoint index_of (i : nat) (cs : list element) : nat :=
  match cs with
  | [] => 0
  | c :: r => if id_of c =? i then 0 else S (index_of i r)
  end.

(** [parent.insert(index, child)] on the child list. *)
Definition insert_at (index : nat) (child : element) (cs : list element)
    : list element :=
  firstn index cs ++ child :: skipn index cs.

End Xml.

(** ** [cleaner_docx.py]: the structural cleaner *)

Module CleanerDocx.
Import Xml.

Definition bytes : Type := Utils.bytes.

Definition WORD_NAMESPACE : string :=
  "http://schemas.openxmlformats.org/wordprocessingml/2006/main".
Definition CP_NAMESPACE : string :=
  "http://schemas.openxmlformats.org/package/2006/metadata/core-properties".
Definition DC_NAMESPACE : string := "http://purl.org/dc/elements/1.1/".
Definition DCTERMS_NAMESPACE : string := "http://purl.org/dc/terms/".

Definition NSMAP : Dict.t string :=
  [("w", WORD_NAMESPACE); ("cp", CP_NAMESPACE); ("dc", DC_NAMESPACE);
   ("dcterms", DCTERMS_NAMESPACE)].

(** The tag that [prefix:local] names under [NSMAP]. *)
Definition qname (prefix local : string) : string :=
  ("{" ++ Dict.get_default NSMAP prefix "" ++ "}" ++ local)%string.

(** [parent = node.getparent(); if parent is not None: parent.remove(node)] *)
Definition remove_node (tree : element) (node : nat) : element :=
  update_parent node (remove_child node) tree.

(** The body of [_unwrap] on the child list of the parent. *)
Definition unwrap_in (node : nat) (cs : list element) : list element :=
  let index := index_of node cs in
  let moved := children_of (nth index cs (Element node "" [] None None [])) in
  let '(cs', _) :=
    fold_left (fun '(l, index) child => (insert_at index child l, index + 1))
              moved (cs, index) in
  remove_child node cs'.

Definition _unwrap (tree : element) (node : nat) : element :=
  update_parent node (unwrap_in node) tree.

(** One pass of a loop [for node in tree.xpath(".//tag"): op(node)]: the
    node list is taken before the loop starts. *)
Definition for_each_node (op : element -> nat -> element) (tag : string)
    (tree : element) : element :=
  fold_left op (xpath_descendants tag tree) tree.

Definition _accept_revisions (tree : element) : element :=
  let tree :=
    fold_left (fun t tag => for_each_node remove_node tag t)
              [qname "w" "del"; qname "w" "moveFrom"] tree in
  fold_left (fun t tag => for_each_node _unwrap tag t)
            [qname "w" "ins"; qname "w" "moveTo"] tree.

Definition _remove_comments (tree : element) : element :=
  fold_left (fun t tag => for_each_node remove_node tag t)
            [qname "w" "commentRangeStart"; qname "w" "commentRangeEnd";
             qname "w" "commentReference"] tree.

Definition _remove_comments_part (parts : Dict.t bytes) : Dict.t bytes :=
  let cleaned := parts in
  if Dict.contains cleaned "word/comments.xml"
  then Dict.pop cleaned "word/comments.xml"
  else cleaned.

(** [for element in tree.xpath("//*"): if element.text: element.text = ""] *)
Definition blank_texts (tree : element) : element :=
  fold_left
    (fun t i =>
       match find_node i t with
       | Some e => if PyStr.truthy (text_of e) then set_text i (Some "") t else t
       | None => t
       end)
    (xpath_all tree) tree.

Definition _wipe_core_properties (tree : element) : element :=
  let tree := blank_texts tree in
  fold_left
    (fun t tag => for_each_node (fun t i => set_text i (Some "") t) tag t)
    [qname "dc" "creator"; qname "cp" "lastModifiedBy";
     qname "dcterms" "created"; qname "dcterms" "modified"] tree.

Definition _wipe_custom_properties (tree : element) : element :=
  blank_texts tree.

Section Lxml.

(** [etree.fromstring], [None] for [XMLSyntaxError], and
    [etree.tostring(tree, xml_declaration=True, encoding="UTF-8")]. *)
Variable fromstring : bytes -> option element.
Variable tostring : element -> bytes.

(** The body of the loop of [clean_docx_parts]. *)
Definition clean_part (cleaned : Dict.t bytes) (part : string * bytes)
    : Dict.t bytes :=
  let '(name, data) := part in
  if negb (PyStr.endswith name ".xml") then cleaned
  else
    match fromstring data with
    | None => cleaned
    | Some tree =>
        let tree :=
          if PyStr.startswith name "word/"
          then _remove_comments (_accept_revisions tree) else tree in
        let tree :=
          if String.eqb name "docProps/core.xml"
          then _wipe_core_properties tree else tree in
        let tree :=
          if String.eqb name "docProps/custom.xml"
          then _wipe_custom_properties tree else tree in
        Dict.set cleaned name (tostring tree)
    end.

Definition clean_docx_parts (parts : Dict.t bytes) : Dict.t bytes :=
  let cleaned := fold_left clean_part parts parts in
  _remove_comments_part cleaned.

End Lxml.

End CleanerDocx.

(** ** [processor_docx.py]: rules applied to the text nodes of the parts *)

Module ProcessorDocx.
Import Xml Rules.

Definition bytes : Type := Utils.bytes.

Definition WORD_NAMESPACE : string :=
  "http://schemas.openxmlformats.org/wordprocessingml/2006/main".

Definition NSMAP : Dict.t string := [("w", WORD_NAMESPACE)].

Definition qname (prefix local : string) : string :=
  ("{" ++ Dict.get_default NSMAP prefix "" ++ "}" ++ local)%string.

(** [for key, value in source.items():
       target[key] = target.get(key, 0) + value] *)
Definition add_counts (target source : Dict.t Z) : Dict.t Z :=
  fold_left (fun t '(key, value) =>
               Dict.set t key (Dict.get_default t key 0 + value)%Z)
            source target.

Definition _merge_reports (target report : RuleMatchReport) : RuleMatchReport :=
  {| total_matches := total_matches target + total_matches report;
     matches_by_rule_type :=
       add_counts (matches_by_rule_type target) (matches_by_rule_type report);
     matches_by_rule_id :=
       add_counts (matches_by_rule_id target) (matches_by_rule_id report) |}.

Section Engine.

Variable re_compile : string -> bool -> option Re.compiled.
Variable fromstring : bytes -> option element.
Variable tostring : element -> bytes.

(** The state of the loop over the text nodes of one part: the tree,
    the aggregate report and the flag [modified]. *)
Definition node_state : Type := element * RuleMatchReport * bool.

Definition text_node_step (playbook : Playbooks.Playbook) (dry_run : bool)
    (st : node_state) (text_node : nat) : option node_state :=
  let '(tree, aggregate, modified) := st in
  match find_node text_node tree with
  | None => Some st
  | Some node =>
      match text_of node with
      | None => Some st
      | Some text =>
          '(redacted_text, report) <-
             apply_rules re_compile text playbook dry_run ;;
          let aggregate := _merge_reports aggregate report in
          if negb dry_run && negb (String.eqb redacted_text text)
          then Some (set_text text_node (Some redacted_text) tree,
                     aggregate, true)
          else Some (tree, aggregate, modified)
      end
  end.

(** The state of the loop over the parts: [updated_parts] and the
    aggregate report. *)
Definition parts_state : Type := Dict.t bytes * RuleMatchReport.

Definition part_step (playbook : Playbooks.Playbook) (dry_run : bool)
    (st : parts_state) (part : string * bytes) : option parts_state :=
  let '(updated_parts, aggregate) := st in
  let '(name, data) := part in
  if negb (PyStr.startswith name "word/") || negb (PyStr.endswith name ".xml")
  then Some st
  else
    match fromstring data with
    | None => Some st
    | Some tree =>
        '(tree', aggregate', modified) <-
           fold_option (text_node_step playbook dry_run)
             (xpath_descendants (qname "w" "t") tree)
             (tree, aggregate, false) ;;
        if (modified : bool)
        then Some (Dict.set updated_parts name (tostring tree'), aggregate')
        else Some (updated_parts, aggregate')
    end.

Definition _apply_rules_to_parts (parts : Dict.t bytes)
    (playbook : Playbooks.Playbook) (dry_run : bool) : option parts_state :=
  fold_option (part_step playbook dry_run) parts (parts, empty_report).

End Engine.

End ProcessorDocx.

(** ** Values of a parsed YAML document, and the builtins applied to them

    The values [yaml.safe_load] returns for a document made of nulls,
    booleans, integers, strings, sequences and mappings with string
    keys.  A raised exception is [Raise]. *)

Module Py.

Inductive exn : Type :=
| PlaybookError (message : string)
| TypeError
| ValueError
| AttributeError.

Inductive result (A : Type) : Type :=
| Ok (a : A)
| Raise (e : exn).

Arguments Ok {A} a.
Arguments Raise {A} e.

Definition bind {A B} (r : result A) (k : A -> result B) : result B :=
  match r with
  | Ok a => k a
  | Raise e => Raise e
  end.

#[warnings="-register-all"] Inductive value : Type :=
| VNone
| VBool (b : bool)
| VInt (z : Z)
| VStr (s : string)
| VList (items : list value)
| VDict (entries : list (string * value)).

(** [bool(v)] *)
Definition truthy (v : value) : bool :=
  match v with
  | VNone => false
  | VBool b => b
  | VInt z => negb (z =? 0)%Z
  | VStr s => negb (String.eqb s "")
  | VList items => match items with [] => false | _ => true end
  | VDict entries => match entries with [] => false | _ => true end
  end.

(** [a or b] *)
Definition or_else (a b : value) : value := if truthy a then a else b.

Definition max_str_digits : nat := PyStr.max_str_digits.

(** [str(z)] for an integer: more than [max_str_digits] digits raise
    [ValueError]. *)
Definition str_int (z : Z) : result string :=
  let digits := NilZero.string_of_int (Z.to_int (Z.abs z)) in
  if max_str_digits <? String.length digits then Raise ValueError
  else Ok (if (z <? 0)%Z then String "-" digits else digits).

Definition hex_digit (n : nat) : ascii :=
  if n <? 10 then ascii_of_nat (48 + n) else ascii_of_nat (87 + n).

(** [str.isprintable] on one character below 256. *)
Definition printable (c : ascii) : bool :=
  let n := nat_of_ascii c in
  ((32 <=? n) && (n <=? 126)) || ((161 <=? n) && negb (n =? 173)).

Fixpoint contains_char (c : ascii) (s : string) : bool :=
  match s with
  | "" => false
  | String x r => Ascii.eqb x c || contains_char c r
  end.

(** One character inside a string literal delimited by [quote]. *)
Definition repr_char (quote c : ascii) : string :=
  if Ascii.eqb c quote || Ascii.eqb c "\" then String "\" (String c "")
  else if Ascii.eqb c "010" then "\n"
  else if Ascii.eqb c "013" then "\r"
  else if Ascii.eqb c "009" then "\t"
  else if printable c then String c ""
  else String "\" (String "x"
         (String (hex_digit (nat_of_ascii c / 16))
            (String (hex_digit (nat_of_ascii c mod 16)) ""))).

Fixpoint repr_chars (quote : ascii) (s : string) : string :=
  match s with
  | "" => ""
  | String c r => (repr_char quote c ++ repr_chars quote r)%string
  end.

(** [repr(s)] for a string: single quotes, unless the string has a
    single quote and no double quote. *)
Definition repr_str (s : string) : string :=
  let quote : ascii :=
    if contains_char "'" s && negb (contains_char "034" s) then "034"%char
    else "'"%char in
  String quote (repr_chars quote s ++ String quote "").

(** [", ".join(parts)] *)
Fixpoint join_comma (parts : list string) : string :=
  match parts with
  | [] => ""
  | [p] => p
  | p :: rest => (p ++ ", " ++ join_comma rest)%string
  end.

(** [repr(v)] *)
Fixpoint repr (v : value) : result string :=
  match v with
  | VNone => Ok "None"
  | VBool true => Ok "True"
  | VBool false => Ok "False"
  | VInt z => str_int z
  | VStr s => Ok (repr_str s)
  | VList items =>
      bind ((fix all (l : list value) : result (list string) :=
               match l with
               | [] => Ok []
               | x :: r =>
                   bind (repr x) (fun sx =>
                   bind (all r) (fun sr => Ok (sx :: sr)))
               end) items)
           (fun parts => Ok ("[" ++ join_comma parts ++ "]")%string)
  | VDict entries =>
      bind ((fix all (l : list (string * value)) : result (list string) :=
               match l with
               | [] => Ok []
               | (k, x) :: r =>
                   bind (repr x) (fun sx =>
                   bind (all r) (fun sr =>
                     Ok ((repr_str k ++ ": " ++ sx)%string :: sr)))
               end) entries)
           (fun parts => Ok ("{" ++ join_comma parts ++ "}")%string)
  end.

(** [str(v)], which is also [format(v, "")] inside an f-string. *)
Definition str (v : value) : result string :=
  match v with
  | VStr s => Ok s
  | _ => repr v
  end.

(** [int(s)] for a string. *)
Definition int_of_str (s : string) : result Z :=
  match PyStr.parse_int s with
  | Some z => Ok z
  | None => Raise ValueError
  end.

(** [int(v)] *)
Definition int (v : value) : result Z :=
  match v with
  | VNone => Raise TypeError
  | VBool b => Ok (if b then 1 else 0)%Z
  | VInt z => Ok z
  | VStr s => int_of_str s
  | VList _ | VDict _ => Raise TypeError
  end.

Fixpoint chars (s : string) : list value :=
  match s with
  | "" => []
  | String c r => VStr (String c "") :: chars r
  end.

(** [list(v)] *)
Definition list_of (v : value) : result (list value) :=
  match v with
  | VStr s => Ok (chars s)
  | VList items => Ok items
  | VDict entries => Ok (map (fun e => VStr (fst e)) entries)
  | VNone | VBool _ | VInt _ => Raise TypeError
  end.

(** [hash(v)] raises for lists and dicts. *)
Definition hashable (v : value) : bool :=
  match v with
  | VList _ | VDict _ => false
  | _ => true
  end.

(** [a == b] for hashable values: a boolean is the integer 0 or 1. *)
Definition key_eqb (a b : value) : bool :=
  match a, b with
  | VNone, VNone => true
  | VStr x, VStr y => String.eqb x y
  | VBool x, VBool y => Bool.eqb x y
  | VInt x, VInt y => (x =? y)%Z
  | VBool x, VInt y | VInt y, VBool x => ((if x then 1 else 0) =? y)%Z
  | _, _ => false
  end.

(** [d[k] = v] in a dict with keys of any hashable type. *)
Fixpoint set_item (d : list (value * value)) (k v : value)
    : list (value * value) :=
  match d with
  | [] => [(k, v)]
  | (k', v') :: r =>
      if key_eqb k' k then (k', v) :: r else (k', v') :: set_item r k v
  end.

(** The two items of one element of the sequence given to [dict]. *)
Definition pair_of (element : value) : result (value * value) :=
  match element with
  | VNone | VBool _ | VInt _ => Raise TypeError
  | VStr (String a (String b "")) => Ok (VStr (String a ""), VStr (String b ""))
  | VStr _ => Raise ValueError
  | VList [a; b] => Ok (a, b)
  | VList _ => Raise ValueError
  | VDict [(a, _); (b, _)] => Ok (VStr a, VStr b)
  | VDict _ => Raise ValueError
  end.

Fixpoint dict_of_pairs (elements : list value) (d : list (value * value))
    : result (list (value * value)) :=
  match elements with
  | [] => Ok d
  | element :: rest =>
      bind (pair_of element) (fun '(k, v) =>
        if hashable k then dict_of_pairs rest (set_item d k v)
        else Raise TypeError)
  end.

(** [dict(v)] *)
Definition dict_of (v : value) : result (list (value * value)) :=
  match v with
  | VDict entries => Ok (map (fun e => (VStr (fst e), snd e)) entries)
  | VList items => dict_of_pairs items []
  | VStr s => match s with "" => Ok [] | _ => Raise ValueError end
  | VNone | VBool _ | VInt _ => Raise TypeError
  end.

(** [v in strings] for a set of strings. *)
Definition in_strings (v : value) (strings : list string) : result bool :=
  match v with
  | VList _ | VDict _ => Raise TypeError
  | VStr s => Ok (existsb (String.eqb s) strings)
  | _ => Ok false
  end.

(** A value found in a set of strings is a string. *)
Definition member (v : value) : string :=
  match v with
  | VStr s => s
  | _ => ""
  end.

(** [sorted(strings)] by code points. *)
Fixpoint insert_sorted (s : string) (l : list string) : list string :=
  match l with
  | [] => [s]
  | x :: r => if String.leb s x then s :: l else x :: insert_sorted s r
  end.

Definition sorted (l : list string) : list string :=
  fold_right insert_sorted [] l.

(** [d.get(k)] and [d.get(k, default)] on a mapping of the document. *)
Definition get (d : Dict.t value) (k : string) : value :=
  Dict.get_default d k VNone.

End Py.

(** ** [playbooks.py]: the loader *)

Module Loader.
Import Py.

Definition ALLOWED_PLAYBOOK_KEYS : list string :=
  ["name"; "version"; "updated_at"; "updated_by"; "description";
   "redaction_mode"; "mask_char"; "rules"].

Definition ALLOWED_RULE_KEYS : list string :=
  ["id"; "name"; "type"; "enabled"; "priority"; "action";
   "replacement_template"; "scope"; "patterns"; "phrases";
   "case_insensitive"; "dictionary"; "keywords"].

Definition RULE_TYPES : list string :=
  ["allowlist"; "dictionary_entities"; "regex_patterns"; "keyword_list"].

Definition ACTIONS : list string := ["MASK"; "REPLACE"; "REMOVE"].

(** A [Rule] as [_parse_rule] builds it: the fields that went through
    [str], [bool] and [int] have that type, the others hold whatever
    the document gave. *)
Record Rule : Type := {
  rule_id : string;
  name : string;
  rule_type : string;
  enabled : bool;
  priority : Z;
  action : string;
  replacement_template : value;
  scope : list value;
  patterns : list value;
  phrases : list value;
  dictionary : list (value * value);
  keywords : list value;
  case_insensitive : bool
}.

Record Playbook : Type := {
  playbook_name : string;
  version : string;
  redaction_mode : string;
  mask_char : string;
  rules : list Rule;
  description : value;
  updated_at : value;
  updated_by : value
}.

(** The keys of [data] that are not in [allowed], sorted. *)
Definition unknown_keys (data : Dict.t value) (allowed : list string)
    : list string :=
  sorted (filter (fun k => negb (existsb (String.eqb k) allowed))
                 (Dict.keys data)).

Definition _validate_keys (data : Dict.t value) (allowed : list string)
    (context : string) : result unit :=
  match unknown_keys data allowed with
  | [] => Ok tt
  | unknown =>
      Raise (PlaybookError
               ("Unknown keys in " ++ context ++ ": ["
                ++ join_comma (map repr_str unknown) ++ "]"))
  end.

Definition _parse_rule (raw : value) : result Rule :=
  match raw with
  | VDict raw =>
      bind (_validate_keys raw ALLOWED_RULE_KEYS "rule") (fun _ =>
      let rule_type := get raw "type" in
      bind (in_strings rule_type RULE_TYPES) (fun known =>
      if negb known then
        bind (str rule_type) (fun shown =>
          Raise (PlaybookError ("Invalid rule type: " ++ shown)))
      else
      let action := Dict.get_default raw "action" (VStr "MASK") in
      bind (in_strings action ACTIONS) (fun known =>
      if negb known then
        bind (str action) (fun shown =>
          Raise (PlaybookError ("Invalid action: " ++ shown)))
      else
      bind (str (get raw "id")) (fun rule_id =>
      bind (str (get raw "name")) (fun name =>
      let enabled := truthy (Dict.get_default raw "enabled" (VBool true)) in
      bind (int (Dict.get_default raw "priority" (VInt 100))) (fun priority =>
      bind (list_of (or_else (Dict.get_default raw "scope" (VList []))
                             (VList []))) (fun scope =>
      bind (list_of (or_else (Dict.get_default raw "patterns" (VList []))
                             (VList []))) (fun patterns =>
      bind (list_of (or_else (Dict.get_default raw "phrases" (VList []))
                             (VList []))) (fun phrases =>
      bind (dict_of (or_else (Dict.get_default raw "dictionary" (VDict []))
                             (VDict []))) (fun dictionary =>
      bind (list_of (or_else (Dict.get_default raw "keywords" (VList []))
                             (VList []))) (fun keywords =>
      Ok {| rule_id := rule_id; name := name; rule_type := member rule_type;
            enabled := enabled; priority := priority; action := member action;
            replacement_template := get raw "replacement_template";
            scope := scope; patterns := patterns; phrases := phrases;
            dictionary := dictionary; keywords := keywords;
            case_insensitive :=
              truthy (Dict.get_default raw "case_insensitive" (VBool false))
         |})))))))))))
  | _ => Raise AttributeError
  end.

(** [[_parse_rule(rule) for rule in rules_raw]] *)
Fixpoint parse_rules (rules_raw : list value) : result (list Rule) :=
  match rules_raw with
  | [] => Ok []
  | raw :: rest =>
      bind (_parse_rule raw) (fun rule =>
      bind (parse_rules rest) (fun rules => Ok (rule :: rules)))
  end.

(** [load_playbook] from the value [yaml.safe_load] has returned for
    the text of the file. *)
Definition load_playbook (data : value) : result Playbook :=
  match data with
  | VDict data =>
      bind (_validate_keys data ALLOWED_PLAYBOOK_KEYS "playbook") (fun _ =>
      let name := get data "name" in
      let version := get data "version" in
      if negb (truthy name) || negb (truthy version) then
        Raise (PlaybookError "Playbook requires name and version")
      else
        match Dict.get_default data "rules" (VList []) with
        | VList rules_raw =>
            bind (parse_rules rules_raw) (fun rules =>
            bind (str name) (fun name =>
            bind (str version) (fun version =>
            bind (str (Dict.get_default data "redaction_mode"
                         (VStr "FIXED_TOKEN"))) (fun redaction_mode =>
            bind (str (Dict.get_default data "mask_char" (VStr "*")))
                 (fun mask_char =>
            Ok {| playbook_name := name; version := version;
                  redaction_mode := redaction_mode; mask_char := mask_char;
                  rules := rules;
                  description := get data "description";
                  updated_at := get data "updated_at";
                  updated_by := get data "updated_by" |})))))
        | _ => Raise (PlaybookError "Rules must be a list")
        end)
  | _ => Raise (PlaybookError "Playbook must be a mapping")
  end.

End Loader.

(** * Properties

    ** Definitions used to state the properties *)

Module ReportSpec.
Import Playbooks Rules.

(** The sum of the values of a count map. *)
Definition sum_values (d : Dict.t Z) : Z := fold_right Z.add 0%Z (Dict.values d).

Definition all_positive (d : Dict.t Z) : Prop :=
  Forall (fun v => (0 < v)%Z) (Dict.values d).

(** The invariant of a report: the total is the sum of either map, and
    no map stores a zero or negative count. *)
Definition consistent (r : RuleMatchReport) : Prop :=
  total_matches r = sum_values (matches_by_rule_type r)
  /\ total_matches r = sum_values (matches_by_rule_id r)
  /\ all_positive (matches_by_rule_type r)
  /\ all_positive (matches_by_rule_id r).

(** The number of times a rule searches the working text: once per
    dictionary key, once per non-empty pattern, once for a non-empty
    keyword list. *)
Definition passes_of (rule : Rule) : nat :=
  if String.eqb (rule_type rule) "dictionary_entities" then
    List.length (dictionary rule)
  else if String.eqb (rule_type rule) "regex_patterns" then
    List.length (filter (fun e => PyStr.truthy (pattern e)) (patterns rule))
  else if String.eqb (rule_type rule) "keyword_list" then
    match keywords rule with [] => 0 | _ => 1 end
  else 0.

Definition total_passes (playbook : Playbook) : nat :=
  list_sum (map passes_of (rule_sequence playbook)).

(** The body of the loop of [apply_rules] over the rules. *)
Definition rule_step (re_compile : string -> bool -> option Re.compiled)
    (pb : Playbook) (dry : bool) (st : run_state) (rule : Rule)
    : option run_state :=
  _apply_rule re_compile (fst st) rule pb (snd st) dry.

(** The report only grows, and a step under which it does not grow
    changes nothing. *)
Definition grows (st st' : run_state) : Prop :=
  (total_matches (snd st) <= total_matches (snd st'))%Z
  /\ ((total_matches (snd st') <= total_matches (snd st))%Z -> st' = st).

End ReportSpec.

(** ** Sample playbooks *)

Module Examples.
Import Playbooks Rules.

Definition entry (p : string) : PatternEntry :=
  {| pattern := Some p; entry_case_insensitive := false |}.

(** Scenario A: one regex rule masking a social security number. *)
Definition ssn_rule : Rule :=
  with_patterns [entry "\d{3}-\d{2}-\d{4}"] (new_rule "ssn" "SSN" "regex_patterns").

Definition ssn_playbook : Playbook :=
  with_rules [ssn_rule]
    (with_mask_char "*" (with_redaction_mode "SAME_LENGTH_MASK"
       (new_playbook "scenario-a" "1"))).

(** One match of the rule [ssn_rule]. *)
Definition ssn_report : RuleMatchReport :=
  {| total_matches := 1;
     matches_by_rule_type := [("regex_patterns", 1%Z)];
     matches_by_rule_id := [("ssn", 1%Z)] |}.

(** A dictionary rule whose replacement contains a keyword of a later
    rule. *)
Definition client_rule : Rule :=
  with_action "REPLACE"
    (with_dictionary [("ACME", "Client Corp")]
       (new_rule "client" "Client" "dictionary_entities")).

Definition corp_rule : Rule :=
  with_action "REMOVE" (with_keywords ["Corp"] (new_rule "corp" "Corp" "keyword_list")).

Definition client_playbook : Playbook :=
  with_rules [client_rule; corp_rule] (new_playbook "clients" "1").

(** One match of each of the two rules. *)
Definition client_report : RuleMatchReport :=
  {| total_matches := 2;
     matches_by_rule_type := [("dictionary_entities", 1%Z); ("keyword_list", 1%Z)];
     matches_by_rule_id := [("client", 1%Z); ("corp", 1%Z)] |}.

(** An allowlisted phrase and a rule that masks digits. *)
Definition acme_allow_rule : Rule :=
  with_phrases ["Acme Corp"] (new_rule "allow" "Allowed" "allowlist").

Definition digits_rule : Rule :=
  with_patterns [entry "\d+"] (new_rule "digits" "Digits" "regex_patterns").

Definition allow_digits_playbook : Playbook :=
  with_rules [acme_allow_rule; digits_rule] (new_playbook "allow" "1").

(** An allowlist rule alone. *)
Definition allow_playbook : Playbook :=
  with_rules [acme_allow_rule] (new_playbook "allow-only" "1").

(** Scenario C with a replacement template on the rule. *)
Definition person_rule : Rule :=
  with_replacement_template (Some "[{rule_name}]")
    (with_action "REPLACE"
       (with_dictionary [("John Smith", "[NAME]")]
          (new_rule "person" "person" "dictionary_entities"))).

Definition person_playbook : Playbook :=
  with_rules [person_rule] (new_playbook "scenario-c" "1").

(** *** A sample container *)

Definition utf8 (s : string) : Utils.bytes := String.list_byte_of_string s.

Definition w (local : string) : string := CleanerDocx.qname "w" local.

Definition node (i : nat) (tag : string) (children : list Xml.element)
    : Xml.element :=
  Xml.Element i (w tag) [] None None children.

(** A run with one text node. *)
Definition run (i : nat) (text : string) : Xml.element :=
  node i "r" [Xml.Element (i + 1) (w "t") [] (Some text) None []].

(** A paragraph with an insertion, a deletion and text that was never
    revised. *)
Definition sample_document : Xml.element :=
  node 0 "document"
    [node 1 "body"
       [node 2 "p"
          [node 3 "ins" [run 4 "SSN: 123-45-6789"];
           node 6 "del" [run 7 "old text"];
           run 9 " end"]]].

Definition sample_source : string :=
  "<w:document><w:body><w:p><w:ins><w:r><w:t>SSN: 123-45-6789</w:t></w:r></w:ins><w:del><w:r><w:t>old text</w:t></w:r></w:del><w:r><w:t> end</w:t></w:r></w:p></w:body></w:document>".

(** A parser that knows one document: it returns the tree of
    [sample_source] and rejects every other input. *)
Definition sample_fromstring (data : Utils.bytes) : option Xml.element :=
  if String.eqb (String.string_of_list_byte data) sample_source
  then Some sample_document else None.

(** A serializer that writes tags in Clark notation. *)
Fixpoint render (e : Xml.element) : string :=
  match e with
  | Xml.Element _ tag _ text tail children =>
      ("<" ++ tag ++ ">" ++ PyStr.or_else text ""
       ++ String.concat "" (map render children)
       ++ "</" ++ tag ++ ">" ++ PyStr.or_else tail "")%string
  end.

Definition sample_tostring (e : Xml.element) : Utils.bytes := utf8 (render e).

Definition sample_parts : Dict.t Utils.bytes :=
  [("[Content_Types].xml", utf8 "<Types/>");
   ("word/document.xml", utf8 sample_source);
   ("word/broken.xml", utf8 "<w:p");
   ("word/comments.xml", utf8 "<w:comments/>")].

(** A container whose comments part does not parse. *)
Definition broken_comments_parts : Dict.t Utils.bytes :=
  [("word/comments.xml", utf8 "<w:comments")].

End Examples.

(** ** Scanning written as one recursion over the text *)

Module ScanSpec.

(** What [Re.sub] computes, written without positions: at every
    character either a match starts, is replaced and its remaining [skip]
    characters are passed over, or the character is kept. *)
Fixpoint rewrite_go (m : Re.matcher) (repl : string -> option string)
    (s : string) (skip : nat) : option string :=
  match s with
  | "" => Some ""
  | String c r =>
      match skip with
      | S k => rewrite_go m repl r k
      | 0 =>
          match m s false with
          | Some (S n) =>
              x <- repl (PyStr.take (S n) s) ;;
              tl <- rewrite_go m repl r n ;;
              Some (x ++ tl)%string
          | _ => tl <- rewrite_go m repl r 0 ;; Some (String c tl)
          end
      end
  end.

(** A matcher that never matches the empty string and never reads past
    the end of the text. *)
Definition proper (m : Re.matcher) : Prop :=
  forall s must_advance n,
    m s must_advance = Some n -> 0 < n /\ n <= String.length s.

Fixpoint no_backslash (s : string) : bool :=
  match s with
  | "" => true
  | String c r => negb (Ascii.eqb c "\") && no_backslash r
  end.

End ScanSpec.

(** ** File names as the specification words them *)

Module FilenameSpec.

(** The characters of [[A-Za-z0-9._-]]. *)
Definition safe_char (c : ascii) : bool :=
  Regex.in_range "A" "Z" c || Regex.in_range "a" "z" c
  || Regex.in_range "0" "9" c
  || Ascii.eqb c "." || Ascii.eqb c "_" || Ascii.eqb c "-".

(** Every maximal run of characters outside the safe set becomes one
    underscore; [in_run] tells that the run has been replaced already. *)
Fixpoint collapse_go (s : string) (in_run : bool) : string :=
  match s with
  | "" => ""
  | String c r =>
      if safe_char c then String c (collapse_go r false)
      else if in_run then collapse_go r true
      else String "_" (collapse_go r true)
  end.

Definition collapse_runs (s : string) : string := collapse_go s false.

(** One underscore for every character outside the safe set. *)
Fixpoint replace_each (s : string) : string :=
  match s with
  | "" => ""
  | String c r => String (if safe_char c then c else "_"%char) (replace_each r)
  end.

(** The number of characters outside the safe set at the head of [s]. *)
Fixpoint run_length (s : string) : nat :=
  match s with
  | "" => 0
  | String c r => if safe_char c then 0 else S (run_length r)
  end.

(** What [SAFE_FILENAME_PATTERN] parses to. *)
Definition unsafe_set : Regex.regex :=
  Regex.Set_ true
    [Regex.IRange "A" "Z"; Regex.IRange "a" "z"; Regex.IRange "0" "9";
     Regex.IChar "."; Regex.IChar "_"; Regex.IChar "-"].

Definition unsafe_run : Regex.regex := Regex.Seq unsafe_set (Regex.Star unsafe_set).

Definition sanitized (name : string) : string :=
  PyStr.take 255
    (match collapse_runs (PyStr.strip name) with
     | "" => "file"
     | s => s
     end).

End FilenameSpec.

(** ** Replacement templates of dictionary rules *)

Module TemplateSpec.
Import Playbooks.

Definition is_dictionary_replace (r : Rule) : bool :=
  String.eqb (rule_type r) "dictionary_entities" && String.eqb (action r) "REPLACE".

(** The rule with the template [t] if it is a dictionary rule with action
    REPLACE, the rule itself otherwise. *)
Definition retemplate_rule (t : option string) (r : Rule) : Rule :=
  if is_dictionary_replace r then with_replacement_template t r else r.

(** The playbook with [t] as the template of every dictionary rule with
    action REPLACE. *)
Definition retemplate (t : option string) (playbook : Playbook) : Playbook :=
  with_rules (map (retemplate_rule t) (rules playbook)) playbook.

End TemplateSpec.

(** ** Accepted revisions as one rewriting of the tree *)

Module RevisionSpec.
Import Xml.

(** What becomes of an element below the root: it stays, it leaves with
    its subtree, or it leaves and its children take its place. *)
Inductive action : Type := Keep | Drop | Unwrap.

(** The action for an element, from its identity and its tag. *)
Definition classifier : Type := nat -> string -> action.

Definition class_of (cls : classifier) (e : element) : action :=
  cls (id_of e) (tag_of e).

(** The tree with every element below the root treated as [cls] says;
    children keep their order. *)
Fixpoint rewrite (cls : classifier) (e : element) : element :=
  match e with
  | Element i t a x tl cs =>
      Element i t a x tl
        (flat_map (fun c =>
                     match class_of cls c with
                     | Keep => [rewrite cls c]
                     | Drop => []
                     | Unwrap => children_of (rewrite cls c)
                     end) cs)
  end.

(** Deletions and move sources are rejected, insertions and move
    destinations are accepted. *)
Definition accept_class : classifier :=
  fun _ tag =>
    if String.eqb tag (CleanerDocx.qname "w" "del") then Drop
    else if String.eqb tag (CleanerDocx.qname "w" "moveFrom") then Drop
    else if String.eqb tag (CleanerDocx.qname "w" "ins") then Unwrap
    else if String.eqb tag (CleanerDocx.qname "w" "moveTo") then Unwrap
    else Keep.

Definition accepted (tree : element) : element := rewrite accept_class tree.

Definition is_revision_tag (tag : string) : bool :=
  String.eqb tag (CleanerDocx.qname "w" "del")
  || String.eqb tag (CleanerDocx.qname "w" "moveFrom")
  || String.eqb tag (CleanerDocx.qname "w" "ins")
  || String.eqb tag (CleanerDocx.qname "w" "moveTo").

(** The action [a] for the element with identity [i]. *)
Definition only (a : action) (i : nat) : classifier :=
  fun j _ => if j =? i then a else Keep.

(** The action [a] for the elements whose identity is in [l]. *)
Definition listed (a : action) (l : list nat) : classifier :=
  fun j _ => if existsb (Nat.eqb j) l then a else Keep.

(** The action [a] for the elements with the tag [t]. *)
Definition tagged (a : action) (t : string) : classifier :=
  fun _ tag => if String.eqb tag t then a else Keep.

(** [first], and [second] on what [first] keeps. *)
Definition and_then (first second : classifier) : classifier :=
  fun i tag =>
    match first i tag with
    | Keep => second i tag
    | a => a
    end.

(** How often the identity [i] occurs in the tree. *)
Definition occurrences (i : nat) (e : element) : nat :=
  count_occ Nat.eq_dec (ids e) i.

(** The child list with the children of the child [i] in its place. *)
Definition splice (i : nat) (cs : list element) : list element :=
  flat_map (fun c => if id_of c =? i then children_of c else [c]) cs.

(** What [only a i] makes of a child list whose members are not
    themselves rewritten. *)
Definition local (a : action) (i : nat) (c : element) : list element :=
  if id_of c =? i
  then match a with
       | Keep => [c]
       | Drop => []
       | Unwrap => children_of c
       end
  else [c].

(** No member of [l] has the identity [i]. *)
Definition absent (i : nat) (l : list element) : Prop :=
  forall c, In c l -> (id_of c =? i) = false.

End RevisionSpec.

(** ** Parts that do not parse *)

Module PartsSpec.

Definition parseable (fromstring : Utils.bytes -> option Xml.element)
    (part : string * Utils.bytes) : bool :=
  match fromstring (snd part) with
  | Some _ => true
  | None => false
  end.

End PartsSpec.

(** ** Code points *)

Module CodecSpec.

(** A Unicode scalar value: a code point that is not a surrogate. *)
Definition scalar (c : N) : bool :=
  ((c <? 55296) || ((57343 <? c) && (c <? 1114112)))%N.

End CodecSpec.

(** ** Safe file names *)

Module SafeNameSpec.

(** Every character is one of [[A-Za-z0-9._-]]. *)
Fixpoint all_safe (s : string) : bool :=
  match s with
  | "" => true
  | String c r => FilenameSpec.safe_char c && all_safe r
  end.

End SafeNameSpec.

(** ** Playbooks seen by the engine *)

Module PlaybookSpec.
Import Playbooks Rules.

(** The rule types that count matches. *)
Definition redacting_types : list string :=
  ["dictionary_entities"; "regex_patterns"; "keyword_list"].

(** An enabled rule of one of the four rule types. *)
Definition is_active (r : Rule) : bool :=
  enabled r
  && existsb (String.eqb (rule_type r)) ("allowlist" :: redacting_types).

Definition active_only (playbook : Playbook) : Playbook :=
  with_rules (filter is_active (rules playbook)) playbook.

Definition allowlist_only (playbook : Playbook) : Playbook :=
  with_rules (filter (fun r => String.eqb (rule_type r) "allowlist")
                     (rules playbook)) playbook.

(** The rules of a run whose patterns go through [re.compile]. *)
Definition compiling_rules (playbook : Playbook) : list Rule :=
  _rules_by_type playbook "allowlist" ++ _rules_by_type playbook "regex_patterns".

(** The pattern of the entry is empty or compiles, under the flag the
    engine passes for it. *)
Definition compiles (re_compile : string -> bool -> option Re.compiled)
    (rule : Rule) (entry : PatternEntry) : Prop :=
  PyStr.truthy (pattern entry) = true ->
  re_compile (PyStr.or_else (pattern entry) "")
    (case_insensitive rule || entry_case_insensitive entry) <> None.

Definition patterns_compile
    (re_compile : string -> bool -> option Re.compiled)
    (playbook : Playbook) : Prop :=
  forall rule entry,
    In rule (compiling_rules playbook) -> In entry (patterns rule) ->
    compiles re_compile rule entry.

(** Spans in order from [pos] on, none overlapping another, all
    inside a text of length [len]. *)
Fixpoint ordered (pos len : nat) (spans : list Re.span) : Prop :=
  match spans with
  | [] => True
  | (b, e) :: rest => pos <= b /\ b <= e /\ e <= len /\ ordered e len rest
  end.

(** An engine whose compiled patterns report spans in that way, as
    [finditer] does. *)
Definition orderly (re_compile : string -> bool -> option Re.compiled) : Prop :=
  forall pattern flag compiled text,
    re_compile pattern flag = Some compiled ->
    ordered 0 (String.length text) (compiled text).

(** [a] is [b] with some characters left out. *)
Inductive subsequence : string -> string -> Prop :=
| subsequence_empty : subsequence "" ""
| subsequence_keep c a b : subsequence a b -> subsequence (String c a) (String c b)
| subsequence_skip c a b : subsequence a b -> subsequence a (String c b).

(** The report names redacting rule types and enabled rules of the
    playbook only, each once. *)
Definition keys_known (pb : Playbook) (r : RuleMatchReport) : Prop :=
  Dict.wf (matches_by_rule_type r) /\ Dict.wf (matches_by_rule_id r)
  /\ (forall k, In k (Dict.keys (matches_by_rule_type r)) ->
        exists rule, In rule (rule_sequence pb) /\ rule_type rule = k)
  /\ (forall k, In k (Dict.keys (matches_by_rule_id r)) ->
        exists rule, In rule (rule_sequence pb) /\ rule_id rule = k).

End PlaybookSpec.

(** ** More sample playbooks *)

Module Samples.
Import Playbooks Rules Examples.

(** A keyword rule that removes its matches, alone in its playbook. *)
Definition removal_playbook : Playbook :=
  with_rules [corp_rule] (new_playbook "removal" "1").

(** A regex rule whose pattern does not compile. *)
Definition broken_rule : Rule :=
  with_patterns [entry "("] (new_rule "broken" "Broken" "regex_patterns").

Definition broken_playbook : Playbook :=
  with_rules [ssn_rule; broken_rule] (new_playbook "broken" "1").

(** A paragraph with a comment anchored on a run that was inserted. *)
Definition commented_document : Xml.element :=
  node 0 "document"
    [node 1 "body"
       [node 2 "p"
          [node 3 "commentRangeStart" [];
           node 4 "ins" [run 5 "new"];
           node 7 "commentRangeEnd" [];
           node 8 "r" [node 9 "commentReference" []]]]].

(** Core properties: an author, a revision count with an attribute and
    a tail, and a last editor without text. *)
Definition core_properties : Xml.element :=
  Xml.Element 0 (CleanerDocx.qname "cp" "coreProperties") [] None None
    [Xml.Element 1 (CleanerDocx.qname "dc" "creator") [] (Some "Alice") None [];
     Xml.Element 2 (CleanerDocx.qname "cp" "revision") [("unit", "edits")]
       (Some "3") (Some " kept ") [];
     Xml.Element 3 (CleanerDocx.qname "cp" "lastModifiedBy") [] None None []].

End Samples.

(** ** Cleaned trees *)

Module TreeSpec.
Import Xml RevisionSpec.

(** Comment anchors are taken out. *)
Definition comment_class : classifier :=
  fun _ tag =>
    if String.eqb tag (CleanerDocx.qname "w" "commentRangeStart") then Drop
    else if String.eqb tag (CleanerDocx.qname "w" "commentRangeEnd") then Drop
    else if String.eqb tag (CleanerDocx.qname "w" "commentReference") then Drop
    else Keep.

Definition is_comment_tag (tag : string) : bool :=
  String.eqb tag (CleanerDocx.qname "w" "commentRangeStart")
  || String.eqb tag (CleanerDocx.qname "w" "commentRangeEnd")
  || String.eqb tag (CleanerDocx.qname "w" "commentReference").

(** Revisions accepted and comment anchors taken out. *)
Definition clean_class : classifier := and_then accept_class comment_class.

(** What an element carries itself: everything but its children. *)
Definition shell (e : element)
    : nat * string * list (string * string) * option string * option string :=
  match e with Element i t a x tl _ => (i, t, a, x, tl) end.

(** The elements below [e] that a rewriting leaves in the tree, in
    document order: those that are neither dropped nor unwrapped nor
    below a dropped element. *)
Fixpoint survivors (cls : classifier) (e : element) : list element :=
  match e with
  | Element _ _ _ _ _ cs =>
      flat_map (fun c =>
                  match class_of cls c with
                  | Keep => c :: survivors cls c
                  | Drop => []
                  | Unwrap => survivors cls c
                  end) cs
  end.

(** The tree with the text of every element given by [f] from the
    identity, the tag and the text of the element. *)
Fixpoint retext (f : nat -> string -> option string -> option string)
    (e : element) : element :=
  match e with
  | Element i t a x tl cs => Element i t a (f i t x) tl (map (retext f) cs)
  end.

(** A text that is not empty becomes the empty text; no text stays no
    text. *)
Definition blank (x : option string) : option string :=
  if PyStr.truthy x then Some "" else x.

Definition wiped (tree : element) : element :=
  retext (fun _ _ x => blank x) tree.

Definition is_core_tag (tag : string) : bool :=
  String.eqb tag (CleanerDocx.qname "dc" "creator")
  || String.eqb tag (CleanerDocx.qname "cp" "lastModifiedBy")
  || String.eqb tag (CleanerDocx.qname "dcterms" "created")
  || String.eqb tag (CleanerDocx.qname "dcterms" "modified").

(** The four core properties below the root get the empty text, the
    other elements are blanked. *)
Definition core_wiped (tree : element) : element :=
  match tree with
  | Element i t a x tl cs =>
      Element i t a (blank x) tl
        (map (retext (fun _ tag x => if is_core_tag tag then Some "" else blank x))
             cs)
  end.

End TreeSpec.

(** ** Playbook documents *)

Module Documents.
Import Py Loader.

(** The order [sorted] puts strings in. *)
Definition ascending (l : list string) : Prop :=
  Sorted (fun a b => String.leb a b = true) l.

(** A rule of a loaded playbook has a known type and a known action. *)
Definition valid_rule (rule : Rule) : Prop :=
  In (rule_type rule) RULE_TYPES /\ In (action rule) ACTIONS.

(** A rule with a misspelt key and a key that is not used. *)
Definition misspelt_rule : Dict.t value :=
  [("type", VStr "keyword_list"); ("keyword", VList [VStr "ACME"]);
   ("id", VStr "k1"); ("Name", VStr "Keywords")].

(** A rule that gives null for what it does not set. *)
Definition sparse_rule : Dict.t value :=
  [("type", VStr "keyword_list"); ("enabled", VNone); ("scope", VNone);
   ("keywords", VList [VStr "ACME"])].

Definition keyword_rule : value :=
  VDict [("id", VStr "k1"); ("name", VStr "Keywords");
         ("type", VStr "keyword_list"); ("priority", VStr " 7 ");
         ("keywords", VList [VStr "ACME"])].

(** A playbook with a version that YAML reads as a number. *)
Definition small_playbook : value :=
  VDict [("name", VStr "default"); ("version", VInt 2);
         ("rules", VList [keyword_rule])].

(** A playbook whose second rule is a bare string. *)
Definition stray_playbook : Dict.t value :=
  [("name", VStr "default"); ("version", VInt 2);
   ("rules", VList [keyword_rule; VStr "keyword_list"; VInt 3])].

End Documents.

(** ** Dictionary rules with action REPLACE, key by key *)

Module MappingSpec.
Import Playbooks.

(** [s] with every occurrence of the non-empty [key] replaced, leftmost
    first and without overlap, letters compared without case when [ci]
    is set; what stands in for an occurrence is computed from the
    occurrence by [repl], which may raise.  [skip] counts the
    characters of the occurrence just replaced that are still to be
    passed over. *)
Fixpoint replace_by (ci : bool) (key : string) (repl : string -> option string)
    (s : string) (skip : nat) : option string :=
  match s with
  | "" => Some ""
  | String c r =>
      match skip with
      | S k => replace_by ci key repl r k
      | 0 =>
          if PyStr.starts_with_by ci key s then
            x <- repl (PyStr.take (String.length key) s) ;;
            tl <- replace_by ci key repl r (String.length key - 1) ;;
            Some (x ++ tl)%string
          else tl <- replace_by ci key repl r 0 ;; Some (String c tl)
      end
  end.

(** The text after the step of one dictionary key: every occurrence
    of [key] replaced by what the mapped [value] stands for as a
    replacement string of [re.sub].  The empty key occurs before every
    character and at the end. *)
Definition replace_mapped (ci : bool) (key value text : string)
    : option string :=
  match key with
  | "" => x <- Re.expand_template value "" ;; Some (PyStr.interleave x text)
  | _ => replace_by ci key (Re.expand_template value) text 0
  end.

(** The keys of a rule in the order of its dictionary, each applied to
    the text the keys before it have left. *)
Definition mapped_text (rule : Rule) (text : string) : option string :=
  fold_option
    (fun t item => replace_mapped (case_insensitive rule) (fst item) (snd item) t)
    (dictionary rule) text.

End MappingSpec.

(** A rule with two keys, the second of which occurs in the value of
    the first; a rule that ignores case; a rule whose value refers to
    the matched text. *)
Module MappingSamples.
Import Playbooks Rules.

Definition chain_rule : Rule :=
  with_action "REPLACE"
    (with_dictionary [("a", "b"); ("b", "c")]
       (new_rule "chain" "Chain" "dictionary_entities")).

Definition any_case_rule : Rule :=
  with_case_insensitive true
    (with_action "REPLACE"
       (with_dictionary [("acme", "X")]
          (new_rule "acme" "Acme" "dictionary_entities"))).

Definition suffix_rule : Rule :=
  with_action "REPLACE"
    (with_dictionary [("Inc", "\g<0>.")]
       (new_rule "inc" "Inc" "dictionary_entities")).

Definition mapping_playbook : Playbook :=
  with_rules [chain_rule; any_case_rule; suffix_rule]
    (new_playbook "mappings" "1").

End MappingSamples.

(** ** The searches of a run, one after the other *)

Module SearchSpec.
Import Playbooks Rules.

(** One search of the working text: the rule it belongs to, its
    compiled pattern ([None]: [re.compile] raises) and, for a
    dictionary key, the mapped value. *)
Record Search : Type := {
  owner : Rule;
  finder : option Re.compiled;
  mapped : option string
}.

(** The searches of a rule, in the order of its loop: one per
    dictionary key, one per non-empty pattern, one for a non-empty
    keyword list. *)
Definition searches_of (re_compile : string -> bool -> option Re.compiled)
    (rule : Rule) : list Search :=
  if String.eqb (rule_type rule) "dictionary_entities" then
    map (fun item =>
           {| owner := rule;
              finder := Some (Re.literal (case_insensitive rule) (fst item));
              mapped := Some (snd item) |})
        (dictionary rule)
  else if String.eqb (rule_type rule) "regex_patterns" then
    map (fun e =>
           {| owner := rule;
              finder := re_compile (PyStr.or_else (pattern e) "")
                          (case_insensitive rule || entry_case_insensitive e);
              mapped := None |})
        (filter (fun e => PyStr.truthy (pattern e)) (patterns rule))
  else if String.eqb (rule_type rule) "keyword_list" then
    match keywords rule with
    | [] => []
    | _ => [{| owner := rule;
               finder := Some (Re.alternation (case_insensitive rule)
                                 (keywords rule));
               mapped := None |}]
    end
  else [].

(** The searches of a run, in the order of the double loop. *)
Definition searches (re_compile : string -> bool -> option Re.compiled)
    (playbook : Playbook) : list Search :=
  flat_map (searches_of re_compile) (rule_sequence playbook).

(** The number of matches a search finds in a text. *)
Definition found (s : Search) (text : string) : Z :=
  match finder s with
  | Some c => Z.of_nat (List.length (Re.finditer c text))
  | None => 0%Z
  end.

(** The report after the search has been counted on [text]. *)
Definition counted (report : RuleMatchReport) (s : Search) (text : string)
    : RuleMatchReport :=
  _register_match report (owner s) (found s text).

(** The report of a run in which every search was counted on the text
    paired with it. *)
Definition report_of (l : list (Search * string)) : RuleMatchReport :=
  fold_left (fun r st => counted r (fst st) (snd st)) l empty_report.

(** The text a live run leaves after a search. *)
Definition substituted (playbook : Playbook) (s : Search) (text : string)
    : option string :=
  c <- finder s ;;
  match Re.finditer c text with
  | [] => Some text
  | _ =>
      match mapped s with
      | Some replacement =>
          if String.eqb (action (owner s)) "REMOVE" then
            Re.sub_template c "" text
          else if String.eqb (action (owner s)) "REPLACE" then
            Re.sub_template c replacement text
          else
            Re.sub c (fun m => _replacement_for_match m (owner s) playbook) text
      | None =>
          Re.sub c (fun m => _replacement_for_match m (owner s) playbook) text
      end
  end.

(** The texts the searches of a live run are given: the first is given
    [text], every other one the text the search before it has left. *)
Fixpoint live_texts (playbook : Playbook) (l : list Search) (text : string)
    : option (list string) :=
  match l with
  | [] => Some []
  | s :: rest =>
      text' <- substituted playbook s text ;;
      texts <- live_texts playbook rest text' ;;
      Some (text :: texts)
  end.

(** The body of the loops for one search: the search is counted on
    the text it is given, and a live run substitutes. *)
Definition search_step (playbook : Playbook) (dry_run : bool)
    (st : run_state) (s : Search) : option run_state :=
  _ <- finder s ;;
  if dry_run then Some (fst st, counted (snd st) s (fst st))
  else
    text' <- substituted playbook s (fst st) ;;
    Some (text', counted (snd st) s (fst st)).

(** The allowlist-protected text: the text the searches start from. *)
Definition protected_text (re_compile : string -> bool -> option Re.compiled)
    (text : string) (playbook : Playbook) : option string :=
  '(protected, _) <-
     _apply_allowlist re_compile text (_rules_by_type playbook "allowlist") [] ;;
  Some protected.

(** Two keyword rules that remove their matches: the second finds as
    many matches after the first has run as before. *)
Definition acme_rule : Rule :=
  with_action "REMOVE"
    (with_keywords ["Acme"] (new_rule "acme" "Acme" "keyword_list")).

Definition pays_rule : Rule :=
  with_action "REMOVE"
    (with_priority 200
       (with_keywords ["pays"] (new_rule "pays" "Pays" "keyword_list"))).

Definition two_removals : Playbook :=
  with_rules [acme_rule; pays_rule] (new_playbook "removals" "1").

End SearchSpec.

(** ** Loops that may raise *)

Lemma fold_option_invariant {A B} (P : A -> Prop) (f : A -> B -> option A) :
  (forall a x a', P a -> f a x = Some a' -> P a') ->
  forall l a a', P a -> fold_option f l a = Some a' -> P a'.
Proof.
  intros step l; induction l as [|x l IH]; simpl; intros a a' Pa H.
  - now inversion H; subst.
  - destruct (f a x) as [a1|] eqn:E; [|discriminate].
    eapply IH; [eapply step; eassumption | exact H].
Qed.

Lemma fold_option_ext {A B} (f g : A -> B -> option A) :
  (forall a x, f a x = g a x) ->
  forall l a, fold_option f l a = fold_option g l a.
Proof.
  intros E l; induction l as [|x l IH]; simpl; intros a; [reflexivity|].
  rewrite E. destruct (g a x); auto.
Qed.

Lemma fold_option_app {A B} (f : A -> B -> option A) (l1 l2 : list B) (a : A) :
  fold_option f (l1 ++ l2) a
  = match fold_option f l1 a with
    | Some a' => fold_option f l2 a'
    | None => None
    end.
Proof.
  revert a; induction l1 as [|x l1 IH]; simpl; intros a; [reflexivity|].
  destruct (f a x); auto.
Qed.

(** ** Reports *)

Module ReportFacts.
Import Playbooks Rules ReportSpec.

Lemma sum_values_set (d : Dict.t Z) (k : string) (c : Z) :
  sum_values (Dict.set d k (Dict.get_default d k 0 + c)%Z)
  = (sum_values d + c)%Z.
Proof.
  unfold sum_values, Dict.get_default.
  induction d as [|[k' v'] d IH]; simpl; [lia|].
  destruct (String.eqb k' k); simpl; [lia|].
  unfold Dict.values in *. rewrite IH. lia.
Qed.

Lemma all_positive_set (d : Dict.t Z) (k : string) (c : Z) :
  (0 < c)%Z -> all_positive d ->
  all_positive (Dict.set d k (Dict.get_default d k 0 + c)%Z).
Proof.
  unfold all_positive, Dict.get_default, Dict.values.
  intros Hc; induction d as [|[k' v'] d IH]; simpl; intros H.
  - constructor; [lia | constructor].
  - inversion H as [|? ? Hv Hd]; subst.
    destruct (String.eqb k' k); simpl; constructor; auto; lia.
Qed.

Lemma consistent_empty : consistent empty_report.
Proof. repeat split; constructor. Qed.

Lemma register_consistent (r : RuleMatchReport) (rule : Rule) (count : Z) :
  consistent r -> consistent (_register_match r rule count).
Proof.
  intros (Ht & Hi & Pt & Pi). unfold _register_match.
  destruct (count <=? 0)%Z eqn:E; [repeat split; assumption|].
  apply Z.leb_gt in E.
  repeat split; simpl.
  - rewrite sum_values_set; lia.
  - rewrite sum_values_set; lia.
  - now apply all_positive_set.
  - now apply all_positive_set.
Qed.

Section Engine.
Variable re_compile : string -> bool -> option Re.compiled.

Ltac settle :=
  repeat match goal with
    | H : Some _ = Some _ |- _ => inversion H; subst; clear H
    | H : None = Some _ |- _ => discriminate H
    | H : match ?x with _ => _ end = Some _ |- _ =>
        let E := fresh "E" in destruct x eqn:E
    end;
  simpl; auto using register_consistent.

Lemma dictionary_entry_consistent rule pb dry st item st' :
  consistent (snd st) ->
  dictionary_entry rule pb dry st item = Some st' -> consistent (snd st').
Proof.
  destruct st as [text r], item as [target replacement]; simpl.
  intros C H. unfold dictionary_entry in H. settle.
Qed.

Lemma regex_entry_consistent rule pb dry st entry st' :
  consistent (snd st) ->
  regex_entry re_compile rule pb dry st entry = Some st' -> consistent (snd st').
Proof.
  destruct st as [text r]; simpl.
  intros C H. unfold regex_entry in H. settle.
Qed.

Lemma apply_rule_consistent text rule pb r dry st' :
  consistent r ->
  _apply_rule re_compile text rule pb r dry = Some st' -> consistent (snd st').
Proof.
  intros C H. unfold _apply_rule in H.
  destruct (String.eqb (rule_type rule) "dictionary_entities").
  { unfold _apply_dictionary in H.
    revert H. apply (fold_option_invariant (fun st => consistent (snd st))); auto.
    intros; eapply dictionary_entry_consistent; eauto. }
  destruct (String.eqb (rule_type rule) "regex_patterns").
  { unfold _apply_regex_patterns in H.
    revert H. apply (fold_option_invariant (fun st => consistent (snd st))); auto.
    intros; eapply regex_entry_consistent; eauto. }
  destruct (String.eqb (rule_type rule) "keyword_list").
  { unfold _apply_keywords in H. settle. }
  settle.
Qed.

Lemma apply_rules_consistent text pb dry out r :
  apply_rules re_compile text pb dry = Some (out, r) -> consistent r.
Proof.
  unfold apply_rules. intros H.
  destruct (_apply_allowlist _ _ _ _) as [[protected placeholders]|]; [|discriminate].
  destruct (fold_option _ _ _) as [[t' r']|] eqn:F; [|discriminate].
  inversion H; subst; clear H.
  change r with (snd (t', r)).
  revert F. apply (fold_option_invariant (fun st => consistent (snd st))).
  - intros [t0 r0] rule a' C0 H0; simpl in *.
    eapply apply_rule_consistent; eauto.
  - apply consistent_empty.
Qed.

End Engine.

End ReportFacts.

(** ** Merged reports *)

Module MergeFacts.
Import Playbooks Rules ReportSpec ReportFacts ProcessorDocx.

Lemma sum_values_cons (k : string) (v : Z) (d : Dict.t Z) :
  sum_values ((k, v) :: d) = (v + sum_values d)%Z.
Proof. reflexivity. Qed.

Lemma sum_values_add_counts (source target : Dict.t Z) :
  sum_values (add_counts target source)
  = (sum_values target + sum_values source)%Z.
Proof.
  unfold add_counts.
  revert target; induction source as [|[k v] source IH]; intros target.
  - simpl. change (sum_values []) with 0%Z. lia.
  - simpl fold_left. rewrite IH, sum_values_set, sum_values_cons. lia.
Qed.

Lemma all_positive_add_counts (source target : Dict.t Z) :
  all_positive source -> all_positive target ->
  all_positive (add_counts target source).
Proof.
  unfold add_counts.
  revert target; induction source as [|[k v] source IH]; intros target Hs Ht;
    simpl; [assumption|].
  inversion Hs; subst. apply IH; [assumption|].
  now apply all_positive_set.
Qed.

Lemma merge_consistent (target report : RuleMatchReport) :
  consistent target -> consistent report ->
  consistent (_merge_reports target report).
Proof.
  intros (Ht & Hi & Pt & Pi) (Ht' & Hi' & Pt' & Pi').
  repeat split; simpl.
  - rewrite sum_values_add_counts; lia.
  - rewrite sum_values_add_counts; lia.
  - now apply all_positive_add_counts.
  - now apply all_positive_add_counts.
Qed.

Section Engine.
Variable re_compile : string -> bool -> option Re.compiled.
Variable fromstring : bytes -> option Xml.element.
Variable tostring : Xml.element -> bytes.

Lemma text_node_step_consistent pb dry st node st' :
  consistent (snd (fst st)) ->
  text_node_step re_compile pb dry st node = Some st' ->
  consistent (snd (fst st')).
Proof.
  destruct st as [[tree agg] modified]; simpl; intros C H.
  unfold text_node_step in H.
  destruct (Xml.find_node node tree) as [e|]; [|inversion H; subst; exact C].
  destruct (Xml.text_of e) as [text|]; [|inversion H; subst; exact C].
  destruct (apply_rules re_compile text pb dry) as [[redacted report]|] eqn:A;
    [|discriminate].
  apply apply_rules_consistent in A.
  destruct (negb dry && negb (redacted =? text)%string);
    inversion H; subst; simpl; now apply merge_consistent.
Qed.

Lemma part_step_consistent pb dry st part st' :
  consistent (snd st) ->
  part_step re_compile fromstring tostring pb dry st part = Some st' ->
  consistent (snd st').
Proof.
  destruct st as [updated agg], part as [name data]; simpl; intros C H.
  destruct (negb (PyStr.startswith name "word/") || negb (PyStr.endswith name ".xml"));
    [inversion H; subst; exact C|].
  destruct (fromstring data) as [tree|]; [|inversion H; subst; exact C].
  destruct (fold_option _ _ _) as [[[tree' agg'] modified]|] eqn:F; [|discriminate].
  assert (C' : consistent agg').
  { change agg' with (snd (fst (tree', agg', modified))).
    revert F.
    apply (fold_option_invariant (fun s => consistent (snd (fst s)))); [|exact C].
    intros; eapply text_node_step_consistent; eauto. }
  destruct modified; inversion H; subst; exact C'.
Qed.

Lemma apply_rules_to_parts_consistent parts pb dry out agg :
  _apply_rules_to_parts re_compile fromstring tostring parts pb dry
  = Some (out, agg) ->
  consistent agg.
Proof.
  unfold _apply_rules_to_parts. intros F.
  change agg with (snd (out, agg)). revert F.
  apply (fold_option_invariant (fun s => consistent (snd s)));
    [|apply consistent_empty].
  intros; eapply part_step_consistent; eauto.
Qed.

End Engine.

End MergeFacts.

(** ** Dry run against live run *)

Module DryRunFacts.
Import Playbooks Rules ReportSpec.

Section Engine.
Variable re_compile : string -> bool -> option Re.compiled.

Ltac split_match H :=
  repeat match type of H with
    | Some _ = Some _ => inversion H; subst; clear H
    | None = Some _ => discriminate H
    | match ?x with _ => _ end = Some _ =>
        let E := fresh "E" in destruct x eqn:E
    end.

Lemma dictionary_entry_dry rule pb text r item t1 r1 :
  dictionary_entry rule pb false (text, r) item = Some (t1, r1) ->
  dictionary_entry rule pb true (text, r) item = Some (text, r1).
Proof.
  destruct item as [target replacement]. unfold dictionary_entry.
  cbv beta iota zeta. intros H.
  destruct (Re.finditer (Re.literal (case_insensitive rule) target) text).
  - inversion H; reflexivity.
  - split_match H; reflexivity.
Qed.

Lemma regex_entry_dry rule pb text r entry t1 r1 :
  regex_entry re_compile rule pb false (text, r) entry = Some (t1, r1) ->
  regex_entry re_compile rule pb true (text, r) entry = Some (text, r1).
Proof.
  unfold regex_entry. cbv beta iota zeta. intros H.
  destruct (negb (PyStr.truthy (pattern entry))); [inversion H; reflexivity|].
  destruct (re_compile _ _) as [c|]; [|discriminate].
  destruct (Re.finditer c text).
  - inversion H; reflexivity.
  - split_match H; reflexivity.
Qed.

Lemma regex_entry_falsy rule pb dry st entry :
  PyStr.truthy (pattern entry) = false ->
  regex_entry re_compile rule pb dry st entry = Some st.
Proof.
  intros F. destruct st as [text r]. unfold regex_entry. now rewrite F.
Qed.

Lemma regex_entries_none rule pb dry st entries :
  filter (fun e => PyStr.truthy (pattern e)) entries = [] ->
  fold_option (regex_entry re_compile rule pb dry) entries st = Some st.
Proof.
  induction entries as [|e entries IH]; cbn [fold_option filter]; [reflexivity|].
  destruct (PyStr.truthy (pattern e)) eqn:T; [discriminate|].
  intros F. rewrite regex_entry_falsy by assumption. auto.
Qed.

Lemma regex_entries_dry rule pb entries : forall text r t1 r1,
  List.length (filter (fun e => PyStr.truthy (pattern e)) entries) <= 1 ->
  fold_option (regex_entry re_compile rule pb false) entries (text, r)
  = Some (t1, r1) ->
  fold_option (regex_entry re_compile rule pb true) entries (text, r)
  = Some (text, r1).
Proof.
  induction entries as [|e entries IH]; cbn [fold_option filter];
    intros text r t1 r1 L H.
  - inversion H; reflexivity.
  - destruct (PyStr.truthy (pattern e)) eqn:T.
    + cbn [List.length] in L.
      assert (Z : filter (fun e => PyStr.truthy (pattern e)) entries = []).
      { destruct (filter _ entries); [reflexivity | simpl in L; lia]. }
      destruct (regex_entry re_compile rule pb false (text, r) e)
        as [[t2 r2]|] eqn:E; [|discriminate].
      rewrite regex_entries_none in H by assumption.
      inversion H; subst.
      rewrite (regex_entry_dry _ _ _ _ _ _ _ E).
      now apply regex_entries_none.
    + rewrite regex_entry_falsy in * by assumption.
      eapply IH; eassumption.
Qed.

(** A rule that makes no pass leaves the text and the report alone. *)
Lemma apply_rule_no_pass text rule pb r dry :
  passes_of rule = 0 ->
  _apply_rule re_compile text rule pb r dry = Some (text, r).
Proof.
  unfold passes_of, _apply_rule. intros P.
  destruct (String.eqb (rule_type rule) "dictionary_entities").
  { unfold _apply_dictionary. destruct (dictionary rule); [reflexivity|discriminate]. }
  destruct (String.eqb (rule_type rule) "regex_patterns").
  { unfold _apply_regex_patterns. apply regex_entries_none.
    now apply length_zero_iff_nil. }
  destruct (String.eqb (rule_type rule) "keyword_list"); [|reflexivity].
  unfold _apply_keywords. destruct (keywords rule); [reflexivity|discriminate].
Qed.

(** A rule that makes one pass counts the same matches in both modes. *)
Lemma apply_rule_one_pass text rule pb r t1 r1 :
  passes_of rule <= 1 ->
  _apply_rule re_compile text rule pb r false = Some (t1, r1) ->
  _apply_rule re_compile text rule pb r true = Some (text, r1).
Proof.
  unfold passes_of, _apply_rule. intros P H.
  destruct (String.eqb (rule_type rule) "dictionary_entities").
  { unfold _apply_dictionary in *.
    destruct (dictionary rule) as [|item [|item' d]];
      cbn [fold_option List.length] in *.
    - inversion H; reflexivity.
    - destruct (dictionary_entry rule pb false (text, r) item)
        as [[t2 r2]|] eqn:E; [|discriminate].
      inversion H; subst.
      now rewrite (dictionary_entry_dry _ _ _ _ _ _ _ E).
    - lia. }
  destruct (String.eqb (rule_type rule) "regex_patterns").
  { eapply regex_entries_dry; eassumption. }
  destruct (String.eqb (rule_type rule) "keyword_list").
  { unfold _apply_keywords in *.
    destruct (keywords rule); [inversion H; reflexivity|].
    destruct (Re.finditer _ text); [inversion H; reflexivity|].
    cbn [negb] in *. split_match H. reflexivity. }
  inversion H; reflexivity.
Qed.

Lemma rules_no_pass pb dry rs st :
  list_sum (map passes_of rs) = 0 ->
  fold_option (rule_step re_compile pb dry) rs st = Some st.
Proof.
  induction rs as [|rule rs IH]; cbn [fold_option map list_sum fold_right];
    [reflexivity|]. intros P.
  unfold rule_step at 1. rewrite apply_rule_no_pass by lia.
  destruct st; cbn [fst snd]. apply IH. unfold list_sum. lia.
Qed.

Lemma rules_one_pass pb rs : forall text r t1 r1,
  list_sum (map passes_of rs) <= 1 ->
  fold_option (rule_step re_compile pb false) rs (text, r) = Some (t1, r1) ->
  fold_option (rule_step re_compile pb true) rs (text, r) = Some (text, r1).
Proof.
  induction rs as [|rule rs IH]; cbn [fold_option map list_sum fold_right];
    intros text r t1 r1 P H.
  - inversion H; reflexivity.
  - destruct (passes_of rule) as [|n] eqn:N.
    + unfold rule_step at 1 in H. unfold rule_step at 1.
      cbn [fst snd] in *. rewrite apply_rule_no_pass in * by assumption.
      eapply IH; [unfold list_sum; lia | eassumption].
    + unfold rule_step at 1 in H. unfold rule_step at 1. cbn [fst snd] in *.
      destruct (_apply_rule re_compile text rule pb r false)
        as [[t2 r2]|] eqn:E; [|discriminate].
      rewrite rules_no_pass in H by (unfold list_sum; lia).
      inversion H; subst.
      assert (L : passes_of rule <= 1) by lia.
      rewrite (apply_rule_one_pass _ _ _ _ _ _ L E).
      apply rules_no_pass. unfold list_sum. lia.
Qed.

End Engine.

End DryRunFacts.

(** ** Strings *)

Module StrFacts.
Import PyStr.

Lemma app_nil_r (s : string) : (s ++ "")%string = s.
Proof. induction s; simpl; congruence. Qed.

Lemma app_assoc (a b c : string) : ((a ++ b) ++ c)%string = (a ++ (b ++ c))%string.
Proof. induction a; simpl; congruence. Qed.

Lemma length_app (a b : string) :
  String.length (a ++ b) = String.length a + String.length b.
Proof. induction a; simpl; congruence. Qed.

Lemma drop_0 (s : string) : drop 0 s = s.
Proof. destruct s; reflexivity. Qed.

Lemma take_0 (s : string) : take 0 s = "".
Proof. destruct s; reflexivity. Qed.

Lemma drop_app (pre s : string) : drop (String.length pre) (pre ++ s) = s.
Proof. induction pre; simpl; [apply drop_0 | assumption]. Qed.

Lemma drop_drop (n m : nat) (s : string) : drop n (drop m s) = drop (m + n) s.
Proof.
  revert s; induction m as [|m IH]; intros s; simpl.
  - reflexivity.
  - destruct s; simpl; [now destruct n | apply IH].
Qed.

Lemma take_drop (n : nat) (s : string) : (take n s ++ drop n s)%string = s.
Proof.
  revert s; induction n as [|n IH]; intros s; destruct s; simpl; try reflexivity.
  now rewrite IH.
Qed.

Lemma take_add (n m : nat) (s : string) :
  take (n + m) s = (take n s ++ take m (drop n s))%string.
Proof.
  revert s; induction n as [|n IH]; intros s; simpl.
  - reflexivity.
  - destruct s; simpl; [now destruct m | now rewrite IH].
Qed.

Lemma length_drop (n : nat) (s : string) :
  String.length (drop n s) = String.length s - n.
Proof.
  revert s; induction n as [|n IH]; intros s; destruct s; simpl; auto.
Qed.

Lemma length_take (n : nat) (s : string) :
  String.length (take n s) = Nat.min n (String.length s).
Proof.
  revert s; induction n as [|n IH]; intros s; destruct s; simpl; auto.
Qed.

Lemma drop_all (n : nat) (s : string) : String.length s <= n -> drop n s = "".
Proof.
  revert s; induction n as [|n IH]; intros s L; destruct s; simpl in *;
    try reflexivity; try lia.
  apply IH; lia.
Qed.

(** [text[a:b] + text[b:]] is [text[a:]]. *)
Lemma slice_drop (a b : nat) (text : string) :
  a <= b -> (slice a b text ++ drop b text)%string = drop a text.
Proof.
  intros L. unfold slice.
  replace (drop b text) with (drop (b - a) (drop a text))
    by (rewrite drop_drop; f_equal; lia).
  apply take_drop.
Qed.

(** [text[a:b] + text[b:c]] is [text[a:c]]. *)
Lemma slice_slice (a b c : nat) (text : string) :
  a <= b -> b <= c ->
  (slice a b text ++ slice b c text)%string = slice a c text.
Proof.
  intros L1 L2. unfold slice.
  replace (c - a) with ((b - a) + (c - b)) by lia.
  rewrite take_add, drop_drop. do 3 f_equal. lia.
Qed.

Lemma slice_at (pre s : string) (n : nat) :
  slice (String.length pre) (String.length pre + n) (pre ++ s) = take n s.
Proof.
  unfold slice. rewrite drop_app. f_equal. lia.
Qed.

Lemma snoc_app (pre : string) (c : ascii) (s : string) :
  ((pre ++ String c "") ++ s)%string = (pre ++ String c s)%string.
Proof. now rewrite app_assoc. Qed.

Lemma starts_with_length (ci : bool) (p s : string) :
  starts_with_by ci p s = true -> String.length p <= String.length s.
Proof.
  revert s; induction p as [|a p IH]; intros s; simpl; [lia|].
  destruct s as [|b s]; [discriminate|].
  intros H. apply andb_prop in H as [_ H]. apply IH in H. simpl; lia.
Qed.

End StrFacts.

(** ** [Re.sub] over the spans of a scan *)

Module ScanFacts.
Import PyStr StrFacts Re ScanSpec.

(** Starting the rebuild earlier only adds the text in between. *)
Lemma sub_from_shift repl text spans (a b : nat) :
  a <= b ->
  (forall s e rest, spans = (s, e) :: rest -> b <= s) ->
  sub_from repl text a spans
  = option_map (fun x => (slice a b text ++ x)%string) (sub_from repl text b spans).
Proof.
  intros L H. destruct spans as [|[s e] rest]; cbn [sub_from option_map].
  - now rewrite slice_drop.
  - specialize (H s e rest eq_refl).
    destruct (repl (slice s e text)); [|reflexivity].
    destruct (sub_from repl text e rest); [|reflexivity].
    cbn [option_map]. rewrite <- (slice_slice a b s) by assumption.
    now rewrite app_assoc.
Qed.

(** No span of a scan starts before the position the scan has reached. *)
Lemma scan_head m s : forall pos skip b e rest,
  scan m s pos skip = (b, e) :: rest -> pos + skip <= b.
Proof.
  induction s as [|c r IH]; intros pos skip b e rest.
  - destruct skip; simpl; [|discriminate].
    destruct (m "" false) as [[|n]|]; try discriminate.
    + intros H; inversion H; lia.
    + intros H; inversion H; lia.
  - destruct skip as [|k]; simpl.
    + destruct (m (String c r) false) as [[|n]|].
      * intros H; inversion H; lia.
      * intros H; inversion H; lia.
      * intros H. apply IH in H. lia.
    + intros H. apply IH in H. lia.
Qed.

(** [Re.sub] is [rewrite_go] for a proper matcher. *)
Lemma sub_scan m repl (P : proper m) s : forall pre skip,
  sub_from repl (pre ++ s) (String.length pre + skip)
    (scan m s (String.length pre) skip)
  = rewrite_go m repl s skip.
Proof.
  induction s as [|c r IH]; intros pre skip.
  - assert (E : scan m "" (String.length pre) skip = []).
    { destruct skip; simpl; [|reflexivity].
      destruct (m "" false) as [n|] eqn:M; [|reflexivity].
      apply P in M. simpl in M. lia. }
    rewrite E. simpl. f_equal. apply drop_all.
    rewrite length_app; simpl; lia.
  - pose proof (IH (pre ++ String c "")%string) as IH'.
    rewrite snoc_app, length_app in IH'. simpl String.length in IH'.
    replace (String.length pre + 1) with (S (String.length pre)) in IH' by lia.
    destruct skip as [|k].
    + simpl scan. simpl rewrite_go.
      destruct (m (String c r) false) as [[|n]|] eqn:M.
      * apply P in M. lia.
      * cbn [sub_from].
        rewrite slice_at.
        change (take (S n) (String c r)) with (String c (take n r)).
        destruct (repl (String c (take n r))) as [x|]; [|reflexivity].
        replace (String.length pre + S n) with (S (String.length pre) + n) by lia.
        rewrite IH'.
        destruct (rewrite_go m repl r n) as [tl|]; [|reflexivity].
        unfold slice. rewrite Nat.add_0_r, Nat.sub_diag, take_0. reflexivity.
      * rewrite (sub_from_shift repl _ _ (String.length pre + 0)
                   (S (String.length pre) + 0)).
        -- rewrite IH'.
           destruct (rewrite_go m repl r 0) as [tl|]; [|reflexivity].
           cbn [option_map]. f_equal.
           replace (S (String.length pre) + 0) with (String.length pre + 1) by lia.
           rewrite Nat.add_0_r, slice_at. reflexivity.
        -- lia.
        -- intros b e rest H. apply scan_head in H. lia.
    + simpl scan. simpl rewrite_go.
      replace (String.length pre + S k) with (S (String.length pre) + k) by lia.
      apply IH'.
Qed.

Lemma sub_rewrite m repl (P : proper m) (text : string) :
  sub (of_matcher m) repl text = rewrite_go m repl text 0.
Proof.
  unfold sub, of_matcher.
  exact (sub_scan m repl P text "" 0).
Qed.

End ScanFacts.

(** ** Dictionary rules *)

Module DictionaryFacts.
Import PyStr StrFacts Re ScanSpec ScanFacts Playbooks Rules TemplateSpec.

Lemma literal_proper (ci : bool) (k : string) :
  k <> "" -> proper (match_literal ci k).
Proof.
  intros K s ma n. unfold match_literal.
  destruct (starts_with_by ci k s) eqn:W; [|discriminate].
  apply starts_with_length in W.
  destruct k as [|a k]; [congruence|]. simpl in *.
  intros H; inversion H; subst. lia.
Qed.

Lemma expand_no_backslash (v matched : string) :
  no_backslash v = true -> expand_template v matched = Some v.
Proof.
  unfold expand_template.
  induction v as [|c v IH]; cbn [expand_go no_backslash]; [reflexivity|].
  intros H. apply andb_prop in H as [C V].
  apply negb_true_iff in C. rewrite C, (IH V). reflexivity.
Qed.

Lemma rewrite_literal (k v : string) (s : string) : forall skip,
  k <> "" -> no_backslash v = true ->
  rewrite_go (match_literal false k) (expand_template v) s skip
  = Some (replace_go k v s skip).
Proof.
  induction s as [|c r IH]; intros skip K V; [reflexivity|].
  destruct skip as [|n]; cbn [rewrite_go replace_go]; [|now apply IH].
  unfold match_literal at 1.
  destruct (starts_with_by false k (String c r)) eqn:W.
  - destruct k as [|a k]; [congruence|].
    cbn [String.length]. rewrite expand_no_backslash by assumption.
    rewrite IH by assumption. simpl. now rewrite Nat.sub_0_r.
  - now rewrite IH.
Qed.

(** On a literal pattern [Re.sub] with a template free of backslashes is
    [str.replace]. *)
Lemma sub_template_literal (k v text : string) :
  k <> "" -> no_backslash v = true ->
  sub_template (literal false k) v text = Some (replace text k v).
Proof.
  intros K V. unfold sub_template, literal.
  rewrite (expand_no_backslash v "" V).
  rewrite sub_rewrite by now apply literal_proper.
  rewrite rewrite_literal by assumption.
  destruct k; [congruence | reflexivity].
Qed.

Lemma sub_from_ext (f g : string -> option string) (text : string) :
  (forall m, f m = g m) ->
  forall spans pos, sub_from f text pos spans = sub_from g text pos spans.
Proof.
  intros E spans; induction spans as [|[b e] rest IH]; intros pos; simpl;
    [reflexivity|].
  now rewrite E, IH.
Qed.

(** *** The template of a dictionary rule with action REPLACE is not read *)

Lemma retemplate_rule_fields t r :
  rule_type (retemplate_rule t r) = rule_type r
  /\ enabled (retemplate_rule t r) = enabled r
  /\ priority (retemplate_rule t r) = priority r
  /\ rule_id (retemplate_rule t r) = rule_id r
  /\ action (retemplate_rule t r) = action r
  /\ phrases (retemplate_rule t r) = phrases r
  /\ patterns (retemplate_rule t r) = patterns r
  /\ dictionary (retemplate_rule t r) = dictionary r
  /\ keywords (retemplate_rule t r) = keywords r
  /\ case_insensitive (retemplate_rule t r) = case_insensitive r.
Proof.
  unfold retemplate_rule. destruct (is_dictionary_replace r); repeat split.
Qed.

Lemma filter_map_commute {A} (p : A -> bool) (g : A -> A) (l : list A) :
  (forall x, p (g x) = p x) -> filter p (map g l) = map g (filter p l).
Proof.
  intros E; induction l as [|x l IH]; simpl; [reflexivity|].
  rewrite E. destruct (p x); simpl; now rewrite IH.
Qed.

Lemma insert_retemplate t r l :
  insert_by_priority (retemplate_rule t r) (map (retemplate_rule t) l)
  = map (retemplate_rule t) (insert_by_priority r l).
Proof.
  induction l as [|x l IH]; simpl; [reflexivity|].
  destruct (retemplate_rule_fields t r) as (_ & _ & -> & _).
  destruct (retemplate_rule_fields t x) as (_ & _ & -> & _).
  destruct (priority r <=? priority x)%Z; simpl; [reflexivity|].
  now rewrite IH.
Qed.

Lemma sorted_retemplate t l :
  sorted_by_priority (map (retemplate_rule t) l)
  = map (retemplate_rule t) (sorted_by_priority l).
Proof.
  induction l as [|x l IH]; simpl; [reflexivity|].
  now rewrite IH, insert_retemplate.
Qed.

Lemma rules_by_type_retemplate t pb type :
  _rules_by_type (retemplate t pb) type
  = map (retemplate_rule t) (_rules_by_type pb type).
Proof.
  unfold _rules_by_type, retemplate. simpl.
  rewrite filter_map_commute, sorted_retemplate; [reflexivity|].
  intros x.
  destruct (retemplate_rule_fields t x) as (-> & -> & _). reflexivity.
Qed.

Lemma rule_sequence_retemplate t pb :
  rule_sequence (retemplate t pb) = map (retemplate_rule t) (rule_sequence pb).
Proof.
  unfold rule_sequence. cbn [flat_map].
  rewrite !rules_by_type_retemplate, !map_app. reflexivity.
Qed.

Section Engine.
Variable re_compile : string -> bool -> option compiled.

Lemma allowlist_patterns_flag r r' entries : forall st,
  case_insensitive r' = case_insensitive r ->
  allowlist_patterns re_compile r' st entries
  = allowlist_patterns re_compile r st entries.
Proof.
  induction entries as [|e entries IH]; intros st C; simpl; [reflexivity|].
  unfold allowlist_pattern. rewrite C.
  destruct st as [[protected counter] placeholders].
  destruct (negb (truthy (pattern e))); [now apply IH|].
  destruct (re_compile _ _); [now apply IH | reflexivity].
Qed.

Lemma allowlist_rule_retemplate t st r :
  allowlist_rule re_compile st (retemplate_rule t r)
  = allowlist_rule re_compile st r.
Proof.
  unfold allowlist_rule.
  destruct (retemplate_rule_fields t r)
    as (_ & _ & _ & _ & _ & -> & -> & _ & _ & C).
  now apply allowlist_patterns_flag.
Qed.

Lemma allowlist_rules_retemplate t rs : forall st,
  allowlist_rules re_compile st (map (retemplate_rule t) rs)
  = allowlist_rules re_compile st rs.
Proof.
  induction rs as [|r rs IH]; intros st; simpl; [reflexivity|].
  rewrite allowlist_rule_retemplate.
  destruct (allowlist_rule re_compile st r); auto.
Qed.

Lemma dictionary_entry_retemplate t r pb pb' dry st item :
  is_dictionary_replace r = true ->
  dictionary_entry (with_replacement_template t r) pb' dry st item
  = dictionary_entry r pb dry st item.
Proof.
  unfold is_dictionary_replace. intros H.
  apply andb_prop in H as [_ A]. apply String.eqb_eq in A.
  destruct st as [text report], item as [target replacement].
  unfold dictionary_entry. cbn [action case_insensitive with_replacement_template].
  rewrite A. reflexivity.
Qed.

(** The entries of a rule read the playbook for its redaction mode
    and mask character only. *)
Lemma replacement_playbook m r pb pb' :
  redaction_mode pb' = redaction_mode pb -> mask_char pb' = mask_char pb ->
  _replacement_for_match m r pb' = _replacement_for_match m r pb.
Proof. unfold _replacement_for_match. now intros -> ->. Qed.

Lemma sub_playbook c r pb pb' text :
  redaction_mode pb' = redaction_mode pb -> mask_char pb' = mask_char pb ->
  sub c (fun m => _replacement_for_match m r pb') text
  = sub c (fun m => _replacement_for_match m r pb) text.
Proof.
  intros M C. unfold sub. apply sub_from_ext.
  intros m. now apply replacement_playbook.
Qed.

Lemma apply_rule_playbook text r pb pb' report dry :
  redaction_mode pb' = redaction_mode pb -> mask_char pb' = mask_char pb ->
  _apply_rule re_compile text r pb' report dry
  = _apply_rule re_compile text r pb report dry.
Proof.
  intros M C. unfold _apply_rule.
  destruct (String.eqb (rule_type r) "dictionary_entities").
  { unfold _apply_dictionary. apply fold_option_ext.
    intros [u rep] [target replacement]. unfold dictionary_entry.
    now rewrite (sub_playbook _ r pb pb'). }
  destruct (String.eqb (rule_type r) "regex_patterns").
  { unfold _apply_regex_patterns. apply fold_option_ext.
    intros [u rep] entry. unfold regex_entry.
    destruct (negb (truthy (pattern entry))); [reflexivity|].
    destruct (re_compile _ _) as [c|]; [|reflexivity].
    now rewrite (sub_playbook _ r pb pb'). }
  destruct (String.eqb (rule_type r) "keyword_list"); [|reflexivity].
  unfold _apply_keywords. now rewrite (sub_playbook _ r pb pb').
Qed.

Lemma apply_rule_retemplate t text r pb report dry :
  _apply_rule re_compile text (retemplate_rule t r) (retemplate t pb) report dry
  = _apply_rule re_compile text r pb report dry.
Proof.
  rewrite (apply_rule_playbook _ _ pb) by reflexivity.
  unfold retemplate_rule.
  destruct (is_dictionary_replace r) eqn:D; [|reflexivity].
  pose proof D as D'. unfold is_dictionary_replace in D'.
  apply andb_prop in D' as [T _].
  unfold _apply_rule. cbn [rule_type with_replacement_template]. rewrite T.
  unfold _apply_dictionary. cbn [dictionary with_replacement_template].
  apply fold_option_ext. intros st item.
  now apply dictionary_entry_retemplate.
Qed.

Lemma rule_steps_retemplate t pb dry rs : forall st,
  fold_option
    (fun st rule =>
       _apply_rule re_compile (fst st) rule (retemplate t pb) (snd st) dry)
    (map (retemplate_rule t) rs) st
  = fold_option
      (fun st rule => _apply_rule re_compile (fst st) rule pb (snd st) dry)
      rs st.
Proof.
  induction rs as [|r rs IH]; intros st; simpl; [reflexivity|].
  rewrite apply_rule_retemplate.
  destruct (_apply_rule re_compile (fst st) r pb (snd st) dry); auto.
Qed.

Lemma apply_rules_retemplate t text pb dry :
  apply_rules re_compile text (retemplate t pb) dry
  = apply_rules re_compile text pb dry.
Proof.
  unfold apply_rules, _apply_allowlist. cbv zeta.
  rewrite rules_by_type_retemplate, allowlist_rules_retemplate.
  destruct (allowlist_rules _ _ _) as [[[protected counter] placeholders]|];
    [|reflexivity].
  rewrite rule_sequence_retemplate.
  unfold run_state. rewrite rule_steps_retemplate. reflexivity.
Qed.

(** A playbook with one enabled dictionary rule with action REPLACE
    and one key. *)
Lemma apply_rules_single_key text pb rule k v :
  rules pb = [rule] -> enabled rule = true ->
  rule_type rule = "dictionary_entities" -> action rule = "REPLACE" ->
  case_insensitive rule = false -> dictionary rule = [(k, v)] ->
  k <> "" -> no_backslash v = true ->
  exists report,
    apply_rules re_compile text pb false = Some (replace text k v, report).
Proof.
  intros R E T A C D K V.
  pose proof (sub_template_literal k v text K V) as S.
  unfold apply_rules, rule_sequence, _rules_by_type. cbv zeta.
  rewrite R. cbn [filter flat_map]. rewrite T, E.
  cbn [String.eqb Ascii.eqb Bool.eqb andb filter sorted_by_priority fold_right
       insert_by_priority app _apply_allowlist allowlist_rules fold_option
       fst snd].
  unfold _apply_rule. rewrite T. cbn [String.eqb Ascii.eqb Bool.eqb].
  unfold _apply_dictionary. rewrite D. cbn [fold_option].
  unfold dictionary_entry. rewrite C, A.
  cbn [String.eqb Ascii.eqb Bool.eqb]. rewrite S.
  unfold sub_template, sub, finditer in *.
  rewrite (expand_no_backslash v "" V) in S.
  destruct (literal false k text) as [|sp spans].
  - cbn [sub_from] in S. rewrite drop_0 in S.
    exists empty_report. cbn [fold_left]. congruence.
  - eexists; reflexivity.
Qed.

End Engine.

End DictionaryFacts.

(** ** File names *)

Module FilenameFacts.
Import PyStr StrFacts Re ScanSpec ScanFacts Regex FilenameSpec.

Lemma parse_safe_pattern : parse "[^A-Za-z0-9._-]+" = Some unsafe_run.
Proof. vm_compute; reflexivity. Qed.

Lemma SAFE_FILENAME_PATTERN_compiles :
  Regex.compile "[^A-Za-z0-9._-]+" false
  = Some (of_matcher (to_matcher false unsafe_run))
  /\ Utils.SAFE_FILENAME_PATTERN = of_matcher (to_matcher false unsafe_run).
Proof.
  unfold Utils.SAFE_FILENAME_PATTERN, Regex.compile.
  rewrite parse_safe_pattern. split; reflexivity.
Qed.

Lemma unsafe_set_matches (c : ascii) :
  rmatch false unsafe_set (String c "") (fun _ => Some 0)
  = if safe_char c then None else Some 0.
Proof.
  destruct c as [[] [] [] [] [] [] [] []]; vm_compute; reflexivity.
Qed.

Lemma rmatch_unsafe_set (s : string) (k : string -> option nat) :
  rmatch false unsafe_set s k
  = match s with
    | String c r => if safe_char c then None else k r
    | "" => None
    end.
Proof.
  destruct s as [|c r]; [reflexivity|].
  pose proof (unsafe_set_matches c) as U. cbn [rmatch unsafe_set] in *.
  destruct (set_matches false true _ c); destruct (safe_char c);
    try reflexivity; discriminate.
Qed.

Lemma run_length_le (s : string) : run_length s <= String.length s.
Proof.
  induction s as [|c r IH]; simpl; [lia|]. destruct (safe_char c); lia.
Qed.

(** The greedy star takes the whole run when the continuation accepts
    what follows. *)
Lemma star_takes_run (k : string -> option nat) : forall fuel s,
  String.length s <= fuel ->
  k (drop (run_length s) s) <> None ->
  star_loop (rmatch false unsafe_set) k fuel s = k (drop (run_length s) s).
Proof.
  induction fuel as [|f IH]; intros s L K.
  - destruct s; [reflexivity | simpl in L; lia].
  - cbn [star_loop]. rewrite rmatch_unsafe_set.
    destruct s as [|c r]; [reflexivity|].
    cbn [run_length] in *. destruct (safe_char c); [reflexivity|].
    cbn [drop] in *.
    assert (T : (String.length r <? String.length (String c r)) = true)
      by (apply Nat.ltb_lt; simpl; lia).
    rewrite T, IH; [| simpl in L; lia | assumption].
    destruct (k (drop (run_length r) r)); [reflexivity | congruence].
Qed.

(** The pattern matches exactly the run of unsafe characters at the
    head of the text. *)
Lemma match_unsafe_run (s : string) (must_advance : bool) :
  to_matcher false unsafe_run s must_advance
  = match run_length s with
    | 0 => None
    | n => Some n
    end.
Proof.
  unfold to_matcher, unsafe_run. cbn [rmatch].
  rewrite rmatch_unsafe_set.
  destruct s as [|c r]; [reflexivity|].
  cbn [run_length]. destruct (safe_char c); [reflexivity|].
  pose proof (run_length_le r) as L.
  assert (E : String.length (String c r) - String.length (drop (run_length r) r)
              = S (run_length r))
    by (rewrite length_drop; cbn [String.length]; lia).
  rewrite star_takes_run; rewrite ?E; try lia.
  - rewrite andb_false_r. reflexivity.
  - rewrite andb_false_r. discriminate.
Qed.

Lemma unsafe_run_proper : proper (to_matcher false unsafe_run).
Proof.
  intros s ma n. rewrite match_unsafe_run.
  pose proof (run_length_le s) as L.
  destruct (run_length s); [discriminate|].
  intros H; inversion H; subst; lia.
Qed.

Lemma rewrite_unsafe_run (s : string) :
  rewrite_go (to_matcher false unsafe_run) (expand_template "_") s (run_length s)
  = Some (collapse_go s true)
  /\ rewrite_go (to_matcher false unsafe_run) (expand_template "_") s 0
     = Some (collapse_go s false).
Proof.
  induction s as [|c r [IH1 IH0]]; [split; reflexivity|].
  assert (Z : rewrite_go (to_matcher false unsafe_run) (expand_template "_")
                (String c r) 0 = Some (collapse_go (String c r) false)).
  { cbn [rewrite_go collapse_go]. rewrite match_unsafe_run.
    cbn [run_length]. destruct (safe_char c).
    - rewrite IH0. reflexivity.
    - rewrite (DictionaryFacts.expand_no_backslash "_") by reflexivity.
      rewrite IH1. reflexivity. }
  split; [|exact Z].
  cbn [run_length]. destruct (safe_char c) eqn:S.
  - rewrite Z. cbn [collapse_go]. now rewrite S.
  - cbn [rewrite_go collapse_go]. now rewrite S.
Qed.

Lemma sub_safe_pattern (s : string) :
  sub_template Utils.SAFE_FILENAME_PATTERN "_" s = Some (collapse_runs s).
Proof.
  destruct SAFE_FILENAME_PATTERN_compiles as [_ ->].
  unfold sub_template. rewrite sub_rewrite by apply unsafe_run_proper.
  apply rewrite_unsafe_run.
Qed.

Lemma sanitize_filename_sanitized (name : string) :
  Utils.sanitize_filename name Utils.default_max_length = Some (sanitized name).
Proof.
  unfold Utils.sanitize_filename, sanitized. rewrite sub_safe_pattern.
  destruct (collapse_runs (strip name)); reflexivity.
Qed.

Lemma length_sanitized (name : string) :
  1 <= String.length (sanitized name) <= 255.
Proof.
  unfold sanitized. rewrite length_take.
  destruct (collapse_runs (strip name)); cbn [String.length]; lia.
Qed.

End FilenameFacts.

(** ** Element trees *)

Module XmlFacts.
Import Xml RevisionSpec.

Lemma element_induction (P : element -> Prop) :
  (forall i t a x tl cs, Forall P cs -> P (Element i t a x tl cs)) ->
  forall e, P e.
Proof.
  intros H. fix rec 1. intros [i t a x tl cs]. apply H.
  induction cs as [|c cs IH]; constructor; [apply rec | exact IH].
Qed.

Lemma flat_map_ext_in {A B} (f g : A -> list B) (l : list A) :
  (forall x, In x l -> f x = g x) -> flat_map f l = flat_map g l.
Proof.
  induction l as [|x l IH]; intros H; simpl; [reflexivity|].
  rewrite (H x (or_introl eq_refl)), IH; [reflexivity|].
  intros y Hy; apply H; now right.
Qed.

Lemma flat_map_flat_map {A B C} (f : A -> list B) (g : B -> list C) (l : list A) :
  flat_map g (flat_map f l) = flat_map (fun x => flat_map g (f x)) l.
Proof.
  induction l as [|x l IH]; simpl; [reflexivity|].
  now rewrite flat_map_app, IH.
Qed.

Lemma flat_map_singleton {A B} (f : A -> B) (l : list A) :
  flat_map (fun x => [f x]) l = map f l.
Proof. induction l; simpl; congruence. Qed.

Lemma id_rewrite cls e : id_of (rewrite cls e) = id_of e.
Proof. destruct e; reflexivity. Qed.

Lemma tag_rewrite cls e : tag_of (rewrite cls e) = tag_of e.
Proof. destruct e; reflexivity. Qed.

Lemma class_rewrite cls cls' e : class_of cls (rewrite cls' e) = class_of cls e.
Proof. destruct e; reflexivity. Qed.

Lemma children_rewrite cls e :
  children_of (rewrite cls e)
  = flat_map (fun c =>
                match class_of cls c with
                | Keep => [rewrite cls c]
                | Drop => []
                | Unwrap => children_of (rewrite cls c)
                end) (children_of e).
Proof. destruct e; reflexivity. Qed.

Lemma descendants_children e d c :
  In c (children_of e) -> In d (c :: descendants c) -> In d (descendants e).
Proof.
  destruct e as [i t a x tl cs]; simpl. intros C D.
  apply in_flat_map. exists c. split; assumption.
Qed.

(** Classifiers that agree below the root rewrite the tree alike. *)
Lemma rewrite_ext cls1 cls2 : forall e,
  (forall d, In d (descendants e) -> class_of cls1 d = class_of cls2 d) ->
  rewrite cls1 e = rewrite cls2 e.
Proof.
  apply (element_induction
           (fun e => (forall d, In d (descendants e) ->
                                class_of cls1 d = class_of cls2 d) ->
                     rewrite cls1 e = rewrite cls2 e)).
  intros i t a x tl cs IH H. simpl. f_equal.
  apply flat_map_ext_in. intros c C.
  assert (Hc : forall d, In d (c :: descendants c) ->
                         class_of cls1 d = class_of cls2 d).
  { intros d D. apply H.
    apply (descendants_children (Element i t a x tl cs) d c); assumption. }
  rewrite (Hc c (or_introl eq_refl)).
  rewrite Forall_forall in IH.
  rewrite (IH c C); [reflexivity|].
  intros d D. apply Hc. now right.
Qed.

(** A classifier that keeps everything below the root changes
    nothing. *)
Lemma rewrite_keep cls : forall e,
  (forall d, In d (descendants e) -> class_of cls d = Keep) ->
  rewrite cls e = e.
Proof.
  apply (element_induction
           (fun e => (forall d, In d (descendants e) -> class_of cls d = Keep) ->
                     rewrite cls e = e)).
  intros i t a x tl cs IH H. simpl. f_equal.
  rewrite Forall_forall in IH.
  transitivity (flat_map (fun c => [c]) cs).
  - apply flat_map_ext_in. intros c C.
    assert (Hc : forall d, In d (c :: descendants c) -> class_of cls d = Keep).
    { intros d D. apply H.
      apply (descendants_children (Element i t a x tl cs) d c); assumption. }
    rewrite (Hc c (or_introl eq_refl)), (IH c C); [reflexivity|].
    intros d D. apply Hc. now right.
  - rewrite flat_map_singleton. apply map_id.
Qed.

Lemma class_and_then cls1 cls2 e :
  class_of (and_then cls1 cls2) e
  = match class_of cls1 e with
    | Keep => class_of cls2 e
    | a => a
    end.
Proof. reflexivity. Qed.

(** Two rewritings in a row are one. *)
Lemma rewrite_rewrite cls1 cls2 : forall e,
  rewrite cls2 (rewrite cls1 e) = rewrite (and_then cls1 cls2) e.
Proof.
  apply (element_induction
           (fun e => rewrite cls2 (rewrite cls1 e) = rewrite (and_then cls1 cls2) e)).
  intros i t a x tl cs IH. simpl. f_equal.
  rewrite flat_map_flat_map. apply flat_map_ext_in. intros c C.
  rewrite Forall_forall in IH. specialize (IH c C).
  rewrite class_and_then.
  destruct (class_of cls1 c) eqn:K1.
  - simpl. rewrite List.app_nil_r, class_rewrite, IH.
    destruct (class_of cls2 c); reflexivity.
  - reflexivity.
  - rewrite <- IH. symmetry. apply children_rewrite.
Qed.

(** Nothing that is left below the root is dropped or unwrapped. *)
Lemma rewrite_keeps_only cls : forall e d,
  In d (descendants (rewrite cls e)) -> class_of cls d = Keep.
Proof.
  apply (element_induction
           (fun e => forall d, In d (descendants (rewrite cls e)) ->
                               class_of cls d = Keep)).
  intros i t a x tl cs IH d. rewrite Forall_forall in IH.
  simpl. rewrite flat_map_flat_map. intros D.
  apply in_flat_map in D as (c & C & D).
  specialize (IH c C).
  destruct (class_of cls c) eqn:K.
  - simpl in D. rewrite List.app_nil_r in D. destruct D as [<- | D].
    + now rewrite class_rewrite.
    + now apply IH.
  - destruct D.
  - apply IH. destruct (rewrite cls c) as [i' t' a' x' tl' cs']; exact D.
Qed.

End XmlFacts.

(** ** Identities in a tree *)

Module IdentityFacts.
Import Xml RevisionSpec XmlFacts.

Lemma map_flat_map {A B C} (f : A -> list B) (g : B -> C) (l : list A) :
  map g (flat_map f l) = flat_map (fun x => map g (f x)) l.
Proof.
  induction l as [|x l IH]; simpl; [reflexivity|].
  now rewrite map_app, IH.
Qed.

Lemma ids_element i t a x tl cs :
  ids (Element i t a x tl cs) = i :: flat_map ids cs.
Proof.
  unfold ids. cbn [map descendants id_of]. f_equal.
  rewrite map_flat_map. reflexivity.
Qed.

Lemma count_occ_flat_map {A} (f : A -> list nat) (l : list A) (i : nat) :
  count_occ Nat.eq_dec (flat_map f l) i
  = list_sum (map (fun x => count_occ Nat.eq_dec (f x) i) l).
Proof.
  induction l as [|x l IH]; simpl; [reflexivity|].
  now rewrite count_occ_app, IH.
Qed.

Lemma occurrences_element i j t a x tl cs :
  occurrences i (Element j t a x tl cs)
  = (if j =? i then 1 else 0) + list_sum (map (occurrences i) cs).
Proof.
  unfold occurrences at 1. rewrite ids_element. simpl.
  rewrite count_occ_flat_map.
  destruct (Nat.eq_dec j i) as [E|E].
  - apply Nat.eqb_eq in E. now rewrite E.
  - apply Nat.eqb_neq in E. now rewrite E.
Qed.

Lemma occurrences_root i e : id_of e = i -> 1 <= occurrences i e.
Proof.
  destruct e as [j t a x tl cs]; simpl. intros ->.
  rewrite occurrences_element, Nat.eqb_refl. lia.
Qed.

Lemma sum_one {A} (f : A -> nat) (l : list A) (a : A) :
  In a l -> f a <= list_sum (map f l).
Proof.
  induction l as [|x l IH]; simpl; [tauto|].
  intros [-> | H]; [lia | specialize (IH H); lia].
Qed.

Lemma sum_two {A} (f : A -> nat) (l : list A) (a b : A) :
  In a l -> In b l -> a <> b -> f a + f b <= list_sum (map f l).
Proof.
  induction l as [|x l IH]; simpl; [tauto|].
  intros [-> | Ha] [-> | Hb] N.
  - congruence.
  - pose proof (sum_one f l b Hb). lia.
  - pose proof (sum_one f l a Ha). lia.
  - specialize (IH Ha Hb N). lia.
Qed.

Lemma occurrences_child i e c :
  In c (children_of e) -> occurrences i c <= occurrences i e.
Proof.
  destruct e as [j t a x tl cs]; simpl. intros C.
  rewrite occurrences_element.
  pose proof (sum_one (occurrences i) cs c C). lia.
Qed.

Lemma in_ids e d : In d (e :: descendants e) -> In (id_of d) (ids e).
Proof. unfold ids. apply in_map. Qed.

(** An identity that does not occur in [e] is kept by [only]. *)
Lemma rewrite_only_absent a i e :
  occurrences i e = 0 -> rewrite (only a i) e = e.
Proof.
  intros Z. apply rewrite_keep. intros d D.
  unfold class_of, only.
  destruct (id_of d =? i) eqn:E; [|reflexivity].
  apply Nat.eqb_eq in E.
  unfold occurrences in Z. apply count_occ_not_In in Z.
  exfalso. apply Z. rewrite <- E. apply in_ids. now right.
Qed.

Lemma occurrences_children_le i e :
  list_sum (map (occurrences i) (children_of e)) <= occurrences i e.
Proof.
  destruct e as [j t a x tl cs]; simpl. rewrite occurrences_element. lia.
Qed.

Lemma occurrences_at_root i e :
  id_of e = i ->
  occurrences i e = 1 + list_sum (map (occurrences i) (children_of e)).
Proof.
  destruct e as [j t a x tl cs]; simpl. intros ->.
  now rewrite occurrences_element, Nat.eqb_refl.
Qed.

Lemma list_sum_flat_map {A B} (f : A -> list B) (g : B -> nat) (l : list A) :
  list_sum (map g (flat_map f l))
  = list_sum (map (fun x => list_sum (map g (f x))) l).
Proof.
  induction l as [|x l IH]; simpl; [reflexivity|].
  now rewrite map_app, list_sum_app, IH.
Qed.

Lemma list_sum_le {A} (f g : A -> nat) (l : list A) :
  (forall x, In x l -> f x <= g x) ->
  list_sum (map f l) <= list_sum (map g l).
Proof.
  induction l as [|x l IH]; simpl; intros H; [lia|].
  pose proof (H x (or_introl eq_refl)).
  assert (list_sum (map f l) <= list_sum (map g l))
    by (apply IH; intros; apply H; now right).
  lia.
Qed.

(** Rewriting adds no occurrence of an identity. *)
Lemma occurrences_rewrite cls i : forall e,
  occurrences i (rewrite cls e) <= occurrences i e.
Proof.
  apply (element_induction
           (fun e => occurrences i (rewrite cls e) <= occurrences i e)).
  intros j t a x tl cs IH. rewrite Forall_forall in IH.
  simpl. rewrite !occurrences_element, list_sum_flat_map.
  apply Nat.add_le_mono_l. apply list_sum_le. intros c C.
  specialize (IH c C).
  destruct (class_of cls c); simpl; try lia.
  pose proof (occurrences_children_le i (rewrite cls c)). lia.
Qed.

Lemma unique_rewrite cls e :
  NoDup (ids e) -> NoDup (ids (rewrite cls e)).
Proof.
  intros N. apply (NoDup_count_occ Nat.eq_dec). intros i.
  pose proof (proj1 (NoDup_count_occ Nat.eq_dec (ids e)) N i).
  pose proof (occurrences_rewrite cls i e). unfold occurrences in *. lia.
Qed.

Lemma unique_occurrences i e : NoDup (ids e) -> occurrences i e <= 1.
Proof. intros N. apply (proj1 (NoDup_count_occ Nat.eq_dec (ids e)) N). Qed.

End IdentityFacts.

(** ** Accepting revisions *)

Module RevisionFacts.
Import Xml CleanerDocx RevisionSpec XmlFacts IdentityFacts.

Lemma existsb_id i cs :
  existsb (fun c => id_of c =? i) cs = true ->
  exists c0, In c0 cs /\ id_of c0 = i.
Proof.
  intros E. apply existsb_exists in E as (c0 & C & I).
  exists c0. split; [assumption | now apply Nat.eqb_eq].
Qed.

Lemma not_existsb_id i cs c :
  existsb (fun c => id_of c =? i) cs = false -> In c cs -> (id_of c =? i) = false.
Proof.
  intros E C. destruct (id_of c =? i) eqn:I; [|reflexivity].
  assert (existsb (fun c => id_of c =? i) cs = true)
    by (apply existsb_exists; eauto).
  congruence.
Qed.

(** The root with identity [i] of a tree in which [i] occurs once. *)
Lemma rewrite_only_root a i e :
  id_of e = i -> occurrences i e <= 1 -> rewrite (only a i) e = e.
Proof.
  intros I O. apply rewrite_keep. intros d D.
  unfold class_of, only. destruct (id_of d =? i) eqn:E; [|reflexivity].
  apply Nat.eqb_eq in E. exfalso.
  destruct e as [j t b x tl cs]. simpl in I. subst j.
  rewrite occurrences_element, Nat.eqb_refl in O.
  simpl in D. apply in_flat_map in D as (c & C & D).
  assert (1 <= occurrences i c).
  { unfold occurrences. apply (count_occ_In Nat.eq_dec).
    rewrite <- E. now apply in_ids. }
  pose proof (sum_one (occurrences i) cs c C). lia.
Qed.

(** Below a parent of the node [i], rewriting by [only a i] acts on the
    child list alone. *)
Lemma rewrite_only_children a i cs :
  existsb (fun c => id_of c =? i) cs = true ->
  list_sum (map (occurrences i) cs) <= 1 ->
  flat_map (fun c =>
              match class_of (only a i) c with
              | Keep => [rewrite (only a i) c]
              | Drop => []
              | Unwrap => children_of (rewrite (only a i) c)
              end) cs
  = flat_map (local a i) cs.
Proof.
  intros E S. apply existsb_id in E as (c0 & C0 & I0).
  pose proof (occurrences_root i c0 I0) as O0.
  apply flat_map_ext_in. intros c C.
  destruct (id_of c =? i) eqn:I.
  - pose proof I as I'. apply Nat.eqb_eq in I'.
    pose proof (sum_one (occurrences i) cs c C) as Oc.
    rewrite (rewrite_only_root a i c I') by lia.
    unfold local, class_of, only. rewrite I.
    destruct a; reflexivity.
  - assert (N : c0 <> c) by (intros ->; rewrite I0, Nat.eqb_refl in I; discriminate).
    pose proof (sum_two (occurrences i) cs c0 c C0 C N).
    rewrite rewrite_only_absent by lia.
    unfold local, class_of, only. rewrite I. reflexivity.
Qed.

(** An operation on the child list of the parent of [i] that does what
    [local a i] says is the rewriting [only a i]. *)
Lemma update_parent_only a i f :
  (forall cs, existsb (fun c => id_of c =? i) cs = true ->
              list_sum (map (occurrences i) cs) <= 1 ->
              f cs = flat_map (local a i) cs) ->
  forall e, occurrences i e <= 1 -> update_parent i f e = rewrite (only a i) e.
Proof.
  intros F.
  apply (element_induction
           (fun e => occurrences i e <= 1 ->
                     update_parent i f e = rewrite (only a i) e)).
  intros j t b x tl cs IH O. rewrite Forall_forall in IH.
  pose proof (occurrences_children_le i (Element j t b x tl cs)) as S.
  simpl in S. cbn [update_parent rewrite].
  destruct (existsb (fun c => id_of c =? i) cs) eqn:E.
  - f_equal. rewrite rewrite_only_children by (assumption || lia).
    apply F; [assumption | lia].
  - f_equal. rewrite <- flat_map_singleton. apply flat_map_ext_in.
    intros c C.
    rewrite IH; [| assumption | pose proof (sum_one (occurrences i) cs c C); lia].
    unfold class_of, only.
    now rewrite (not_existsb_id i cs c E C).
Qed.

Lemma remove_child_local i cs : remove_child i cs = flat_map (local Drop i) cs.
Proof.
  unfold remove_child, local.
  induction cs as [|c cs IH]; simpl; [reflexivity|].
  destruct (id_of c =? i); simpl; now rewrite IH.
Qed.

Lemma remove_node_only i e :
  occurrences i e <= 1 -> remove_node e i = rewrite (only Drop i) e.
Proof.
  unfold remove_node. apply update_parent_only.
  intros cs _ _. apply remove_child_local.
Qed.

(** *** [_unwrap] on the child list *)

Lemma absent_of_sum i l : list_sum (map (occurrences i) l) = 0 -> absent i l.
Proof.
  intros Z c C. destruct (id_of c =? i) eqn:I; [|reflexivity].
  apply Nat.eqb_eq in I. pose proof (occurrences_root i c I).
  pose proof (sum_one (occurrences i) l c C). lia.
Qed.

Lemma index_of_absent i pre c0 post :
  absent i pre -> id_of c0 = i -> index_of i (pre ++ c0 :: post) = List.length pre.
Proof.
  intros A I. induction pre as [|p pre IH]; simpl.
  - now rewrite I, Nat.eqb_refl.
  - rewrite (A p (or_introl eq_refl)). f_equal. apply IH.
    intros c C. apply A. now right.
Qed.

Lemma remove_child_absent i l : absent i l -> remove_child i l = l.
Proof.
  intros A. unfold remove_child. induction l as [|c l IH]; simpl; [reflexivity|].
  rewrite (A c (or_introl eq_refl)). simpl. f_equal. apply IH.
  intros d D. apply A. now right.
Qed.

Lemma local_absent a i l : absent i l -> flat_map (local a i) l = l.
Proof.
  intros A. unfold local. induction l as [|c l IH]; simpl; [reflexivity|].
  rewrite (A c (or_introl eq_refl)). simpl. f_equal. apply IH.
  intros d D. apply A. now right.
Qed.

(** The insertion loop of [_unwrap] puts the moved children, in order,
    in front of what followed the insertion point. *)
Lemma insert_loop (pre rest moved : list element) : forall done : list element,
  fold_left (fun '(l, index) child => (insert_at index child l, index + 1))
            moved ((pre ++ done ++ rest)%list, List.length pre + List.length done)
  = ((pre ++ done ++ moved ++ rest)%list,
     List.length pre + List.length done + List.length moved).
Proof.
  induction moved as [|m moved IH]; intros done; simpl.
  - now rewrite Nat.add_0_r.
  - unfold insert_at at 2.
    rewrite <- length_app, (List.app_assoc pre done rest).
    rewrite firstn_app, firstn_all, Nat.sub_diag, firstn_O, List.app_nil_r.
    rewrite skipn_app, skipn_all, Nat.sub_diag, skipn_O. cbn [app].
    specialize (IH (done ++ [m])%list).
    rewrite <- !List.app_assoc in IH. cbn [app] in IH.
    rewrite !length_app in *. cbn [List.length] in *.
    rewrite <- List.app_assoc.
    replace (List.length pre + List.length done + 1)
      with (List.length pre + (List.length done + 1)) by lia.
    rewrite IH. f_equal. lia.
Qed.

Lemma unwrap_in_local i cs :
  existsb (fun c => id_of c =? i) cs = true ->
  list_sum (map (occurrences i) cs) <= 1 ->
  unwrap_in i cs = flat_map (local Unwrap i) cs.
Proof.
  intros E S. apply existsb_id in E as (c0 & C0 & I0).
  apply in_split in C0 as (pre & post & ->).
  rewrite map_app, list_sum_app in S. cbn [map] in S.
  change (list_sum (occurrences i c0 :: map (occurrences i) post))
    with (occurrences i c0 + list_sum (map (occurrences i) post)) in S.
  pose proof (occurrences_root i c0 I0) as O0.
  pose proof (occurrences_at_root i c0 I0) as Oc.
  assert (Apre : absent i pre) by (apply absent_of_sum; lia).
  assert (Apost : absent i post) by (apply absent_of_sum; lia).
  assert (Amoved : absent i (children_of c0)) by (apply absent_of_sum; lia).
  unfold unwrap_in.
  rewrite (index_of_absent i pre c0 post Apre I0), nth_middle.
  pose proof (insert_loop pre (c0 :: post) (children_of c0) []) as L.
  cbn [app List.length] in L. rewrite Nat.add_0_r in L. rewrite L.
  rewrite flat_map_app. cbn [flat_map].
  rewrite !(local_absent Unwrap i) by assumption.
  unfold local at 1. rewrite I0, Nat.eqb_refl.
  unfold remove_child. rewrite !filter_app. cbn [filter].
  rewrite I0, Nat.eqb_refl. cbn [negb].
  fold (remove_child i pre) (remove_child i post) (remove_child i (children_of c0)).
  now rewrite !remove_child_absent by assumption.
Qed.

Lemma unwrap_only i e :
  occurrences i e <= 1 -> _unwrap e i = rewrite (only Unwrap i) e.
Proof.
  unfold _unwrap. apply update_parent_only. apply unwrap_in_local.
Qed.

(** *** The loops over the node lists *)

Lemma listed_cons a i l j t :
  and_then (only a i) (listed a l) j t = listed a (i :: l) j t.
Proof.
  unfold and_then, only, listed. cbn [existsb].
  destruct (j =? i); [|reflexivity].
  destruct a; cbn [orb]; try reflexivity.
  destruct (existsb (Nat.eqb j) l); reflexivity.
Qed.

Lemma fold_listed (op : element -> nat -> element) (a : action) :
  (forall i e, occurrences i e <= 1 -> op e i = rewrite (only a i) e) ->
  forall l e, NoDup (ids e) -> fold_left op l e = rewrite (listed a l) e.
Proof.
  intros Hop l; induction l as [|i l IH]; intros e N; cbn [fold_left].
  - symmetry. apply rewrite_keep. reflexivity.
  - rewrite Hop by now apply unique_occurrences.
    rewrite IH by now apply unique_rewrite.
    rewrite rewrite_rewrite. apply rewrite_ext.
    intros d _. apply listed_cons.
Qed.

Lemma NoDup_map_eq {A B} (f : A -> B) (l : list A) (x y : A) :
  NoDup (map f l) -> In x l -> In y l -> f x = f y -> x = y.
Proof.
  induction l as [|z l IH]; simpl; [tauto|].
  intros N. inversion N as [|? ? Hz Hl]; subst.
  intros [-> | Hx] [-> | Hy] E; try reflexivity.
  - exfalso. apply Hz. rewrite E. now apply in_map.
  - exfalso. apply Hz. rewrite <- E. now apply in_map.
  - now apply IH.
Qed.

(** With distinct identities, the nodes listed by the query for a tag
    are the nodes with that tag. *)
Lemma listed_tagged a tag e d :
  NoDup (ids e) -> In d (descendants e) ->
  class_of (listed a (xpath_descendants tag e)) d = class_of (tagged a tag) d.
Proof.
  intros N D. unfold class_of, listed, tagged, xpath_descendants.
  unfold ids in N. cbn [map] in N. apply NoDup_cons_iff in N as [_ N].
  destruct (String.eqb (tag_of d) tag) eqn:T.
  - assert (X : existsb (Nat.eqb (id_of d))
                  (map id_of (filter (fun d0 => String.eqb (tag_of d0) tag)
                                     (descendants e))) = true).
    { apply existsb_exists. exists (id_of d). split; [|apply Nat.eqb_refl].
      apply in_map. apply filter_In. split; assumption. }
    now rewrite X.
  - destruct (existsb _ _) eqn:X; [|reflexivity].
    apply existsb_exists in X as (j & J & E). apply Nat.eqb_eq in E. subst j.
    apply in_map_iff in J as (d' & I & F). apply filter_In in F as [D' T'].
    assert (d' = d) by (eapply NoDup_map_eq; eauto). subst d'. congruence.
Qed.

Lemma for_each_tagged (op : element -> nat -> element) (a : action) tag e :
  (forall i e, occurrences i e <= 1 -> op e i = rewrite (only a i) e) ->
  NoDup (ids e) -> for_each_node op tag e = rewrite (tagged a tag) e.
Proof.
  intros Hop N. unfold for_each_node.
  rewrite (fold_listed op a Hop) by assumption.
  apply rewrite_ext. intros d D. now apply listed_tagged.
Qed.

Lemma accept_class_stages j t :
  and_then (tagged Drop (qname "w" "del"))
    (and_then (tagged Drop (qname "w" "moveFrom"))
       (and_then (tagged Unwrap (qname "w" "ins"))
                 (tagged Unwrap (qname "w" "moveTo")))) j t
  = accept_class j t.
Proof.
  unfold and_then, tagged, accept_class.
  destruct (String.eqb t (qname "w" "del")); [reflexivity|].
  destruct (String.eqb t (qname "w" "moveFrom")); [reflexivity|].
  destruct (String.eqb t (qname "w" "ins")); reflexivity.
Qed.

(** The four loops of [_accept_revisions] amount to one rewriting. *)
Lemma accept_revisions_accepted tree :
  NoDup (ids tree) -> _accept_revisions tree = accepted tree.
Proof.
  intros N. unfold _accept_revisions, accepted. cbn [fold_left].
  rewrite (for_each_tagged remove_node Drop (qname "w" "del") tree)
    by (auto using remove_node_only).
  rewrite (for_each_tagged remove_node Drop (qname "w" "moveFrom"))
    by (auto using remove_node_only, unique_rewrite).
  rewrite (for_each_tagged _unwrap Unwrap (qname "w" "ins"))
    by (auto using unwrap_only, unique_rewrite).
  rewrite (for_each_tagged _unwrap Unwrap (qname "w" "moveTo"))
    by (auto using unwrap_only, unique_rewrite).
  rewrite !rewrite_rewrite. apply rewrite_ext.
  intros d _. unfold class_of. apply accept_class_stages.
Qed.

Lemma accepted_no_revision tree d :
  In d (descendants (accepted tree)) -> is_revision_tag (tag_of d) = false.
Proof.
  intros D. apply rewrite_keeps_only in D.
  unfold class_of, accept_class in D. unfold is_revision_tag.
  destruct (String.eqb (tag_of d) (qname "w" "del")); [discriminate|].
  destruct (String.eqb (tag_of d) (qname "w" "moveFrom")); [discriminate|].
  destruct (String.eqb (tag_of d) (qname "w" "ins")); [discriminate|].
  destruct (String.eqb (tag_of d) (qname "w" "moveTo")); [discriminate|].
  reflexivity.
Qed.

End RevisionFacts.

(** ** Dictionaries *)

Module DictFacts.

Lemma get_set_same {V} (d : Dict.t V) (k : string) (v : V) :
  Dict.get (Dict.set d k v) k = Some v.
Proof.
  induction d as [|[k' v'] d IH]; simpl.
  - now rewrite String.eqb_refl.
  - destruct (String.eqb k' k) eqn:E; simpl; rewrite E; [reflexivity | exact IH].
Qed.

Lemma get_set_other {V} (d : Dict.t V) (k k' : string) (v : V) :
  k' <> k -> Dict.get (Dict.set d k v) k' = Dict.get d k'.
Proof.
  intros N. induction d as [|[k0 v0] d IH]; simpl.
  - apply String.eqb_neq in N. rewrite String.eqb_sym in N. now rewrite N.
  - destruct (String.eqb k0 k) eqn:E; simpl.
    + apply String.eqb_eq in E. subst k0.
      apply String.eqb_neq in N. rewrite String.eqb_sym in N. now rewrite N.
    + destruct (String.eqb k0 k'); [reflexivity | exact IH].
Qed.

Lemma get_pop_same {V} (d : Dict.t V) (k : string) :
  Dict.get (Dict.pop d k) k = None.
Proof.
  unfold Dict.pop. induction d as [|[k' v'] d IH]; simpl; [reflexivity|].
  destruct (String.eqb k' k) eqn:E; simpl; [exact IH | now rewrite E].
Qed.

Lemma get_pop_other {V} (d : Dict.t V) (k k' : string) :
  k' <> k -> Dict.get (Dict.pop d k) k' = Dict.get d k'.
Proof.
  intros N. unfold Dict.pop. induction d as [|[k0 v0] d IH]; simpl; [reflexivity|].
  destruct (String.eqb k0 k) eqn:E; simpl.
  - apply String.eqb_eq in E. subst k0.
    apply String.eqb_neq in N. rewrite String.eqb_sym in N. now rewrite N.
  - destruct (String.eqb k0 k'); [reflexivity | exact IH].
Qed.

Lemma get_in {V} (d : Dict.t V) (k : string) (v : V) :
  Dict.get d k = Some v -> In (k, v) d.
Proof.
  induction d as [|[k' v'] d IH]; simpl; [discriminate|].
  destruct (String.eqb k' k) eqn:E.
  - apply String.eqb_eq in E. intros H; inversion H; subst. now left.
  - intros H. right. now apply IH.
Qed.

Lemma in_get {V} (d : Dict.t V) (k : string) (v : V) :
  Dict.wf d -> In (k, v) d -> Dict.get d k = Some v.
Proof.
  unfold Dict.wf, Dict.keys.
  induction d as [|[k' v'] d IH]; simpl; [tauto|].
  intros N. inversion N as [|? ? Hk Hd]; subst.
  intros [E | H].
  - inversion E; subst. now rewrite String.eqb_refl.
  - destruct (String.eqb k' k) eqn:E; [|now apply IH].
    apply String.eqb_eq in E. subst k'. exfalso. apply Hk.
    change k with (fst (k, v)). now apply in_map.
Qed.

Lemma keys_set {V} (d : Dict.t V) (k : string) (v : V) :
  In k (Dict.keys d) -> Dict.keys (Dict.set d k v) = Dict.keys d.
Proof.
  unfold Dict.keys. induction d as [|[k' v'] d IH]; simpl; [tauto|].
  intros H. destruct (String.eqb k' k) eqn:E; simpl; [reflexivity|].
  f_equal. apply IH. destruct H as [H | H]; [|exact H].
  subst k'. now rewrite String.eqb_refl in E.
Qed.

Lemma wf_pop {V} (d : Dict.t V) (k : string) : Dict.wf d -> Dict.wf (Dict.pop d k).
Proof.
  unfold Dict.wf, Dict.keys, Dict.pop.
  induction d as [|[k' v'] d IH]; simpl; [auto|].
  intros N. inversion N as [|? ? Hk Hd]; subst.
  destruct (String.eqb k' k); simpl; [now apply IH|].
  constructor; [|now apply IH].
  intros H. apply Hk. apply in_map_iff in H as ([k0 v0] & E & F).
  apply filter_In in F as [F _]. simpl in E. subst k0.
  change k' with (fst (k', v0)). now apply in_map.
Qed.

End DictFacts.

(** ** Parts of a container *)

Module PartsFacts.
Import Xml CleanerDocx PartsSpec DictFacts.

Lemma word_part_not_properties (name : string) :
  PyStr.startswith name "word/" = true ->
  String.eqb name "docProps/core.xml" = false
  /\ String.eqb name "docProps/custom.xml" = false.
Proof.
  unfold PyStr.startswith. destruct name as [|c r]; [discriminate|].
  cbn [PyStr.starts_with_by PyStr.char_eq]. intros H.
  apply andb_prop in H as [C _]. apply Ascii.eqb_eq in C. subst c.
  split; reflexivity.
Qed.

Section Lxml.
Variable fromstring : bytes -> option element.
Variable tostring : element -> bytes.

Lemma clean_part_unparseable cleaned name data :
  fromstring data = None ->
  clean_part fromstring tostring cleaned (name, data) = cleaned.
Proof.
  intros F. unfold clean_part. rewrite F.
  destruct (negb (PyStr.endswith name ".xml")); reflexivity.
Qed.

Lemma clean_part_get_other cleaned part name :
  fst part <> name ->
  Dict.get (clean_part fromstring tostring cleaned part) name
  = Dict.get cleaned name.
Proof.
  destruct part as [n d]; simpl. intros N. unfold clean_part.
  destruct (negb (PyStr.endswith n ".xml")); [reflexivity|].
  destruct (fromstring d); [|reflexivity].
  apply get_set_other. congruence.
Qed.

Lemma clean_part_keys cleaned part :
  In (fst part) (Dict.keys cleaned) ->
  Dict.keys (clean_part fromstring tostring cleaned part) = Dict.keys cleaned.
Proof.
  destruct part as [n d]; simpl. intros K. unfold clean_part.
  destruct (negb (PyStr.endswith n ".xml")); [reflexivity|].
  destruct (fromstring d); [|reflexivity].
  now apply keys_set.
Qed.

(** Entries under other names, and entries that do not parse, leave
    the value under [name] alone. *)
Lemma clean_fold_get name l : forall cleaned,
  (forall n d, In (n, d) l -> n = name -> fromstring d = None) ->
  Dict.get (fold_left (clean_part fromstring tostring) l cleaned) name
  = Dict.get cleaned name.
Proof.
  induction l as [|[n d] l IH]; intros cleaned H; cbn [fold_left];
    [reflexivity|].
  rewrite IH by (intros; eapply H; eauto; now right).
  destruct (String.eqb_spec n name) as [E|E].
  - rewrite clean_part_unparseable; [reflexivity|].
    apply (H n d); [now left | exact E].
  - now apply clean_part_get_other.
Qed.

Lemma clean_fold_keys l : forall cleaned,
  incl (Dict.keys l) (Dict.keys cleaned) ->
  Dict.keys (fold_left (clean_part fromstring tostring) l cleaned)
  = Dict.keys cleaned.
Proof.
  induction l as [|p l IH]; intros cleaned H; cbn [fold_left];
    [reflexivity|].
  assert (K : Dict.keys (clean_part fromstring tostring cleaned p)
              = Dict.keys cleaned)
    by (apply clean_part_keys; apply H; now left).
  rewrite IH; [exact K|]. rewrite K.
  intros k Hk. apply H. now right.
Qed.

Lemma remove_comments_part_other parts name :
  name <> "word/comments.xml" ->
  Dict.get (_remove_comments_part parts) name = Dict.get parts name.
Proof.
  intros N. unfold _remove_comments_part.
  destruct (Dict.contains parts "word/comments.xml"); [|reflexivity].
  now apply get_pop_other.
Qed.

(** The comments part is never among the cleaned parts. *)
Lemma comments_part_dropped parts :
  Dict.get (clean_docx_parts fromstring tostring parts) "word/comments.xml" = None.
Proof.
  unfold clean_docx_parts, _remove_comments_part, Dict.contains.
  destruct (Dict.get (fold_left (clean_part fromstring tostring) parts parts)
              "word/comments.xml") eqn:G; [apply get_pop_same | exact G].
Qed.

Lemma wf_unique {V} (d : Dict.t V) k v v' :
  Dict.wf d -> In (k, v) d -> In (k, v') d -> v = v'.
Proof.
  intros W H H'. apply (in_get d k v W) in H. apply (in_get d k v' W) in H'.
  congruence.
Qed.

(** A part that does not parse keeps its bytes through the cleaner,
    unless it is the comments part. *)
Lemma clean_keeps_unparseable parts name data :
  Dict.wf parts -> In (name, data) parts -> fromstring data = None ->
  name <> "word/comments.xml" ->
  Dict.get (clean_docx_parts fromstring tostring parts) name = Some data.
Proof.
  intros W I F N. unfold clean_docx_parts.
  rewrite remove_comments_part_other by assumption.
  rewrite clean_fold_get; [now apply in_get|].
  intros n d I' ->. now rewrite (wf_unique parts name d data W I' I).
Qed.

Lemma wf_clean parts :
  Dict.wf parts -> Dict.wf (clean_docx_parts fromstring tostring parts).
Proof.
  intros W. unfold clean_docx_parts, _remove_comments_part.
  assert (W' : Dict.wf (fold_left (clean_part fromstring tostring) parts parts)).
  { unfold Dict.wf. rewrite clean_fold_keys; [exact W | apply incl_refl]. }
  destruct (Dict.contains _ _); [now apply wf_pop | exact W'].
Qed.

(** A content part that parses is replaced by its cleaned tree. *)
Lemma clean_word_part parts name data tree :
  Dict.wf parts -> In (name, data) parts ->
  PyStr.endswith name ".xml" = true -> PyStr.startswith name "word/" = true ->
  name <> "word/comments.xml" -> fromstring data = Some tree ->
  Dict.get (clean_docx_parts fromstring tostring parts) name
  = Some (tostring (_remove_comments (_accept_revisions tree))).
Proof.
  intros W I X S N F. unfold clean_docx_parts.
  rewrite remove_comments_part_other by assumption.
  destruct (in_split _ _ I) as (l1 & l2 & E).
  assert (U : forall n d, In (n, d) l2 -> n <> name).
  { intros n d I2 ->. unfold Dict.wf, Dict.keys in W. rewrite E, map_app in W.
    cbn [map fst] in W. apply NoDup_remove_2 in W. apply W.
    apply in_or_app. right. apply in_map_iff.
    exists (name, d). split; [reflexivity | assumption]. }
  rewrite E at 1. rewrite fold_left_app. cbn [fold_left].
  rewrite clean_fold_get
    by (intros n d I2 ->; exfalso; now apply (U name d I2)).
  unfold clean_part at 1. rewrite X, F, S. cbn [negb].
  destruct (word_part_not_properties name S) as [-> ->].
  apply get_set_same.
Qed.

End Lxml.

End PartsFacts.

(** ** Rules applied to the parts *)

Module ProcessorFacts.
Import Xml Rules ProcessorDocx PartsSpec DictFacts.

Lemma fold_option_invariant_in {A B} (P : A -> Prop) (f : A -> B -> option A)
    (l : list B) :
  (forall a x a', In x l -> P a -> f a x = Some a' -> P a') ->
  forall a a', P a -> fold_option f l a = Some a' -> P a'.
Proof.
  induction l as [|x l IH]; intros step a a' Pa H; simpl in H.
  - now inversion H; subst.
  - destruct (f a x) as [a1|] eqn:E; [|discriminate].
    apply (IH (fun a x a' I => step a x a' (or_intror I)) a1 a');
      [|exact H].
    apply (step a x a1); [now left | exact Pa | exact E].
Qed.

Section Engine.
Variable re_compile : string -> bool -> option Re.compiled.
Variable fromstring : bytes -> option element.
Variable tostring : element -> bytes.
Variable playbook : Playbooks.Playbook.
Variable dry_run : bool.

(** The body of the loop over the parts. *)
Let step : parts_state -> string * bytes -> option parts_state :=
  part_step re_compile fromstring tostring playbook dry_run.

Lemma step_unparseable st name data :
  fromstring data = None -> step st (name, data) = Some st.
Proof.
  intros F. destruct st as [u a]. unfold step, part_step. rewrite F.
  destruct (negb (PyStr.startswith name "word/") || negb (PyStr.endswith name ".xml"));
    reflexivity.
Qed.

Lemma step_get_other st part st' name :
  fst part <> name -> step st part = Some st' ->
  Dict.get (fst st') name = Dict.get (fst st) name.
Proof.
  destruct st as [u a], part as [n d]; simpl. intros N H.
  unfold step, part_step in H.
  destruct (negb (PyStr.startswith n "word/") || negb (PyStr.endswith n ".xml"));
    [now inversion H|].
  destruct (fromstring d) as [tree|]; [|now inversion H].
  destruct (fold_option _ _ _) as [[[tree' a'] modified]|]; [|discriminate].
  destruct modified; inversion H; subst; simpl; [|reflexivity].
  apply get_set_other. congruence.
Qed.

(** The aggregate and the success of a step do not depend on the parts
    written so far. *)
Lemma step_aggregate u1 u2 a part :
  option_map snd (step (u1, a) part) = option_map snd (step (u2, a) part).
Proof.
  destruct part as [n d]. unfold step, part_step.
  destruct (negb (PyStr.startswith n "word/") || negb (PyStr.endswith n ".xml"));
    [reflexivity|].
  destruct (fromstring d) as [tree|]; [|reflexivity].
  destruct (fold_option _ _ _) as [[[tree' a'] modified]|]; [|reflexivity].
  destruct modified; reflexivity.
Qed.

Lemma steps_aggregate l : forall u1 u2 a,
  option_map snd (fold_option step l (u1, a))
  = option_map snd (fold_option step l (u2, a)).
Proof.
  induction l as [|p l IH]; intros u1 u2 a; cbn [fold_option]; [reflexivity|].
  pose proof (step_aggregate u1 u2 a p) as E.
  destruct (step (u1, a) p) as [[u1' a1]|], (step (u2, a) p) as [[u2' a2]|];
    simpl in E; try discriminate; [|reflexivity].
  inversion E; subst. apply IH.
Qed.

Lemma steps_skip_unparseable l : forall st,
  fold_option step (filter (parseable fromstring) l) st = fold_option step l st.
Proof.
  induction l as [|[n d] l IH]; intros st; cbn [filter fold_option];
    [reflexivity|].
  unfold parseable at 1. cbn [snd].
  destruct (fromstring d) eqn:F.
  - cbn [fold_option]. destruct (step st (n, d)); auto.
  - rewrite step_unparseable by assumption. apply IH.
Qed.

(** A part that does not parse keeps its bytes. *)
Lemma rules_keep_unparseable parts name data out aggregate :
  Dict.wf parts -> In (name, data) parts -> fromstring data = None ->
  _apply_rules_to_parts re_compile fromstring tostring parts playbook dry_run
  = Some (out, aggregate) ->
  Dict.get out name = Some data.
Proof.
  intros W I F H. unfold _apply_rules_to_parts in H. fold step in H.
  change out with (fst (out, aggregate)). revert H.
  apply (fold_option_invariant_in
           (fun st => Dict.get (fst st) name = Some data)).
  - intros st [n d] st' I' P S.
    destruct (String.eqb_spec n name) as [->|N].
    + rewrite (PartsFacts.wf_unique parts name d data W I' I) in S.
      rewrite step_unparseable in S by assumption.
      now inversion S; subst.
    + rewrite (step_get_other st (n, d) st' name N S).
      exact P.
  - simpl. now apply in_get.
Qed.

(** Parts that do not parse add nothing to the report and raise
    nothing. *)
Lemma rules_ignore_unparseable parts :
  option_map snd
    (_apply_rules_to_parts re_compile fromstring tostring parts playbook dry_run)
  = option_map snd
      (_apply_rules_to_parts re_compile fromstring tostring
         (filter (parseable fromstring) parts) playbook dry_run).
Proof.
  unfold _apply_rules_to_parts. fold step.
  rewrite steps_skip_unparseable. apply steps_aggregate.
Qed.

End Engine.

End ProcessorFacts.

(** ** Decoding *)

Module DecodeFacts.
Import Utils.

Lemma decode_latin1_any (data : bytes) :
  decode "latin-1" data = Some (map byte_value data).
Proof. reflexivity. Qed.

Lemma try_encodings_returns (data : bytes) :
  exists encoding s,
    In encoding ["utf-8"; "cp1251"; "latin-1"]
    /\ decode encoding data = Some s
    /\ try_encodings ["utf-8"; "cp1251"; "latin-1"] data = Some s.
Proof.
  cbn [try_encodings].
  destruct (decode "utf-8" data) as [s|] eqn:U.
  { exists "utf-8", s. simpl; auto. }
  destruct (decode "cp1251" data) as [s|] eqn:C.
  { exists "cp1251", s. simpl; auto. }
  exists "latin-1", (map byte_value data).
  rewrite decode_latin1_any. simpl; auto.
Qed.

End DecodeFacts.

(** ** Runs that count no match *)

Module NoMatchFacts.
Import Playbooks Rules ReportSpec.

Lemma grows_refl st : grows st st.
Proof. split; [lia | reflexivity]. Qed.

Lemma grows_trans a b c : grows a b -> grows b c -> grows a c.
Proof.
  intros [L1 E1] [L2 E2]. split; [lia|].
  intros L. assert (c = b) by (apply E2; lia). subst c. apply E1. lia.
Qed.

Lemma fold_grows {B} (f : run_state -> B -> option run_state) (l : list B) :
  (forall st x st', f st x = Some st' -> grows st st') ->
  forall st st', fold_option f l st = Some st' -> grows st st'.
Proof.
  intros step. induction l as [|x l IH]; intros st st' H; simpl in H.
  - inversion H; subst. apply grows_refl.
  - destruct (f st x) as [st1|] eqn:E; [|discriminate].
    eapply grows_trans; [eapply step; eassumption | now apply IH].
Qed.

Lemma register_grows text text' report rule (count : Z) :
  (0 < count)%Z ->
  grows (text, report) (text', _register_match report rule count).
Proof.
  intros P. unfold grows, _register_match.
  destruct (count <=? 0)%Z eqn:E; [apply Z.leb_le in E; lia|].
  cbn [snd total_matches]. split; lia.
Qed.

Section Engine.
Variable re_compile : string -> bool -> option Re.compiled.

Ltac grow H :=
  repeat match type of H with
    | Some _ = Some _ => inversion H; subst; clear H
    | None = Some _ => discriminate H
    | match ?x with _ => _ end = Some _ =>
        let E := fresh "E" in destruct x eqn:E
    end;
  try apply grows_refl; try (apply register_grows; lia).

Lemma dictionary_entry_grows rule pb dry st item st' :
  dictionary_entry rule pb dry st item = Some st' -> grows st st'.
Proof.
  destruct st as [text r], item as [target replacement].
  unfold dictionary_entry. cbv beta iota zeta. intros H. grow H.
Qed.

Lemma regex_entry_grows rule pb dry st entry st' :
  regex_entry re_compile rule pb dry st entry = Some st' -> grows st st'.
Proof.
  destruct st as [text r].
  unfold regex_entry. cbv beta iota zeta. intros H. grow H.
Qed.

Lemma apply_rule_grows text rule pb r dry st' :
  _apply_rule re_compile text rule pb r dry = Some st' -> grows (text, r) st'.
Proof.
  unfold _apply_rule. intros H.
  destruct (String.eqb (rule_type rule) "dictionary_entities").
  { revert H. apply fold_grows. intros; eapply dictionary_entry_grows; eauto. }
  destruct (String.eqb (rule_type rule) "regex_patterns").
  { revert H. apply fold_grows. intros; eapply regex_entry_grows; eauto. }
  destruct (String.eqb (rule_type rule) "keyword_list").
  { unfold _apply_keywords in H. grow H. }
  grow H.
Qed.

(** Without an enabled allowlist rule, a run that counts no match
    returns the text as it came and the empty report. *)
Lemma apply_rules_no_match text pb dry out r :
  _rules_by_type pb "allowlist" = [] ->
  apply_rules re_compile text pb dry = Some (out, r) ->
  total_matches r = 0%Z ->
  out = text /\ r = empty_report.
Proof.
  unfold apply_rules. cbv zeta. intros A H T. rewrite A in H.
  cbn [_apply_allowlist allowlist_rules] in H.
  destruct (fold_option _ _ _) as [[t' r']|] eqn:F; [|discriminate].
  cbn [fold_left] in H. inversion H; subst; clear H.
  assert (G : grows (text, empty_report) (out, r)).
  { revert F. apply fold_grows. intros [t0 r0] rule st'. cbn [fst snd].
    apply apply_rule_grows. }
  destruct G as [_ G]. cbn [snd] in G.
  change (total_matches empty_report) with 0%Z in G.
  assert (E : (out, r) = (text, empty_report)) by (apply G; lia).
  inversion E; auto.
Qed.

End Engine.

End NoMatchFacts.

(** ** Dictionary rules with action REPLACE *)

Module MappingFacts.
Import PyStr StrFacts Re ScanSpec ScanFacts Playbooks Rules TemplateSpec
       MappingSpec.

Lemma replace_by_rewrite (ci : bool) (key : string)
    (repl : string -> option string) (s : string) : forall skip,
  key <> "" ->
  replace_by ci key repl s skip = rewrite_go (match_literal ci key) repl s skip.
Proof.
  induction s as [|c r IH]; intros skip K; [reflexivity|].
  destruct skip as [|n]; cbn [replace_by rewrite_go]; [|now apply IH].
  unfold match_literal at 1.
  destruct (starts_with_by ci key (String c r)).
  - destruct key as [|a key]; [congruence|].
    cbn [String.length]. rewrite Nat.sub_succ, Nat.sub_0_r.
    now rewrite IH.
  - now rewrite IH.
Qed.

Lemma sub_no_match (c : compiled) (repl : string -> option string)
    (text : string) :
  finditer c text = [] -> sub c repl text = Some text.
Proof.
  unfold finditer, sub. intros ->. cbn [sub_from]. now rewrite drop_0.
Qed.

(** The empty pattern matches before every character and at the end. *)
Lemma scan_empty_key (ci : bool) (s : string) (pos : nat) :
  scan (match_literal ci "") s pos 0
  = (pos, pos) :: match s with
                  | "" => []
                  | String _ r => scan (match_literal ci "") r (S pos) 0
                  end.
Proof. destruct s; reflexivity. Qed.

Lemma literal_empty_matches (ci : bool) (text : string) :
  finditer (literal ci "") text <> [].
Proof.
  unfold finditer, literal, of_matcher. rewrite scan_empty_key. discriminate.
Qed.

Lemma slice_empty (p : nat) (text : string) : slice p p text = "".
Proof. unfold slice. rewrite Nat.sub_diag. apply take_0. Qed.

Lemma sub_from_empty_key (ci : bool) (repl : string -> option string)
    (s : string) : forall pre,
  sub_from repl (pre ++ s) (String.length pre)
    (scan (match_literal ci "") s (String.length pre) 0)
  = match repl "" with
    | Some x => Some (interleave x s)
    | None => None
    end.
Proof.
  induction s as [|c r IH]; intros pre; rewrite scan_empty_key;
    cbn [sub_from]; rewrite slice_empty.
  - destruct (repl "") as [x|]; [|reflexivity].
    rewrite drop_all by (rewrite length_app; simpl; lia).
    cbn [append interleave]. now rewrite app_nil_r.
  - destruct (repl "") as [x|] eqn:X; [|reflexivity].
    rewrite (sub_from_shift repl _ _ (String.length pre) (S (String.length pre))).
    + specialize (IH (pre ++ String c "")%string).
      rewrite snoc_app, length_app in IH. cbn [String.length] in IH.
      replace (String.length pre + 1) with (S (String.length pre)) in IH by lia.
      rewrite IH; try rewrite X. cbn [option_map append interleave].
      replace (S (String.length pre)) with (String.length pre + 1) by lia.
      rewrite slice_at. reflexivity.
    + lia.
    + intros b e rest H. apply scan_head in H. lia.
Qed.

Lemma sub_literal_empty (ci : bool) (repl : string -> option string)
    (text : string) :
  sub (literal ci "") repl text
  = match repl "" with
    | Some x => Some (interleave x text)
    | None => None
    end.
Proof. exact (sub_from_empty_key ci repl text ""). Qed.

(** Whether a replacement string can be read does not depend on the
    matched text. *)
Lemma expand_go_parsed (template m m' : string) : forall skip,
  expand_go template m skip = None -> expand_go template m' skip = None.
Proof.
  induction template as [|c tl IH]; intros skip; cbn [expand_go];
    [discriminate|].
  destruct skip as [|k]; [|apply IH].
  destruct (Ascii.eqb c "\").
  - destruct (escape_at tl) as [[x n]|]; [|reflexivity].
    specialize (IH n). destruct (expand_go tl m n); [discriminate|].
    intros _. now rewrite IH.
  - specialize (IH 0). destruct (expand_go tl m 0); [discriminate|].
    intros _. now rewrite IH.
Qed.

Lemma expand_parsed (template m m' : string) :
  expand_template template m = None -> expand_template template m' = None.
Proof. apply expand_go_parsed. Qed.

(** [Re.sub] with the mapped value on the literal pattern of a key. *)
Lemma sub_mapped (ci : bool) (key value text : string) :
  sub (literal ci key) (expand_template value) text
  = replace_mapped ci key value text.
Proof.
  unfold replace_mapped. destruct key as [|a key].
  - apply sub_literal_empty.
  - unfold literal.
    rewrite sub_rewrite by (apply DictionaryFacts.literal_proper; discriminate).
    symmetry. apply replace_by_rewrite. discriminate.
Qed.

Lemma sub_template_mapped (ci : bool) (key value text : string) :
  finditer (literal ci key) text <> [] ->
  sub_template (literal ci key) value text = replace_mapped ci key value text.
Proof.
  intros M. unfold sub_template.
  destruct (expand_template value "") eqn:E; [apply sub_mapped|].
  rewrite <- sub_mapped. unfold sub, finditer in *.
  destruct (literal ci key text) as [|[b e] rest]; [congruence|].
  cbn [sub_from]. now rewrite (expand_parsed value "" _ E).
Qed.

Lemma replace_mapped_no_match (ci : bool) (key value text : string) :
  finditer (literal ci key) text = [] ->
  replace_mapped ci key value text = Some text.
Proof.
  intros M. rewrite <- sub_mapped. now apply sub_no_match.
Qed.

Lemma dictionary_entry_mapped rule pb text report key value :
  action rule = "REPLACE" ->
  option_map fst (dictionary_entry rule pb false (text, report) (key, value))
  = replace_mapped (case_insensitive rule) key value text.
Proof.
  intros A. unfold dictionary_entry. cbv beta iota zeta.
  destruct (finditer (literal (case_insensitive rule) key) text) as [|sp spans] eqn:M.
  - cbn [option_map fst]. symmetry. now apply replace_mapped_no_match.
  - rewrite A. cbn [String.eqb Ascii.eqb Bool.eqb].
    rewrite sub_template_mapped by (rewrite M; discriminate).
    now destruct (replace_mapped (case_insensitive rule) key value text).
Qed.

Lemma dictionary_entries_mapped rule pb (items : list (string * string)) :
  action rule = "REPLACE" ->
  forall text report,
    option_map fst
      (fold_option (dictionary_entry rule pb false) items (text, report))
    = fold_option
        (fun t item =>
           replace_mapped (case_insensitive rule) (fst item) (snd item) t)
        items text.
Proof.
  intros A. induction items as [|[key value] items IH]; intros text report;
    cbn [fold_option fst snd]; [reflexivity|].
  rewrite <- (dictionary_entry_mapped rule pb text report key value A).
  destruct (dictionary_entry rule pb false (text, report) (key, value))
    as [[t1 r1]|]; cbn [option_map fst]; [apply IH | reflexivity].
Qed.

Section Engine.
Variable re_compile : string -> bool -> option compiled.

Lemma apply_rule_mapped text rule pb report :
rule_type rule = "dictionary_entities" -> action rule = "REPLACE" ->
option_map fst (_apply_rule re_compile text rule pb report false)
= mapped_text rule text.
Proof.
intros T A. unfold _apply_rule. rewrite T. cbn [String.eqb Ascii.eqb Bool.eqb].
unfold _apply_dictionary, mapped_text. now apply dictionary_entries_mapped.
Qed.

Lemma rules_mapped pb (rs : list Rule) :
Forall (fun rule => is_dictionary_replace rule = true) rs ->
forall text report,
  option_map fst
    (fold_option
       (fun st rule => _apply_rule re_compile (fst st) rule pb (snd st) false)
       rs (text, report))
  = fold_option (fun t rule => mapped_text rule t) rs text.
Proof.
induction 1 as [|rule rs D F IH]; intros text report;
  cbn [fold_option fst snd]; [reflexivity|].
unfold is_dictionary_replace in D. apply andb_prop in D as [T A].
apply String.eqb_eq in T. apply String.eqb_eq in A.
rewrite <- (apply_rule_mapped text rule pb report T A).
destruct (_apply_rule re_compile text rule pb report false) as [[t1 r1]|];
  cbn [option_map fst]; [apply IH | reflexivity].
Qed.

(** A playbook whose enabled rules are dictionary rules with action
  REPLACE. *)
Lemma apply_rules_mapped text pb :
_rules_by_type pb "allowlist" = [] ->
Forall (fun rule => is_dictionary_replace rule = true) (rule_sequence pb) ->
option_map fst (apply_rules re_compile text pb false)
= fold_option (fun t rule => mapped_text rule t) (rule_sequence pb) text.
Proof.
intros L F. unfold apply_rules. cbv zeta. rewrite L.
cbn [_apply_allowlist allowlist_rules].
rewrite <- (rules_mapped pb _ F text empty_report).
destruct (fold_option _ (rule_sequence pb) (text, empty_report))
  as [[t1 r1]|]; reflexivity.
Qed.

End Engine.

(** A mapped value without backslashes stands for itself: the step of
    its key is [str.replace]. *)
Lemma replace_mapped_plain (key value text : string) :
  no_backslash value = true ->
  replace_mapped false key value text = Some (replace text key value).
Proof.
  intros V. unfold replace_mapped, replace. destruct key as [|a key].
  - now rewrite DictionaryFacts.expand_no_backslash.
  - rewrite replace_by_rewrite by discriminate.
    apply DictionaryFacts.rewrite_literal; [discriminate | exact V].
Qed.

End MappingFacts.

(** ** What a dry run and a live run count *)

Module SearchFacts.
Import Playbooks Rules ReportSpec SearchSpec.

Lemma register_zero report rule : _register_match report rule 0 = report.
Proof. reflexivity. Qed.

Lemma fold_left_ext {A B} (f g : A -> B -> A) (l : list B) :
  (forall a x, f a x = g a x) -> forall a, fold_left f l a = fold_left g l a.
Proof.
  intros E. induction l as [|x l IH]; intros a; cbn [fold_left];
    [reflexivity|]. now rewrite E.
Qed.

Lemma fold_option_map {A B C} (f : A -> B -> option A) (g : C -> B)
    (l : list C) : forall a,
  fold_option f (map g l) a = fold_option (fun a x => f a (g x)) l a.
Proof.
  induction l as [|x l IH]; intros a; cbn [map fold_option]; [reflexivity|].
  destruct (f a (g x)); auto.
Qed.

Lemma dictionary_entry_search rule pb dry st item :
  dictionary_entry rule pb dry st item
  = search_step pb dry st
      {| owner := rule;
         finder := Some (Re.literal (case_insensitive rule) (fst item));
         mapped := Some (snd item) |}.
Proof.
  destruct st as [text report], item as [target replacement].
  unfold dictionary_entry, search_step, substituted, counted, found.
  cbn [owner finder mapped fst snd].
  destruct (Re.finditer (Re.literal (case_insensitive rule) target) text)
    as [|sp spans].
  - cbn [List.length Z.of_nat]. rewrite register_zero. now destruct dry.
  - destruct dry; [reflexivity|].
    destruct (String.eqb (action rule) "REMOVE"); [reflexivity|].
    destruct (String.eqb (action rule) "REPLACE"); reflexivity.
Qed.

Section Engine.
Variable re_compile : string -> bool -> option Re.compiled.

Lemma regex_entry_search rule pb dry st e :
regex_entry re_compile rule pb dry st e
= if PyStr.truthy (pattern e) then
    search_step pb dry st
      {| owner := rule;
         finder := re_compile (PyStr.or_else (pattern e) "")
                     (case_insensitive rule || entry_case_insensitive e);
         mapped := None |}
  else Some st.
Proof.
destruct st as [text report].
unfold regex_entry, search_step, substituted, counted, found.
cbn [owner finder mapped fst snd].
destruct (PyStr.truthy (pattern e)); cbn [negb]; [|reflexivity].
destruct (re_compile _ _) as [c|]; [|reflexivity].
destruct (Re.finditer c text) as [|sp spans].
- cbn [List.length Z.of_nat]. rewrite register_zero. now destruct dry.
- now destruct dry.
Qed.

Lemma regex_entries_search rule pb dry (entries : list PatternEntry) :
forall st,
  fold_option (regex_entry re_compile rule pb dry) entries st
  = fold_option (search_step pb dry)
      (map (fun e =>
              {| owner := rule;
                 finder := re_compile (PyStr.or_else (pattern e) "")
                             (case_insensitive rule || entry_case_insensitive e);
                 mapped := None |})
           (filter (fun e => PyStr.truthy (pattern e)) entries))
      st.
Proof.
induction entries as [|e entries IH]; intros st;
  cbn [fold_option filter map]; [reflexivity|].
rewrite regex_entry_search.
destruct (PyStr.truthy (pattern e)); cbn [map fold_option]; [|apply IH].
destruct (search_step pb dry st _); auto.
Qed.

Lemma apply_rule_searches text rule pb report dry :
_apply_rule re_compile text rule pb report dry
= fold_option (search_step pb dry) (searches_of re_compile rule)
    (text, report).
Proof.
unfold _apply_rule, searches_of.
destruct (String.eqb (rule_type rule) "dictionary_entities").
{ unfold _apply_dictionary. rewrite fold_option_map.
  apply fold_option_ext. intros st item. apply dictionary_entry_search. }
destruct (String.eqb (rule_type rule) "regex_patterns").
{ apply regex_entries_search. }
destruct (String.eqb (rule_type rule) "keyword_list"); [|reflexivity].
unfold _apply_keywords.
destruct (keywords rule) as [|k ks] eqn:K; [reflexivity|].
cbn [fold_option]. unfold search_step, substituted, counted, found.
cbn [owner finder mapped fst snd]. rewrite <- K.
destruct (Re.finditer (Re.alternation (case_insensitive rule) (keywords rule))
            text) as [|sp spans].
- cbn [List.length Z.of_nat]. rewrite register_zero. now destruct dry.
- destruct dry; cbn [negb]; [reflexivity|].
  now destruct (Re.sub _ _ text).
Qed.

Lemma rules_searches pb dry (rs : list Rule) : forall st,
fold_option
  (fun st rule => _apply_rule re_compile (fst st) rule pb (snd st) dry) rs st
= fold_option (search_step pb dry) (flat_map (searches_of re_compile) rs) st.
Proof.
induction rs as [|rule rs IH]; intros [text report];
  cbn [fold_option flat_map fst snd]; [reflexivity|].
rewrite fold_option_app, apply_rule_searches.
destruct (fold_option (search_step pb dry) (searches_of re_compile rule)
            (text, report)); [apply IH | reflexivity].
Qed.

End Engine.

(** A dry run counts every search on the text it starts from. *)
Lemma dry_steps pb (l : list Search) (text : string) : forall report,
  Forall (fun s => finder s <> None) l ->
  fold_option (search_step pb true) l (text, report)
  = Some (text, fold_left (fun r s => counted r s text) l report).
Proof.
  induction l as [|s l IH]; intros report F; cbn [fold_option fold_left];
    [reflexivity|].
  apply Forall_cons_iff in F as [C F]. unfold search_step at 1.
  cbn [fst snd]. destruct (finder s); [|congruence]. now apply IH.
Qed.

(** A live run counts every search on the text it is given. *)
Lemma live_steps pb (l : list Search) : forall text report out report',
  fold_option (search_step pb false) l (text, report) = Some (out, report') ->
  Forall (fun s => finder s <> None) l
  /\ exists texts,
       live_texts pb l text = Some texts
       /\ report'
          = fold_left (fun r st => counted r (fst st) (snd st))
              (combine l texts) report.
Proof.
  induction l as [|s l IH]; intros text report out report' H;
    cbn [fold_option] in H.
  - injection H as <- <-. split; [constructor|]. exists []. now split.
  - unfold search_step at 1 in H. cbn [fst snd] in H.
    destruct (finder s) as [c|] eqn:C; [|discriminate].
    destruct (substituted pb s text) as [text'|] eqn:S; [|discriminate].
    apply IH in H as (F & texts & L & R).
    split; [constructor; [congruence | exact F]|].
    exists (text :: texts). cbn [live_texts]. rewrite S, L.
    split; [reflexivity | exact R].
Qed.

Lemma counted_same_found (l : list Search) (protected : string) :
  forall texts report,
    Forall2 (fun s t => found s t = found s protected) l texts ->
    fold_left (fun r st => counted r (fst st) (snd st)) (combine l texts) report
    = fold_left (fun r st => counted r (fst st) (snd st))
        (map (fun s => (s, protected)) l) report.
Proof.
  induction l as [|s l IH]; intros texts report F; inversion F; subst;
    cbn [combine map fold_left fst snd]; [reflexivity|].
  unfold counted at 2 4. rewrite H1. now apply IH.
Qed.

Lemma fold_left_pairs (l : list Search) (protected : string) : forall report,
  fold_left (fun r s => counted r s protected) l report
  = fold_left (fun r st => counted r (fst st) (snd st))
      (map (fun s => (s, protected)) l) report.
Proof.
  induction l as [|s l IH]; intros report; cbn [map fold_left fst snd]; auto.
Qed.

Section Run.
Variable re_compile : string -> bool -> option Re.compiled.

(** [apply_rules] as one loop over the searches. *)
Lemma apply_rules_searches text pb dry :
apply_rules re_compile text pb dry
= match _apply_allowlist re_compile text (_rules_by_type pb "allowlist") [] with
  | Some (protected, placeholders) =>
      match fold_option (search_step pb dry) (searches re_compile pb)
              (protected, empty_report) with
      | Some (t, r) =>
          Some (fold_left
                  (fun restored entry =>
                     PyStr.replace restored (fst entry) (snd entry))
                  placeholders t, r)
      | None => None
      end
  | None => None
  end.
Proof.
unfold apply_rules, searches. cbv zeta.
destruct (_apply_allowlist _ _ _ _) as [[protected placeholders]|];
  [|reflexivity].
rewrite rules_searches.
destruct (fold_option _ _ _) as [[t r]|]; [|reflexivity].
f_equal. f_equal. apply fold_left_ext. now intros restored [a b].
Qed.

(** With at most one search a live run that returns and the dry run
  give the same report. *)
Lemma single_pass_report text pb out report :
total_passes pb <= 1 ->
apply_rules re_compile text pb false = Some (out, report) ->
exists out', apply_rules re_compile text pb true = Some (out', report).
Proof.
unfold total_passes, apply_rules. cbv zeta. intros P H.
destruct (_apply_allowlist _ _ _ _) as [[protected placeholders]|];
  [|discriminate].
destruct (fold_option _ (rule_sequence pb) (protected, empty_report))
  as [[t1 r1]|] eqn:F; [|discriminate].
inversion H; subst; clear H.
pose proof (DryRunFacts.rules_one_pass re_compile pb _ _ _ _ _ P F) as D.
unfold rule_step, run_state in D. rewrite D. eexists; reflexivity.
Qed.

End Run.

End SearchFacts.

(** ** The redaction engine: statements *)

Module RulesClaims.
Import Playbooks Rules ReportSpec TemplateSpec ScanSpec Examples MappingSpec
       MappingSamples SearchSpec.

(** C1, as amended.  When a live run returns, the dry run on the same
    text returns too.  The dry run counts every search (one per
    dictionary key, per non-empty pattern and per non-empty keyword
    list of the enabled rules, in the order of the run) on the
    allowlist-protected text; the live run counts every search on the
    text the searches before it have left.  The two reports are equal
    when every search finds as many matches in the text the live run
    gives it as in the allowlist-protected text, and so whenever there
    is at most one search. *)
Theorem dry_run_report_agreement
    (re_compile : string -> bool -> option Re.compiled)
    (text : string) (playbook : Playbook) (out : string) (report : RuleMatchReport) :
  apply_rules re_compile text playbook false = Some (out, report) ->
  exists protected texts dry_out,
    protected_text re_compile text playbook = Some protected
    /\ live_texts playbook (searches re_compile playbook) protected = Some texts
    /\ report = report_of (combine (searches re_compile playbook) texts)
    /\ apply_rules re_compile text playbook true
       = Some (dry_out,
               report_of (map (fun s => (s, protected))
                            (searches re_compile playbook)))
    /\ (Forall2 (fun s t => found s t = found s protected)
          (searches re_compile playbook) texts ->
        apply_rules re_compile text playbook true = Some (dry_out, report))
    /\ (total_passes playbook <= 1 ->
        apply_rules re_compile text playbook true = Some (dry_out, report)).
Proof.
  intros H. pose proof H as H0.
  rewrite SearchFacts.apply_rules_searches in H. unfold protected_text.
  destruct (_apply_allowlist re_compile text _ [])
    as [[protected placeholders]|] eqn:A; [|discriminate].
  destruct (fold_option _ _ _) as [[t r]|] eqn:F; [|discriminate].
  injection H as <- <-.
  apply SearchFacts.live_steps in F as (C & texts & L & R).
  exists protected, texts,
    (fold_left (fun restored entry =>
                  PyStr.replace restored (fst entry) (snd entry))
               placeholders protected).
  assert (D : apply_rules re_compile text playbook true
              = Some (fold_left
                        (fun restored entry =>
                           PyStr.replace restored (fst entry) (snd entry))
                        placeholders protected,
                      report_of (map (fun s => (s, protected))
                                   (searches re_compile playbook)))).
  { rewrite SearchFacts.apply_rules_searches, A.
    rewrite SearchFacts.dry_steps by exact C.
    unfold report_of. now rewrite SearchFacts.fold_left_pairs. }
  split; [reflexivity|]. split; [exact L|]. split; [exact R|].
  split; [exact D|]. split.
  - intros S. rewrite D, R. unfold report_of.
    now rewrite (SearchFacts.counted_same_found _ protected texts _ S).
  - intros P.
    destruct (SearchFacts.single_pass_report re_compile _ _ _ _ P H0)
      as (out' & D').
    rewrite D in D'. rewrite D. injection D' as _ ->. reflexivity.
Qed.

Lemma dry_run_report_agreement_witness :
  total_passes two_removals = 2
  /\ apply_rules Regex.compile "Acme Corp pays" two_removals false
     = Some (" Corp ",
             {| total_matches := 2;
                matches_by_rule_type := [("keyword_list", 2%Z)];
                matches_by_rule_id := [("acme", 1%Z); ("pays", 1%Z)] |})
  /\ exists dry_out,
       apply_rules Regex.compile "Acme Corp pays" two_removals true
       = Some (dry_out,
               {| total_matches := 2;
                  matches_by_rule_type := [("keyword_list", 2%Z)];
                  matches_by_rule_id := [("acme", 1%Z); ("pays", 1%Z)] |}).
Proof.
  split; [reflexivity|].
  assert (H : apply_rules Regex.compile "Acme Corp pays" two_removals false
              = Some (" Corp ",
                      {| total_matches := 2;
                         matches_by_rule_type := [("keyword_list", 2%Z)];
                         matches_by_rule_id := [("acme", 1%Z); ("pays", 1%Z)] |}))
    by (vm_compute; reflexivity).
  split; [exact H|].
  destruct (dry_run_report_agreement Regex.compile _ _ _ _ H)
    as (protected & texts & dry_out & P & L & _ & _ & S & _).
  exists dry_out. apply S.
  vm_compute in P. injection P as <-.
  vm_compute in L. injection L as <-.
  repeat constructor.
Defined.

(** C1 as stated fails: on "ACME pays" the live run counts the keyword
    that the dictionary replacement brought in, the dry run does not. *)
Lemma dry_run_report_differs :
  apply_rules Regex.compile "ACME pays" client_playbook false
  = Some ("Client  pays",
          {| total_matches := 2;
             matches_by_rule_type :=
               [("dictionary_entities", 1%Z); ("keyword_list", 1%Z)];
             matches_by_rule_id := [("client", 1%Z); ("corp", 1%Z)] |})
  /\ apply_rules Regex.compile "ACME pays" client_playbook true
     = Some ("ACME pays",
             {| total_matches := 1;
                matches_by_rule_type := [("dictionary_entities", 1%Z)];
                matches_by_rule_id := [("client", 1%Z)] |}).
Proof. split; vm_compute; reflexivity. Qed.

(** C2 at its failing input: the allowlisted phrase stands at the head of
    the text; the digit rule matches inside the placeholder that has
    taken its place, the placeholder is no longer found when the phrases
    are restored, and the phrase is not in the result. *)
Theorem allowlisted_phrase_lost :
  Re.finditer (Re.literal false "Acme Corp") "Acme Corp owes 12" = [(0, 9)]
  /\ apply_rules Regex.compile "Acme Corp owes 12" allow_digits_playbook false
     = Some ("__BLUR_ALLOWLIST_[BLURRED]__ owes [BLURRED]",
             {| total_matches := 2;
                matches_by_rule_type := [("regex_patterns", 2%Z)];
                matches_by_rule_id := [("digits", 2%Z)] |})
  /\ Re.finditer (Re.literal false "Acme Corp")
       "__BLUR_ALLOWLIST_[BLURRED]__ owes [BLURRED]" = [].
Proof.
  split; [|split].
  - vm_compute; reflexivity.
  - vm_compute; reflexivity.
  - vm_compute; reflexivity.
Qed.

(** C3, as amended.  A dictionary rule with action REPLACE never reads
    its replacement template: giving every such rule of a playbook any
    template, or none, changes no result.  The step of such a rule
    takes the keys in the order of the dictionary and replaces, in the
    text the keys before have left, every occurrence of the key
    (leftmost first, without overlap, without regard to case when the
    rule says so) by the mapped value as [re.sub] reads a replacement
    string, and it raises where that reading raises; so does the whole
    run of a playbook whose enabled rules are all of this kind, rule
    after rule.  A mapped value without backslashes stands for itself,
    which makes the step of its key [str.replace]; on a playbook with
    one enabled rule of this kind and one such key the result is the
    text with every occurrence of the key replaced by the value. *)
Theorem dictionary_replace_uses_mapped_value
    (re_compile : string -> bool -> option Re.compiled) :
  (forall template text playbook dry_run,
      apply_rules re_compile text (retemplate template playbook) dry_run
      = apply_rules re_compile text playbook dry_run)
  /\ (forall text rule playbook report,
        rule_type rule = "dictionary_entities" -> action rule = "REPLACE" ->
        option_map fst (_apply_rule re_compile text rule playbook report false)
        = mapped_text rule text)
  /\ (forall text playbook,
        _rules_by_type playbook "allowlist" = [] ->
        Forall (fun rule => is_dictionary_replace rule = true)
               (rule_sequence playbook) ->
        option_map fst (apply_rules re_compile text playbook false)
        = fold_option (fun t rule => mapped_text rule t)
            (rule_sequence playbook) text)
  /\ (forall key value text,
        no_backslash value = true ->
        replace_mapped false key value text
        = Some (PyStr.replace text key value))
  /\ (forall text playbook rule key value,
        rules playbook = [rule] -> enabled rule = true ->
        rule_type rule = "dictionary_entities" -> action rule = "REPLACE" ->
        case_insensitive rule = false -> dictionary rule = [(key, value)] ->
        key <> "" -> no_backslash value = true ->
        exists report,
          apply_rules re_compile text playbook false
          = Some (PyStr.replace text key value, report)).
Proof.
  split; [|split; [|split; [|split]]].
  - intros. apply DictionaryFacts.apply_rules_retemplate.
  - intros. now apply MappingFacts.apply_rule_mapped.
  - intros. now apply MappingFacts.apply_rules_mapped.
  - intros. now apply MappingFacts.replace_mapped_plain.
  - intros. eapply DictionaryFacts.apply_rules_single_key; eassumption.
Qed.

Lemma dictionary_replace_uses_mapped_value_witness :
  (rules person_playbook = [person_rule] /\ enabled person_rule = true
   /\ rule_type person_rule = "dictionary_entities"
   /\ action person_rule = "REPLACE" /\ case_insensitive person_rule = false
   /\ dictionary person_rule = [("John Smith", "[NAME]")]
   /\ "John Smith" <> "" /\ no_backslash "[NAME]" = true)
  /\ (exists report,
        apply_rules Regex.compile "John Smith called John Smith"
          person_playbook false
        = Some (PyStr.replace "John Smith called John Smith" "John Smith"
                  "[NAME]", report))
  /\ option_map fst
       (apply_rules Regex.compile "a ACME Acme Inc" mapping_playbook false)
     = Some "c X X Inc.".
Proof.
  split; [repeat split; discriminate|]. split.
  - apply (proj2 (proj2 (proj2 (proj2
             (dictionary_replace_uses_mapped_value Regex.compile))))
             "John Smith called John Smith" person_playbook person_rule);
      try reflexivity; discriminate.
  - rewrite (proj1 (proj2 (proj2
               (dictionary_replace_uses_mapped_value Regex.compile)))).
    + reflexivity.
    + reflexivity.
    + repeat constructor.
Defined.

(** C3 as stated fails: the rule carries the template "[{rule_name}]",
    which formats to "[person]", and the matches are replaced by the
    mapped value "[NAME]" all the same. *)
Lemma dictionary_replace_ignores_template :
  replacement_template person_rule = Some "[{rule_name}]"
  /\ format "[{rule_name}]" (name person_rule) (rule_id person_rule)
     = Some "[person]"
  /\ apply_rules Regex.compile "John Smith called John Smith" person_playbook false
     = Some ("[NAME] called [NAME]",
             {| total_matches := 2;
                matches_by_rule_type := [("dictionary_entities", 2%Z)];
                matches_by_rule_id := [("person", 2%Z)] |}).
Proof. repeat split; vm_compute; reflexivity. Qed.

(** C4.  Scenario A: the social security number is replaced by eleven
    asterisks, one for each of its characters, and one match is
    reported. *)
Theorem scenario_a_same_length_mask :
  apply_rules Regex.compile "SSN: 123-45-6789 end" ssn_playbook false
  = Some ("SSN: *********** end",
          {| total_matches := 1;
             matches_by_rule_type := [("regex_patterns", 1%Z)];
             matches_by_rule_id := [("ssn", 1%Z)] |})
  /\ "SSN: *********** end"
     = ("SSN: " ++ PyStr.repeat_str "*" (String.length "123-45-6789") ++ " end")%string
  /\ String.length "123-45-6789" = 11.
Proof. repeat split; vm_compute; reflexivity. Qed.

(** C5 at its failing input: no rule matches, yet the text, which
    happens to contain the first placeholder token, comes back with the
    allowlist phrase in the place of the token. *)
Theorem placeholder_in_input_rewritten :
  Re.finditer (Re.literal false "Acme Corp") "see __BLUR_ALLOWLIST_1__" = []
  /\ apply_rules Regex.compile "see __BLUR_ALLOWLIST_1__" allow_playbook false
     = Some ("see Acme Corp", empty_report)
  /\ "see Acme Corp" <> "see __BLUR_ALLOWLIST_1__".
Proof.
  split; [|split].
  - vm_compute; reflexivity.
  - vm_compute; reflexivity.
  - discriminate.
Qed.

(** C9.  Every report of [apply_rules], every merge of two consistent
    reports and every aggregate of [_apply_rules_to_parts] is
    consistent: the total is the sum of the per-type counts and the sum
    of the per-id counts, and every stored count is positive. *)
Theorem reports_consistent
    (re_compile : string -> bool -> option Re.compiled)
    (fromstring : Utils.bytes -> option Xml.element)
    (tostring : Xml.element -> Utils.bytes) :
  (forall text playbook dry_run out report,
      apply_rules re_compile text playbook dry_run = Some (out, report) ->
      consistent report)
  /\ (forall target report,
        consistent target -> consistent report ->
        consistent (ProcessorDocx._merge_reports target report))
  /\ (forall parts playbook dry_run out aggregate,
        ProcessorDocx._apply_rules_to_parts re_compile fromstring tostring
          parts playbook dry_run = Some (out, aggregate) ->
        consistent aggregate).
Proof.
  split; [|split].
  - intros; eapply ReportFacts.apply_rules_consistent; eauto.
  - intros; now apply MergeFacts.merge_consistent.
  - intros; eapply MergeFacts.apply_rules_to_parts_consistent; eauto.
Qed.

Lemma reports_consistent_witness :
  apply_rules Regex.compile "ACME pays" client_playbook false
  = Some ("Client  pays", client_report)
  /\ consistent client_report
  /\ consistent (ProcessorDocx._merge_reports client_report client_report)
  /\ exists out,
       ProcessorDocx._apply_rules_to_parts Regex.compile sample_fromstring
         sample_tostring sample_parts ssn_playbook false
       = Some (out, ssn_report)
       /\ consistent ssn_report.
Proof.
  destruct (reports_consistent Regex.compile sample_fromstring sample_tostring)
    as (A & M & P).
  assert (E : apply_rules Regex.compile "ACME pays" client_playbook false
              = Some ("Client  pays", client_report)) by (vm_compute; reflexivity).
  pose proof (A _ _ _ _ _ E) as C.
  split; [exact E|]. split; [exact C|]. split; [exact (M _ _ C C)|].
  assert (F : option_map snd
                (ProcessorDocx._apply_rules_to_parts Regex.compile
                   sample_fromstring sample_tostring sample_parts
                   ssn_playbook false)
              = Some ssn_report) by (vm_compute; reflexivity).
  destruct (ProcessorDocx._apply_rules_to_parts Regex.compile sample_fromstring
              sample_tostring sample_parts ssn_playbook false)
    as [[out agg]|] eqn:G; [|discriminate].
  simpl in F. inversion F; subst agg.
  exists out. split; [reflexivity | exact (P _ _ _ _ _ G)].
Defined.

End RulesClaims.

(** ** The structural cleaner and the parts: statements *)

Module DocumentClaims.
Import Xml CleanerDocx ProcessorDocx RevisionSpec PartsSpec Examples.

(** C6, as amended.  A part that does not parse and is not the comments
    part keeps its bytes through the cleaner, through the rule
    application and through both in a row; the parts that do not parse
    add nothing to the report and raise nothing: the report, or the
    exception, is the one of the container without them. *)
Theorem unparseable_part_left_alone
    (re_compile : string -> bool -> option Re.compiled)
    (fromstring : bytes -> option element) (tostring : element -> bytes)
    (parts : Dict.t bytes) (name : string) (data : bytes) :
  Dict.wf parts -> In (name, data) parts -> fromstring data = None ->
  name <> "word/comments.xml" ->
  Dict.get (clean_docx_parts fromstring tostring parts) name = Some data
  /\ forall playbook dry_run,
       (forall out aggregate,
           _apply_rules_to_parts re_compile fromstring tostring parts
             playbook dry_run = Some (out, aggregate) ->
           Dict.get out name = Some data)
       /\ (forall out aggregate,
             _apply_rules_to_parts re_compile fromstring tostring
               (clean_docx_parts fromstring tostring parts) playbook dry_run
             = Some (out, aggregate) ->
             Dict.get out name = Some data)
       /\ option_map snd
            (_apply_rules_to_parts re_compile fromstring tostring parts
               playbook dry_run)
          = option_map snd
              (_apply_rules_to_parts re_compile fromstring tostring
                 (filter (parseable fromstring) parts) playbook dry_run).
Proof.
  intros W I F N.
  pose proof (PartsFacts.clean_keeps_unparseable fromstring tostring
                parts name data W I F N) as C.
  split; [exact C|]. intros playbook dry_run. split; [|split].
  - intros out aggregate H.
    eapply ProcessorFacts.rules_keep_unparseable; eauto.
  - intros out aggregate H.
    eapply ProcessorFacts.rules_keep_unparseable;
      [apply PartsFacts.wf_clean; exact W
      | apply DictFacts.get_in; exact C | exact F | exact H].
  - apply ProcessorFacts.rules_ignore_unparseable.
Qed.

Lemma sample_parts_wf : Dict.wf sample_parts.
Proof.
  unfold Dict.wf. simpl.
  repeat (constructor; [simpl; intuition discriminate|]). constructor.
Qed.

Lemma unparseable_part_left_alone_witness :
  (Dict.wf sample_parts
   /\ In ("word/broken.xml", utf8 "<w:p") sample_parts
   /\ sample_fromstring (utf8 "<w:p") = None
   /\ "word/broken.xml" <> "word/comments.xml")
  /\ Dict.get (clean_docx_parts sample_fromstring sample_tostring sample_parts)
       "word/broken.xml" = Some (utf8 "<w:p").
Proof.
  assert (I : In ("word/broken.xml", utf8 "<w:p") sample_parts)
    by (simpl; auto).
  assert (F : sample_fromstring (utf8 "<w:p") = None) by reflexivity.
  assert (N : "word/broken.xml" <> "word/comments.xml") by discriminate.
  split; [repeat split; auto using sample_parts_wf|].
  exact (proj1 (unparseable_part_left_alone Regex.compile sample_fromstring
                  sample_tostring sample_parts "word/broken.xml" (utf8 "<w:p")
                  sample_parts_wf I F N)).
Defined.

(** C6 as stated fails for the comments part: it does not parse, and it
    is dropped, not carried to the output of the cleaner. *)
Lemma unparseable_comments_part_dropped :
  sample_fromstring (utf8 "<w:comments") = None
  /\ Dict.get broken_comments_parts "word/comments.xml" = Some (utf8 "<w:comments")
  /\ Dict.get (clean_docx_parts sample_fromstring sample_tostring
                 broken_comments_parts) "word/comments.xml" = None.
Proof. repeat split; vm_compute; reflexivity. Qed.

(** C7.  On a tree with distinct element identities the four loops of
    [_accept_revisions] give the tree in which every [w:del] and
    [w:moveFrom] element below the root is gone with its subtree and
    every [w:ins] and [w:moveTo] element below the root is replaced, in
    place and in order, by its children; no element with one of the four
    tags is left below the root.  A content part that parses comes out
    of the cleaner as that tree, less its comment anchors, serialized;
    and the comments part is not among the cleaned parts. *)
Theorem revisions_accepted_comments_dropped
    (fromstring : bytes -> option element) (tostring : element -> bytes) :
  (forall tree,
      NoDup (ids tree) ->
      _accept_revisions tree = accepted tree
      /\ forall d, In d (descendants (_accept_revisions tree)) ->
                   is_revision_tag (tag_of d) = false)
  /\ (forall parts name data tree,
        Dict.wf parts -> In (name, data) parts ->
        PyStr.endswith name ".xml" = true -> PyStr.startswith name "word/" = true ->
        name <> "word/comments.xml" ->
        fromstring data = Some tree -> NoDup (ids tree) ->
        Dict.get (clean_docx_parts fromstring tostring parts) name
        = Some (tostring (_remove_comments (accepted tree))))
  /\ (forall parts,
        Dict.get (clean_docx_parts fromstring tostring parts) "word/comments.xml"
        = None).
Proof.
  split; [|split].
  - intros tree N.
    pose proof (RevisionFacts.accept_revisions_accepted tree N) as E.
    split; [exact E|]. rewrite E. intros d.
    apply RevisionFacts.accepted_no_revision.
  - intros parts name data tree W I X S N F U.
    rewrite <- (RevisionFacts.accept_revisions_accepted tree U).
    now apply PartsFacts.clean_word_part with (data := data).
  - apply PartsFacts.comments_part_dropped.
Qed.

Lemma sample_document_ids : NoDup (ids sample_document).
Proof.
  vm_compute. repeat (constructor; [simpl; intuition discriminate|]). constructor.
Qed.

Lemma revisions_accepted_comments_dropped_witness :
  NoDup (ids sample_document)
  /\ _accept_revisions sample_document
     = node 0 "document"
         [node 1 "body" [node 2 "p" [run 4 "SSN: 123-45-6789"; run 9 " end"]]]
  /\ Dict.get sample_parts "word/comments.xml" = Some (utf8 "<w:comments/>")
  /\ Dict.get (clean_docx_parts sample_fromstring sample_tostring sample_parts)
       "word/comments.xml" = None.
Proof.
  destruct (revisions_accepted_comments_dropped sample_fromstring sample_tostring)
    as (A & _ & C).
  split; [exact sample_document_ids|]. split; [|split].
  - rewrite (proj1 (A sample_document sample_document_ids)).
    vm_compute; reflexivity.
  - reflexivity.
  - apply C.
Defined.

End DocumentClaims.

(** ** File names and decoding: statements *)

Module UtilsClaims.
Import Utils FilenameSpec.

(** C8, as amended.  [sanitize_filename] with the default length trims
    the surrounding whitespace, replaces every maximal run of characters
    outside [[A-Za-z0-9._-]] by one underscore, takes "file" when
    nothing is left, and keeps the first 255 characters; the result has
    between 1 and 255 characters. *)
Theorem sanitize_filename_collapses_runs (name : string) :
  sanitize_filename name default_max_length = Some (sanitized name)
  /\ 1 <= String.length (sanitized name) <= 255.
Proof.
  split.
  - apply FilenameFacts.sanitize_filename_sanitized.
  - apply FilenameFacts.length_sanitized.
Qed.

(** C8 as stated fails: the two spaces of "a  b" become one underscore,
    not two. *)
Lemma sanitize_filename_one_underscore_per_run :
  sanitize_filename "a  b" default_max_length = Some "a_b"
  /\ replace_each (PyStr.strip "a  b") = "a__b".
Proof. split; vm_compute; reflexivity. Qed.

(** C10.  The loop of [decode_text_bytes] returns for every byte
    sequence, at the latest at latin-1, which decodes every byte; the
    result is what the first successful encoding gives, and the
    statement after the loop is never reached. *)
Theorem decode_text_bytes_total (data : bytes) :
  decode "latin-1" data = Some (map byte_value data)
  /\ exists encoding s,
       In encoding ["utf-8"; "cp1251"; "latin-1"]
       /\ decode encoding data = Some s
       /\ try_encodings ["utf-8"; "cp1251"; "latin-1"] data = Some s
       /\ decode_text_bytes data = s.
Proof.
  split; [apply DecodeFacts.decode_latin1_any|].
  destruct (DecodeFacts.try_encodings_returns data) as (encoding & s & I & D & T).
  exists encoding, s. repeat split; try assumption.
  unfold decode_text_bytes. now rewrite T.
Qed.

(** The byte 0x98 alone is neither UTF-8 nor Windows-1251: the third
    encoding decodes it. *)
Example decode_text_bytes_latin1 :
  decode "utf-8" [Byte.x98] = None /\ decode "cp1251" [Byte.x98] = None
  /\ decode_text_bytes [Byte.x98] = [152%N].
Proof. repeat split; vm_compute; reflexivity. Qed.

End UtilsClaims.

(** ** Further properties

    *** Options *)

Lemma some_eq {A} (a b : A) : Some a = Some b -> a = b.
Proof. congruence. Qed.

(** ** Chunks of a byte string *)

Module ChunkFacts.
Import Utils.

(** A slice with bounds inside the non-negative integers is a window
    of the sequence. *)
Lemma slice_bytes_window (data : bytes) (b n : nat) :
  slice_bytes (Z.of_nat b) (Z.of_nat b + Z.of_nat n) data
  = firstn n (skipn b data).
Proof.
  unfold slice_bytes, slice_bound.
  assert (B : (Z.of_nat b <? 0)%Z = false) by (apply Z.ltb_ge; lia).
  assert (E : (Z.of_nat b + Z.of_nat n <? 0)%Z = false) by (apply Z.ltb_ge; lia).
  rewrite B, E.
  replace (Z.to_nat (Z.of_nat b + Z.of_nat n)) with (b + n) by lia.
  rewrite Nat2Z.id.
  destruct (Nat.le_gt_cases b (List.length data)) as [L|L].
  - rewrite (Nat.min_l b) by exact L.
    destruct (Nat.le_gt_cases (b + n) (List.length data)) as [L'|L'].
    + rewrite Nat.min_l by exact L'. f_equal. lia.
    + rewrite Nat.min_r by lia.
      rewrite !firstn_all2; try reflexivity; rewrite length_skipn; lia.
  - rewrite !Nat.min_r by lia.
    rewrite !skipn_all2 by lia. now rewrite !firstn_nil.
Qed.

(** Consecutive windows of width [n] that reach the end of the
    sequence make up the sequence. *)
Lemma windows_concat (n : nat) : forall count (data : bytes),
  List.length data <= count * n ->
  concat (map (fun i => firstn n (skipn (i * n) data)) (seq 0 count)) = data.
Proof.
  induction count as [|c IH]; intros data L.
  - destruct data; [reflexivity | simpl in L; lia].
  - rewrite <- cons_seq, <- seq_shift. cbn [map concat]. rewrite map_map.
    rewrite (map_ext _ (fun i => firstn n (skipn (i * n) (skipn n data)))).
    + rewrite IH; [apply firstn_skipn|]. rewrite length_skipn. lia.
    + intros i. rewrite skipn_skipn. do 2 f_equal. lia.
Qed.

(** The number of start positions [range(0, len, n)] has. *)
Lemma count_bounds (len n : nat) :
  0 < n ->
  let count :=
    Z.to_nat (if (0 <? Z.of_nat len)%Z
              then (Z.of_nat len - 0 - 1) / Z.of_nat n + 1 else 0)%Z in
  len <= count * n
  /\ (forall i, i < count -> i * n < len)
  /\ Z.of_nat count = ((Z.of_nat len + Z.of_nat n - 1) / Z.of_nat n)%Z.
Proof.
  intros N count. subst count.
  destruct (Z.ltb_spec 0 (Z.of_nat len)) as [P|P].
  - assert (Q : (0 <= (Z.of_nat len - 0 - 1) / Z.of_nat n)%Z)
      by (apply Z.div_pos; lia).
    repeat split.
    + apply Nat2Z.inj_le. rewrite Nat2Z.inj_mul, Z2Nat.id by lia.
      Z.to_euclidean_division_equations. nia.
    + intros i I. apply Nat2Z.inj_lt. rewrite Nat2Z.inj_mul.
      apply Nat2Z.inj_lt in I. rewrite Z2Nat.id in I by lia.
      Z.to_euclidean_division_equations. nia.
    + rewrite Z2Nat.id by lia.
      Z.to_euclidean_division_equations. nia.
  - assert (len = 0) by lia. subst len. repeat split.
    + simpl. lia.
    + simpl. intros i I. lia.
    + simpl Z.to_nat. simpl Z.of_nat at 1 2.
      rewrite Z.div_small; lia.
Qed.

(** With a positive chunk size the chunks are the consecutive windows
    of that width. *)
Lemma iter_chunks_windows (data : bytes) (n : nat) :
  0 < n ->
  iter_chunks data (Z.of_nat n)
  = Some (map (fun i => firstn n (skipn (i * n) data))
            (seq 0 (Z.to_nat
                      (if (0 <? Z.of_nat (List.length data))%Z
                       then (Z.of_nat (List.length data) - 0 - 1) / Z.of_nat n + 1
                       else 0)%Z))).
Proof.
  intros N. unfold iter_chunks, range.
  assert (E0 : (Z.of_nat n =? 0)%Z = false) by (apply Z.eqb_neq; lia).
  assert (E1 : (0 <? Z.of_nat n)%Z = true) by (apply Z.ltb_lt; lia).
  rewrite E0, E1. f_equal. rewrite map_map. apply map_ext. intros i.
  replace (0 + Z.of_nat i * Z.of_nat n)%Z with (Z.of_nat (i * n)) by lia.
  apply slice_bytes_window.
Qed.

End ChunkFacts.

(** ** UTF-8 *)

Module Utf8Facts.
Import Utils CodecSpec.

Ltac arith := zify; Z.to_euclidean_division_equations; lia.

Lemma between_true (lo hi b : N) : (lo <= b <= hi)%N -> between lo hi b = true.
Proof.
  intros [L H]. unfold between.
  apply andb_true_intro. split; apply N.leb_le; assumption.
Qed.

Lemma between_spec (lo hi b : N) : between lo hi b = true <-> (lo <= b <= hi)%N.
Proof.
  unfold between. rewrite andb_true_iff, !N.leb_le. tauto.
Qed.

Lemma continuation_true (b : N) : (128 <= b <= 191)%N -> continuation b = true.
Proof. apply between_true. Qed.

Lemma continuation_spec (b : N) : continuation b = true <-> (128 <= b <= 191)%N.
Proof. apply between_spec. Qed.

Lemma encode_char_scalar (c : N) :
  scalar c = true <-> exists bs, encode_utf8_char c = Some bs.
Proof.
  unfold scalar, encode_utf8_char, between.
  destruct (N.ltb_spec c 128) as [A|A], (N.ltb_spec c 2048) as [B|B],
    (N.ltb_spec c 65536) as [C|C], (N.ltb_spec c 1114112) as [D|D],
    (N.ltb_spec c 55296) as [E|E], (N.ltb_spec 57343 c) as [F|F],
    (N.leb_spec 55296 c) as [G|G], (N.leb_spec c 57343) as [I|I];
    cbn [orb andb]; try lia;
    (split; [intros X; try discriminate X; eauto
            | intros [bs X]; try discriminate X; reflexivity]).
Qed.

(** Every byte of the UTF-8 form of a code point is below 256. *)
Lemma encode_char_bytes (c : N) (bs : list N) :
  encode_utf8_char c = Some bs -> Forall (fun b => (b < 256)%N) bs.
Proof.
  unfold encode_utf8_char, between.
  destruct (N.ltb_spec c 128) as [C1|C1].
  { intros H; apply some_eq in H; subst bs. repeat (apply Forall_cons; [arith|]). apply Forall_nil. }
  destruct (N.ltb_spec c 2048) as [C2|C2].
  { intros H; apply some_eq in H; subst bs. repeat (apply Forall_cons; [arith|]). apply Forall_nil. }
  destruct (N.ltb_spec c 65536) as [C3|C3].
  { destruct ((55296 <=? c)%N && (c <=? 57343)%N); [discriminate|].
    intros H; apply some_eq in H; subst bs. repeat (apply Forall_cons; [arith|]). apply Forall_nil. }
  destruct (N.ltb_spec c 1114112) as [C4|C4]; [|discriminate].
  intros H; apply some_eq in H; subst bs. repeat (apply Forall_cons; [arith|]). apply Forall_nil.
Qed.

(** Decoding reads back the code point that was encoded. *)
Lemma decode_encoded_char (c : N) (bs rest : list N) :
  encode_utf8_char c = Some bs ->
  decode_utf8 (bs ++ rest)
  = match decode_utf8 rest with
    | Some tl => Some (c :: tl)
    | None => None
    end.
Proof.
  unfold encode_utf8_char.
  destruct (N.ltb_spec c 128) as [C1|C1].
  { intros H; apply some_eq in H; subst bs. cbn [app decode_utf8].
    apply N.ltb_lt in C1. now rewrite C1. }
  destruct (N.ltb_spec c 2048) as [C2|C2].
  { intros H; apply some_eq in H; subst bs. cbn [app decode_utf8].
    assert (A : (192 + c / 64 <? 128)%N = false) by (apply N.ltb_ge; arith).
    assert (B : between 194 223 (192 + c / 64) = true)
      by (apply between_true; arith).
    assert (C : continuation (128 + c mod 64) = true)
      by (apply continuation_true; arith).
    rewrite A, B, C.
    replace ((192 + c / 64 - 192) * 64 + (128 + c mod 64 - 128))%N with c
      by arith.
    reflexivity. }
  destruct (N.ltb_spec c 65536) as [C3|C3].
  { destruct (between 55296 57343 c) eqn:S; [discriminate|].
    assert (NS : ~ (55296 <= c <= 57343)%N)
      by (rewrite <- between_spec, S; discriminate).
    intros H; apply some_eq in H; subst bs. cbn [app decode_utf8].
    assert (A : (224 + c / 4096 <? 128)%N = false) by (apply N.ltb_ge; arith).
    assert (B : between 194 223 (224 + c / 4096) = false).
    { destruct (between 194 223 (224 + c / 4096)) eqn:E; [|reflexivity].
      apply between_spec in E. exfalso. arith. }
    assert (C : between 224 239 (224 + c / 4096) = true)
      by (apply between_true; arith).
    assert (D : between (if (224 + c / 4096 =? 224)%N then 160 else 128)
                  (if (224 + c / 4096 =? 237)%N then 159 else 191)
                  (128 + (c / 64) mod 64) = true).
    { apply between_true.
      destruct (N.eqb_spec (224 + c / 4096) 224),
        (N.eqb_spec (224 + c / 4096) 237); arith. }
    assert (E : continuation (128 + c mod 64) = true)
      by (apply continuation_true; arith).
    rewrite A, B, C, D, E. cbn [andb].
    replace ((224 + c / 4096 - 224) * 4096 + (128 + (c / 64) mod 64 - 128) * 64
             + (128 + c mod 64 - 128))%N with c by arith.
    reflexivity. }
  destruct (N.ltb_spec c 1114112) as [C4|C4]; [|discriminate].
  intros H; apply some_eq in H; subst bs. cbn [app decode_utf8].
  assert (A : (240 + c / 262144 <? 128)%N = false) by (apply N.ltb_ge; arith).
  assert (B : between 194 223 (240 + c / 262144) = false).
  { destruct (between 194 223 (240 + c / 262144)) eqn:E; [|reflexivity].
    apply between_spec in E. exfalso. arith. }
  assert (B' : between 224 239 (240 + c / 262144) = false).
  { destruct (between 224 239 (240 + c / 262144)) eqn:E; [|reflexivity].
    apply between_spec in E. exfalso. arith. }
  assert (C : between 240 244 (240 + c / 262144) = true)
    by (apply between_true; arith).
  assert (D : between (if (240 + c / 262144 =? 240)%N then 144 else 128)
                (if (240 + c / 262144 =? 244)%N then 143 else 191)
                (128 + (c / 4096) mod 64) = true).
  { apply between_true.
    destruct (N.eqb_spec (240 + c / 262144) 240),
      (N.eqb_spec (240 + c / 262144) 244); arith. }
  assert (E : continuation (128 + (c / 64) mod 64) = true)
    by (apply continuation_true; arith).
  assert (F : continuation (128 + c mod 64) = true)
    by (apply continuation_true; arith).
  rewrite A, B, B', C, D, E, F. cbn [andb].
  replace ((240 + c / 262144 - 240) * 262144
           + (128 + (c / 4096) mod 64 - 128) * 4096
           + (128 + (c / 64) mod 64 - 128) * 64 + (128 + c mod 64 - 128))%N
    with c by arith.
  reflexivity.
Qed.

Lemma decode_encoded (s : text) : forall values,
  encode_utf8 s = Some values -> decode_utf8 values = Some s.
Proof.
  induction s as [|c r IH]; intros values H; cbn [encode_utf8] in H.
  - now inversion H.
  - destruct (encode_utf8_char c) as [bs|] eqn:E; [|discriminate].
    destruct (encode_utf8 r) as [tl|] eqn:R; [|discriminate].
    inversion H; subst; clear H.
    rewrite (decode_encoded_char c bs tl E), (IH tl eq_refl). reflexivity.
Qed.

Lemma encode_scalars (s : text) :
  Forall (fun c => scalar c = true) s <-> exists values, encode_utf8 s = Some values.
Proof.
  induction s as [|c r IH]; cbn [encode_utf8].
  - split; [eauto | constructor].
  - split.
    + intros H. inversion H as [|? ? Hc Hr]; subst.
      apply encode_char_scalar in Hc as [bs ->].
      apply IH in Hr as [tl ->]. eauto.
    + intros [values H].
      destruct (encode_utf8_char c) as [bs|] eqn:E; [|discriminate].
      destruct (encode_utf8 r) as [tl|] eqn:R; [|discriminate].
      constructor; [apply encode_char_scalar | apply IH]; eauto.
Qed.

Lemma encode_bytes (s : text) : forall values,
  encode_utf8 s = Some values -> Forall (fun b => (b < 256)%N) values.
Proof.
  induction s as [|c r IH]; intros values H; cbn [encode_utf8] in H.
  - inversion H. constructor.
  - destruct (encode_utf8_char c) as [bs|] eqn:E; [|discriminate].
    destruct (encode_utf8 r) as [tl|] eqn:R; [|discriminate].
    inversion H; subst. apply Forall_app. split.
    + eapply encode_char_bytes; eauto.
    + now apply IH.
Qed.

Lemma to_bytes_values (values : list N) : forall data,
  to_bytes values = Some data -> map byte_value data = values.
Proof.
  induction values as [|v r IH]; intros data H; cbn [to_bytes] in H.
  - now inversion H.
  - destruct (Byte.of_N v) as [b|] eqn:B; [|discriminate].
    destruct (to_bytes r) as [tl|] eqn:R; [|discriminate].
    inversion H; subst. cbn [map]. unfold byte_value at 1.
    rewrite (Byte.to_of_N v B), (IH tl eq_refl). reflexivity.
Qed.

Lemma to_bytes_small (values : list N) :
  Forall (fun b => (b < 256)%N) values -> exists data, to_bytes values = Some data.
Proof.
  induction 1 as [|v r Hv Hr [tl IH]]; cbn [to_bytes]; [eauto|].
  destruct (Byte.of_N v) as [b|] eqn:B.
  - rewrite IH. eauto.
  - apply Byte.of_N_None_iff in B. lia.
Qed.

Lemma to_bytes_of_values (data : bytes) :
  to_bytes (map byte_value data) = Some data.
Proof.
  induction data as [|b r IH]; cbn [map to_bytes]; [reflexivity|].
  unfold byte_value at 1. rewrite Byte.of_to_N, IH. reflexivity.
Qed.

End Utf8Facts.

(** ** UTF-8, from bytes to text and back *)

Module Utf8Inverse.
Import Utils CodecSpec Utf8Facts.

Ltac arith := zify; Z.to_euclidean_division_equations; lia.

(** A successful decoding has read the UTF-8 form of its first code
    point and decoded the rest. *)
Lemma decode_step (data : list N) (s : text) :
  decode_utf8 data = Some s ->
  (data = [] /\ s = [])
  \/ exists c bs rest tl,
       data = (bs ++ rest)%list /\ encode_utf8_char c = Some bs
       /\ decode_utf8 rest = Some tl /\ s = c :: tl
       /\ List.length rest < List.length data.
Proof.
  destruct data as [|b0 r0]; cbn [decode_utf8].
  { intros H. left. split; congruence. }
  intros H. right.
  destruct (N.ltb_spec b0 128) as [C1|C1].
  { destruct (decode_utf8 r0) as [tl|] eqn:R; [|discriminate].
    apply some_eq in H. subst s.
    exists b0, [b0], r0, tl. split; [reflexivity|]. split; [|repeat split; try assumption; simpl; lia].
    unfold encode_utf8_char. apply N.ltb_lt in C1. now rewrite C1. }
  destruct (between 194 223 b0) eqn:B2.
  { apply between_spec in B2.
    destruct r0 as [|b1 r1]; [discriminate|].
    destruct (continuation b1) eqn:K1; [|discriminate].
    apply continuation_spec in K1.
    destruct (decode_utf8 r1) as [tl|] eqn:R; [|discriminate].
    apply some_eq in H. subst s.
    exists ((b0 - 192) * 64 + (b1 - 128))%N, [b0; b1], r1, tl.
    split; [reflexivity|]. split; [|repeat split; try assumption; simpl; lia].
    unfold encode_utf8_char.
    assert (A : ((b0 - 192) * 64 + (b1 - 128) <? 128)%N = false)
      by (apply N.ltb_ge; arith).
    assert (B : ((b0 - 192) * 64 + (b1 - 128) <? 2048)%N = true)
      by (apply N.ltb_lt; arith).
    rewrite A, B. do 2 f_equal; [arith|]. f_equal. arith. }
  destruct (between 224 239 b0) eqn:B3.
  { apply between_spec in B3.
    destruct r0 as [|b1 [|b2 r2]]; try discriminate.
    destruct (between (if (b0 =? 224)%N then 160 else 128)
                (if (b0 =? 237)%N then 159 else 191) b1) eqn:K1;
      [|discriminate].
    apply between_spec in K1.
    destruct (continuation b2) eqn:K2; [|discriminate].
    apply continuation_spec in K2. cbn [andb] in H.
    destruct (decode_utf8 r2) as [tl|] eqn:R; [|discriminate].
    apply some_eq in H. subst s.
    exists ((b0 - 224) * 4096 + (b1 - 128) * 64 + (b2 - 128))%N,
      [b0; b1; b2], r2, tl.
    split; [reflexivity|]. split; [|repeat split; try assumption; simpl; lia].
    unfold encode_utf8_char.
    set (c := ((b0 - 224) * 4096 + (b1 - 128) * 64 + (b2 - 128))%N).
    assert (R1 : (128 <= b1 <= 191)%N)
      by (destruct (b0 =? 224)%N, (b0 =? 237)%N; lia).
    assert (L1 : b0 = 224%N -> (160 <= b1)%N)
      by (intros ->; simpl in K1; lia).
    assert (L2 : b0 = 237%N -> (b1 <= 159)%N)
      by (intros ->; simpl in K1; lia).
    assert (A : (c <? 128)%N = false) by (apply N.ltb_ge; subst c; arith).
    assert (B : (c <? 2048)%N = false) by (apply N.ltb_ge; subst c; arith).
    assert (C : (c <? 65536)%N = true) by (apply N.ltb_lt; subst c; arith).
    assert (D : between 55296 57343 c = false).
    { destruct (between 55296 57343 c) eqn:E; [|reflexivity].
      apply between_spec in E. exfalso. subst c. arith. }
    rewrite A, B, C, D. subst c.
    do 2 f_equal; [arith|]. f_equal; [arith|]. f_equal. arith. }
  destruct (between 240 244 b0) eqn:B4; [|discriminate].
  apply between_spec in B4.
  destruct r0 as [|b1 [|b2 [|b3 r3]]]; try discriminate.
  destruct (between (if (b0 =? 240)%N then 144 else 128)
              (if (b0 =? 244)%N then 143 else 191) b1) eqn:K1;
    [|discriminate].
  apply between_spec in K1.
  destruct (continuation b2) eqn:K2; [|discriminate].
  apply continuation_spec in K2.
  destruct (continuation b3) eqn:K3; [|discriminate].
  apply continuation_spec in K3. cbn [andb] in H.
  destruct (decode_utf8 r3) as [tl|] eqn:R; [|discriminate].
  apply some_eq in H. subst s.
  exists ((b0 - 240) * 262144 + (b1 - 128) * 4096
          + (b2 - 128) * 64 + (b3 - 128))%N, [b0; b1; b2; b3], r3, tl.
  split; [reflexivity|]. split; [|repeat split; try assumption; simpl; lia].
  unfold encode_utf8_char.
  set (c := ((b0 - 240) * 262144 + (b1 - 128) * 4096
             + (b2 - 128) * 64 + (b3 - 128))%N).
  assert (R1 : (128 <= b1 <= 191)%N)
    by (destruct (b0 =? 240)%N, (b0 =? 244)%N; lia).
  assert (L1 : b0 = 240%N -> (144 <= b1)%N)
    by (intros ->; simpl in K1; lia).
  assert (L2 : b0 = 244%N -> (b1 <= 143)%N)
    by (intros ->; simpl in K1; lia).
  assert (A : (c <? 128)%N = false) by (apply N.ltb_ge; subst c; arith).
  assert (B : (c <? 2048)%N = false) by (apply N.ltb_ge; subst c; arith).
  assert (C : (c <? 65536)%N = false) by (apply N.ltb_ge; subst c; arith).
  assert (D : (c <? 1114112)%N = true) by (apply N.ltb_lt; subst c; arith).
  rewrite A, B, C, D. subst c.
  do 2 f_equal; [arith|]. f_equal; [arith|]. f_equal; [arith|]. f_equal. arith.
Qed.

Lemma encode_decoded : forall n (data : list N) (s : text),
  List.length data <= n ->
  decode_utf8 data = Some s -> encode_utf8 s = Some data.
Proof.
  induction n as [|n IH]; intros data s L H.
  - destruct data; [|simpl in L; lia]. cbn [decode_utf8] in H.
    apply some_eq in H. now subst s.
  - destruct (decode_step data s H) as [[-> ->]|(c & bs & rest & tl & -> & E & R & -> & S)];
      [reflexivity|].
    cbn [encode_utf8]. rewrite E.
    rewrite (IH rest tl); [reflexivity | lia | exact R].
Qed.

(** The text of a successful decoding consists of scalar values. *)
Lemma decoded_scalars (data : list N) (s : text) :
  decode_utf8 data = Some s -> Forall (fun c => scalar c = true) s.
Proof.
  intros H. apply encode_scalars. exists data.
  now apply (encode_decoded (List.length data)).
Qed.

End Utf8Inverse.

(** ** Windows-1251 and the order of the encodings *)

Module FallbackFacts.
Import Utils.

(** Windows-1251 assigns a character to every byte but 0x98. *)
Lemma cp1251_byte (b : Byte.byte) :
  decode_cp1251_byte (byte_value b) = None <-> b = Byte.x98.
Proof.
  destruct b; vm_compute; split; intros H; try discriminate H; reflexivity.
Qed.

Lemma decode_cp1251_without_x98 (data : bytes) :
  ~ In Byte.x98 data ->
  exists s, decode_cp1251 (map byte_value data) = Some s
            /\ List.length s = List.length data.
Proof.
  induction data as [|b r IH]; intros N; cbn [map decode_cp1251].
  - exists []. split; reflexivity.
  - destruct (decode_cp1251_byte (byte_value b)) as [c|] eqn:B.
    + destruct IH as (tl & -> & L); [intros I; apply N; now right|].
      exists (c :: tl). split; [reflexivity | simpl; now rewrite L].
    + apply cp1251_byte in B. exfalso. apply N. now left.
Qed.

Lemma decode_cp1251_with_x98 (data : bytes) :
  In Byte.x98 data -> decode_cp1251 (map byte_value data) = None.
Proof.
  induction data as [|b r IH]; intros I; [destruct I|].
  cbn [map decode_cp1251].
  destruct (decode_cp1251_byte (byte_value b)) as [c|] eqn:B; [|reflexivity].
  destruct I as [->|I]; [vm_compute in B; discriminate|].
  now rewrite IH.
Qed.

End FallbackFacts.

(** ** Names made of safe characters *)

Module SafeNameFacts.
Import PyStr FilenameSpec SafeNameSpec.

Lemma space_unsafe (c : ascii) : isspace c = true -> safe_char c = false.
Proof.
  destruct c as [[] [] [] [] [] [] [] []]; vm_compute; intros H;
    try discriminate H; reflexivity.
Qed.

Lemma all_safe_collapse (s : string) : forall in_run,
  all_safe (collapse_go s in_run) = true.
Proof.
  induction s as [|c r IH]; intros in_run; cbn [collapse_go all_safe];
    [reflexivity|].
  destruct (safe_char c) eqn:S.
  - cbn [all_safe]. now rewrite S, IH.
  - destruct in_run; [apply IH|]. cbn [all_safe]. now rewrite IH.
Qed.

Lemma all_safe_take (n : nat) : forall s,
  all_safe s = true -> all_safe (take n s) = true.
Proof.
  induction n as [|n IH]; intros [|c r]; cbn [take all_safe]; try reflexivity.
  intros H. apply andb_prop in H as [C R]. now rewrite C, IH.
Qed.

Lemma all_safe_slice_to (n : Z) (s : string) :
  all_safe s = true -> all_safe (slice_to n s) = true.
Proof.
  intros H. unfold slice_to. destruct (n <? 0)%Z; now apply all_safe_take.
Qed.

(** A name of safe characters has no whitespace to trim and no run to
    collapse. *)
Lemma collapse_safe (s : string) :
  all_safe s = true -> collapse_go s false = s.
Proof.
  induction s as [|c r IH]; cbn [collapse_go all_safe]; [reflexivity|].
  intros H. apply andb_prop in H as [C R]. now rewrite C, IH.
Qed.

Lemma lstrip_safe (s : string) : all_safe s = true -> lstrip s = s.
Proof.
  destruct s as [|c r]; cbn [lstrip all_safe]; [reflexivity|].
  intros H. apply andb_prop in H as [C _].
  destruct (isspace c) eqn:W; [|reflexivity].
  apply space_unsafe in W. congruence.
Qed.

Lemma rstrip_safe (s : string) : all_safe s = true -> rstrip s = s.
Proof.
  induction s as [|c r IH]; cbn [rstrip all_safe]; [reflexivity|].
  intros H. apply andb_prop in H as [C R]. rewrite IH by exact R.
  destruct r; [|reflexivity].
  destruct (isspace c) eqn:W; [|reflexivity].
  apply space_unsafe in W. congruence.
Qed.

Lemma strip_safe (s : string) : all_safe s = true -> strip s = s.
Proof.
  intros H. unfold strip. rewrite lstrip_safe by exact H.
  now apply rstrip_safe.
Qed.

Lemma take_take (n : nat) : forall s, take n (take n s) = take n s.
Proof.
  induction n as [|n IH]; intros [|c r]; cbn [take]; try reflexivity.
  now rewrite IH.
Qed.

Lemma take_empty (n : nat) (s : string) :
  take n s = "" -> s = "" \/ n = 0.
Proof. destruct n, s; cbn [take]; intros H; auto; discriminate. Qed.

(** What [sanitize_filename] returns, for any [max_length]. *)
Lemma sanitize_filename_value (name : string) (max_length : Z) :
  Utils.sanitize_filename name max_length
  = Some (slice_to max_length
            (match collapse_runs (strip name) with
             | "" => "file"
             | s => s
             end)).
Proof.
  unfold Utils.sanitize_filename.
  rewrite FilenameFacts.sub_safe_pattern.
  destruct (collapse_runs (strip name)); reflexivity.
Qed.

Lemma all_safe_body (name : string) :
  all_safe (match collapse_runs (strip name) with
            | "" => "file"
            | s => s
            end) = true.
Proof.
  pose proof (all_safe_collapse (strip name) false) as H.
  unfold collapse_runs. destruct (collapse_go (strip name) false);
    [reflexivity | exact H].
Qed.

End SafeNameFacts.

(** ** [utils.py]: further properties *)

Module UtilsProperties.
Import Utils CodecSpec SafeNameSpec.

(** X1.  With a positive chunk size [iter_chunks] cuts the data into
    consecutive chunks: joined in order they give the data back, there
    are ceil(len / chunk_size) of them, none is empty or longer than
    the chunk size, and every chunk but the last has exactly the chunk
    size. *)
Theorem iter_chunks_partition (data : bytes) (chunk_size : Z) :
  (0 < chunk_size)%Z ->
  exists chunks,
    iter_chunks data chunk_size = Some chunks
    /\ concat chunks = data
    /\ Z.of_nat (List.length chunks)
       = ((Z.of_nat (List.length data) + chunk_size - 1) / chunk_size)%Z
    /\ forall i, i < List.length chunks ->
         (1 <= Z.of_nat (List.length (nth i chunks [])) <= chunk_size)%Z
         /\ (S i < List.length chunks ->
             Z.of_nat (List.length (nth i chunks [])) = chunk_size).
Proof.
  intros P. set (n := Z.to_nat chunk_size).
  assert (N : 0 < n) by (subst n; lia).
  assert (E : chunk_size = Z.of_nat n) by (subst n; lia).
  rewrite E. rewrite (ChunkFacts.iter_chunks_windows data n N).
  destruct (ChunkFacts.count_bounds (List.length data) n N) as (Cover & Inside & Count).
  set (count := Z.to_nat (if (0 <? Z.of_nat (List.length data))%Z then _ else 0%Z)) in *.
  exists (map (fun i => firstn n (skipn (i * n) data)) (seq 0 count)).
  split; [reflexivity|]. split; [|split].
  - now apply ChunkFacts.windows_concat.
  - rewrite length_map, length_seq. exact Count.
  - rewrite length_map, length_seq. intros i I. unfold bytes in *.
    assert (Nth : nth i (map (fun i => firstn n (skipn (i * n) data))
                           (seq 0 count)) []
                  = firstn n (skipn (i * n) data)).
    { rewrite (nth_indep _ [] (firstn n (skipn (0 * n) data)))
        by (rewrite length_map, length_seq; exact I).
      rewrite (map_nth (fun i => firstn n (skipn (i * n) data))).
      now rewrite seq_nth. }
    rewrite Nth, length_firstn, length_skipn.
    pose proof (Inside i I) as In_i. split; [lia|].
    intros I'. pose proof (Inside (S i) I') as In_Si. simpl in In_Si. lia.
Qed.

Lemma iter_chunks_partition_witness :
  (0 < 2)%Z
  /\ exists chunks,
       iter_chunks [Byte.x61; Byte.x62; Byte.x63; Byte.x64; Byte.x65] 2
       = Some chunks
       /\ concat chunks = [Byte.x61; Byte.x62; Byte.x63; Byte.x64; Byte.x65]
       /\ Z.of_nat (List.length chunks) = ((5 + 2 - 1) / 2)%Z
       /\ forall i, i < List.length chunks ->
            (1 <= Z.of_nat (List.length (nth i chunks [])) <= 2)%Z
            /\ (S i < List.length chunks ->
                Z.of_nat (List.length (nth i chunks [])) = 2%Z).
Proof.
  split; [lia|].
  apply (iter_chunks_partition
           [Byte.x61; Byte.x62; Byte.x63; Byte.x64; Byte.x65] 2).
  lia.
Defined.

(** X2.  A chunk size of zero makes the iteration raise (the
    [ValueError] of [range]); a negative chunk size yields no chunk at
    all, whatever the data; and empty data yields no chunk for any
    chunk size but zero. *)
Theorem iter_chunks_degenerate (data : bytes) (chunk_size : Z) :
  ((chunk_size <= 0)%Z ->
   iter_chunks data chunk_size
   = if (chunk_size =? 0)%Z then None else Some [])
  /\ iter_chunks [] chunk_size
     = if (chunk_size =? 0)%Z then None else Some [].
Proof.
  unfold iter_chunks, range. split.
  - intros L. destruct (Z.eqb_spec chunk_size 0) as [Z|Z]; [reflexivity|].
    assert (A : (0 <? chunk_size)%Z = false) by (apply Z.ltb_ge; lia).
    assert (B : (Z.of_nat (List.length data) <? 0)%Z = false)
      by (apply Z.ltb_ge; lia).
    rewrite A, B. reflexivity.
  - destruct (Z.eqb_spec chunk_size 0) as [Z|Z]; [reflexivity|].
    cbn [List.length Z.of_nat]. rewrite Z.ltb_irrefl.
    destruct (0 <? chunk_size)%Z; reflexivity.
Qed.

Lemma iter_chunks_degenerate_witness :
  (-1 <= 0)%Z
  /\ iter_chunks [Byte.x61; Byte.x62] (-1) = Some []
  /\ iter_chunks [Byte.x61; Byte.x62] 0 = None.
Proof.
  split; [lia|]. split.
  - apply (proj1 (iter_chunks_degenerate [Byte.x61; Byte.x62] (-1))). lia.
  - apply (proj1 (iter_chunks_degenerate [Byte.x61; Byte.x62] 0)). lia.
Defined.

(** X3.  [encode_text] raises exactly for a text with a surrogate
    code point, and what it returns decodes back: [decode_text_bytes]
    of the encoded bytes is the text, read by the first encoding of the
    loop. *)
Theorem encode_text_round_trip (s : text) :
  ((exists data, encode_text s = Some data)
   <-> Forall (fun c => scalar c = true) s)
  /\ forall data,
       encode_text s = Some data ->
       decode "utf-8" data = Some s /\ decode_text_bytes data = s.
Proof.
  split; [split|].
  - intros [data H]. unfold encode_text in H.
    destruct (encode_utf8 s) as [values|] eqn:E; [|discriminate].
    apply Utf8Facts.encode_scalars. eauto.
  - intros F. apply Utf8Facts.encode_scalars in F as [values E].
    unfold encode_text. rewrite E.
    apply Utf8Facts.to_bytes_small.
    now apply (Utf8Facts.encode_bytes s).
  - intros data H. unfold encode_text in H.
    destruct (encode_utf8 s) as [values|] eqn:E; [|discriminate].
    assert (D : decode "utf-8" data = Some s).
    { unfold decode. cbn [String.eqb Ascii.eqb Bool.eqb].
      rewrite (Utf8Facts.to_bytes_values values data H).
      now apply Utf8Facts.decode_encoded. }
    split; [exact D|].
    unfold decode_text_bytes. cbn [try_encodings]. now rewrite D.
Qed.

Lemma encode_text_round_trip_witness :
  encode_text [1055; 8364; 128512]%N
  = Some [Byte.xd0; Byte.x9f; Byte.xe2; Byte.x82; Byte.xac;
          Byte.xf0; Byte.x9f; Byte.x98; Byte.x80]
  /\ decode_text_bytes
       [Byte.xd0; Byte.x9f; Byte.xe2; Byte.x82; Byte.xac;
        Byte.xf0; Byte.x9f; Byte.x98; Byte.x80]
     = [1055; 8364; 128512]%N.
Proof.
  assert (E : encode_text [1055; 8364; 128512]%N
              = Some [Byte.xd0; Byte.x9f; Byte.xe2; Byte.x82; Byte.xac;
                      Byte.xf0; Byte.x9f; Byte.x98; Byte.x80])
    by (vm_compute; reflexivity).
  split; [exact E|].
  exact (proj2 (proj2 (encode_text_round_trip [1055; 8364; 128512]%N) _ E)).
Defined.

(** X4.  Bytes that are valid UTF-8 decode to a text without
    surrogates, and [encode_text] of that text gives the same bytes
    back. *)
Theorem decode_utf8_round_trip (data : bytes) (s : text) :
  decode "utf-8" data = Some s ->
  decode_text_bytes data = s
  /\ Forall (fun c => scalar c = true) s
  /\ encode_text s = Some data.
Proof.
  intros D. split; [|split].
  - unfold decode_text_bytes. cbn [try_encodings]. now rewrite D.
  - unfold decode in D. cbn [String.eqb Ascii.eqb Bool.eqb] in D.
    now apply (Utf8Inverse.decoded_scalars (map byte_value data)).
  - unfold decode in D. cbn [String.eqb Ascii.eqb Bool.eqb] in D.
    unfold encode_text.
    rewrite (Utf8Inverse.encode_decoded _ _ s (le_n _) D).
    apply Utf8Facts.to_bytes_of_values.
Qed.

Lemma decode_utf8_round_trip_witness :
  decode "utf-8" [Byte.x63; Byte.xc3; Byte.xa9] = Some [99; 233]%N
  /\ encode_text [99; 233]%N = Some [Byte.x63; Byte.xc3; Byte.xa9].
Proof.
  assert (D : decode "utf-8" [Byte.x63; Byte.xc3; Byte.xa9] = Some [99; 233]%N)
    by (vm_compute; reflexivity).
  split; [exact D|].
  exact (proj2 (proj2 (decode_utf8_round_trip _ _ D))).
Defined.

(** X5.  Bytes that are not valid UTF-8 are read as Windows-1251, one
    character per byte, unless the byte 0x98 is among them; only then
    the loop reaches latin-1, which gives every byte its own value. *)
Theorem decode_text_bytes_fallback (data : bytes) :
  decode "utf-8" data = None ->
  (~ In Byte.x98 data ->
   exists s, decode "cp1251" data = Some s /\ decode_text_bytes data = s
             /\ List.length s = List.length data)
  /\ (In Byte.x98 data ->
      decode "cp1251" data = None
      /\ decode_text_bytes data = map byte_value data).
Proof.
  intros U. split.
  - intros N.
    destruct (FallbackFacts.decode_cp1251_without_x98 data N) as (s & C & L).
    exists s. split; [exact C|]. split; [|exact L].
    unfold decode_text_bytes. cbn [try_encodings]. rewrite U.
    unfold decode in *. cbn [String.eqb Ascii.eqb Bool.eqb] in *.
    now rewrite C.
  - intros I.
    pose proof (FallbackFacts.decode_cp1251_with_x98 data I) as C.
    split; [exact C|].
    unfold decode_text_bytes. cbn [try_encodings]. rewrite U.
    unfold decode in *. cbn [String.eqb Ascii.eqb Bool.eqb] in *.
    now rewrite C.
Qed.

Lemma decode_text_bytes_fallback_witness :
  decode "utf-8" [Byte.xcf; Byte.xf0] = None
  /\ decode_text_bytes [Byte.xcf; Byte.xf0] = [1055; 1088]%N
  /\ decode "utf-8" [Byte.xe9; Byte.x98] = None
  /\ decode_text_bytes [Byte.xe9; Byte.x98] = [233; 152]%N.
Proof.
  assert (U1 : decode "utf-8" [Byte.xcf; Byte.xf0] = None) by reflexivity.
  assert (U2 : decode "utf-8" [Byte.xe9; Byte.x98] = None) by reflexivity.
  split; [exact U1|]. split; [|split; [exact U2|]].
  - destruct (proj1 (decode_text_bytes_fallback _ U1)) as (s & C & D & _).
    + simpl. intros [H|[H|[]]]; discriminate H.
    + rewrite D. vm_compute in C. congruence.
  - apply (proj2 (decode_text_bytes_fallback _ U2)). simpl. auto.
Defined.

(** X6.  [sanitize_filename] never raises; for every name and every
    [max_length] the result consists of characters of
    [[A-Za-z0-9._-]] only; with a non-negative [max_length] it has at
    most that many characters, and with a positive one it is not
    empty. *)
Theorem sanitize_filename_safe (name : string) (max_length : Z) :
  exists out,
    sanitize_filename name max_length = Some out
    /\ all_safe out = true
    /\ ((0 <= max_length)%Z -> (Z.of_nat (String.length out) <= max_length)%Z)
    /\ ((1 <= max_length)%Z -> 1 <= String.length out).
Proof.
  rewrite SafeNameFacts.sanitize_filename_value.
  eexists. split; [reflexivity|]. split; [|split].
  - apply SafeNameFacts.all_safe_slice_to, SafeNameFacts.all_safe_body.
  - intros P. unfold PyStr.slice_to.
    assert (E : (max_length <? 0)%Z = false) by (apply Z.ltb_ge; lia).
    rewrite E, StrFacts.length_take. lia.
  - intros P. unfold PyStr.slice_to.
    assert (E : (max_length <? 0)%Z = false) by (apply Z.ltb_ge; lia).
    rewrite E, StrFacts.length_take.
    destruct (FilenameSpec.collapse_runs (PyStr.strip name));
      cbn [String.length]; lia.
Qed.

(** X7.  With a non-negative [max_length], sanitizing a sanitized name
    changes nothing. *)
Theorem sanitize_filename_idempotent (name out : string) (max_length : Z) :
  (0 <= max_length)%Z ->
  sanitize_filename name max_length = Some out ->
  sanitize_filename out max_length = Some out.
Proof.
  intros P H. rewrite SafeNameFacts.sanitize_filename_value in *.
  apply some_eq in H.
  pose proof (SafeNameFacts.all_safe_body name) as B.
  set (body := match FilenameSpec.collapse_runs (PyStr.strip name) with
               | "" => "file"
               | s => s
               end) in *.
  assert (S : all_safe out = true)
    by (subst out; now apply SafeNameFacts.all_safe_slice_to).
  rewrite SafeNameFacts.strip_safe by exact S.
  unfold FilenameSpec.collapse_runs.
  rewrite SafeNameFacts.collapse_safe by exact S.
  unfold PyStr.slice_to in *.
  assert (E : (max_length <? 0)%Z = false) by (apply Z.ltb_ge; lia).
  rewrite E in *. f_equal.
  destruct out as [|c r] eqn:O.
  - apply SafeNameFacts.take_empty in H as [H|H].
    + subst body.
      destruct (FilenameSpec.collapse_runs (PyStr.strip name)); discriminate.
    + rewrite H. reflexivity.
  - rewrite <- H. apply SafeNameFacts.take_take.
Qed.

Lemma sanitize_filename_idempotent_witness :
  (0 <= 6)%Z
  /\ sanitize_filename " my report (v2).txt" 6 = Some "my_rep"
  /\ sanitize_filename "my_rep" 6 = Some "my_rep".
Proof.
  assert (H : sanitize_filename " my report (v2).txt" 6 = Some "my_rep")
    by (vm_compute; reflexivity).
  split; [lia|]. split; [exact H|].
  apply (sanitize_filename_idempotent " my report (v2).txt" "my_rep" 6);
    [lia | exact H].
Defined.

End UtilsProperties.

(** ** The order of the rules *)

Module OrderFacts.
Import Playbooks Rules PlaybookSpec.

Lemma in_insert (r x : Rule) (l : list Rule) :
  In x (insert_by_priority r l) <-> x = r \/ In x l.
Proof.
  induction l as [|y l IH]; cbn [insert_by_priority In].
  - intuition.
  - destruct (priority r <=? priority y)%Z; cbn [In]; [intuition|].
    rewrite IH. intuition.
Qed.

Lemma in_sorted (x : Rule) (l : list Rule) :
  In x (sorted_by_priority l) <-> In x l.
Proof.
  induction l as [|y l IH]; cbn [sorted_by_priority fold_right In]; [tauto|].
  fold (sorted_by_priority l). rewrite in_insert, IH. intuition.
Qed.

Lemma insert_sorted (r : Rule) (l : list Rule) :
  StronglySorted (fun a b => (priority a <= priority b)%Z) l ->
  StronglySorted (fun a b => (priority a <= priority b)%Z)
                 (insert_by_priority r l).
Proof.
  induction 1 as [|y l S IH F]; cbn [insert_by_priority].
  - constructor; constructor.
  - destruct (Z.leb_spec (priority r) (priority y)) as [L|L].
    + constructor; [constructor; assumption|].
      constructor; [exact L|].
      eapply Forall_impl; [|exact F]. cbv beta. intros a A. lia.
    + constructor; [exact IH|].
      apply Forall_forall. intros x X. apply in_insert in X as [->|X]; [lia|].
      rewrite Forall_forall in F. now apply F.
Qed.

Lemma sorted_sorted (l : list Rule) :
  StronglySorted (fun a b => (priority a <= priority b)%Z)
                 (sorted_by_priority l).
Proof.
  induction l as [|y l IH]; cbn [sorted_by_priority fold_right];
    [constructor|].
  now apply insert_sorted.
Qed.

(** The sort is stable: among the rules of one priority the order of
    the list is kept. *)
Lemma filter_insert (p : Z) (r : Rule) (l : list Rule) :
  filter (fun x => (priority x =? p)%Z) (insert_by_priority r l)
  = filter (fun x => (priority x =? p)%Z) (r :: l).
Proof.
  induction l as [|y l IH]; cbn [insert_by_priority]; [reflexivity|].
  destruct (Z.leb_spec (priority r) (priority y)) as [L|L]; [reflexivity|].
  cbn [filter] in *. rewrite IH.
  destruct (Z.eqb_spec (priority r) p) as [R|R],
    (Z.eqb_spec (priority y) p) as [Y|Y]; try reflexivity.
  lia.
Qed.

Lemma filter_sorted (p : Z) (l : list Rule) :
  filter (fun x => (priority x =? p)%Z) (sorted_by_priority l)
  = filter (fun x => (priority x =? p)%Z) l.
Proof.
  induction l as [|y l IH]; cbn [sorted_by_priority fold_right];
    [reflexivity|].
  fold (sorted_by_priority l). rewrite filter_insert. cbn [filter].
  now rewrite IH.
Qed.

Lemma in_rules_by_type (pb : Playbook) (type : string) (r : Rule) :
  In r (_rules_by_type pb type)
  <-> In r (rules pb) /\ rule_type r = type /\ enabled r = true.
Proof.
  unfold _rules_by_type. rewrite in_sorted, filter_In, andb_true_iff.
  rewrite String.eqb_eq. tauto.
Qed.

Lemma in_rule_sequence (pb : Playbook) (r : Rule) :
  In r (rule_sequence pb)
  <-> In r (rules pb) /\ In (rule_type r) redacting_types /\ enabled r = true.
Proof.
  unfold rule_sequence, redacting_types. cbn [flat_map].
  rewrite app_nil_r, !in_app_iff, !in_rules_by_type. cbn [In].
  intuition auto.
Qed.

Lemma filter_filter_weaker {A} (f g : A -> bool) (l : list A) :
  (forall x, f x = true -> g x = true) ->
  filter f (filter g l) = filter f l.
Proof.
  intros W. induction l as [|x l IH]; cbn [filter]; [reflexivity|].
  destruct (g x) eqn:G; cbn [filter].
  - now rewrite IH.
  - destruct (f x) eqn:F; [|exact IH]. apply W in F. congruence.
Qed.

Lemma rules_by_type_active (pb : Playbook) (type : string) :
  In type ("allowlist" :: redacting_types) ->
  _rules_by_type (active_only pb) type = _rules_by_type pb type.
Proof.
  intros T. unfold _rules_by_type, active_only. cbn [rules with_rules].
  rewrite filter_filter_weaker; [reflexivity|].
  intros x H. apply andb_prop in H as [Ty En]. apply String.eqb_eq in Ty.
  unfold is_active. rewrite En. cbn [andb].
  apply existsb_exists. exists type. split; [exact T|].
  now apply String.eqb_eq.
Qed.

Lemma rule_sequence_active (pb : Playbook) :
  rule_sequence (active_only pb) = rule_sequence pb.
Proof.
  unfold rule_sequence. cbn [flat_map].
  rewrite !rules_by_type_active; [reflexivity| | |];
    unfold redacting_types; cbn [In]; auto.
Qed.

Lemma rules_by_type_allowlist_only (pb : Playbook) :
  _rules_by_type (allowlist_only pb) "allowlist" = _rules_by_type pb "allowlist".
Proof.
  unfold _rules_by_type, allowlist_only. cbn [rules with_rules].
  rewrite filter_filter_weaker; [reflexivity|].
  intros x H. now apply andb_prop in H as [Ty _].
Qed.

Lemma filter_none {A} (f : A -> bool) (l : list A) :
  (forall x, In x l -> f x = false) -> filter f l = [].
Proof.
  induction l as [|x l IH]; cbn [filter]; [reflexivity|]. intros H.
  rewrite (H x) by now left. apply IH. intros y Y. apply H. now right.
Qed.

Lemma rule_sequence_allowlist_only (pb : Playbook) :
  rule_sequence (allowlist_only pb) = [].
Proof.
  unfold rule_sequence, _rules_by_type, allowlist_only.
  cbn [flat_map rules with_rules].
  rewrite !filter_none; [reflexivity| | |];
    intros x X; apply filter_In in X as [_ T]; apply String.eqb_eq in T;
    rewrite T; reflexivity.
Qed.

End OrderFacts.

(** ** Dictionaries, further *)

Module DictMore.

Lemma keys_set_cases {V} (d : Dict.t V) (k : string) (v : V) :
  Dict.keys (Dict.set d k v)
  = if Dict.contains d k then Dict.keys d else (Dict.keys d ++ [k])%list.
Proof.
  unfold Dict.contains, Dict.keys.
  induction d as [|[k' v'] d IH]; cbn [Dict.set Dict.get map app];
    [reflexivity|].
  destruct (String.eqb k' k) eqn:E; cbn [map fst]; [reflexivity|].
  rewrite IH. destruct (Dict.get d k); reflexivity.
Qed.

Lemma contains_in {V} (d : Dict.t V) (k : string) :
  Dict.contains d k = true <-> In k (Dict.keys d).
Proof.
  unfold Dict.contains, Dict.keys.
  induction d as [|[k' v'] d IH]; cbn [Dict.get map In fst].
  - split; [discriminate | tauto].
  - destruct (String.eqb_spec k' k) as [E|E].
    + split; auto.
    + rewrite IH. split; [auto | intros [H|H]; [contradiction | exact H]].
Qed.

Lemma in_keys_set {V} (d : Dict.t V) (k k' : string) (v : V) :
  In k' (Dict.keys (Dict.set d k v)) <-> k' = k \/ In k' (Dict.keys d).
Proof.
  rewrite keys_set_cases.
  destruct (Dict.contains d k) eqn:C.
  - apply contains_in in C. split; [auto | intros [->|H]; assumption].
  - rewrite in_app_iff. cbn [In]. intuition auto.
Qed.

Lemma wf_set {V} (d : Dict.t V) (k : string) (v : V) :
  Dict.wf d -> Dict.wf (Dict.set d k v).
Proof.
  unfold Dict.wf. rewrite keys_set_cases. intros W.
  destruct (Dict.contains d k) eqn:C; [exact W|].
  assert (N : ~ In k (Dict.keys d)).
  { intros I. apply contains_in in I. congruence. }
  apply NoDup_app; [exact W | repeat constructor; simpl; tauto |].
  intros x X [<-|[]]. contradiction.
Qed.

End DictMore.

(** ** What a run does to the text and to the report *)

Module RunFacts.
Import Playbooks Rules PlaybookSpec OrderFacts.

Lemma fold_option_steps {A B} (f : A -> B -> option A) (l : list B) :
  forall a a', fold_option f l a = Some a' ->
  forall x, In x l -> exists s s', f s x = Some s'.
Proof.
  induction l as [|y l IH]; intros a a' H x X; [destruct X|].
  cbn [fold_option] in H.
  destruct (f a y) as [a1|] eqn:E; [|discriminate].
  destruct X as [<-|X]; [eauto|]. eapply IH; eauto.
Qed.

Lemma fold_option_total {A B} (f : A -> B -> option A) (l : list B) :
  (forall a x, In x l -> exists a', f a x = Some a') ->
  forall a, exists a', fold_option f l a = Some a'.
Proof.
  induction l as [|y l IH]; intros T a; cbn [fold_option]; [eauto|].
  destruct (T a y) as [a1 E]; [now left|]. rewrite E.
  apply IH. intros a0 x X. apply T. now right.
Qed.

Lemma sum_values_nonnegative (d : Dict.t Z) :
  ReportSpec.all_positive d -> (0 <= ReportSpec.sum_values d)%Z.
Proof.
  unfold ReportSpec.sum_values, ReportSpec.all_positive.
  induction 1 as [|v vs V F IH]; cbn [fold_right]; lia.
Qed.

Section Engine.
Variable re_compile : string -> bool -> option Re.compiled.

(** *** Dry runs leave the working text alone *)

Lemma dictionary_entry_dry_text rule pb st item st' :
  dictionary_entry rule pb true st item = Some st' -> fst st' = fst st.
Proof.
  destruct st as [u r], item as [target replacement].
  unfold dictionary_entry.
  destruct (Re.finditer _ u); intros H; apply some_eq in H;
    now subst st'.
Qed.

Lemma regex_entry_dry_text rule pb st entry st' :
  regex_entry re_compile rule pb true st entry = Some st' -> fst st' = fst st.
Proof.
  destruct st as [u r]. unfold regex_entry.
  destruct (negb (PyStr.truthy (pattern entry)));
    [intros H; apply some_eq in H; now subst st'|].
  destruct (re_compile _ _) as [c|]; [|discriminate].
  destruct (Re.finditer c u); intros H; apply some_eq in H;
    now subst st'.
Qed.

Lemma apply_rule_dry_text text rule pb r st' :
  _apply_rule re_compile text rule pb r true = Some st' -> fst st' = text.
Proof.
  unfold _apply_rule.
  destruct (String.eqb (rule_type rule) "dictionary_entities").
  { unfold _apply_dictionary.
    apply (fold_option_invariant (fun st => fst st = text)); [|reflexivity].
    intros a x a' P H. apply dictionary_entry_dry_text in H. congruence. }
  destruct (String.eqb (rule_type rule) "regex_patterns").
  { unfold _apply_regex_patterns.
    apply (fold_option_invariant (fun st => fst st = text)); [|reflexivity].
    intros a x a' P H. apply regex_entry_dry_text in H. congruence. }
  destruct (String.eqb (rule_type rule) "keyword_list").
  { unfold _apply_keywords. destruct (keywords rule);
      [intros H; apply some_eq in H; now subst st'|].
    destruct (Re.finditer _ text); cbn [negb];
      intros H; apply some_eq in H; now subst st'. }
  intros H; apply some_eq in H; now subst st'.
Qed.

Lemma rules_dry_text pb rs : forall st st',
  fold_option
    (fun st rule => _apply_rule re_compile (fst st) rule pb (snd st) true)
    rs st = Some st' ->
  fst st' = fst st.
Proof.
  intros st st'.
  apply (fold_option_invariant (fun s => fst s = fst st)); [|reflexivity].
  intros a x a' P H. apply apply_rule_dry_text in H. congruence.
Qed.

(** *** The keys of the report *)

Lemma keys_known_empty pb : keys_known pb empty_report.
Proof.
  repeat split; try constructor; intros k [].
Qed.

Lemma keys_known_register pb r rule count :
  In rule (rule_sequence pb) -> keys_known pb r ->
  keys_known pb (_register_match r rule count).
Proof.
  intros I (Wt & Wi & Kt & Ki). unfold _register_match.
  destruct (count <=? 0)%Z; [repeat split; assumption|].
  repeat split; cbn [matches_by_rule_type matches_by_rule_id].
  - now apply DictMore.wf_set.
  - now apply DictMore.wf_set.
  - intros k K. apply DictMore.in_keys_set in K as [->|K]; eauto.
  - intros k K. apply DictMore.in_keys_set in K as [->|K]; eauto.
Qed.

(** A property of the report that counting a match of the rule
    keeps is kept by the rule. *)
Lemma apply_rule_report (P : RuleMatchReport -> Prop) text rule pb r dry st' :
  (forall r c, P r -> P (_register_match r rule c)) ->
  P r -> _apply_rule re_compile text rule pb r dry = Some st' -> P (snd st').
Proof.
  intros Reg Pr. unfold _apply_rule.
  assert (D : forall st item st1,
             P (snd st) -> dictionary_entry rule pb dry st item = Some st1 ->
             P (snd st1)).
  { intros [u r0] [target replacement] st1 P0. unfold dictionary_entry.
    cbn [snd] in P0.
    destruct (Re.finditer _ u); [intros H; apply some_eq in H;
                                 now subst st1|].
    destruct dry; [intros H; apply some_eq in H; subst st1;
                   now apply Reg|].
    destruct (String.eqb (action rule) "REMOVE").
    { destruct (Re.sub_template _ _ _); [|discriminate].
      intros H; apply some_eq in H; subst st1. now apply Reg. }
    destruct (String.eqb (action rule) "REPLACE").
    { destruct (Re.sub_template _ _ _); [|discriminate].
      intros H; apply some_eq in H; subst st1. now apply Reg. }
    destruct (Re.sub _ _ _); [|discriminate].
    intros H; apply some_eq in H; subst st1. now apply Reg. }
  assert (G : forall st entry st1,
             P (snd st) ->
             regex_entry re_compile rule pb dry st entry = Some st1 ->
             P (snd st1)).
  { intros [u r0] entry st1 P0. unfold regex_entry. cbn [snd] in P0.
    destruct (negb (PyStr.truthy (pattern entry)));
      [intros H; apply some_eq in H; now subst st1|].
    destruct (re_compile _ _) as [c|]; [|discriminate].
    destruct (Re.finditer c u); [intros H; apply some_eq in H;
                                 now subst st1|].
    destruct dry; [intros H; apply some_eq in H; subst st1;
                   now apply Reg|].
    destruct (Re.sub _ _ _); [|discriminate].
    intros H; apply some_eq in H; subst st1. now apply Reg. }
  destruct (String.eqb (rule_type rule) "dictionary_entities").
  { unfold _apply_dictionary.
    apply (fold_option_invariant (fun st => P (snd st))); eauto. }
  destruct (String.eqb (rule_type rule) "regex_patterns").
  { unfold _apply_regex_patterns.
    apply (fold_option_invariant (fun st => P (snd st))); eauto. }
  destruct (String.eqb (rule_type rule) "keyword_list").
  { unfold _apply_keywords.
    destruct (keywords rule); [intros H; apply some_eq in H;
                               now subst st'|].
    destruct (Re.finditer _ text); [intros H; apply some_eq in H;
                                    now subst st'|].
    destruct dry; cbn [negb].
    - intros H; apply some_eq in H; subst st'. now apply Reg.
    - destruct (Re.sub _ _ _); [|discriminate].
      intros H; apply some_eq in H; subst st'. now apply Reg. }
  intros H; apply some_eq in H; now subst st'.
Qed.

Lemma apply_rules_keys_known text pb dry out r :
  apply_rules re_compile text pb dry = Some (out, r) -> keys_known pb r.
Proof.
  unfold apply_rules. cbv zeta.
  destruct (_apply_allowlist _ _ _ _) as [[protected placeholders]|];
    [|discriminate].
  destruct (fold_option _ _ _) as [[t' r']|] eqn:F; [|discriminate].
  intros H. apply some_eq in H. inversion H; subst; clear H.
  change r with (snd (t', r)). revert F.
  apply (ProcessorFacts.fold_option_invariant_in (fun st => keys_known pb (snd st))).
  - intros [t0 r0] rule a' I P0 H0. cbn [fst snd] in *.
    eapply apply_rule_report; [|exact P0|exact H0].
    intros r1 c. now apply keys_known_register.
  - apply keys_known_empty.
Qed.

End Engine.

End RunFacts.

(** ** When a run raises *)

Module RaiseFacts.
Import Playbooks Rules PlaybookSpec OrderFacts RunFacts.

Lemma sub_from_total (repl : string -> option string) (text : string) :
  (forall m, repl m <> None) ->
  forall spans pos, Re.sub_from repl text pos spans <> None.
Proof.
  intros T spans. induction spans as [|[b e] rest IH]; intros pos;
    cbn [Re.sub_from]; [discriminate|].
  destruct (repl (PyStr.slice b e text)) as [r|] eqn:R;
    [|now apply T in R].
  destruct (Re.sub_from repl text e rest) as [tl|] eqn:S;
    [discriminate | now apply IH in S].
Qed.

(** Masking and removing compute a replacement for every match. *)
Lemma replacement_total m rule pb :
  action rule <> "REPLACE" -> _replacement_for_match m rule pb <> None.
Proof.
  intros A. unfold _replacement_for_match.
  destruct (String.eqb (action rule) "REMOVE"); [discriminate|].
  destruct (String.eqb_spec (action rule) "REPLACE"); [contradiction|].
  destruct (String.eqb (redaction_mode pb) "SAME_LENGTH_MASK"); discriminate.
Qed.

Section Engine.
Variable re_compile : string -> bool -> option Re.compiled.

(** *** A loop that returns has compiled every pattern *)

Lemma allowlist_patterns_compiled rule entries : forall st st',
  allowlist_patterns re_compile rule st entries = Some st' ->
  forall entry, In entry entries -> compiles re_compile rule entry.
Proof.
  induction entries as [|e entries IH]; intros st st' H entry I;
    [destruct I|].
  cbn [allowlist_patterns] in H.
  destruct (allowlist_pattern re_compile rule st e) as [st1|] eqn:E;
    [|discriminate].
  destruct I as [<-|I]; [|eapply IH; eauto].
  intros T. unfold allowlist_pattern in E.
  destruct st as [[protected counter] placeholders].
  rewrite T in E. cbn [negb] in E.
  destruct (re_compile _ _); [discriminate | discriminate E].
Qed.

Lemma allowlist_rules_compiled rules : forall st st',
  allowlist_rules re_compile st rules = Some st' ->
  forall rule entry, In rule rules -> In entry (patterns rule) ->
                     compiles re_compile rule entry.
Proof.
  induction rules as [|r rules IH]; intros st st' H rule entry I;
    [destruct I|].
  cbn [allowlist_rules] in H.
  destruct (allowlist_rule re_compile st r) as [st1|] eqn:E; [|discriminate].
  destruct I as [<-|I]; [|eapply IH; eauto].
  unfold allowlist_rule in E. eapply allowlist_patterns_compiled; eauto.
Qed.

Lemma regex_entry_compiled rule pb dry st entry st' :
  regex_entry re_compile rule pb dry st entry = Some st' ->
  compiles re_compile rule entry.
Proof.
  destruct st as [u r]. unfold regex_entry. intros H T.
  rewrite T in H. cbn [negb] in H.
  destruct (re_compile _ _); [discriminate | discriminate H].
Qed.

Lemma regex_rule_compiled text rule pb r dry st' :
  rule_type rule = "regex_patterns" ->
  _apply_rule re_compile text rule pb r dry = Some st' ->
  forall entry, In entry (patterns rule) -> compiles re_compile rule entry.
Proof.
  intros Ty. unfold _apply_rule. rewrite Ty.
  cbn [String.eqb Ascii.eqb Bool.eqb]. unfold _apply_regex_patterns.
  intros H entry I.
  destruct (fold_option_steps _ _ _ _ H entry I) as (s & s' & E).
  eapply regex_entry_compiled; eauto.
Qed.

Lemma returns_compiled text pb dry x :
  apply_rules re_compile text pb dry = Some x ->
  patterns_compile re_compile pb.
Proof.
  unfold apply_rules, _apply_allowlist. cbv zeta.
  destruct (allowlist_rules re_compile _ _)
    as [[[protected counter] placeholders]|] eqn:A; [|discriminate].
  destruct (fold_option _ _ _) as [[t' r']|] eqn:F; [|discriminate].
  intros _ rule entry I E. unfold compiling_rules in I.
  apply in_app_or in I as [I|I].
  - eapply allowlist_rules_compiled; eauto.
  - assert (S : In rule (rule_sequence pb)).
    { unfold rule_sequence. cbn [flat_map]. apply in_or_app. right.
      apply in_or_app. now left. }
    destruct (fold_option_steps _ _ _ _ F rule S) as ([t0 r0] & s' & H).
    cbn [fst snd] in H.
    apply in_rules_by_type in I as (_ & Ty & _).
    eapply regex_rule_compiled; eauto.
Qed.

(** *** With every pattern compiled, the loops return *)

Lemma allowlist_patterns_return rule entries :
  (forall entry, In entry entries -> compiles re_compile rule entry) ->
  forall st, exists st', allowlist_patterns re_compile rule st entries = Some st'.
Proof.
  induction entries as [|e entries IH]; intros C st;
    cbn [allowlist_patterns]; [eauto|].
  assert (E : exists st1, allowlist_pattern re_compile rule st e = Some st1).
  { unfold allowlist_pattern. destruct st as [[protected counter] placeholders].
    destruct (PyStr.truthy (pattern e)) eqn:T; cbn [negb]; [|eauto].
    destruct (re_compile _ _) as [c|] eqn:R; [eauto|].
    exfalso. now apply (C e (or_introl eq_refl) T). }
  destruct E as [st1 ->]. apply IH. intros entry I. apply C. now right.
Qed.

Lemma allowlist_rules_return rules :
  (forall rule entry, In rule rules -> In entry (patterns rule) ->
                      compiles re_compile rule entry) ->
  forall st, exists st', allowlist_rules re_compile st rules = Some st'.
Proof.
  induction rules as [|r rules IH]; intros C st; cbn [allowlist_rules];
    [eauto|].
  destruct (allowlist_patterns_return r (patterns r)
              (fun entry I => C r entry (or_introl eq_refl) I)
              (fold_left allowlist_phrase (phrases r) st)) as [st1 E].
  unfold allowlist_rule. rewrite E. apply IH.
  intros rule entry I. apply C. now right.
Qed.

(** A step of a rule returns when its patterns compile and its
    replacements are computed: always in a dry run, and in a live run
    for every action but REPLACE. *)
Lemma apply_rule_returns text rule pb r dry :
  (rule_type rule = "regex_patterns" ->
   forall entry, In entry (patterns rule) -> compiles re_compile rule entry) ->
  dry = true \/ action rule <> "REPLACE" ->
  exists st', _apply_rule re_compile text rule pb r dry = Some st'.
Proof.
  intros C M. unfold _apply_rule.
  assert (Sub : forall c u,
             dry = false ->
             exists u', Re.sub c (fun m => _replacement_for_match m rule pb) u
                        = Some u').
  { intros c u D. destruct M as [M|M]; [congruence|].
    unfold Re.sub.
    destruct (Re.sub_from _ u 0 (c u)) as [u'|] eqn:S; [eauto|].
    exfalso. revert S. apply sub_from_total.
    intros m. now apply replacement_total. }
  destruct (String.eqb (rule_type rule) "dictionary_entities").
  { unfold _apply_dictionary. apply fold_option_total.
    intros [u r0] [target replacement] _. unfold dictionary_entry.
    destruct (Re.finditer _ u); [eauto|].
    destruct dry eqn:D; [eauto|].
    destruct (String.eqb (action rule) "REMOVE").
    { unfold Re.sub_template, Re.sub.
      change (Re.expand_template "" "") with (Some ""). cbv iota.
      destruct (Re.sub_from _ u 0 _) as [u'|] eqn:S; [eauto|].
      exfalso. revert S. apply sub_from_total. discriminate. }
    destruct (String.eqb_spec (action rule) "REPLACE") as [A|A].
    { destruct M as [M|M]; [discriminate | contradiction]. }
    destruct (Sub (Re.literal (case_insensitive rule) target) u eq_refl)
      as [u' ->]. eauto. }
  destruct (String.eqb_spec (rule_type rule) "regex_patterns") as [Ty|Ty].
  { unfold _apply_regex_patterns. apply fold_option_total.
    intros [u r0] entry I. unfold regex_entry.
    destruct (PyStr.truthy (pattern entry)) eqn:T; cbn [negb]; [|eauto].
    destruct (re_compile _ _) as [c|] eqn:R;
      [|exfalso; now apply (C Ty entry I T)].
    destruct (Re.finditer c u); [eauto|].
    destruct dry eqn:D; [eauto|].
    destruct (Sub c u eq_refl) as [u' ->]. eauto. }
  destruct (String.eqb (rule_type rule) "keyword_list"); [|eauto].
  unfold _apply_keywords. destruct (keywords rule) as [|k ks]; [eauto|].
  destruct (Re.finditer _ text); [eauto|].
  destruct dry eqn:D; cbn [negb]; [eauto|].
  destruct (Sub (Re.alternation (case_insensitive rule) (k :: ks)) text eq_refl)
    as [u' ->]. eauto.
Qed.

Lemma compiled_returns text pb dry :
  patterns_compile re_compile pb ->
  dry = true
  \/ (forall rule, In rule (rule_sequence pb) -> action rule <> "REPLACE") ->
  exists x, apply_rules re_compile text pb dry = Some x.
Proof.
  intros C M. unfold apply_rules, _apply_allowlist. cbv zeta.
  destruct (allowlist_rules_return (_rules_by_type pb "allowlist")) with
    (st := (text, 0, @nil (string * string)))
    as [[[protected counter] placeholders] A].
  { intros rule entry I E. apply C; [|exact E].
    unfold compiling_rules. apply in_or_app. now left. }
  unfold Dict.t in *. rewrite A.
  destruct (fold_option_total
              (fun st rule =>
                 _apply_rule re_compile (fst st) rule pb (snd st) dry)
              (rule_sequence pb)) with (a := (protected, empty_report))
    as [[t' r'] F].
  { intros [t0 r0] rule I. cbn [fst snd].
    apply apply_rule_returns.
    - intros Ty entry E. apply C; [|exact E].
      unfold compiling_rules. apply in_or_app. right.
      apply in_rules_by_type. apply in_rule_sequence in I as (I & _ & En).
      auto.
    - destruct M as [M|M]; [now left | right; now apply M]. }
  unfold run_state in *. rewrite F. eauto.
Qed.

End Engine.

End RaiseFacts.

(** ** Spans in order, and what [sub] makes of them *)

Module SpanFacts.
Import PyStr StrFacts Re PlaybookSpec.

(** A scan with a matcher that stays inside the text reports its
    spans in order and inside the text. *)
Lemma scan_ordered (m : matcher) :
  (forall s must_advance n, m s must_advance = Some n -> n <= String.length s) ->
  forall s pos skip,
    skip <= String.length s ->
    ordered (pos + skip) (pos + String.length s) (scan m s pos skip).
Proof.
  intros B. induction s as [|c r IH]; intros pos skip L.
  - cbn [String.length] in L. assert (skip = 0) by lia. subst skip.
    cbn [scan].
    destruct (m "" false) as [[|n]|] eqn:M0; cbn [ordered]; auto.
    + destruct (m "" true) as [[|n]|] eqn:M1; cbn [ordered String.length];
        try (repeat split; lia).
      apply B in M1. cbn [String.length] in M1. lia.
    + apply B in M0. cbn [String.length] in M0. lia.
  - cbn [String.length] in *. destruct skip as [|k].
    + cbn [scan].
      assert (Next : forall n, n <= String.length r ->
                ordered (pos + S n) (pos + S (String.length r))
                        (scan m r (S pos) n)).
      { intros n N. specialize (IH (S pos) n N).
        replace (pos + S n) with (S pos + n) by lia.
        replace (pos + S (String.length r)) with (S pos + String.length r)
          by lia.
        exact IH. }
      assert (Weaken : forall p q len spans,
                p <= q -> ordered q len spans -> ordered p len spans).
      { intros p q len [|[b e] rest] Hpq; cbn [ordered]; [auto|].
        intros (H1 & H2 & H3 & H4). repeat split; try assumption; lia. }
      destruct (m (String c r) false) as [[|n]|] eqn:M0.
      * cbn [ordered]. repeat split; try lia.
        destruct (m (String c r) true) as [[|n]|] eqn:M1.
        -- apply (Weaken pos (pos + 1)); [lia|].
           apply (Next 0). lia.
        -- apply B in M1. cbn [String.length] in M1.
           cbn [ordered]. repeat split; try lia.
           apply Next. lia.
        -- apply (Weaken pos (pos + 1)); [lia|]. apply (Next 0). lia.
      * apply B in M0. cbn [String.length] in M0.
        cbn [ordered]. repeat split; try lia. apply Next. lia.
      * apply (Weaken (pos + 0) (pos + 1)); [lia|]. apply (Next 0). lia.
    + cbn [scan].
      specialize (IH (S pos) k ltac:(lia)).
      replace (pos + S k) with (S pos + k) by lia.
      replace (pos + S (String.length r)) with (S pos + String.length r) by lia.
      exact IH.
Qed.

Lemma of_matcher_ordered (m : matcher) (text : string) :
  (forall s must_advance n, m s must_advance = Some n -> n <= String.length s) ->
  ordered 0 (String.length text) (of_matcher m text).
Proof.
  intros B. unfold of_matcher.
  apply (scan_ordered m B text 0 0). lia.
Qed.

Lemma match_literal_inside ci target s must_advance n :
  match_literal ci target s must_advance = Some n -> n <= String.length s.
Proof.
  unfold match_literal.
  destruct (starts_with_by ci target s) eqn:S; [|discriminate].
  apply starts_with_length in S.
  destruct (String.length target) as [|k] eqn:E.
  - destruct must_advance; [discriminate|]. intros H. apply some_eq in H. lia.
  - intros H. apply some_eq in H. lia.
Qed.

Lemma match_alternation_inside ci keywords : forall s must_advance n,
  match_alternation ci keywords s must_advance = Some n -> n <= String.length s.
Proof.
  induction keywords as [|k rest IH]; intros s ma n; cbn [match_alternation];
    [discriminate|].
  destruct (match_literal ci k s ma) as [x|] eqn:M.
  - intros H. apply some_eq in H. subst x.
    eapply match_literal_inside; eauto.
  - apply IH.
Qed.

Lemma literal_ordered ci target text :
  ordered 0 (String.length text) (literal ci target text).
Proof.
  apply of_matcher_ordered. intros s ma n. apply match_literal_inside.
Qed.

Lemma alternation_ordered ci keywords text :
  ordered 0 (String.length text) (alternation ci keywords text).
Proof.
  apply of_matcher_ordered. apply match_alternation_inside.
Qed.

Lemma length_slice (b e : nat) (text : string) :
  b <= e -> e <= String.length text -> String.length (slice b e text) = e - b.
Proof.
  intros L1 L2. unfold slice. rewrite length_take, length_drop. lia.
Qed.

(** Replacements as long as the matches keep the length. *)
Lemma sub_from_length (repl : string -> option string) (text : string) :
  (forall m r, repl m = Some r -> String.length r = String.length m) ->
  forall spans pos out,
    ordered pos (String.length text) spans ->
    sub_from repl text pos spans = Some out ->
    String.length out = String.length text - pos.
Proof.
  intros G spans. induction spans as [|[b e] rest IH]; intros pos out O H;
    cbn [sub_from ordered] in *.
  - apply some_eq in H. subst out. apply length_drop.
  - destruct O as (O1 & O2 & O3 & O4).
    destruct (repl (slice b e text)) as [r|] eqn:R; [|discriminate].
    destruct (sub_from repl text e rest) as [tl|] eqn:S; [|discriminate].
    apply some_eq in H. subst out.
    rewrite !length_app, (G _ _ R), (IH e tl O4 S), !length_slice by lia.
    lia.
Qed.

(** *** Subsequences *)

Lemma subsequence_refl (s : string) : subsequence s s.
Proof. induction s; constructor; assumption. Qed.

Lemma subsequence_nil (s : string) : subsequence "" s.
Proof. induction s; constructor; assumption. Qed.

Lemma subsequence_trans (a b c : string) :
  subsequence a b -> subsequence b c -> subsequence a c.
Proof.
  intros AB BC. revert a AB.
  induction BC as [|x b c BC IH|x b c BC IH]; intros a AB.
  - exact AB.
  - inversion AB; subst.
    + apply subsequence_keep. now apply IH.
    + apply subsequence_skip. now apply IH.
  - apply subsequence_skip. now apply IH.
Qed.

Lemma subsequence_app (a a' b b' : string) :
  subsequence a b -> subsequence a' b' -> subsequence (a ++ a') (b ++ b').
Proof.
  induction 1; intros H'; cbn [append]; [exact H'| |];
    constructor; auto.
Qed.

Lemma subsequence_length (a b : string) :
  subsequence a b -> String.length a <= String.length b.
Proof. induction 1; cbn [String.length]; lia. Qed.

(** Replacing every match by nothing leaves a subsequence. *)
Lemma sub_from_subsequence (repl : string -> option string) (text : string) :
  (forall m r, repl m = Some r -> r = "") ->
  forall spans pos out,
    ordered pos (String.length text) spans ->
    sub_from repl text pos spans = Some out ->
    subsequence out (drop pos text).
Proof.
  intros G spans. induction spans as [|[b e] rest IH]; intros pos out O H;
    cbn [sub_from ordered] in *.
  - apply some_eq in H. subst out. apply subsequence_refl.
  - destruct O as (O1 & O2 & O3 & O4).
    destruct (repl (slice b e text)) as [r|] eqn:R; [|discriminate].
    destruct (sub_from repl text e rest) as [tl|] eqn:S; [|discriminate].
    apply some_eq in H. subst out. rewrite (G _ _ R). cbn [append].
    rewrite <- (slice_drop pos b text O1), <- (slice_drop b e text O2).
    apply subsequence_app; [apply subsequence_refl|].
    apply (subsequence_app "" tl); [apply subsequence_nil|].
    now apply IH.
Qed.

End SpanFacts.

(** ** The engine of the file reports its spans in order *)

Module EngineFacts.
Import Regex PlaybookSpec.

Lemma star_loop_result (P : nat -> Prop)
    (step : string -> (string -> option nat) -> option nat) :
  (forall s k n, (forall rest x, k rest = Some x -> P x) ->
                 step s k = Some n -> P n) ->
  forall fuel s k n,
    (forall rest x, k rest = Some x -> P x) ->
    star_loop step k fuel s = Some n -> P n.
Proof.
  intros S. induction fuel as [|f IH]; intros s k n K; cbn [star_loop].
  - apply K.
  - destruct (step s _) as [x|] eqn:E.
    + intros H. apply some_eq in H. subst x.
      eapply S; [|exact E]. cbv beta. intros rest x.
      destruct (String.length rest <? String.length s); [|apply K].
      now apply IH.
    + apply K.
Qed.

(** Whatever a match returns, its continuation has returned. *)
Lemma rmatch_result (P : nat -> Prop) (ci : bool) (r : regex) :
  forall s k n,
    (forall rest x, k rest = Some x -> P x) ->
    rmatch ci r s k = Some n -> P n.
Proof.
  induction r as [| |neg items|a IHa b IHb|a IHa b IHb|a IHa];
    intros s k n K; cbn [rmatch].
  - apply K.
  - destruct s as [|c rest]; [discriminate|].
    destruct (Ascii.eqb c "010"); [discriminate | apply K].
  - destruct s as [|c rest]; [discriminate|].
    destruct (set_matches ci neg items c); [apply K | discriminate].
  - apply IHa. intros rest x. now apply IHb.
  - destruct (rmatch ci a s k) as [x|] eqn:E.
    + intros H. apply some_eq in H. subst x. eapply IHa; eauto.
    + now apply IHb.
  - apply star_loop_result; [|exact K]. intros s0 k0 n0 K0. now apply IHa.
Qed.

Lemma to_matcher_inside ci r s must_advance n :
  to_matcher ci r s must_advance = Some n -> n <= String.length s.
Proof.
  unfold to_matcher.
  apply (rmatch_result (fun n => n <= String.length s)).
  intros rest x.
  destruct (must_advance && (String.length s - String.length rest =? 0));
    [discriminate|].
  intros H. apply some_eq in H. lia.
Qed.

Lemma compile_orderly : orderly compile.
Proof.
  intros pattern flag compiled text. unfold compile.
  destruct (parse pattern) as [r|]; [|discriminate].
  intros H. apply some_eq in H. subst compiled.
  apply SpanFacts.of_matcher_ordered. intros s ma n.
  apply to_matcher_inside.
Qed.

End EngineFacts.

(** ** A relation between the text before and after a live run *)

Module RelateFacts.
Import Playbooks Rules PlaybookSpec OrderFacts RunFacts SpanFacts.

Section Relating.
Variable re_compile : string -> bool -> option Re.compiled.
Hypothesis engine_orderly : orderly re_compile.

(** [fits m r]: [r] may replace the match [m].  [related a b]: the
    text [b] may come from the text [a]. *)
Variable fits : string -> string -> Prop.
Variable related : string -> string -> Prop.
Hypothesis related_refl : forall a, related a a.
Hypothesis related_trans :
  forall a b c, related a b -> related b c -> related a c.
Hypothesis related_sub :
  forall repl text spans out,
    ordered 0 (String.length text) spans ->
    (forall m r, repl m = Some r -> fits m r) ->
    Re.sub_from repl text 0 spans = Some out -> related text out.

Variable pb : Playbook.
Hypothesis no_replace :
  forall rule, In rule (rule_sequence pb) -> action rule <> "REPLACE".
Hypothesis replacement_fits :
  forall rule m r,
    In rule (rule_sequence pb) ->
    _replacement_for_match m rule pb = Some r -> fits m r.

Lemma removal_fits rule m :
  In rule (rule_sequence pb) -> action rule = "REMOVE" -> fits m "".
Proof.
  intros I A. apply (replacement_fits rule m "" I).
  unfold _replacement_for_match. now rewrite A.
Qed.

Lemma fold_related {B} (f : run_state -> B -> option run_state) (l : list B) :
  (forall st x st', In x l -> f st x = Some st' -> related (fst st) (fst st')) ->
  forall st st', fold_option f l st = Some st' -> related (fst st) (fst st').
Proof.
  induction l as [|x l IH]; intros S st st' H; cbn [fold_option] in H.
  - apply some_eq in H. subst st'. apply related_refl.
  - destruct (f st x) as [st1|] eqn:E; [|discriminate].
    apply related_trans with (fst st1).
    + apply (S st x st1); [now left | exact E].
    + apply IH; [|exact H]. intros s y s' Y. apply S. now right.
Qed.

Lemma apply_rule_related text rule r st' :
  In rule (rule_sequence pb) ->
  _apply_rule re_compile text rule pb r false = Some st' ->
  related text (fst st').
Proof.
  intros I. unfold _apply_rule.
  assert (Sub : forall c u u',
             ordered 0 (String.length u) (c u) ->
             Re.sub c (fun m => _replacement_for_match m rule pb) u = Some u' ->
             related u u').
  { intros c u u' O. unfold Re.sub. apply related_sub; [exact O|].
    intros m x. now apply replacement_fits. }
  destruct (String.eqb (rule_type rule) "dictionary_entities").
  { unfold _apply_dictionary. intros H.
    apply (fold_related _ _) in H; [exact H|].
    intros [u r0] [target replacement] st1 _. unfold dictionary_entry.
    cbn [fst].
    destruct (Re.finditer _ u) eqn:F;
      [intros E; apply some_eq in E; subst st1; apply related_refl|].
    destruct (String.eqb_spec (action rule) "REMOVE") as [A|A].
    { destruct (Re.sub_template _ _ _) as [u'|] eqn:S; [|discriminate].
      intros E; apply some_eq in E; subst st1. cbn [fst].
      unfold Re.sub_template, Re.sub in S.
      change (Re.expand_template "" "") with (Some "") in S. cbv iota in S.
      revert S.
      apply related_sub; [apply literal_ordered|].
      intros m x X. cbn [Re.expand_template] in X.
      apply some_eq in X. subst x. now apply (removal_fits rule). }
    destruct (String.eqb_spec (action rule) "REPLACE") as [A'|A'];
      [now apply no_replace in I|].
    destruct (Re.sub _ _ _) as [u'|] eqn:S; [|discriminate].
    intros E; apply some_eq in E; subst st1. cbn [fst].
    revert S. apply Sub. apply literal_ordered. }
  destruct (String.eqb (rule_type rule) "regex_patterns").
  { unfold _apply_regex_patterns. intros H.
    apply (fold_related _ _) in H; [exact H|].
    intros [u r0] entry st1 _. unfold regex_entry. cbn [fst].
    destruct (negb (PyStr.truthy (pattern entry)));
      [intros E; apply some_eq in E; subst st1; apply related_refl|].
    destruct (re_compile _ _) as [c|] eqn:C; [|discriminate].
    destruct (Re.finditer c u) eqn:F;
      [intros E; apply some_eq in E; subst st1; apply related_refl|].
    destruct (Re.sub _ _ _) as [u'|] eqn:S; [|discriminate].
    intros E; apply some_eq in E; subst st1. cbn [fst].
    revert S. apply Sub. eapply engine_orderly; eauto. }
  destruct (String.eqb (rule_type rule) "keyword_list").
  { unfold _apply_keywords.
    destruct (keywords rule) as [|k ks];
      [intros E; apply some_eq in E; subst st'; apply related_refl|].
    destruct (Re.finditer _ text) eqn:F;
      [intros E; apply some_eq in E; subst st'; apply related_refl|].
    cbn [negb].
    destruct (Re.sub _ _ _) as [u'|] eqn:S; [|discriminate].
    intros E; apply some_eq in E; subst st'. cbn [fst].
    revert S. apply Sub. apply alternation_ordered. }
  intros E; apply some_eq in E; subst st'. apply related_refl.
Qed.

Lemma apply_rules_related text out r :
  _rules_by_type pb "allowlist" = [] ->
  apply_rules re_compile text pb false = Some (out, r) ->
  related text out.
Proof.
  unfold apply_rules. cbv zeta. intros A H. rewrite A in H.
  cbn [_apply_allowlist allowlist_rules] in H.
  destruct (fold_option _ _ _) as [[t' r']|] eqn:F; [|discriminate].
  cbn [fold_left] in H. apply some_eq in H. inversion H; subst; clear H.
  change text with (fst (text, empty_report)).
  change out with (fst (out, r)). revert F. apply fold_related.
  intros [t0 r0] rule st1 I. cbn [fst snd]. now apply apply_rule_related.
Qed.

End Relating.

End RelateFacts.

(** ** [rules.py]: further properties *)

Module RulesProperties.
Import Playbooks Rules PlaybookSpec ReportSpec Examples Samples.

(** X8.  [_rules_by_type] returns exactly the enabled rules of the
    given type, in ascending priority; rules of equal priority keep the
    order they have in the playbook. *)
Theorem rules_by_type_sorted_stable (playbook : Playbook) (type : string) :
  (forall rule,
      In rule (_rules_by_type playbook type)
      <-> In rule (rules playbook) /\ rule_type rule = type
          /\ enabled rule = true)
  /\ StronglySorted (fun a b => (priority a <= priority b)%Z)
                    (_rules_by_type playbook type)
  /\ forall p,
       filter (fun rule => (priority rule =? p)%Z) (_rules_by_type playbook type)
       = filter (fun rule => (priority rule =? p)%Z)
           (filter (fun rule => String.eqb (rule_type rule) type && enabled rule)
                   (rules playbook)).
Proof.
  split; [|split].
  - intros rule. apply OrderFacts.in_rules_by_type.
  - unfold _rules_by_type. apply OrderFacts.sorted_sorted.
  - intros p. unfold _rules_by_type. apply OrderFacts.filter_sorted.
Qed.

(** X9.  Disabled rules and rules of a type other than the four rule
    types have no effect: the run on the playbook without them is the
    same run, in the text, in the report and in what it raises. *)
Theorem inactive_rules_ignored
    (re_compile : string -> bool -> option Re.compiled)
    (text : string) (playbook : Playbook) (dry_run : bool) :
  apply_rules re_compile text (active_only playbook) dry_run
  = apply_rules re_compile text playbook dry_run.
Proof.
  unfold apply_rules. cbv zeta.
  rewrite OrderFacts.rules_by_type_active by (cbn [In]; auto).
  rewrite OrderFacts.rule_sequence_active.
  destruct (_apply_allowlist _ _ _ _) as [[protected placeholders]|];
    [|reflexivity].
  rewrite (fold_option_ext
             (fun st rule =>
                _apply_rule re_compile (fst st) rule (active_only playbook)
                  (snd st) dry_run)
             (fun st rule =>
                _apply_rule re_compile (fst st) rule playbook (snd st) dry_run));
    [reflexivity|].
  intros st rule. now apply DictionaryFacts.apply_rule_playbook.
Qed.

(** X10.  A dry run rewrites nothing but what the allowlist round trip
    rewrites: its text is the text a live run of the allowlist rules
    alone returns, and without an enabled allowlist rule it is the
    input. *)
Theorem dry_run_keeps_text
    (re_compile : string -> bool -> option Re.compiled)
    (text : string) (playbook : Playbook) (out : string)
    (report : RuleMatchReport) :
  apply_rules re_compile text playbook true = Some (out, report) ->
  apply_rules re_compile text (allowlist_only playbook) false
  = Some (out, empty_report)
  /\ (_rules_by_type playbook "allowlist" = [] -> out = text).
Proof.
  unfold apply_rules. cbv zeta. intros H.
  rewrite OrderFacts.rules_by_type_allowlist_only,
    OrderFacts.rule_sequence_allowlist_only.
  destruct (_apply_allowlist _ _ _ _) as [[protected placeholders]|] eqn:A;
    [|discriminate].
  destruct (fold_option _ _ _) as [[t' r']|] eqn:F; [|discriminate].
  apply RunFacts.rules_dry_text in F. cbn [fst] in F. subst t'.
  apply some_eq in H. inversion H; subst; clear H.
  split; [reflexivity|].
  intros E. rewrite E in A. cbn [_apply_allowlist allowlist_rules] in A.
  apply some_eq in A. inversion A; subst. reflexivity.
Qed.

Lemma dry_run_keeps_text_witness :
  apply_rules Regex.compile "SSN: 123-45-6789" ssn_playbook true
  = Some ("SSN: 123-45-6789", ssn_report)
  /\ apply_rules Regex.compile "SSN: 123-45-6789" (allowlist_only ssn_playbook)
       false
     = Some ("SSN: 123-45-6789", empty_report).
Proof.
  assert (H : apply_rules Regex.compile "SSN: 123-45-6789" ssn_playbook true
              = Some ("SSN: 123-45-6789", ssn_report))
    by (vm_compute; reflexivity).
  split; [exact H|].
  exact (proj1 (dry_run_keeps_text Regex.compile _ _ _ _ H)).
Defined.

(** X11.  The two count maps of a report have pairwise distinct keys;
    every key of [matches_by_rule_type] is one of the three redacting
    rule types and the type of an enabled rule of the playbook, and
    every key of [matches_by_rule_id] is the id of an enabled rule of
    the playbook of a redacting type.  Allowlist rules are never
    counted. *)
Theorem report_names_playbook_rules
    (re_compile : string -> bool -> option Re.compiled)
    (text : string) (playbook : Playbook) (dry_run : bool) (out : string)
    (report : RuleMatchReport) :
  apply_rules re_compile text playbook dry_run = Some (out, report) ->
  Dict.wf (matches_by_rule_type report)
  /\ Dict.wf (matches_by_rule_id report)
  /\ (forall k, In k (Dict.keys (matches_by_rule_type report)) ->
        In k redacting_types
        /\ exists rule, In rule (rules playbook) /\ enabled rule = true
                        /\ rule_type rule = k)
  /\ (forall k, In k (Dict.keys (matches_by_rule_id report)) ->
        exists rule, In rule (rules playbook) /\ enabled rule = true
                     /\ In (rule_type rule) redacting_types
                     /\ rule_id rule = k).
Proof.
  intros H. apply RunFacts.apply_rules_keys_known in H.
  destruct H as (Wt & Wi & Kt & Ki).
  split; [exact Wt|]. split; [exact Wi|]. split.
  - intros k K. destruct (Kt k K) as (rule & I & <-).
    apply OrderFacts.in_rule_sequence in I as (I & T & E). eauto.
  - intros k K. destruct (Ki k K) as (rule & I & <-).
    apply OrderFacts.in_rule_sequence in I as (I & T & E).
    exists rule. auto.
Qed.

Lemma report_names_playbook_rules_witness :
  apply_rules Regex.compile "ACME pays" client_playbook false
  = Some ("Client  pays", client_report)
  /\ Dict.wf (matches_by_rule_id client_report)
  /\ forall k, In k (Dict.keys (matches_by_rule_type client_report)) ->
               In k redacting_types.
Proof.
  assert (H : apply_rules Regex.compile "ACME pays" client_playbook false
              = Some ("Client  pays", client_report))
    by (vm_compute; reflexivity).
  destruct (report_names_playbook_rules Regex.compile _ _ _ _ _ H)
    as (_ & Wi & Kt & _).
  split; [exact H|]. split; [exact Wi|].
  intros k K. exact (proj1 (Kt k K)).
Defined.

(** X12.  Without an enabled allowlist rule, under the redaction mode
    SAME_LENGTH_MASK with a mask of at most one character (an empty
    mask stands for the asterisk), a live run of rules that neither
    remove nor replace returns a text exactly as long as the input. *)
Theorem same_length_mask_keeps_length
    (re_compile : string -> bool -> option Re.compiled)
    (text : string) (playbook : Playbook) (out : string)
    (report : RuleMatchReport) :
  orderly re_compile ->
  _rules_by_type playbook "allowlist" = [] ->
  redaction_mode playbook = "SAME_LENGTH_MASK" ->
  String.length (mask_char playbook) <= 1 ->
  (forall rule, In rule (rule_sequence playbook) ->
                action rule <> "REMOVE" /\ action rule <> "REPLACE") ->
  apply_rules re_compile text playbook false = Some (out, report) ->
  String.length out = String.length text.
Proof.
  intros O A M C Act H.
  apply (RelateFacts.apply_rules_related re_compile O
           (fun m r => String.length r = String.length m)
           (fun a b => String.length b = String.length a))
    with (pb := playbook) (r := report) (out := out) (text := text);
    try assumption.
  - reflexivity.
  - intros a b c E1 E2. congruence.
  - intros repl u spans u' Ord G S.
    rewrite (SpanFacts.sub_from_length repl u G spans 0 u' Ord S). lia.
  - intros rule I. now apply Act.
  - intros rule m r I. destruct (Act rule I) as [NR NP].
    unfold _replacement_for_match.
    destruct (String.eqb_spec (action rule) "REMOVE"); [contradiction|].
    destruct (String.eqb_spec (action rule) "REPLACE"); [contradiction|].
    rewrite M. cbn [String.eqb Ascii.eqb Bool.eqb].
    intros E. apply some_eq in E. subst r.
    assert (L : String.length (PyStr.or_else (Some (mask_char playbook)) "*") = 1).
    { destruct (mask_char playbook) as [|c [|c' s]]; cbn in *; lia. }
    revert L. generalize (PyStr.or_else (Some (mask_char playbook)) "*").
    intros mask L. induction (String.length m) as [|len IH];
      cbn [PyStr.repeat_str String.length]; [reflexivity|].
    rewrite StrFacts.length_app, IH, L. reflexivity.
Qed.

Lemma same_length_mask_keeps_length_witness :
  apply_rules Regex.compile "SSN: 123-45-6789" ssn_playbook false
  = Some ("SSN: ***********", ssn_report)
  /\ String.length "SSN: ***********" = String.length "SSN: 123-45-6789".
Proof.
  assert (H : apply_rules Regex.compile "SSN: 123-45-6789" ssn_playbook false
              = Some ("SSN: ***********", ssn_report))
    by (vm_compute; reflexivity).
  split; [exact H|].
  apply (same_length_mask_keeps_length Regex.compile "SSN: 123-45-6789"
           ssn_playbook "SSN: ***********" ssn_report).
  - exact EngineFacts.compile_orderly.
  - reflexivity.
  - reflexivity.
  - simpl. lia.
  - intros rule I. vm_compute in I. destruct I as [<-|[]].
    split; discriminate.
  - exact H.
Defined.

(** X13.  Without an enabled allowlist rule, a live run of rules that
    all have the action REMOVE only takes characters away: the result
    is the input with some characters left out, in the same order. *)
Theorem removal_leaves_subsequence
    (re_compile : string -> bool -> option Re.compiled)
    (text : string) (playbook : Playbook) (out : string)
    (report : RuleMatchReport) :
  orderly re_compile ->
  _rules_by_type playbook "allowlist" = [] ->
  (forall rule, In rule (rule_sequence playbook) -> action rule = "REMOVE") ->
  apply_rules re_compile text playbook false = Some (out, report) ->
  subsequence out text /\ String.length out <= String.length text.
Proof.
  intros O A Act H.
  assert (S : subsequence out text).
  { apply (RelateFacts.apply_rules_related re_compile O
             (fun m r => r = "") (fun a b => subsequence b a))
      with (pb := playbook) (r := report) (out := out) (text := text);
      try assumption.
    - apply SpanFacts.subsequence_refl.
    - intros a b c E1 E2. eapply SpanFacts.subsequence_trans; eauto.
    - intros repl u spans u' Ord G S.
      pose proof (SpanFacts.sub_from_subsequence repl u G spans 0 u' Ord S)
        as X.
      now rewrite StrFacts.drop_0 in X.
    - intros rule I. rewrite (Act rule I). discriminate.
    - intros rule m r I. unfold _replacement_for_match.
      rewrite (Act rule I). cbn [String.eqb Ascii.eqb Bool.eqb].
      intros E. now apply some_eq in E. }
  split; [exact S | now apply SpanFacts.subsequence_length].
Qed.

Lemma removal_leaves_subsequence_witness :
  apply_rules Regex.compile "Acme Corp pays" removal_playbook false
  = Some ("Acme  pays",
          {| total_matches := 1;
             matches_by_rule_type := [("keyword_list", 1%Z)];
             matches_by_rule_id := [("corp", 1%Z)] |})
  /\ subsequence "Acme  pays" "Acme Corp pays".
Proof.
  assert (H : apply_rules Regex.compile "Acme Corp pays" removal_playbook false
              = Some ("Acme  pays",
                      {| total_matches := 1;
                         matches_by_rule_type := [("keyword_list", 1%Z)];
                         matches_by_rule_id := [("corp", 1%Z)] |}))
    by (vm_compute; reflexivity).
  split; [exact H|].
  refine (proj1 (removal_leaves_subsequence Regex.compile _ removal_playbook
                   _ _ EngineFacts.compile_orderly _ _ H)).
  - reflexivity.
  - intros rule I. vm_compute in I. destruct I as [<-|[]]. reflexivity.
Defined.

(** X14.  A run returns only if every non-empty pattern of the enabled
    allowlist and regex rules compiles, so one pattern that does not
    compile makes the run raise on every text, in both modes; and a dry
    run raises for no other reason. *)
Theorem run_raises_for_bad_pattern
    (re_compile : string -> bool -> option Re.compiled)
    (text : string) (playbook : Playbook) :
  (forall dry_run result,
      apply_rules re_compile text playbook dry_run = Some result ->
      patterns_compile re_compile playbook)
  /\ (patterns_compile re_compile playbook ->
      exists result, apply_rules re_compile text playbook true = Some result).
Proof.
  split.
  - intros dry_run result. apply RaiseFacts.returns_compiled.
  - intros C. apply RaiseFacts.compiled_returns; [exact C | now left].
Qed.

Lemma run_raises_for_bad_pattern_witness :
  Regex.compile "(" false = None
  /\ apply_rules Regex.compile "no number here" broken_playbook false = None.
Proof.
  assert (B : Regex.compile "(" false = None) by (vm_compute; reflexivity).
  split; [exact B|].
  destruct (apply_rules Regex.compile "no number here" broken_playbook false)
    as [result|] eqn:H; [|reflexivity].
  exfalso.
  apply (proj1 (run_raises_for_bad_pattern Regex.compile _ _) false result H
           broken_rule (entry "(")).
  - vm_compute. auto.
  - now left.
  - reflexivity.
  - exact B.
Defined.

(** X15.  When every pattern compiles and no enabled redacting rule
    has the action REPLACE, a live run returns: masking and removing
    raise nothing. *)
Theorem live_run_returns_without_replace
    (re_compile : string -> bool -> option Re.compiled)
    (text : string) (playbook : Playbook) :
  patterns_compile re_compile playbook ->
  (forall rule, In rule (rule_sequence playbook) -> action rule <> "REPLACE") ->
  exists out report,
    apply_rules re_compile text playbook false = Some (out, report).
Proof.
  intros C A.
  destruct (RaiseFacts.compiled_returns re_compile text playbook false C)
    as [[out report] H]; [now right|].
  eauto.
Qed.

Lemma live_run_returns_without_replace_witness :
  patterns_compile Regex.compile ssn_playbook
  /\ exists out report,
       apply_rules Regex.compile "call 555-01-0000 now" ssn_playbook false
       = Some (out, report).
Proof.
  assert (C : patterns_compile Regex.compile ssn_playbook).
  { intros rule entry I E T. vm_compute in I.
    destruct I as [<-|[]]. destruct E as [<-|[]].
    vm_compute. discriminate. }
  split; [exact C|].
  apply (live_run_returns_without_replace Regex.compile _ ssn_playbook C).
  intros rule I. vm_compute in I. destruct I as [<-|[]]. discriminate.
Defined.

(** X16.  The total of a report is never negative; and without an
    enabled allowlist rule, a run whose total is zero returns the text
    as it came, with the empty report. *)
Theorem zero_matches_text_unchanged
    (re_compile : string -> bool -> option Re.compiled)
    (text : string) (playbook : Playbook) (dry_run : bool) (out : string)
    (report : RuleMatchReport) :
  apply_rules re_compile text playbook dry_run = Some (out, report) ->
  (0 <= total_matches report)%Z
  /\ (_rules_by_type playbook "allowlist" = [] ->
      total_matches report = 0%Z ->
      out = text /\ report = empty_report).
Proof.
  intros H. split.
  - destruct (ReportFacts.apply_rules_consistent re_compile _ _ _ _ _ H)
      as (T & _ & P & _).
    rewrite T. now apply RunFacts.sum_values_nonnegative.
  - intros A Z.
    now apply (NoMatchFacts.apply_rules_no_match re_compile text playbook
                 dry_run).
Qed.

Lemma zero_matches_text_unchanged_witness :
  apply_rules Regex.compile "nothing to hide" ssn_playbook false
  = Some ("nothing to hide", empty_report)
  /\ (0 <= total_matches empty_report)%Z.
Proof.
  assert (H : apply_rules Regex.compile "nothing to hide" ssn_playbook false
              = Some ("nothing to hide", empty_report))
    by (vm_compute; reflexivity).
  split; [exact H|].
  exact (proj1 (zero_matches_text_unchanged Regex.compile _ _ _ _ _ H)).
Defined.

End RulesProperties.

(** ** Merged counts, key by key *)

Module CountFacts.
Import Rules ProcessorDocx DictFacts.

Lemma get_default_set {V} (d : Dict.t V) (k k' : string) (v dflt : V) :
  Dict.get_default (Dict.set d k v) k' dflt
  = if String.eqb k k' then v else Dict.get_default d k' dflt.
Proof.
  unfold Dict.get_default. destruct (String.eqb_spec k k') as [<-|N].
  - now rewrite get_set_same.
  - rewrite get_set_other by congruence. reflexivity.
Qed.

Lemma get_absent {V} (d : Dict.t V) (k : string) :
  ~ In k (Dict.keys d) -> Dict.get d k = None.
Proof.
  intros N. destruct (Dict.get d k) as [v|] eqn:G; [|reflexivity].
  exfalso. apply N. apply get_in in G. unfold Dict.keys.
  apply in_map_iff. exists (k, v). auto.
Qed.

Lemma get_default_cons {V} (d : Dict.t V) (k k' : string) (v dflt : V) :
  Dict.get_default ((k, v) :: d) k' dflt
  = if String.eqb k k' then v else Dict.get_default d k' dflt.
Proof.
  unfold Dict.get_default. cbn [Dict.get].
  destruct (String.eqb k k'); reflexivity.
Qed.

Lemma add_counts_get (source : Dict.t Z) : forall target k,
  Dict.wf source ->
  Dict.get_default (add_counts target source) k 0%Z
  = (Dict.get_default target k 0 + Dict.get_default source k 0)%Z.
Proof.
  unfold add_counts.
  induction source as [|[k' v] source IH]; intros target k W;
    cbn [fold_left].
  - change (Dict.get_default [] k 0%Z) with 0%Z. lia.
  - unfold Dict.wf, Dict.keys in W. cbn [map fst] in W.
    apply NoDup_cons_iff in W as [N W].
    rewrite IH by exact W. rewrite get_default_set, get_default_cons.
    destruct (String.eqb_spec k' k) as [<-|D]; [|reflexivity].
    assert (Z : Dict.get_default source k' 0%Z = 0%Z)
      by (unfold Dict.get_default; now rewrite (get_absent source k')).
    lia.
Qed.

End CountFacts.

(** ** Containers that come out as they went in *)

Module ContainerFacts.
Import Xml Rules ProcessorDocx DictFacts ReportSpec.

Section Engine.
Variable re_compile : string -> bool -> option Re.compiled.
Variable fromstring : bytes -> option element.
Variable tostring : element -> bytes.
Variable playbook : Playbooks.Playbook.

(** *** Dry runs *)

Lemma text_nodes_dry nodes : forall tree aggregate tree' aggregate' modified,
  fold_option (text_node_step re_compile playbook true) nodes
    (tree, aggregate, false) = Some (tree', aggregate', modified) ->
  tree' = tree /\ modified = false.
Proof.
  induction nodes as [|n nodes IH];
    intros tree aggregate tree' aggregate' modified H;
    cbn [fold_option] in H.
  - apply some_eq in H. inversion H; subst. auto.
  - destruct (text_node_step re_compile playbook true (tree, aggregate, false) n)
      as [[[t1 a1] m1]|] eqn:E; [|discriminate].
    unfold text_node_step in E.
    destruct (find_node n tree) as [node|];
      [|apply some_eq in E; inversion E; subst; now apply IH in H].
    destruct (text_of node) as [text|];
      [|apply some_eq in E; inversion E; subst; now apply IH in H].
    destruct (apply_rules re_compile text playbook true)
      as [[redacted report]|]; [|discriminate].
    cbn [negb andb] in E. apply some_eq in E. inversion E; subst.
    now apply IH in H.
Qed.

Lemma part_step_dry st part st' :
  part_step re_compile fromstring tostring playbook true st part = Some st' ->
  fst st' = fst st.
Proof.
  destruct st as [u a], part as [name data]. unfold part_step.
  destruct (negb (PyStr.startswith name "word/")
            || negb (PyStr.endswith name ".xml"));
    [intros H; apply some_eq in H; now subst st'|].
  destruct (fromstring data) as [tree|];
    [|intros H; apply some_eq in H; now subst st'].
  destruct (fold_option _ _ _) as [[[tree' a'] modified]|] eqn:F;
    [|discriminate].
  apply text_nodes_dry in F as [_ ->].
  intros H; apply some_eq in H; now subst st'.
Qed.

(** *** The keys of the parts *)

Lemma part_step_keys dry st part st' :
  In (fst part) (Dict.keys (fst st)) ->
  part_step re_compile fromstring tostring playbook dry st part = Some st' ->
  Dict.keys (fst st') = Dict.keys (fst st).
Proof.
  destruct st as [u a], part as [name data]. cbn [fst]. intros K.
  unfold part_step.
  destruct (negb (PyStr.startswith name "word/")
            || negb (PyStr.endswith name ".xml"));
    [intros H; apply some_eq in H; now subst st'|].
  destruct (fromstring data) as [tree|];
    [|intros H; apply some_eq in H; now subst st'].
  destruct (fold_option _ _ _) as [[[tree' a'] modified]|]; [|discriminate].
  destruct modified; intros H; apply some_eq in H; subst st'; cbn [fst];
    [now apply keys_set | reflexivity].
Qed.

Lemma part_step_skips dry st name data :
  PyStr.startswith name "word/" && PyStr.endswith name ".xml" = false ->
  part_step re_compile fromstring tostring playbook dry st (name, data)
  = Some st.
Proof.
  intros S. destruct st as [u a]. unfold part_step.
  apply andb_false_iff in S as [-> | ->]; cbn [negb orb];
    [reflexivity|].
  now rewrite orb_true_r.
Qed.

(** *** Runs that count nothing *)

Lemma merge_total target report :
  total_matches (_merge_reports target report)
  = (total_matches target + total_matches report)%Z.
Proof. reflexivity. Qed.

Lemma text_nodes_steady dry nodes :
  _rules_by_type playbook "allowlist" = [] ->
  forall tree aggregate modified tree' aggregate' modified',
    fold_option (text_node_step re_compile playbook dry) nodes
      (tree, aggregate, modified) = Some (tree', aggregate', modified') ->
    (total_matches aggregate <= total_matches aggregate')%Z
    /\ ((total_matches aggregate' <= total_matches aggregate)%Z ->
        tree' = tree /\ modified' = modified).
Proof.
  intros A. induction nodes as [|n nodes IH];
    intros tree aggregate modified tree' aggregate' modified' H;
    cbn [fold_option] in H.
  - apply some_eq in H. inversion H; subst. split; [lia | auto].
  - destruct (text_node_step re_compile playbook dry
                (tree, aggregate, modified) n)
      as [[[t1 a1] m1]|] eqn:E; [|discriminate].
    apply IH in H as [L1 K1].
    unfold text_node_step in E.
    destruct (find_node n tree) as [node|];
      [|apply some_eq in E; inversion E; subst; auto].
    destruct (text_of node) as [text|];
      [|apply some_eq in E; inversion E; subst; auto].
    destruct (apply_rules re_compile text playbook dry)
      as [[redacted report]|] eqn:R; [|discriminate].
    assert (P : (0 <= total_matches report)%Z).
    { destruct (ReportFacts.apply_rules_consistent re_compile _ _ _ _ _ R)
        as (T & _ & P & _).
      rewrite T. now apply RunFacts.sum_values_nonnegative. }
    assert (T1 : total_matches a1
                 = (total_matches aggregate + total_matches report)%Z).
    { destruct (negb dry && negb (String.eqb redacted text));
        apply some_eq in E; inversion E; subst; apply merge_total. }
    split; [lia|]. intros L.
    assert (Z : total_matches report = 0%Z) by lia.
    destruct (NoMatchFacts.apply_rules_no_match re_compile _ _ _ _ _ A R Z)
      as [-> _].
    rewrite String.eqb_refl in E. cbn [negb] in E.
    rewrite andb_false_r in E. apply some_eq in E. inversion E; subst.
    apply K1. lia.
Qed.

Lemma part_step_steady dry st part st' :
  _rules_by_type playbook "allowlist" = [] ->
  part_step re_compile fromstring tostring playbook dry st part = Some st' ->
  (total_matches (snd st) <= total_matches (snd st'))%Z
  /\ ((total_matches (snd st') <= total_matches (snd st))%Z ->
      fst st' = fst st).
Proof.
  intros A. destruct st as [u a], part as [name data]. unfold part_step.
  destruct (negb (PyStr.startswith name "word/")
            || negb (PyStr.endswith name ".xml"));
    [intros H; apply some_eq in H; subst st'; split; [lia|auto]|].
  destruct (fromstring data) as [tree|];
    [|intros H; apply some_eq in H; subst st'; split; [lia|auto]].
  destruct (fold_option _ _ _) as [[[tree' a'] modified]|] eqn:F;
    [|discriminate].
  apply (text_nodes_steady dry _ A) in F as [L K].
  destruct modified; intros H; apply some_eq in H; subst st'; cbn [fst snd].
  - split; [exact L|]. intros L'. destruct (K L') as [_ X]. discriminate X.
  - split; [exact L | auto].
Qed.

Lemma parts_steady dry l :
  _rules_by_type playbook "allowlist" = [] ->
  forall st st',
    fold_option (part_step re_compile fromstring tostring playbook dry) l st
    = Some st' ->
    (total_matches (snd st) <= total_matches (snd st'))%Z
    /\ ((total_matches (snd st') <= total_matches (snd st))%Z ->
        fst st' = fst st).
Proof.
  intros A. induction l as [|p l IH]; intros st st' H; cbn [fold_option] in H.
  - apply some_eq in H. subst st'. split; [lia | auto].
  - destruct (part_step re_compile fromstring tostring playbook dry st p)
      as [st1|] eqn:E; [|discriminate].
    apply (part_step_steady dry _ _ _ A) in E as [L1 K1].
    apply IH in H as [L2 K2].
    split; [lia|]. intros L. rewrite K2 by lia. apply K1. lia.
Qed.

End Engine.

End ContainerFacts.

(** ** [processor_docx.py]: further properties *)

Module ProcessorProperties.
Import Xml Rules ProcessorDocx Examples Samples.

(** X17.  A dry run over the parts of a container changes no part:
    the mapping it returns is the mapping it was given. *)
Theorem dry_run_leaves_parts
    (re_compile : string -> bool -> option Re.compiled)
    (fromstring : bytes -> option element) (tostring : element -> bytes)
    (parts : Dict.t bytes) (playbook : Playbooks.Playbook)
    (out : Dict.t bytes) (aggregate : RuleMatchReport) :
  _apply_rules_to_parts re_compile fromstring tostring parts playbook true
  = Some (out, aggregate) ->
  out = parts.
Proof.
  unfold _apply_rules_to_parts. intros H.
  assert (G : forall l st st',
             fold_option (part_step re_compile fromstring tostring playbook true)
               l st = Some st' ->
             fst st' = fst st).
  { induction l as [|p l IH]; intros st st' F; cbn [fold_option] in F.
    - apply some_eq in F. now subst st'.
    - destruct (part_step re_compile fromstring tostring playbook true st p)
        as [st1|] eqn:E; [|discriminate].
      apply ContainerFacts.part_step_dry in E. rewrite <- E. now apply IH. }
  exact (G _ _ _ H).
Qed.

Lemma dry_run_leaves_parts_witness :
  _apply_rules_to_parts Regex.compile sample_fromstring sample_tostring
    sample_parts ssn_playbook true
  = Some (sample_parts, ssn_report).
Proof.
  destruct (_apply_rules_to_parts Regex.compile sample_fromstring
              sample_tostring sample_parts ssn_playbook true)
    as [[out aggregate]|] eqn:H; [|vm_compute in H; discriminate H].
  rewrite (dry_run_leaves_parts _ _ _ _ _ _ _ H) in *.
  vm_compute in H. apply some_eq in H. inversion H; subst. reflexivity.
Defined.

(** X18.  The rule application neither adds nor drops nor reorders
    parts; and a part whose name does not both start with "word/" and
    end in ".xml" keeps its bytes. *)
Theorem rules_keep_part_names
    (re_compile : string -> bool -> option Re.compiled)
    (fromstring : bytes -> option element) (tostring : element -> bytes)
    (parts : Dict.t bytes) (playbook : Playbooks.Playbook) (dry_run : bool)
    (out : Dict.t bytes) (aggregate : RuleMatchReport) :
  _apply_rules_to_parts re_compile fromstring tostring parts playbook dry_run
  = Some (out, aggregate) ->
  Dict.keys out = Dict.keys parts
  /\ (Dict.wf parts ->
      forall name data,
        In (name, data) parts ->
        PyStr.startswith name "word/" && PyStr.endswith name ".xml" = false ->
        Dict.get out name = Some data).
Proof.
  unfold _apply_rules_to_parts. intros H. split.
  - change out with (fst (out, aggregate)). revert H.
    apply (ProcessorFacts.fold_option_invariant_in
             (fun st => Dict.keys (fst st) = Dict.keys parts));
      [|reflexivity].
    intros st part st' I K S.
    assert (M : In (fst part) (Dict.keys (fst st)))
      by (rewrite K; unfold Dict.keys; now apply in_map).
    now rewrite (ContainerFacts.part_step_keys _ _ _ _ _ _ _ _ M S).
  - intros W name data I Skip.
    change out with (fst (out, aggregate)). revert H.
    apply (ProcessorFacts.fold_option_invariant_in
             (fun st => Dict.get (fst st) name = Some data));
      [|now apply DictFacts.in_get].
    intros st [n d] st' I' P S.
    destruct (String.eqb_spec n name) as [->|N].
    + rewrite ContainerFacts.part_step_skips in S by exact Skip.
      apply some_eq in S. now subst st'.
    + rewrite (ProcessorFacts.step_get_other _ _ _ _ _ st (n, d) st' name N S).
      exact P.
Qed.

Lemma rules_keep_part_names_witness :
  exists out aggregate,
    _apply_rules_to_parts Regex.compile sample_fromstring sample_tostring
      sample_parts ssn_playbook false = Some (out, aggregate)
    /\ Dict.keys out = Dict.keys sample_parts
    /\ Dict.get out "[Content_Types].xml" = Some (utf8 "<Types/>").
Proof.
  destruct (_apply_rules_to_parts Regex.compile sample_fromstring
              sample_tostring sample_parts ssn_playbook false)
    as [[out aggregate]|] eqn:H; [|vm_compute in H; discriminate H].
  exists out, aggregate. split; [reflexivity|].
  destruct (rules_keep_part_names _ _ _ _ _ _ _ _ H) as [K G].
  split; [exact K|].
  apply G; [|simpl; auto | reflexivity].
  unfold Dict.wf. simpl.
  repeat (constructor; [simpl; intuition discriminate|]). constructor.
Defined.

(** X19.  Merging adds: the total of the merged report is the sum of
    the two totals, and under every key each count map of the merged
    report holds the sum of the two counts, a missing key counting as
    zero. *)
Theorem merged_counts_add (target report : RuleMatchReport) :
  Dict.wf (matches_by_rule_type report) ->
  Dict.wf (matches_by_rule_id report) ->
  total_matches (_merge_reports target report)
  = (total_matches target + total_matches report)%Z
  /\ (forall k,
        Dict.get_default (matches_by_rule_type (_merge_reports target report)) k 0%Z
        = (Dict.get_default (matches_by_rule_type target) k 0
           + Dict.get_default (matches_by_rule_type report) k 0)%Z)
  /\ (forall k,
        Dict.get_default (matches_by_rule_id (_merge_reports target report)) k 0%Z
        = (Dict.get_default (matches_by_rule_id target) k 0
           + Dict.get_default (matches_by_rule_id report) k 0)%Z).
Proof.
  intros Wt Wi. split; [reflexivity|]. split; intros k;
    cbn [_merge_reports matches_by_rule_type matches_by_rule_id];
    now apply CountFacts.add_counts_get.
Qed.

Lemma merged_counts_add_witness :
  Dict.wf (matches_by_rule_type client_report)
  /\ Dict.wf (matches_by_rule_id client_report)
  /\ total_matches (_merge_reports ssn_report client_report) = 3%Z
  /\ forall k,
       Dict.get_default
         (matches_by_rule_type (_merge_reports ssn_report client_report)) k 0%Z
       = (Dict.get_default (matches_by_rule_type ssn_report) k 0
          + Dict.get_default (matches_by_rule_type client_report) k 0)%Z.
Proof.
  assert (Wt : Dict.wf (matches_by_rule_type client_report)).
  { unfold Dict.wf. simpl.
    repeat (constructor; [simpl; intuition discriminate|]). constructor. }
  assert (Wi : Dict.wf (matches_by_rule_id client_report)).
  { unfold Dict.wf. simpl.
    repeat (constructor; [simpl; intuition discriminate|]). constructor. }
  destruct (merged_counts_add ssn_report client_report Wt Wi) as (T & Ct & _).
  split; [exact Wt|]. split; [exact Wi|]. split; [exact T | exact Ct].
Defined.

(** X20.  Without an enabled allowlist rule, a container in which the
    rules count no match comes out as it went in: no part is
    serialized again. *)
Theorem container_without_match_unchanged
    (re_compile : string -> bool -> option Re.compiled)
    (fromstring : bytes -> option element) (tostring : element -> bytes)
    (parts : Dict.t bytes) (playbook : Playbooks.Playbook) (dry_run : bool)
    (out : Dict.t bytes) (aggregate : RuleMatchReport) :
  _rules_by_type playbook "allowlist" = [] ->
  _apply_rules_to_parts re_compile fromstring tostring parts playbook dry_run
  = Some (out, aggregate) ->
  total_matches aggregate = 0%Z ->
  out = parts.
Proof.
  intros A H Z. unfold _apply_rules_to_parts in H.
  destruct (ContainerFacts.parts_steady re_compile fromstring tostring
              playbook dry_run parts A _ _ H) as [_ K].
  cbn [fst snd] in K. apply K. rewrite Z. cbn. lia.
Qed.

Lemma container_without_match_unchanged_witness :
  _apply_rules_to_parts Regex.compile sample_fromstring sample_tostring
    sample_parts removal_playbook false
  = Some (sample_parts, empty_report).
Proof.
  destruct (_apply_rules_to_parts Regex.compile sample_fromstring
              sample_tostring sample_parts removal_playbook false)
    as [[out aggregate]|] eqn:H; [|vm_compute in H; discriminate H].
  assert (Z : total_matches aggregate = 0%Z)
    by (vm_compute in H; apply some_eq in H; inversion H; reflexivity).
  rewrite (container_without_match_unchanged Regex.compile sample_fromstring
             sample_tostring sample_parts removal_playbook false out aggregate
             eq_refl H Z) in *.
  vm_compute in H. apply some_eq in H. inversion H; subst. reflexivity.
Defined.

End ProcessorProperties.

(** ** Comment anchors, and what is left of a tree *)

Module TreeFacts.
Import Xml CleanerDocx RevisionSpec TreeSpec XmlFacts IdentityFacts RevisionFacts.

Lemma comment_class_stages j t :
  and_then (tagged Drop (qname "w" "commentRangeStart"))
    (and_then (tagged Drop (qname "w" "commentRangeEnd"))
              (tagged Drop (qname "w" "commentReference"))) j t
  = comment_class j t.
Proof.
  unfold and_then, tagged, comment_class.
  destruct (String.eqb t (qname "w" "commentRangeStart")); [reflexivity|].
  destruct (String.eqb t (qname "w" "commentRangeEnd")); reflexivity.
Qed.

(** The three loops of [_remove_comments] amount to one rewriting. *)
Lemma remove_comments_rewrite tree :
  NoDup (ids tree) -> _remove_comments tree = rewrite comment_class tree.
Proof.
  intros N. unfold _remove_comments. cbn [fold_left].
  rewrite (for_each_tagged remove_node Drop (qname "w" "commentRangeStart") tree)
    by (auto using remove_node_only).
  rewrite (for_each_tagged remove_node Drop (qname "w" "commentRangeEnd"))
    by (auto using remove_node_only, unique_rewrite).
  rewrite (for_each_tagged remove_node Drop (qname "w" "commentReference"))
    by (auto using remove_node_only, unique_rewrite).
  rewrite !rewrite_rewrite. apply rewrite_ext.
  intros d _. unfold class_of. apply comment_class_stages.
Qed.

Lemma comment_class_keep d :
  class_of comment_class d = Keep -> is_comment_tag (tag_of d) = false.
Proof.
  unfold class_of, comment_class, is_comment_tag.
  destruct (String.eqb (tag_of d) (qname "w" "commentRangeStart"));
    [discriminate|].
  destruct (String.eqb (tag_of d) (qname "w" "commentRangeEnd"));
    [discriminate|].
  destruct (String.eqb (tag_of d) (qname "w" "commentReference"));
    [discriminate | reflexivity].
Qed.

(** The two classes speak of different tags, so their order does not
    matter. *)
Lemma clean_class_commutes j t :
  and_then comment_class accept_class j t = clean_class j t.
Proof.
  unfold clean_class, and_then, comment_class, accept_class.
  destruct (String.eqb_spec t (qname "w" "commentRangeStart")) as [->|_];
    [reflexivity|].
  destruct (String.eqb_spec t (qname "w" "commentRangeEnd")) as [->|_];
    [reflexivity|].
  destruct (String.eqb_spec t (qname "w" "commentReference")) as [->|_];
    [reflexivity|].
  destruct (String.eqb t (qname "w" "del")); [reflexivity|].
  destruct (String.eqb t (qname "w" "moveFrom")); [reflexivity|].
  destruct (String.eqb t (qname "w" "ins")); [reflexivity|].
  destruct (String.eqb t (qname "w" "moveTo")); reflexivity.
Qed.

(** Accepting the revisions and removing the comment anchors is one
    rewriting. *)
Lemma clean_rewrite tree :
  NoDup (ids tree) ->
  _remove_comments (_accept_revisions tree) = rewrite clean_class tree.
Proof.
  intros N. rewrite (accept_revisions_accepted tree N). unfold accepted.
  rewrite remove_comments_rewrite by now apply unique_rewrite.
  now rewrite rewrite_rewrite.
Qed.

Lemma shell_rewrite cls e : shell (rewrite cls e) = shell e.
Proof. destruct e; reflexivity. Qed.

Lemma descendants_unfold e :
  descendants e = flat_map (fun c => c :: descendants c) (children_of e).
Proof. destruct e; reflexivity. Qed.

(** The elements of a rewritten tree are the survivors, each with what
    it carried. *)
Lemma descendants_rewrite cls : forall e,
  map shell (descendants (rewrite cls e)) = map shell (survivors cls e).
Proof.
  apply (element_induction
           (fun e => map shell (descendants (rewrite cls e))
                     = map shell (survivors cls e))).
  intros i t a x tl cs IH. rewrite Forall_forall in IH.
  cbn [rewrite descendants survivors].
  rewrite flat_map_flat_map, !map_flat_map.
  apply flat_map_ext_in. intros c C. specialize (IH c C).
  destruct (class_of cls c).
  - cbn [flat_map]. rewrite List.app_nil_r. cbn [map].
    rewrite shell_rewrite, IH. reflexivity.
  - reflexivity.
  - rewrite <- IH. f_equal. symmetry. apply descendants_unfold.
Qed.

Lemma survivors_in cls : forall e d,
  In d (survivors cls e) -> In d (descendants e) /\ class_of cls d = Keep.
Proof.
  apply (element_induction
           (fun e => forall d, In d (survivors cls e) ->
                               In d (descendants e) /\ class_of cls d = Keep)).
  intros i t a x tl cs IH d. rewrite Forall_forall in IH.
  cbn [survivors descendants]. intros D.
  apply in_flat_map in D as (c & C & D). specialize (IH c C).
  destruct (class_of cls c) eqn:K.
  - destruct D as [<-|D].
    + split; [|exact K]. apply in_flat_map. exists c. split; [exact C|now left].
    + destruct (IH d D) as [I Kd]. split; [|exact Kd].
      apply in_flat_map. exists c. split; [exact C | now right].
  - destruct D.
  - destruct (IH d D) as [I Kd]. split; [|exact Kd].
    apply in_flat_map. exists c. split; [exact C | now right].
Qed.

End TreeFacts.

(** ** Texts rewritten in place *)

Module RetextFacts.
Import Xml CleanerDocx TreeSpec XmlFacts.

Lemma id_retext f e : id_of (retext f e) = id_of e.
Proof. destruct e; reflexivity. Qed.

Lemma tag_retext f e : tag_of (retext f e) = tag_of e.
Proof. destruct e; reflexivity. Qed.

Lemma text_retext f e :
  text_of (retext f e) = f (id_of e) (tag_of e) (text_of e).
Proof. destruct e; reflexivity. Qed.

Lemma descendants_retext f : forall e,
  descendants (retext f e) = map (retext f) (descendants e).
Proof.
  apply (element_induction
           (fun e => descendants (retext f e) = map (retext f) (descendants e))).
  intros i t a x tl cs IH. rewrite Forall_forall in IH.
  cbn [retext descendants].
  rewrite IdentityFacts.map_flat_map, flat_map_concat_map, map_map,
    <- flat_map_concat_map.
  apply flat_map_ext_in. intros c C. cbn [map]. now rewrite IH.
Qed.

Lemma ids_retext f e : ids (retext f e) = ids e.
Proof.
  unfold ids. cbn [map]. rewrite id_retext, descendants_retext, map_map.
  f_equal. apply map_ext. intros d. apply id_retext.
Qed.

Lemma xpath_retext f tag e :
  xpath_descendants tag (retext f e) = xpath_descendants tag e.
Proof.
  unfold xpath_descendants. rewrite descendants_retext.
  induction (descendants e) as [|d l IH]; cbn [map filter]; [reflexivity|].
  rewrite tag_retext. destruct (String.eqb (tag_of d) tag); cbn [map];
    now rewrite ?id_retext, IH.
Qed.

(** Functions that agree on the elements of the tree rewrite it
    alike. *)
Lemma retext_ext f g : forall e,
  (forall d, In d (e :: descendants e) ->
             f (id_of d) (tag_of d) (text_of d)
             = g (id_of d) (tag_of d) (text_of d)) ->
  retext f e = retext g e.
Proof.
  apply (element_induction
           (fun e => (forall d, In d (e :: descendants e) ->
                                f (id_of d) (tag_of d) (text_of d)
                                = g (id_of d) (tag_of d) (text_of d)) ->
                     retext f e = retext g e)).
  intros i t a x tl cs IH H. rewrite Forall_forall in IH.
  cbn [retext]. f_equal.
  - apply (H (Element i t a x tl cs)). now left.
  - apply map_ext_in. intros c C. apply IH; [exact C|].
    intros d D. apply H. right.
    apply (descendants_children (Element i t a x tl cs) d c); assumption.
Qed.

Lemma retext_same : forall e, retext (fun _ _ x => x) e = e.
Proof.
  apply (element_induction (fun e => retext (fun _ _ x => x) e = e)).
  intros i t a x tl cs IH. rewrite Forall_forall in IH.
  cbn [retext]. f_equal. rewrite <- (map_id cs) at 2.
  apply map_ext_in. exact IH.
Qed.

Lemma retext_retext f g : forall e,
  retext g (retext f e) = retext (fun i t x => g i t (f i t x)) e.
Proof.
  apply (element_induction
           (fun e => retext g (retext f e)
                     = retext (fun i t x => g i t (f i t x)) e)).
  intros i t a x tl cs IH. rewrite Forall_forall in IH.
  cbn [retext]. f_equal. rewrite map_map. apply map_ext_in. exact IH.
Qed.

Lemma set_text_retext i v : forall e,
  set_text i v e = retext (fun j _ x => if j =? i then v else x) e.
Proof.
  apply (element_induction
           (fun e => set_text i v e
                     = retext (fun j _ x => if j =? i then v else x) e)).
  intros j t a x tl cs IH. rewrite Forall_forall in IH.
  cbn [set_text retext]. f_equal. apply map_ext_in. exact IH.
Qed.

Lemma find_node_retext f i : forall e,
  find_node i (retext f e) = option_map (retext f) (find_node i e).
Proof.
  apply (element_induction
           (fun e => find_node i (retext f e)
                     = option_map (retext f) (find_node i e))).
  intros j t a x tl cs IH. rewrite Forall_forall in IH.
  cbn [retext find_node].
  destruct (j =? i); [reflexivity|].
  induction cs as [|c cs IHcs]; cbn [map]; [reflexivity|].
  rewrite (IH c (or_introl eq_refl)).
  destruct (find_node i c); cbn [option_map]; [reflexivity|].
  apply IHcs. intros c' C'. apply IH. now right.
Qed.

Lemma find_node_absent i : forall e,
  ~ In i (ids e) -> find_node i e = None.
Proof.
  apply (element_induction
           (fun e => ~ In i (ids e) -> find_node i e = None)).
  intros j t a x tl cs IH. rewrite Forall_forall in IH.
  rewrite IdentityFacts.ids_element. cbn [find_node In]. intros N.
  destruct (Nat.eqb_spec j i) as [E|E]; [tauto|].
  induction cs as [|c cs IHcs]; [reflexivity|].
  rewrite (IH c (or_introl eq_refl)).
  - apply IHcs.
    + intros c' C'. apply IH. now right.
    + intros [H|H]; [tauto|]. apply N. right.
      cbn [flat_map]. apply in_or_app. now right.
  - intros H. apply N. right. cbn [flat_map]. apply in_or_app. now left.
Qed.

(** An identity of the tree is found, at an element of the tree. *)
Lemma find_node_in i : forall e,
  In i (ids e) ->
  exists d, find_node i e = Some d /\ id_of d = i
            /\ In d (e :: descendants e).
Proof.
  apply (element_induction
           (fun e => In i (ids e) ->
                     exists d, find_node i e = Some d /\ id_of d = i
                               /\ In d (e :: descendants e))).
  intros j t a x tl cs IH. rewrite Forall_forall in IH.
  rewrite IdentityFacts.ids_element. cbn [find_node In].
  destruct (Nat.eqb_spec j i) as [E|E].
  { intros _. exists (Element j t a x tl cs). cbn [id_of]. auto. }
  intros [H|H]; [contradiction|].
  cbn [descendants].
  induction cs as [|c cs IHcs]; [destruct H|].
  cbn [flat_map] in *.
  destruct (in_dec Nat.eq_dec i (ids c)) as [Y|N].
  - destruct (IH c (or_introl eq_refl) Y) as (d & F & Id & In_d).
    exists d. rewrite F. split; [reflexivity|]. split; [exact Id|].
    right. apply in_or_app. now left.
  - rewrite (find_node_absent i c N).
    apply in_app_or in H as [H|H]; [contradiction|].
    destruct IHcs as (d & F & Id & In_d);
      [intros c' C'; apply IH; now right | exact H|].
    exists d. split; [exact F|]. split; [exact Id|].
    destruct In_d as [In_d|In_d]; [subst d; cbn [id_of] in Id; contradiction|].
    right. apply in_or_app. now right.
Qed.

End RetextFacts.

(** ** Wiped properties *)

Module WipeFacts.
Import Xml CleanerDocx TreeSpec XmlFacts RetextFacts.

(** With distinct identities, an element of the tree is known by its
    identity. *)
Lemma same_identity e d d' :
  NoDup (ids e) -> In d (e :: descendants e) -> In d' (e :: descendants e) ->
  id_of d = id_of d' -> d = d'.
Proof.
  intros N. unfold ids in N. now apply RevisionFacts.NoDup_map_eq.
Qed.

Lemma truthy_blank x : PyStr.truthy (blank x) = false.
Proof. unfold blank. destruct x as [[|c r]|]; reflexivity. Qed.

(** One step of the loop of [blank_texts], on a tree in which the
    elements listed in [done] have been blanked. *)
Lemma blank_step tree i done :
  NoDup (ids tree) -> In i (ids tree) ->
  match find_node i (retext (fun j _ x =>
                               if existsb (Nat.eqb j) done then blank x else x)
                       tree) with
  | Some e =>
      if PyStr.truthy (text_of e)
      then set_text i (Some "")
             (retext (fun j _ x =>
                        if existsb (Nat.eqb j) done then blank x else x) tree)
      else retext (fun j _ x =>
                     if existsb (Nat.eqb j) done then blank x else x) tree
  | None =>
      retext (fun j _ x => if existsb (Nat.eqb j) done then blank x else x) tree
  end
  = retext (fun j _ x =>
              if existsb (Nat.eqb j) (i :: done) then blank x else x) tree.
Proof.
  intros N I. rewrite find_node_retext.
  destruct (find_node_in i tree I) as (d & F & Id & D). rewrite F.
  cbn [option_map]. rewrite text_retext, Id.
  destruct (PyStr.truthy
              (if existsb (Nat.eqb i) done then blank (text_of d) else text_of d))
    eqn:T.
  - rewrite set_text_retext, retext_retext. apply retext_ext.
    intros d' D'. cbn [existsb].
    destruct (Nat.eqb_spec (id_of d') i) as [E|E]; [|reflexivity].
    assert (d' = d) by (apply (same_identity tree); congruence). subst d'.
    cbn [orb]. destruct (existsb (Nat.eqb i) done).
    + now rewrite truthy_blank in T.
    + unfold blank. now rewrite T.
  - apply retext_ext. intros d' D'. cbn [existsb].
    destruct (Nat.eqb_spec (id_of d') i) as [E|E]; [|reflexivity].
    assert (d' = d) by (apply (same_identity tree); congruence). subst d'.
    cbn [orb]. rewrite Id.
    destruct (existsb (Nat.eqb i) done); [reflexivity|].
    unfold blank. now rewrite T.
Qed.

Lemma blank_loop tree : NoDup (ids tree) ->
  forall l done,
    incl l (ids tree) ->
    fold_left
      (fun t i =>
         match find_node i t with
         | Some e => if PyStr.truthy (text_of e) then set_text i (Some "") t else t
         | None => t
         end)
      l (retext (fun j _ x => if existsb (Nat.eqb j) done then blank x else x)
                tree)
    = retext (fun j _ x =>
                if existsb (Nat.eqb j) (rev l ++ done) then blank x else x) tree.
Proof.
  intros N l. induction l as [|i l IH]; intros done L; cbn [fold_left].
  - reflexivity.
  - rewrite (blank_step tree i done N) by (apply L; now left).
    rewrite IH by (intros j J; apply L; now right).
    apply retext_ext. intros d D. cbn [rev].
    now rewrite <- app_assoc.
Qed.

(** The loop of [blank_texts] blanks every element. *)
Lemma blank_texts_wiped tree :
  NoDup (ids tree) -> blank_texts tree = wiped tree.
Proof.
  intros N. unfold blank_texts, wiped, xpath_all.
  rewrite <- (retext_same tree) at 2.
  rewrite (retext_ext (fun _ _ x => x)
             (fun j _ x => if existsb (Nat.eqb j) [] then blank x else x))
    by reflexivity.
  rewrite (blank_loop tree N) by apply incl_refl.
  apply retext_ext. intros d D. rewrite app_nil_r.
  assert (X : existsb (Nat.eqb (id_of d)) (rev (ids tree)) = true).
  { apply existsb_exists. exists (id_of d). split; [|apply Nat.eqb_refl].
    apply -> in_rev. now apply IdentityFacts.in_ids. }
  now rewrite X.
Qed.

(** A loop that sets the text of the listed elements. *)
Lemma set_texts v l : forall t,
  fold_left (fun t i => set_text i v t) l t
  = retext (fun j _ x => if existsb (Nat.eqb j) l then v else x) t.
Proof.
  induction l as [|i l IH]; intros t; cbn [fold_left].
  - symmetry. apply retext_same.
  - rewrite IH, set_text_retext, retext_retext. apply retext_ext.
    intros d D. cbn [existsb]. destruct (id_of d =? i); cbn [orb];
      [|reflexivity].
    destruct (existsb (Nat.eqb (id_of d)) l); reflexivity.
Qed.

(** With distinct identities, the elements the query lists are the
    elements below the root with the tag. *)
Lemma listed_by_query tag tree d :
  NoDup (ids tree) -> In d (tree :: descendants tree) ->
  existsb (Nat.eqb (id_of d)) (xpath_descendants tag tree)
  = negb (id_of d =? id_of tree) && String.eqb (tag_of d) tag.
Proof.
  intros N D. unfold xpath_descendants.
  assert (Root : forall d', In d' (descendants tree) -> id_of d' <> id_of tree).
  { intros d' D' E. unfold ids in N. cbn [map] in N.
    apply NoDup_cons_iff in N as [N _]. apply N. rewrite <- E.
    now apply in_map. }
  destruct (existsb _ _) eqn:X.
  - apply existsb_exists in X as (j & J & E). apply Nat.eqb_eq in E. subst j.
    apply in_map_iff in J as (d' & Id & F).
    apply filter_In in F as [D' T].
    assert (d' = d) by (apply (same_identity tree); auto; now right).
    subst d'. rewrite T, andb_true_r. symmetry. apply negb_true_iff.
    apply Nat.eqb_neq. now apply Root.
  - symmetry. apply andb_false_iff.
    destruct D as [<-|D]; [left; now rewrite Nat.eqb_refl|].
    right. destruct (String.eqb (tag_of d) tag) eqn:T; [|reflexivity].
    exfalso. apply Bool.not_true_iff_false in X. apply X.
    apply existsb_exists. exists (id_of d). split; [|apply Nat.eqb_refl].
    apply in_map. apply filter_In. auto.
Qed.

(** One loop of [_wipe_core_properties] over the elements with a tag. *)
Lemma wipe_tag tag f tree :
  NoDup (ids tree) ->
  for_each_node (fun t i => set_text i (Some "") t) tag (retext f tree)
  = retext (fun j tg x =>
              if negb (j =? id_of tree) && String.eqb tg tag
              then Some "" else f j tg x) tree.
Proof.
  intros N. unfold for_each_node.
  rewrite set_texts, xpath_retext, retext_retext.
  apply retext_ext. intros d D.
  now rewrite (listed_by_query tag tree d N D).
Qed.

Lemma core_rewrite tree :
  NoDup (ids tree) ->
  retext (fun j tg x =>
            if negb (j =? id_of tree) && is_core_tag tg then Some "" else blank x)
         tree
  = core_wiped tree.
Proof.
  intros N. destruct tree as [i t a x tl cs]. cbn [retext core_wiped id_of].
  rewrite Nat.eqb_refl. cbn [negb andb]. f_equal.
  apply map_ext_in. intros c C. apply retext_ext. intros d D.
  assert (E : (id_of d =? i) = false).
  { apply Nat.eqb_neq. intros E.
    rewrite IdentityFacts.ids_element in N.
    apply NoDup_cons_iff in N as [N _]. apply N. rewrite <- E.
    apply in_flat_map. exists c. split; [exact C|].
    now apply IdentityFacts.in_ids. }
  now rewrite E.
Qed.

Lemma wipe_core_wiped tree :
  NoDup (ids tree) -> _wipe_core_properties tree = core_wiped tree.
Proof.
  intros N. unfold _wipe_core_properties. cbv zeta.
  rewrite (blank_texts_wiped tree N). unfold wiped. cbn [fold_left].
  rewrite !wipe_tag by exact N.
  rewrite <- (core_rewrite tree N). apply retext_ext. intros d D.
  unfold is_core_tag.
  destruct (negb (id_of d =? id_of tree)); cbn [andb]; [|reflexivity].
  destruct (String.eqb (tag_of d) (qname "dc" "creator")),
    (String.eqb (tag_of d) (qname "cp" "lastModifiedBy")),
    (String.eqb (tag_of d) (qname "dcterms" "created")),
    (String.eqb (tag_of d) (qname "dcterms" "modified")); reflexivity.
Qed.

(** No element of a wiped tree has a text that is not empty. *)
Lemma retext_falsy f tree d :
  (forall j tg x, PyStr.truthy (f j tg x) = false) ->
  In d (retext f tree :: descendants (retext f tree)) ->
  PyStr.truthy (text_of d) = false.
Proof.
  intros F. rewrite descendants_retext.
  change (retext f tree :: map (retext f) (descendants tree))
    with (map (retext f) (tree :: descendants tree)).
  intros D. apply in_map_iff in D as (d0 & <- & _).
  rewrite text_retext. apply F.
Qed.

End WipeFacts.

(** ** The names of the cleaned parts *)

Module PartNameFacts.
Import Xml CleanerDocx DictFacts.

Lemma keys_pop {V} (d : Dict.t V) (k : string) :
  Dict.keys (Dict.pop d k)
  = filter (fun n => negb (String.eqb n k)) (Dict.keys d).
Proof.
  unfold Dict.keys, Dict.pop.
  induction d as [|[n v] d IH]; cbn [filter map fst]; [reflexivity|].
  destruct (String.eqb n k); cbn [negb map fst]; now rewrite IH.
Qed.

Lemma filter_all {A} (f : A -> bool) (l : list A) :
  (forall x, In x l -> f x = true) -> filter f l = l.
Proof.
  induction l as [|x l IH]; intros H; cbn [filter]; [reflexivity|].
  rewrite (H x) by now left. f_equal. apply IH. intros y Y. apply H. now right.
Qed.

Section Lxml.
Variable fromstring : bytes -> option element.
Variable tostring : element -> bytes.

Lemma clean_part_skips cleaned name data :
  PyStr.endswith name ".xml" = false ->
  clean_part fromstring tostring cleaned (name, data) = cleaned.
Proof. intros S. unfold clean_part. now rewrite S. Qed.

(** Entries under other names, and entries whose name does not end
    in ".xml", leave the value under [name] alone. *)
Lemma clean_fold_skips name l : forall cleaned,
  PyStr.endswith name ".xml" = false ->
  Dict.get (fold_left (clean_part fromstring tostring) l cleaned) name
  = Dict.get cleaned name.
Proof.
  induction l as [|[n d] l IH]; intros cleaned S; cbn [fold_left];
    [reflexivity|].
  rewrite IH by exact S.
  destruct (String.eqb_spec n name) as [->|E].
  - now rewrite clean_part_skips.
  - now apply PartsFacts.clean_part_get_other.
Qed.

Lemma clean_keys parts :
  Dict.keys (clean_docx_parts fromstring tostring parts)
  = filter (fun n => negb (String.eqb n "word/comments.xml")) (Dict.keys parts).
Proof.
  unfold clean_docx_parts, _remove_comments_part.
  destruct (Dict.contains _ _) eqn:C.
  - rewrite keys_pop, PartsFacts.clean_fold_keys by apply incl_refl.
    reflexivity.
  - rewrite PartsFacts.clean_fold_keys by apply incl_refl.
    symmetry. apply filter_all. intros n I.
    apply negb_true_iff. apply String.eqb_neq. intros ->.
    rewrite <- (PartsFacts.clean_fold_keys fromstring tostring parts parts)
      in I by apply incl_refl.
    apply DictMore.contains_in in I. congruence.
Qed.

End Lxml.

End PartNameFacts.

(** ** [cleaner_docx.py]: further properties *)

Module CleanerProperties.
Import Xml CleanerDocx RevisionSpec TreeSpec Examples Samples.

(** X21.  On a tree with distinct element identities the three loops
    of [_remove_comments] take out every comment anchor below the root
    with its subtree and nothing else; together with
    [_accept_revisions] they are one rewriting of the tree, in either
    order, and cleaning a cleaned tree changes nothing. *)
Theorem comment_anchors_removed (tree : element) :
  NoDup (ids tree) ->
  _remove_comments tree = rewrite comment_class tree
  /\ (forall d, In d (descendants (_remove_comments tree)) ->
                is_comment_tag (tag_of d) = false)
  /\ _remove_comments (_accept_revisions tree) = rewrite clean_class tree
  /\ _accept_revisions (_remove_comments tree)
     = _remove_comments (_accept_revisions tree)
  /\ _remove_comments
       (_accept_revisions (_remove_comments (_accept_revisions tree)))
     = _remove_comments (_accept_revisions tree).
Proof.
  intros N.
  pose proof (TreeFacts.remove_comments_rewrite tree N) as C.
  pose proof (TreeFacts.clean_rewrite tree N) as Both.
  split; [exact C|]. split; [|split; [exact Both|split]].
  - rewrite C. intros d D. apply XmlFacts.rewrite_keeps_only in D.
    now apply TreeFacts.comment_class_keep.
  - rewrite Both, C.
    rewrite RevisionFacts.accept_revisions_accepted
      by now apply IdentityFacts.unique_rewrite.
    unfold accepted. rewrite XmlFacts.rewrite_rewrite.
    apply XmlFacts.rewrite_ext. intros d _. unfold class_of.
    apply TreeFacts.clean_class_commutes.
  - rewrite Both.
    assert (N' : NoDup (ids (rewrite clean_class tree)))
      by now apply IdentityFacts.unique_rewrite.
    rewrite (RevisionFacts.accept_revisions_accepted _ N'). unfold accepted.
    rewrite TreeFacts.remove_comments_rewrite
      by now apply IdentityFacts.unique_rewrite.
    rewrite XmlFacts.rewrite_rewrite. fold clean_class.
    apply XmlFacts.rewrite_keep. intros d D.
    now apply XmlFacts.rewrite_keeps_only in D.
Qed.

Lemma comment_anchors_removed_witness :
  NoDup (ids commented_document)
  /\ _remove_comments commented_document
     = node 0 "document"
         [node 1 "body" [node 2 "p" [node 4 "ins" [run 5 "new"]; node 8 "r" []]]]
  /\ _remove_comments (_accept_revisions commented_document)
     = node 0 "document"
         [node 1 "body" [node 2 "p" [run 5 "new"; node 8 "r" []]]].
Proof.
  assert (N : NoDup (ids commented_document)).
  { vm_compute. repeat (constructor; [simpl; intuition discriminate|]).
    constructor. }
  destruct (comment_anchors_removed commented_document N) as (C & _ & B & _).
  split; [exact N|]. split.
  - rewrite C. vm_compute. reflexivity.
  - rewrite B. vm_compute. reflexivity.
Defined.

(** X22.  On a tree with distinct element identities the elements
    below the root of the tree [_accept_revisions] returns, and of the
    tree the cleaner makes of a content part, are in document order the
    elements of the input that are neither taken out nor unwrapped nor
    below an element taken out; each has the identity, tag, attributes,
    text and tail it had, and so has the root. *)
Theorem accepted_tree_keeps_survivors (tree : element) :
  NoDup (ids tree) ->
  shell (_accept_revisions tree) = shell tree
  /\ map shell (descendants (_accept_revisions tree))
     = map shell (survivors accept_class tree)
  /\ map shell (descendants (_remove_comments (_accept_revisions tree)))
     = map shell (survivors clean_class tree)
  /\ forall d, In d (survivors clean_class tree) ->
               In d (descendants tree)
               /\ is_revision_tag (tag_of d) = false
               /\ is_comment_tag (tag_of d) = false.
Proof.
  intros N.
  rewrite (TreeFacts.clean_rewrite tree N).
  rewrite (RevisionFacts.accept_revisions_accepted tree N). unfold accepted.
  split; [apply TreeFacts.shell_rewrite|].
  split; [apply TreeFacts.descendants_rewrite|].
  split; [apply TreeFacts.descendants_rewrite|].
  intros d D. apply TreeFacts.survivors_in in D as [D K].
  split; [exact D|].
  unfold clean_class in K. rewrite XmlFacts.class_and_then in K.
  destruct (class_of accept_class d) eqn:A; try discriminate K.
  split; [|now apply TreeFacts.comment_class_keep].
  unfold class_of, accept_class in A. unfold is_revision_tag.
  destruct (String.eqb (tag_of d) (qname "w" "del")); [discriminate|].
  destruct (String.eqb (tag_of d) (qname "w" "moveFrom")); [discriminate|].
  destruct (String.eqb (tag_of d) (qname "w" "ins")); [discriminate|].
  destruct (String.eqb (tag_of d) (qname "w" "moveTo")); [discriminate|].
  reflexivity.
Qed.

Lemma accepted_tree_keeps_survivors_witness :
  NoDup (ids sample_document)
  /\ map shell (survivors accept_class sample_document)
     = [(1, w "body", [], None, None); (2, w "p", [], None, None);
        (4, w "r", [], None, None);
        (5, w "t", [], Some "SSN: 123-45-6789", None);
        (9, w "r", [], None, None); (10, w "t", [], Some " end", None)]
  /\ map shell (descendants (_accept_revisions sample_document))
     = map shell (survivors accept_class sample_document).
Proof.
  assert (N : NoDup (ids sample_document)).
  { vm_compute. repeat (constructor; [simpl; intuition discriminate|]).
    constructor. }
  split; [exact N|]. split; [vm_compute; reflexivity|].
  exact (proj1 (proj2 (accepted_tree_keeps_survivors sample_document N))).
Defined.

(** X23.  On a tree with distinct element identities
    [_wipe_custom_properties] gives every element that has a text the
    empty text, and [_wipe_core_properties] does the same and gives the
    creator, last editor and the two dates below the root the empty
    text even where they had none; afterwards no element has a text
    that is not empty.  Tags, attributes, tails and the shape of the
    tree are as before. *)
Theorem properties_wiped (tree : element) :
  NoDup (ids tree) ->
  _wipe_custom_properties tree = wiped tree
  /\ _wipe_core_properties tree = core_wiped tree
  /\ (forall d, In d (_wipe_custom_properties tree
                      :: descendants (_wipe_custom_properties tree)) ->
                PyStr.truthy (text_of d) = false)
  /\ (forall d, In d (_wipe_core_properties tree
                      :: descendants (_wipe_core_properties tree)) ->
                PyStr.truthy (text_of d) = false).
Proof.
  intros N.
  assert (W : _wipe_custom_properties tree = wiped tree)
    by (unfold _wipe_custom_properties; now apply WipeFacts.blank_texts_wiped).
  pose proof (WipeFacts.wipe_core_wiped tree N) as C.
  split; [exact W|]. split; [exact C|]. split.
  - rewrite W. unfold wiped. intros d. apply WipeFacts.retext_falsy.
    intros j tg x. apply WipeFacts.truthy_blank.
  - rewrite C, <- (WipeFacts.core_rewrite tree N). intros d.
    apply WipeFacts.retext_falsy. intros j tg x.
    destruct (negb (j =? id_of tree) && is_core_tag tg);
      [reflexivity | apply WipeFacts.truthy_blank].
Qed.

Lemma properties_wiped_witness :
  NoDup (ids core_properties)
  /\ _wipe_core_properties core_properties
     = Element 0 (qname "cp" "coreProperties") [] None None
         [Element 1 (qname "dc" "creator") [] (Some "") None [];
          Element 2 (qname "cp" "revision") [("unit", "edits")]
            (Some "") (Some " kept ") [];
          Element 3 (qname "cp" "lastModifiedBy") [] (Some "") None []].
Proof.
  assert (N : NoDup (ids core_properties)).
  { vm_compute. repeat (constructor; [simpl; intuition discriminate|]).
    constructor. }
  split; [exact N|].
  rewrite (proj1 (proj2 (properties_wiped core_properties N))).
  vm_compute. reflexivity.
Defined.

(** X24.  The cleaner adds no part and keeps the order of the parts:
    the names of the cleaned parts are the names of the input without
    "word/comments.xml"; and a part whose name does not end in ".xml"
    keeps its bytes. *)
Theorem cleaner_keeps_part_names
    (fromstring : bytes -> option element) (tostring : element -> bytes)
    (parts : Dict.t bytes) :
  Dict.keys (clean_docx_parts fromstring tostring parts)
  = filter (fun n => negb (String.eqb n "word/comments.xml")) (Dict.keys parts)
  /\ (Dict.wf parts ->
      forall name data,
        In (name, data) parts -> PyStr.endswith name ".xml" = false ->
        Dict.get (clean_docx_parts fromstring tostring parts) name = Some data).
Proof.
  split; [apply PartNameFacts.clean_keys|].
  intros W name data I S. unfold clean_docx_parts.
  assert (E : name <> "word/comments.xml")
    by (intros ->; vm_compute in S; discriminate S).
  rewrite PartsFacts.remove_comments_part_other by exact E.
  rewrite PartNameFacts.clean_fold_skips by exact S.
  now apply DictFacts.in_get.
Qed.

Lemma cleaner_keeps_part_names_witness :
  Dict.keys (clean_docx_parts sample_fromstring sample_tostring
               (("word/media/image1.png", utf8 "PNG") :: sample_parts))
  = ["word/media/image1.png"; "[Content_Types].xml"; "word/document.xml";
     "word/broken.xml"]
  /\ Dict.get (clean_docx_parts sample_fromstring sample_tostring
                 (("word/media/image1.png", utf8 "PNG") :: sample_parts))
       "word/media/image1.png" = Some (utf8 "PNG").
Proof.
  destruct (cleaner_keeps_part_names sample_fromstring sample_tostring
              (("word/media/image1.png", utf8 "PNG") :: sample_parts))
    as [K G].
  split; [rewrite K; reflexivity|].
  apply G; [|now left | reflexivity].
  unfold Dict.wf. simpl.
  repeat (constructor; [simpl; intuition discriminate|]). constructor.
Defined.

End CleanerProperties.

(** ** The loader *)

Module LoaderFacts.
Import Py Loader.

Lemma in_insert_sorted (s x : string) (l : list string) :
  In x (insert_sorted s l) <-> x = s \/ In x l.
Proof.
  induction l as [|y l IH]; cbn [insert_sorted In].
  - intuition.
  - destruct (String.leb s y); cbn [In]; [intuition|].
    rewrite IH. intuition.
Qed.

Lemma in_sorted_strings (x : string) (l : list string) : In x (sorted l) <-> In x l.
Proof.
  induction l as [|y l IH]; cbn [sorted fold_right In]; [tauto|].
  fold (sorted l). rewrite in_insert_sorted, IH. intuition.
Qed.

Lemma insert_sorted_sorted (s : string) (l : list string) :
  Sorted (fun a b => String.leb a b = true) l ->
  Sorted (fun a b => String.leb a b = true) (insert_sorted s l).
Proof.
  induction 1 as [|y l S IH H]; cbn [insert_sorted].
  - repeat constructor.
  - destruct (String.leb s y) eqn:L.
    + constructor; [constructor; assumption|]. constructor. exact L.
    + constructor; [exact IH|].
      destruct l as [|z l]; cbn [insert_sorted].
      * constructor. destruct (String.leb_total s y) as [T|T];
          [congruence | exact T].
      * destruct (String.leb s z).
        -- constructor. destruct (String.leb_total s y) as [T|T];
             [congruence | exact T].
        -- inversion H; subst. now constructor.
Qed.

Lemma sorted_ascending (l : list string) :
  Sorted (fun a b => String.leb a b = true) (sorted l).
Proof.
  induction l as [|y l IH]; cbn [sorted fold_right]; [constructor|].
  now apply insert_sorted_sorted.
Qed.

Lemma insert_sorted_nodup (s : string) (l : list string) :
  ~ In s l -> NoDup l -> NoDup (insert_sorted s l).
Proof.
  induction l as [|y l IH]; cbn [insert_sorted]; intros N D.
  - repeat constructor. auto.
  - destruct (String.leb s y); [now constructor|].
    apply NoDup_cons_iff in D as [Y D]. constructor.
    + rewrite in_insert_sorted. intros [->|I]; [apply N; now left | auto].
    + apply IH; [|exact D]. intros I. apply N. now right.
Qed.

Lemma sorted_nodup (l : list string) : NoDup l -> NoDup (sorted l).
Proof.
  induction 1 as [|y l Y D IH]; cbn [sorted fold_right]; [constructor|].
  apply insert_sorted_nodup; [|exact IH]. now rewrite in_sorted_strings.
Qed.

Lemma existsb_strings (k : string) (l : list string) :
  existsb (String.eqb k) l = true <-> In k l.
Proof.
  rewrite existsb_exists. split.
  - intros (x & I & E). apply String.eqb_eq in E. now subst.
  - intros I. exists k. split; [exact I | apply String.eqb_refl].
Qed.

Lemma in_unknown_keys data allowed k :
  In k (unknown_keys data allowed)
  <-> In k (Dict.keys data) /\ ~ In k allowed.
Proof.
  unfold unknown_keys. rewrite in_sorted_strings, filter_In, negb_true_iff.
  rewrite <- (existsb_strings k allowed).
  destruct (existsb (String.eqb k) allowed); intuition congruence.
Qed.

Lemma validate_keys_ok data allowed context :
  _validate_keys data allowed context = Ok tt
  <-> forall k, In k (Dict.keys data) -> In k allowed.
Proof.
  unfold _validate_keys.
  destruct (unknown_keys data allowed) as [|u us] eqn:U.
  - split; [|reflexivity]. intros _ k K.
    destruct (in_dec string_dec k allowed) as [A|A]; [exact A|].
    exfalso. assert (I : In k (unknown_keys data allowed))
      by (apply in_unknown_keys; auto).
    rewrite U in I. destruct I.
  - split; [discriminate|]. intros H. exfalso.
    assert (I : In u (unknown_keys data allowed)) by (rewrite U; now left).
    apply in_unknown_keys in I as [K A]. auto.
Qed.

(** A value found in a set of strings is one of them. *)
Lemma in_strings_member v strings :
  in_strings v strings = Ok true -> v = VStr (member v) /\ In (member v) strings.
Proof.
  destruct v; cbn [in_strings member]; try discriminate.
  intros H. split; [reflexivity|]. apply existsb_strings.
  now injection H.
Qed.

(** What is known of a rule that [_parse_rule] has returned. *)
Lemma parse_rule_ok raw rule :
  _parse_rule raw = Ok rule ->
  exists entries,
    raw = VDict entries
    /\ _validate_keys entries ALLOWED_RULE_KEYS "rule" = Ok tt
    /\ in_strings (get entries "type") RULE_TYPES = Ok true
    /\ in_strings (Dict.get_default entries "action" (VStr "MASK")) ACTIONS
       = Ok true
    /\ str (get entries "id") = Ok (rule_id rule)
    /\ str (get entries "name") = Ok (name rule)
    /\ rule_type rule = member (get entries "type")
    /\ enabled rule = truthy (Dict.get_default entries "enabled" (VBool true))
    /\ int (Dict.get_default entries "priority" (VInt 100)) = Ok (priority rule)
    /\ action rule = member (Dict.get_default entries "action" (VStr "MASK"))
    /\ replacement_template rule = get entries "replacement_template"
    /\ list_of (or_else (Dict.get_default entries "scope" (VList [])) (VList []))
       = Ok (scope rule)
    /\ list_of (or_else (Dict.get_default entries "patterns" (VList []))
                        (VList [])) = Ok (patterns rule)
    /\ list_of (or_else (Dict.get_default entries "phrases" (VList []))
                        (VList [])) = Ok (phrases rule)
    /\ dict_of (or_else (Dict.get_default entries "dictionary" (VDict []))
                        (VDict [])) = Ok (dictionary rule)
    /\ list_of (or_else (Dict.get_default entries "keywords" (VList []))
                        (VList [])) = Ok (keywords rule)
    /\ case_insensitive rule
       = truthy (Dict.get_default entries "case_insensitive" (VBool false)).
Proof.
  destruct raw as [| | | | |entries]; try discriminate.
  cbn [_parse_rule]. intros H. exists entries. split; [reflexivity|].
  destruct (_validate_keys entries ALLOWED_RULE_KEYS "rule") as [[]|e];
    [|discriminate]. cbn [bind] in H. split; [reflexivity|].
  destruct (in_strings (get entries "type") RULE_TYPES) as [[|]|e];
    cbn [bind negb] in H;
    [|destruct (str (get entries "type")); discriminate | discriminate].
  split; [reflexivity|].
  destruct (in_strings (Dict.get_default entries "action" (VStr "MASK")) ACTIONS)
    as [[|]|e]; cbn [bind negb] in H;
    [|destruct (str (Dict.get_default entries "action" (VStr "MASK")));
      discriminate | discriminate].
  split; [reflexivity|].
  destruct (str (get entries "id")) as [i|e]; [|discriminate].
  destruct (str (get entries "name")) as [n|e]; [|discriminate].
  cbn [bind] in H.
  destruct (int (Dict.get_default entries "priority" (VInt 100))) as [p|e];
    [|discriminate].
  destruct (list_of (or_else (Dict.get_default entries "scope" (VList []))
                             (VList []))) as [sc|e]; [|discriminate].
  destruct (list_of (or_else (Dict.get_default entries "patterns" (VList []))
                             (VList []))) as [pa|e]; [|discriminate].
  destruct (list_of (or_else (Dict.get_default entries "phrases" (VList []))
                             (VList []))) as [ph|e]; [|discriminate].
  destruct (dict_of (or_else (Dict.get_default entries "dictionary" (VDict []))
                             (VDict []))) as [di|e]; [|discriminate].
  destruct (list_of (or_else (Dict.get_default entries "keywords" (VList []))
                             (VList []))) as [kw|e]; [|discriminate].
  cbn [bind] in H. injection H as <-. cbn.
  repeat split; reflexivity.
Qed.

Lemma parse_rules_ok rules_raw : forall rules,
  parse_rules rules_raw = Ok rules ->
  Forall2 (fun raw rule => _parse_rule raw = Ok rule) rules_raw rules.
Proof.
  induction rules_raw as [|raw rest IH]; intros rules H; cbn [parse_rules] in H.
  - injection H as <-. constructor.
  - destruct (_parse_rule raw) as [rule|e] eqn:R; [|discriminate].
    destruct (parse_rules rest) as [rs|e] eqn:P; [|discriminate].
    cbn [bind] in H. injection H as <-. constructor; auto.
Qed.

(** The text [str] gives for a value that is not falsy is not empty. *)
Lemma str_truthy v s : truthy v = true -> str v = Ok s -> s <> "".
Proof.
  destruct v as [|b|z|x|items|entries]; cbn [truthy str repr].
  - discriminate.
  - intros ->. intros H. injection H as <-. discriminate.
  - intros _. unfold str_int.
    destruct (max_str_digits <? _); [discriminate|].
    intros H. injection H as <-.
    destruct (z <? 0)%Z; [discriminate|].
    unfold NilZero.string_of_int.
    destruct (Z.to_int (Z.abs z)) as [d|d]; [|discriminate].
    unfold NilZero.string_of_uint. destruct d; discriminate.
  - intros T H. injection H as <-. destruct x; [discriminate T|discriminate].
  - intros _.
    match goal with |- bind ?r _ = _ -> _ => destruct r end;
      [|discriminate]. cbn [bind]. intros H. injection H as <-. discriminate.
  - intros _.
    match goal with |- bind ?r _ = _ -> _ => destruct r end;
      [|discriminate]. cbn [bind]. intros H. injection H as <-. discriminate.
Qed.

End LoaderFacts.

(** ** Properties of the loader ([playbooks.py])

    The document is the value [yaml.safe_load] returns, for documents
    made of null, booleans, integers, strings, lists and mappings with
    string keys. *)

Module LoaderProperties.
Import Py Loader Documents.

(** X25.  [_validate_keys] returns when every key of the mapping is
    allowed.  Otherwise it raises [PlaybookError], and the message lists
    exactly the keys that are not allowed, each once, in ascending
    order, in the form of a Python list of strings. *)
Theorem unknown_keys_rejected (data : Dict.t value) (allowed : list string)
    (context : string) :
  Dict.wf data ->
  (_validate_keys data allowed context = Ok tt
   /\ forall k, In k (Dict.keys data) -> In k allowed)
  \/ exists unknown,
       _validate_keys data allowed context
       = Raise (PlaybookError ("Unknown keys in " ++ context ++ ": ["
                               ++ join_comma (map repr_str unknown) ++ "]"))
       /\ unknown <> [] /\ NoDup unknown /\ ascending unknown
       /\ forall k, In k unknown
                    <-> In k (Dict.keys data) /\ ~ In k allowed.
Proof.
  intros W.
  destruct (unknown_keys data allowed) as [|u us] eqn:U.
  - left. assert (V : _validate_keys data allowed context = Ok tt)
      by (unfold _validate_keys; now rewrite U).
    split; [exact V|]. exact (proj1 (LoaderFacts.validate_keys_ok _ _ _) V).
  - right. exists (unknown_keys data allowed).
    split; [unfold _validate_keys; now rewrite U|].
    split; [rewrite U; discriminate|].
    split; [unfold unknown_keys; apply LoaderFacts.sorted_nodup;
            now apply NoDup_filter|].
    split; [apply LoaderFacts.sorted_ascending|].
    intros k. apply LoaderFacts.in_unknown_keys.
Qed.

Lemma unknown_keys_rejected_witness :
  _validate_keys misspelt_rule ALLOWED_RULE_KEYS "rule"
  = Raise (PlaybookError "Unknown keys in rule: ['Name', 'keyword']").
Proof.
  destruct (unknown_keys_rejected misspelt_rule ALLOWED_RULE_KEYS "rule")
    as [[V _]|(unknown & V & _)].
  - unfold Dict.wf. simpl.
    repeat (constructor; [simpl; intuition discriminate|]). constructor.
  - vm_compute in V. discriminate V.
  - reflexivity.
Defined.

(** X26.  A rule that [_parse_rule] returns comes from a mapping with
    allowed keys only, whose "type" is one of the four rule types and
    whose "action", "MASK" when the key is missing, is one of the three
    actions; the rule carries that type and that action. *)
Theorem parsed_rule_valid (raw : value) (rule : Rule) :
  _parse_rule raw = Ok rule ->
  exists entries,
    raw = VDict entries
    /\ (forall k, In k (Dict.keys entries) -> In k ALLOWED_RULE_KEYS)
    /\ get entries "type" = VStr (rule_type rule)
    /\ In (rule_type rule) RULE_TYPES
    /\ Dict.get_default entries "action" (VStr "MASK") = VStr (action rule)
    /\ In (action rule) ACTIONS.
Proof.
  intros H. apply LoaderFacts.parse_rule_ok in H
    as (entries & -> & V & T & A & _ & _ & RT & _ & _ & RA & _).
  exists entries. split; [reflexivity|].
  split; [exact (proj1 (LoaderFacts.validate_keys_ok _ _ _) V)|].
  apply LoaderFacts.in_strings_member in T as [T1 T2].
  apply LoaderFacts.in_strings_member in A as [A1 A2].
  rewrite RT, RA. auto.
Qed.

Lemma parsed_rule_valid_witness :
  exists rule,
    _parse_rule keyword_rule = Ok rule
    /\ rule_type rule = "keyword_list" /\ action rule = "MASK"
    /\ priority rule = 7%Z.
Proof.
  eexists. split; [reflexivity|].
  destruct (parsed_rule_valid keyword_rule _ eq_refl)
    as (entries & E & _ & T & _ & A & _).
  injection E as <-. repeat split.
Defined.

(** X27.  A playbook that [load_playbook] returns has a name and a
    version that are not empty, and each of its rules has a known type
    and a known action, the rules being those of the document in its
    order. *)
Theorem loaded_playbook_valid (data : value) (playbook : Playbook) :
  load_playbook data = Ok playbook ->
  playbook_name playbook <> "" /\ version playbook <> ""
  /\ Forall valid_rule (rules playbook)
  /\ exists entries,
       data = VDict entries
       /\ (forall k, In k (Dict.keys entries) -> In k ALLOWED_PLAYBOOK_KEYS)
       /\ exists rules_raw,
            Dict.get_default entries "rules" (VList []) = VList rules_raw
            /\ Forall2 (fun raw rule => _parse_rule raw = Ok rule)
                       rules_raw (rules playbook).
Proof.
  destruct data as [| | | | |entries]; try discriminate.
  cbn [load_playbook]. intros H.
  destruct (_validate_keys entries ALLOWED_PLAYBOOK_KEYS "playbook")
    as [[]|e] eqn:V; [|discriminate]. cbn [bind] in H.
  destruct (truthy (get entries "name")) eqn:TN; [|discriminate].
  destruct (truthy (get entries "version")) eqn:TV; [|discriminate].
  cbn [negb orb] in H.
  destruct (Dict.get_default entries "rules" (VList []))
    as [| | | |rules_raw|] eqn:R; try discriminate.
  destruct (parse_rules rules_raw) as [parsed|e] eqn:P; [|discriminate].
  cbn [bind] in H.
  destruct (str (get entries "name")) as [n|e] eqn:SN; [|discriminate].
  destruct (str (get entries "version")) as [v|e] eqn:SV; [|discriminate].
  cbn [bind] in H.
  destruct (str (Dict.get_default entries "redaction_mode" (VStr "FIXED_TOKEN")))
    as [m|e]; [|discriminate].
  destruct (str (Dict.get_default entries "mask_char" (VStr "*")))
    as [c|e]; [|discriminate].
  cbn [bind] in H. injection H as <-. cbn.
  apply LoaderFacts.parse_rules_ok in P.
  split; [exact (LoaderFacts.str_truthy _ _ TN SN)|].
  split; [exact (LoaderFacts.str_truthy _ _ TV SV)|].
  split.
  - clear R. induction P as [|raw rule raws rs Q P IH]; constructor; auto.
    apply LoaderFacts.parse_rule_ok in Q
      as (es & _ & _ & T & A & _ & _ & RT & _ & _ & RA & _).
    apply LoaderFacts.in_strings_member in T as [_ T].
    apply LoaderFacts.in_strings_member in A as [_ A].
    split; [now rewrite RT | now rewrite RA].
  - exists entries. split; [reflexivity|].
    split; [exact (proj1 (LoaderFacts.validate_keys_ok _ _ _) V)|].
    exists rules_raw. auto.
Qed.

Lemma loaded_playbook_valid_witness :
  exists playbook,
    load_playbook small_playbook = Ok playbook
    /\ playbook_name playbook = "default" /\ version playbook = "2"
    /\ Forall valid_rule (rules playbook).
Proof.
  eexists. split; [reflexivity|].
  split; [reflexivity|]. split; [reflexivity|].
  exact (proj1 (proj2 (proj2 (loaded_playbook_valid small_playbook _ eq_refl)))).
Defined.

(** X28.  The first rule of the document that [_parse_rule] rejects
    ends [load_playbook] with the exception of that rule, whatever it
    is: the rules after it are not looked at, and a rule that is not a
    mapping gives [AttributeError], not [PlaybookError]. *)
Theorem first_rejected_rule_raises (entries : Dict.t value)
    (good : list value) (bad : value) (rest : list value)
    (parsed : list Rule) (e : exn) :
  (forall k, In k (Dict.keys entries) -> In k ALLOWED_PLAYBOOK_KEYS) ->
  truthy (get entries "name") = true ->
  truthy (get entries "version") = true ->
  Dict.get entries "rules" = Some (VList (good ++ bad :: rest)) ->
  parse_rules good = Ok parsed ->
  _parse_rule bad = Raise e ->
  load_playbook (VDict entries) = Raise e
  /\ ((forall d, bad <> VDict d) -> e = AttributeError).
Proof.
  intros K TN TV R G B. split.
  - cbn [load_playbook].
    rewrite (proj2 (LoaderFacts.validate_keys_ok _ _ _) K). cbn [bind].
    rewrite TN, TV. cbn [negb orb].
    unfold Dict.get_default. rewrite R.
    assert (P : parse_rules (good ++ bad :: rest) = Raise e).
    { clear R. revert parsed G.
      induction good as [|g good IH]; intros parsed G.
      - cbn [app parse_rules]. now rewrite B.
      - cbn [app parse_rules] in *.
        destruct (_parse_rule g) as [r|x]; [|discriminate]. cbn [bind] in *.
        destruct (parse_rules good) as [rs|x]; [|discriminate].
        now rewrite (IH rs eq_refl). }
    now rewrite P.
  - intros N. destruct bad as [| | | | |d];
      try (cbn in B; injection B as <-; reflexivity).
    now destruct (N d).
Qed.

Lemma first_rejected_rule_raises_witness :
  load_playbook (VDict stray_playbook) = Raise AttributeError.
Proof.
  refine (proj1 (first_rejected_rule_raises stray_playbook [keyword_rule]
                   (VStr "keyword_list") [VInt 3] _ AttributeError
                   _ eq_refl eq_refl eq_refl eq_refl eq_refl)).
  intros k I. simpl in I.
  destruct I as [<-|[<-|[<-|[]]]]; simpl; tauto.
Defined.

(** X29.  In a rule that [_parse_rule] returns, a key left out takes
    its default, and a key given as null does not always: without
    "enabled" the rule is enabled, with a null "enabled" it is
    disabled; without "priority" the priority is 100 and without
    "action" the action is "MASK", while no returned rule has a null
    "priority" or a null "action"; a missing or null "id" gives the
    identifier "None", and a missing or null "scope", "phrases" or
    "keywords" gives the empty list. *)
Theorem null_is_not_missing (entries : Dict.t value) (rule : Rule) :
  _parse_rule (VDict entries) = Ok rule ->
  (Dict.get entries "enabled" = None -> enabled rule = true)
  /\ (Dict.get entries "enabled" = Some VNone -> enabled rule = false)
  /\ (Dict.get entries "priority" = None -> priority rule = 100%Z)
  /\ Dict.get entries "priority" <> Some VNone
  /\ (Dict.get entries "action" = None -> action rule = "MASK")
  /\ Dict.get entries "action" <> Some VNone
  /\ (Dict.get entries "id" = None \/ Dict.get entries "id" = Some VNone ->
      rule_id rule = "None")
  /\ (Dict.get entries "scope" = None
      \/ Dict.get entries "scope" = Some VNone -> scope rule = [])
  /\ (Dict.get entries "phrases" = None
      \/ Dict.get entries "phrases" = Some VNone -> phrases rule = [])
  /\ (Dict.get entries "keywords" = None
      \/ Dict.get entries "keywords" = Some VNone -> keywords rule = []).
Proof.
  intros H. apply LoaderFacts.parse_rule_ok in H
    as (es & E & _ & _ & A & I & _ & _ & En & P & RA & _ & S & _ & Ph & _
        & Kw & _).
  injection E as <-. unfold get, Dict.get_default in *.
  repeat split.
  - intros G. now rewrite G in En.
  - intros G. now rewrite G in En.
  - intros G. rewrite G in P. cbn in P. now injection P.
  - intros G. rewrite G in P. discriminate P.
  - intros G. now rewrite G in RA.
  - intros G. rewrite G in A. discriminate A.
  - intros [G|G]; rewrite G in I; cbn in I; now injection I.
  - intros [G|G]; rewrite G in S; cbn in S; now injection S.
  - intros [G|G]; rewrite G in Ph; cbn in Ph; now injection Ph.
  - intros [G|G]; rewrite G in Kw; cbn in Kw; now injection Kw.
Qed.

Lemma null_is_not_missing_witness :
  exists rule,
    _parse_rule (VDict sparse_rule) = Ok rule
    /\ enabled rule = false /\ priority rule = 100%Z
    /\ rule_id rule = "None" /\ scope rule = [].
Proof.
  eexists. split; [reflexivity|].
  destruct (null_is_not_missing sparse_rule _ eq_refl)
    as (_ & E & P & _ & _ & _ & I & S & _).
  split; [apply E; reflexivity|]. split; [apply P; reflexivity|].
  split; [apply I; left; reflexivity | apply S; right; reflexivity].
Defined.

End LoaderProperties.
